(* ===== verification/_CoqProject ===== *)
-Q . S2P
Prelude.v
Codec.v
Bitset.v
BitsetHeap.v
PorcModel.v
Linked.v
Checker.v
SearchProof.v
LinSpec.v
CheckerCorrect.v
ParallelCorrect.v
Events.v
Locality.v
KvModel.v
PorcSpec.v
Visualize.v
Render.v
RenderProof.v
RenderData.v
RenderDraw.v
RenderSpec.v
RenderUI.v
RenderUIProof.v
RenderUISpec.v
Coordinator.v
CoordinatorProof.v
CoordinatorSpec.v
Worker.v
WorkerProof.v
MRApps.v
MapReduceSpec.v
MRTests.v
MRTestsSpec.v
Programs.v
MRSystem.v
MRSystemProof.v
MRSystemLocal.v
MRSystemServe.v
MRSystemLive.v
MRSystemSolo.v
MRSystemInv.v
MRSystemSpec.v
GoSlice.v
Raft.v
RaftGob.v
RaftOps.v
RaftVote.v
RaftPersist.v
RaftElection.v
RaftLog.v
RaftSpec.v
RaftReign.v
RaftShared.v
RaftReignInv.v
RaftReignSteps.v
RaftReignLive.v
RaftTakeover.v
Labgob.v
LabgobSpec.v
Labrpc.v
LabrpcSpec.v
Clerks.v
ClerkSpec.v
RaftRpc.v
RaftConfig.v
RaftWiring.v
RaftSystem.v
RaftChecks.v
RaftReignSpec.v
Servers.v
ServiceConfig.v
ServiceSpec.v
ShardkvConfig.v
ShardkvSpec.v
