(* ===== verification/Prelude.v ===== *)
(** * Verification of the MapReduce, Raft and linearizability-checking code

    The repository holds the programs of a distributed-systems course in Go:
    a MapReduce framework, a Raft peer with its persister, a checker for
    linearizable histories (porcupine) with a key-value model, a simulated
    network (labrpc) and a wrapper of encoding/gob (labgob) on which the
    services run, frames of three replicated services, and the testers that
    start, crash and disconnect the peers and servers on the simulated
    network.  This library translates them into Rocq functions and
    step systems and proves what makes them correct, or, where the code does
    not do what it means to do, states the behaviour it has.

    ** Files

    - [Prelude]: outcomes of Go code (a value, a run-time panic, or out of
      fuel), slices indexed by a Go int, [sort.Sort] and ranging over a map as
      interfaces with the standard library's promises and a merge sort that
      satisfies them, strings, shared lemmas, tactics and hints.
    - [Codec]: concrete serializers that instantiate the gob and JSON
      interfaces in the witnesses.
    - porcupine.  [Bitset]: porcupine/bitset.go, 64-bit words; [BitsetHeap]:
      the same operations on references to words.  [PorcModel]:
      porcupine/model.go.  [Linked]: the doubly linked list of
      porcupine/checker.go as a heap of nodes, with [lift] and [unlift].
      [Checker]: the rest of checker.go and porcupine.go.  [LinSpec]: the
      declarative definition of linearizability.  [SearchProof]: the
      invariant of the search, its measure and its relation to the
      specification.  [CheckerCorrect], [ParallelCorrect]: one partition, and
      the collection of the partitions' results.  [Events]: histories given
      as events.  [Locality]: partitions by key and the whole history.
      [KvModel]: models/kv.go.  [PorcSpec]: the theorems.
    - The page of porcupine.  [Visualize]: the data that
      porcupine/visualization.go computes, and its entry points.  [Render]:
      [render] of the page's script, which lays out and draws that data.
      [RenderProof]: the left-to-right scan and its linear program.
      [RenderData]: the data of a check satisfies what the scan needs.
      [RenderDraw]: what is drawn.  [RenderSpec]: the theorems.  [RenderUI]:
      the mouse handlers of the script; [RenderUIProof]: the screen that they
      refine; [RenderUISpec]: the theorem.
    - MapReduce.  [Coordinator]: mr/coordinator.go, rpc.go, utils.go, one
      function per handler and [assign_step] for the lock regions of
      AssignTask.  [CoordinatorProof]: the invariant, and when a call may
      give which answer.  [CoordinatorSpec]: the
      theorems on runs of interleaved requests.  [Worker]: mr/worker.go and
      main/mrsequential.go on a store of files.  [WorkerProof]: grouping,
      partitioning and sorting.  [MRApps]: the applications under mrapps/.
      [MapReduceSpec]: the theorems.  [MRTests], [MRTestsSpec]: the
      applications that count processes, on a host whose processes share a
      directory.  [Programs]: the [main] functions under main/ and what they
      use of strconv and plugin.
    - The MapReduce system.  [MRSystem]: the coordinator, any number of worker
      processes and the files that they share, with crashes, also in the
      middle of a write.  [MRSystemProof]: its invariant, kept by the workers'
      steps in [MRSystemLocal], by the calls in [MRSystemServe] and by all
      events in [MRSystemInv].  [MRSystemLive]: what holds without any
      assumption on who is declared dead; [MRSystemSolo]: the run of a new
      worker that finishes a job.  [MRSystemSpec]: the theorems.
    - Raft.  [GoSlice]: slices with capacity and the sharing of [append].
      [Raft]: persister.go, util.go, the data of raft.go, the election, and gob
      as a stream of values.  [RaftGob]:
      commands and a serializer for the witnesses.  [RaftOps]:
      the handlers and goroutines of raft.go, with the six calls each of
      [Encode] and [Decode].  [RaftVote]: the ballot of one
      peer.  [RaftPersist]: what a peer has saved, and its restart.
      [RaftElection]: a cluster with requests and replies in flight,
      crashes and restarts.  [RaftLog]: the log.  [RaftSpec]: the theorems.
    - Replication under one leader.  [RaftReign]: a cluster between two
      elections, with clients, the leader's goroutines, and requests and
      replies that are delayed, reordered or lost.  [RaftShared]: the part of
      a log that a follower shares with the leader, and what [AppendEntries]
      does to it.  [RaftReignInv], [RaftReignSteps]: the invariant of the
      cluster, and that every step succeeds and keeps it.  [RaftReignLive]:
      how the leader repairs logs, commits and lets the others apply.
      [RaftTakeover]: the state in which a leader takes over, and that first
      elections lead to it.  [RaftReignSpec]: the theorems, also on the tester.
    - labgob.  [Labgob]: labgob/labgob.go with types as a finite graph;
      [LabgobSpec]: the theorems.
    - labrpc.  [Labrpc]: labrpc/labrpc.go, a call as the steps of its
      goroutines; [LabrpcSpec]: the theorems.
    - [Clerks]: the clients in shardctrler/client.go and shardkv/client.go;
      [ClerkSpec]: the theorems.
    - Raft on the network.  [RaftRpc]: the handlers of [RaftOps] as the
      methods that [Labrpc] dispatches to, and what a call does to a peer.
    - The tester of Raft.  [RaftConfig]: raft/config.go, the network, the
      peers as objects and the tester's tables in one state.  [RaftWiring]:
      the invariant of that state and that every operation keeps it.
      [RaftSystem]: the steps of tester, network and peers together, and the
      theorems on all states of a test.  [RaftChecks]: what the checks of the
      tester establish.
    - The services and their testers.  [Servers]: server.go of kvraft,
      shardctrler and shardkv, kvraft/client.go and kvraft/common.go.  [ServiceConfig]:
      kvraft/config.go and shardctrler/config.go, one program for any kind of
      server.  [ServiceSpec]: the theorems, on the matrix of links.
      [ShardkvConfig], [ShardkvSpec]: shardkv/config.go and its theorems.

    ** How the code is represented

    State is a record with the fields of the Go struct, an operation is a
    function on it that returns an [outcome].  A handler that holds one lock
    is one function; a goroutine that releases its lock is cut there, and
    steps of different goroutines interleave freely.  Time enters as an
    argument or as the freedom to take a step.  Random numbers, map order,
    the growth of slices and the arrival order of results are arguments or
    interfaces, and the theorems hold for all of them.  Go's int is an
    unbounded integer, except where the code depends on the width: the words
    and hashes of the bitset, the hash of MapReduce keys, the bytes of worker
    numbers and the counters of the network.  Where the code shares objects
    through pointers, the model has a heap: the list of the checker, the
    peers that the network's servers and the tester refer to, and the
    persisters, of which the tester's state says whether a peer shares them.
    In the page's script the timestamps are integers in units of half a
    nanosecond, since equal ones are moved apart by halves; positions are
    rational numbers; and reading a property of [undefined], or an index out
    of range of an array that is used, is a failure.

    Code that is not in the repository is a parameter: encoding/gob (a stream
    gives the values back in the order in which they were written) and JSON
    (numbers that fit a byte arrive; nothing is assumed of those that do not),
    the comparison of states with [==] where a model has no [Equal] (states
    that Go can compare), reflect's description of types, the map and reduce
    functions of a job, the handlers behind a service, the plugin that a
    program loads, and the width of a text that the browser measures.

    ** What the theorems show

    - The checker terminates and decides linearizability: for one partition,
      for a model without partitions, for events and, by locality, for the
      key-value model on the whole history.  With a kill or a timeout its
      answers stay sound.  The bitsets implement sets that share nothing, a
      clone included.
    - The coordinator never panics for registered workers; every answer of
      AssignTask is the first task that no live machine holds at the moment it
      is given, reduce tasks only after the map phase was found complete; and
      completion is stable.  However coordinator and
      workers interleave, and with crashes in the map phase, a finished job
      has written the result of the sequential program, and nothing fails
      before.  Whatever happened, a job can still be finished.  The counting
      applications count what they mean to count.
    - Each Raft peer votes once per term, also across crashes, so at most one
      peer wins the votes of a term, and its term never decreases; a peer
      restarted after any run without a refused request has the term, vote,
      log and snapshot that it had; [AppendEntries] stores the entries, except
      in the case in which it reports success and stores nothing; the leader
      commits exactly what a majority has and applies it, or panics when a
      restart has left it behind its snapshot; a peer that applies sends
      entries in order.
    - Under one leader, from any logs without snapshots in which equal terms
      at an index mean equal logs up to it and what was applied is in the
      leader's log, with no request of an earlier leader under way, until the
      next campaign or restart: the peers never panic and agree on what they apply, only committed commands are
      applied, what is committed is stored by a majority as by the leader,
      every command can be applied by all peers, and the tester accepts the
      run.  The first election of a new cluster ends in a state in which such
      a run may begin.
    - A call on the simulated network executes its request at most once,
      returns the reply of that execution, fails when the server is gone and
      can always return; on a reliable network it returns the method's reply.
    - The controller's clerk returns the first reply of a leader, asking the
      servers in turn; the store's clerk returns only answers of the group in
      charge of the key's shard, and returns when controller and group answer.
    - labgob's search of the type graph terminates and reports every
      lower-case field once; its check of default values covers three levels.
    - Raft and the network compose: a message over a reliable network runs
      the handler of its name once on the peer, and the caller gets its
      reply.
    - In every state of a test of the Raft tester its tables are well formed,
      an end of the network is enabled exactly when it joins two connected
      servers, it leads to a server of the network exactly while the peer
      there runs, an instance that was replaced cannot reach the others, and its
      successor starts from what it had persisted.  The tester accepts what
      is applied exactly when the servers agree and apply in order, finds the
      leader of the newest term, and [one] returns agreed commands only.
    - The testers of the services link servers exactly within the groups of a
      partition, put the leader into a minority and restart servers from what
      they persisted.
    - The visualization never fails on the result of a check.  Its page is
      drawn with the smallest layout that has room for all texts and keeps
      the order of time and of the points; no mouse handler fails, and the
      page shows exactly the screen that the user's events lead to.
    - Deviations are theorems too: the empty history on which the checker
      waits forever, an instantaneous operation at the last timestamp that the
      page cannot draw, late completions that duplicate a map task, a crash in
      the reduce phase after which words are counted twice, workers
      declared dead for good, two leaders in one term, an acknowledged entry
      that is lost, or cut off by a delayed request after a restart, commands
      that are applied twice when the goroutines that apply overtake each
      other, commitment of entries of older terms, the index panic below a
      snapshot, also in a leader that was restarted with one, the panic on unexported fields, the sizes of groups
      with which a tester panics, the services without handlers that never
      answer.

    ** Fuel

    Loops that are not structural take fuel and return [NoFuel] without it.
    The search of the checker gets a bound computed from the number of
    operations and states visited, and its theorems prove that the bound
    suffices; [checkType] gets one more than the number of types, since each
    level marks a new one; [checkDefault] recurses to depth four; the reduce
    loops get one more than the number of pairs, since each turn consumes
    one; [one] gets 202 passes of at least 50 ms for its ten seconds and 102
    of 20 ms for the two seconds in it.  The endless loops of the clerks take a round per unit; their
    theorems say how many rounds suffice and when none do.

    ** Not modelled

    Of the page its style sheet and the creation of SVG nodes, and the
    rounding of numbers above 2^53 in the browser; encoding/json and
    encoding/gob themselves; the HTTP and Unix-socket transport of MapReduce;
    the random names and seeds of the testers, which are arguments, and the
    helpers that nothing calls; the packages diskv,
    lockservice, pbservice and viewservice, which programs under main/ import
    and which are not in the repository: the programs are modelled up to the
    calls that they make.  Elections and replication are two systems of the
    same peers, joined at the state in which a leader takes over: agreement
    across any number of leaders is not stated, since the deviations above
    refute it, and the runs under one leader take no snapshots. *)

From stdpp Require Export prelude gmap strings pretty list numbers sorting.
From Stdlib Require Export ZArith Lia.

#[global] Open Scope Z_scope.

(** ** Outcomes of Go code

    A Go function returns a value or stops the goroutine: an index out of
    range, a nil dereference, a failed type assertion and an explicit
    [panic] are run-time panics, and [log.Fatal] ends the process.  A loop
    that is translated with fuel may also run out of it ([NoFuel]), which is
    not a behaviour of the code: termination theorems exclude it. *)
Inductive panic : Set :=
  | IndexOutOfRange
  | NilDeref
  | TypeAssertion
  | DivByZero
  | Explicit
  | Fatal.

#[global] Instance panic_eq_dec : EqDecision panic.
Proof. solve_decision. Defined.

Inductive outcome (A : Type) : Type :=
  | Ret (a : A)
  | Panic (p : panic)
  | NoFuel.
Arguments Ret {A} a.
Arguments Panic {A} p.
Arguments NoFuel {A}.

#[global] Instance outcome_ret : MRet outcome := fun A => @Ret A.
#[global] Instance outcome_bind : MBind outcome := fun A B f m =>
  match m with
  | Ret a => f a
  | Panic p => Panic p
  | NoFuel => NoFuel
  end.
#[global] Instance outcome_fmap : FMap outcome := fun A B f m =>
  match m with
  | Ret a => Ret (f a)
  | Panic p => Panic p
  | NoFuel => NoFuel
  end.

(** A computation that returns. *)
Definition returns {A} (m : outcome A) : Prop := exists a, m = Ret a.

(** What every returned value satisfies, for a computation that returns. *)
Definition ensures {A} (m : outcome A) (P : A -> Prop) : Prop :=
  exists a, m = Ret a /\ P a.

Lemma ensures_ret {A} (a : A) (P : A -> Prop) : P a -> ensures (Ret a) P.
Proof. intros H. by exists a. Qed.

Lemma ensures_bind {A B} (m : outcome A) (f : A -> outcome B) P Q :
  ensures m P -> (forall a, P a -> ensures (f a) Q) -> ensures (m ≫= f) Q.
Proof. intros (a & -> & HP) Hf. by apply Hf. Qed.

Lemma ensures_mono {A} (m : outcome A) (P Q : A -> Prop) :
  ensures m P -> (forall a, P a -> Q a) -> ensures m Q.
Proof. intros (a & -> & HP) H. exists a. auto. Qed.

Lemma bind_ret_inv {A B} (m : outcome A) (f : A -> outcome B) b :
  (m ≫= f) = Ret b -> exists a, m = Ret a /\ f a = Ret b.
Proof. destruct m; cbn; [eauto | discriminate | discriminate]. Qed.

(** ** Slices and arrays indexed by a Go int *)

(** [l[i]]: a run-time panic outside [0, len l). *)
Definition idx {A} (l : list A) (i : Z) : outcome A :=
  if decide (0 <= i) then
    match l !! Z.to_nat i with
    | Some x => Ret x
    | None => Panic IndexOutOfRange
    end
  else Panic IndexOutOfRange.

(** [l[i] = x]: a run-time panic outside [0, len l). *)
Definition idx_set {A} (l : list A) (i : Z) (x : A) : outcome (list A) :=
  if decide (0 <= i < Z.of_nat (length l)) then Ret (<[Z.to_nat i := x]> l)
  else Panic IndexOutOfRange.

Lemma idx_lookup {A} (l : list A) (i : nat) x :
  l !! i = Some x -> idx l (Z.of_nat i) = Ret x.
Proof.
  intros H. unfold idx. rewrite decide_True by lia. by rewrite Nat2Z.id, H.
Qed.

Lemma idx_ret {A} (l : list A) (i : Z) x :
  idx l i = Ret x <-> 0 <= i /\ l !! Z.to_nat i = Some x.
Proof.
  unfold idx. case_decide; [|split; [done | lia]].
  destruct (l !! Z.to_nat i) eqn:E; split; intros Hx; [| | done | by destruct Hx].
  - injection Hx as ->. done.
  - destruct Hx as [_ [= ->]]. done.
Qed.

Lemma idx_in_range {A} (l : list A) (i : Z) :
  returns (idx l i) <-> 0 <= i < Z.of_nat (length l).
Proof.
  unfold returns. setoid_rewrite idx_ret. split.
  - intros (x & H0 & H%lookup_lt_Some). lia.
  - intros H. destruct (lookup_lt_is_Some_2 l (Z.to_nat i)) as [x Hx]; [lia|].
    exists x. split; [lia|done].
Qed.

Lemma idx_out_of_range {A} (l : list A) (i : Z) :
  ~ (0 <= i < Z.of_nat (length l)) -> idx l i = Panic IndexOutOfRange.
Proof.
  intros H. unfold idx. case_decide; [|done].
  rewrite lookup_ge_None_2 by lia. done.
Qed.

Lemma idx_set_ok {A} (l : list A) (i : Z) x :
  0 <= i < Z.of_nat (length l) -> idx_set l i x = Ret (<[Z.to_nat i := x]> l).
Proof. intros H. unfold idx_set. by rewrite decide_True. Qed.

Lemma lookup_insert_cases {A} (l : list A) i x j y :
  <[i := x]> l !! j = Some y -> (i = j /\ y = x) \/ l !! j = Some y.
Proof.
  destruct (decide (i = j)) as [->|Hne].
  - intros H. assert (j < length l)%nat as Hj by (apply lookup_lt_Some in H; by rewrite length_insert in H).
    rewrite list_lookup_insert_eq in H by done. injection H. auto.
  - rewrite list_lookup_insert_ne by done. auto.
Qed.

Lemma idx_set_ret {A} (l l' : list A) (i : Z) x :
  idx_set l i x = Ret l' ->
  0 <= i < Z.of_nat (length l) /\ l' = <[Z.to_nat i := x]> l.
Proof. unfold idx_set. case_decide; [by intros [= <-] | done]. Qed.

(** ** Loops *)

(** [for _, x := range l], with the variables that the body assigns. *)
Fixpoint for_each {A S : Type} (body : A -> S -> outcome S) (l : list A) (s : S) : outcome S :=
  match l with
  | [] => Ret s
  | x :: l => s ← body x s; for_each body l s
  end.

(** The values of [i] in [for i := 0; i < n; i++]. *)
Definition upto (n : nat) : list Z := Z.of_nat <$> seq 0 n.

Lemma elem_of_upto n i : i ∈ upto n <-> 0 <= i < Z.of_nat n.
Proof.
  unfold upto. rewrite list_elem_of_fmap. setoid_rewrite elem_of_seq. split.
  - intros (k & -> & Hk). lia.
  - intros Hi. exists (Z.to_nat i). lia.
Qed.

Lemma upto_S n : upto (S n) = upto n ++ [Z.of_nat n].
Proof. unfold upto. by rewrite seq_S, fmap_app. Qed.

Lemma length_upto n : length (upto n) = n.
Proof. unfold upto. by rewrite length_fmap, length_seq. Qed.

Lemma NoDup_upto n : NoDup (upto n).
Proof. unfold upto. apply NoDup_fmap; [apply _|]. apply NoDup_seq. Qed.

Lemma for_each_app {A S : Type} (body : A -> S -> outcome S) l k s :
  for_each body (l ++ k) s = (s ← for_each body l s; for_each body k s).
Proof. revert s. induction l as [|x l IH]; intros s; cbn; [done|]. destruct (body x s); cbn; [apply IH|done|done]. Qed.

(** A loop whose body returns from every state that satisfies an invariant. *)
Lemma for_each_ensures {A S : Type} (body : A -> S -> outcome S) (I : list A -> S -> Prop) l s :
  (forall pre x post s, l = pre ++ x :: post -> I pre s -> ensures (body x s) (I (pre ++ [x]))) ->
  I [] s -> ensures (for_each body l s) (I l).
Proof.
  intros Hb. enough (forall k pre s, l = pre ++ k -> I pre s -> ensures (for_each body k s) (I l)) as Hk.
  { by apply (Hk l []). }
  induction k as [|x k IH]; intros pre s' Hl HI; cbn [for_each].
  - rewrite app_nil_r in Hl. subst. by apply ensures_ret.
  - eapply ensures_bind; [by apply (Hb pre x k)|]. cbn. intros s1 Hs1.
    apply (IH (pre ++ [x])); [by rewrite <- app_assoc|done].
Qed.

(** A loop that returned has kept what its body keeps. *)
Lemma for_each_preserves {A S : Type} (body : A -> S -> outcome S) (I : list A -> S -> Prop) l s s' :
  (forall pre x post s s', l = pre ++ x :: post -> I pre s -> body x s = Ret s' -> I (pre ++ [x]) s') ->
  I [] s -> for_each body l s = Ret s' -> I l s'.
Proof.
  intros Hb. enough (forall k pre s, l = pre ++ k -> I pre s -> for_each body k s = Ret s' -> I l s') as Hk.
  { by apply (Hk l []). }
  induction k as [|x k IH]; intros pre s0 Hl HI; cbn [for_each].
  - rewrite app_nil_r in Hl. subst. by intros [= <-].
  - intros (s1 & H1 & H2)%bind_ret_inv. eapply (IH (pre ++ [x])); [by rewrite <- app_assoc| |exact H2].
    by eapply (Hb pre x k).
Qed.

(** Counting over two intervals that agree pointwise. *)
Lemma length_filter_seq (P Q : nat -> Prop) (HP : forall i, Decision (P i)) (HQ : forall i, Decision (Q i)) n m k :
  (forall i, (i < k)%nat -> P (n + i)%nat <-> Q (m + i)%nat) ->
  length (filter P (seq n k)) = length (filter Q (seq m k)).
Proof.
  revert n m. induction k as [|k IH]; intros n m H; [done|]. cbn [seq].
  rewrite !filter_cons. specialize (IH (S n) (S m)).
  assert (length (filter P (seq (S n) k)) = length (filter Q (seq (S m) k))) as E.
  { apply IH. intros i Hi. rewrite !Nat.add_succ_comm. apply H. lia. }
  specialize (H 0%nat ltac:(lia)). rewrite !Nat.add_0_r in H.
  repeat case_decide; cbn; [by rewrite E | tauto | tauto | done].
Qed.

Lemma list_filter_fmap {A B} (f : A -> B) (P : B -> Prop) (HP : forall y, Decision (P y)) (l : list A) :
  filter P (f <$> l) = f <$> filter (fun x => P (f x)) l.
Proof.
  induction l as [|x l IH]; [done|]. rewrite fmap_cons, !filter_cons.
  case_decide; cbn; by rewrite IH.
Qed.

Lemma list_filter_all {A} (P : A -> Prop) (HP : forall y, Decision (P y)) (l : list A) :
  Forall P l -> filter P l = l.
Proof.
  induction 1 as [|x l Hx _ IH]; [done|]. by rewrite filter_cons, decide_True, IH.
Qed.

Lemma list_filter_none {A} (P : A -> Prop) (HP : forall y, Decision (P y)) (l : list A) :
  Forall (fun x => ~ P x) l -> filter P l = [].
Proof.
  induction 1 as [|x l Hx _ IH]; [done|]. by rewrite filter_cons, decide_False, IH.
Qed.

Lemma list_filter_ext {A} (P Q : A -> Prop) (HP : forall y, Decision (P y))
    (HQ : forall y, Decision (Q y)) (l : list A) :
  (forall x, x ∈ l -> P x <-> Q x) -> filter P l = filter Q l.
Proof.
  induction l as [|x l IH]; intros H; [done|]. rewrite !filter_cons.
  rewrite IH by set_solver. specialize (H x ltac:(set_solver)).
  repeat case_decide; tauto.
Qed.

(** A list without duplicates splits in one way around an element. *)
Lemma split_unique {A} (x : A) (l1 l2 k1 k2 : list A) :
  NoDup (l1 ++ x :: l2) -> l1 ++ x :: l2 = k1 ++ x :: k2 -> l1 = k1 /\ l2 = k2.
Proof.
  revert k1. induction l1 as [|y l1 IH]; intros [|z k1]; cbn; intros Hnd Heq.
  - by injection Heq.
  - injection Heq as -> ->. apply NoDup_cons in Hnd as [Hx _]. set_solver.
  - injection Heq as -> <-. apply NoDup_cons in Hnd as [Hx _]. set_solver.
  - injection Heq as -> Heq. apply NoDup_cons in Hnd as [_ Hnd].
    destruct (IH k1 Hnd Heq) as [-> ->]. done.
Qed.

(** Lists with the same elements per key are permutations of each other. *)
Lemma perm_by_key {A K} `{!EqDecision K} (g : A -> K) (l l' : list A) :
  (forall k, filter (fun x => g x = k) l ≡ₚ filter (fun x => g x = k) l') -> l ≡ₚ l'.
Proof.
  revert l'. induction l as [|x l IH]; intros l' Hk.
  - destruct l' as [|y l']; [done|]. specialize (Hk (g y)).
    rewrite filter_nil, filter_cons, decide_True in Hk by done. by apply Permutation_nil_cons in Hk.
  - assert (x ∈ l') as Hx.
    { specialize (Hk (g x)). rewrite filter_cons, decide_True in Hk by done.
      assert (x ∈ filter (fun y => g y = g x) l') as [_ ?]%list_elem_of_filter; [|done].
      rewrite <- Hk. by left. }
    apply list_elem_of_split in Hx as (l1 & l2 & ->). rewrite <- Permutation_middle. constructor.
    apply IH. intros k. specialize (Hk k). rewrite <- Permutation_middle in Hk.
    rewrite !filter_cons in Hk. case_decide; [by apply Permutation_cons_inv in Hk|done].
Qed.

Lemma NoDup_sub {A} (l k : list A) : NoDup k -> l ⊆+ k -> NoDup l.
Proof.
  intros Hnd [k' Hp]%submseteq_Permutation. rewrite Hp in Hnd. by apply NoDup_app in Hnd as [? _].
Qed.

Create HintDb golib.
Create Rewrite HintDb golib.
#[export] Hint Resolve ensures_ret : golib.
#[export] Hint Rewrite @length_insert @length_app @length_replicate : golib.

(** Case analysis on the innermost scrutinee of the goal or a hypothesis. *)
Ltac case_scrut :=
  match goal with
  | |- context [match ?x with _ => _ end] => destruct x eqn:?
  | H : context [match ?x with _ => _ end] |- _ => destruct x eqn:?
  end.

(** Inverts a chain of binds that returned. *)
Ltac inv_ret :=
  repeat match goal with
  | H : (_ ≫= _) = Ret _ |- _ => apply bind_ret_inv in H as (? & ? & ?)
  | H : Ret _ = Ret _ |- _ => injection H as H; try subst
  | H : Panic _ = Ret _ |- _ => discriminate H
  | H : NoFuel = Ret _ |- _ => discriminate H
  end.

(** ** [sort.Sort] and [sort.Strings]

    The standard library promises a permutation of the input in which no
    element is less than one before it; the order of elements that are not
    less than each other is not specified.  Clients are proved against this
    interface; [merge_sort] discharges it for any strict weak order. *)
Class GoSort {A : Type} (less : A -> A -> bool) := {
  go_sort : list A -> list A;
  go_sort_perm : forall l, go_sort l ≡ₚ l;
  go_sort_sorted : forall l,
    StronglySorted (fun x y => less y x = false) (go_sort l);
}.
Arguments go_sort {A} less {_} l.
Arguments go_sort_perm {A} less {_} l.
Arguments go_sort_sorted {A} less {_} l.

(** A comparison for which "not greater" is a total preorder. *)
Class WeakOrder {A : Type} (less : A -> A -> bool) := {
  weak_order_total : forall x y, less x y = false \/ less y x = false;
  weak_order_trans : forall x y z,
    less y x = false -> less z y = false -> less z x = false;
}.

(** Ranging over a Go map visits its keys in an unspecified order. *)
Class RangeOrder (A : Type) := {
  range_order : list A -> list A;
  range_order_perm : forall l, range_order l ≡ₚ l;
}.

#[export] Program Instance range_in_order A : RangeOrder A | 100 := {| range_order l := l |}.
Next Obligation. done. Qed.

Section merge_sort.
Context {A : Type} (less : A -> A -> bool) `{!WeakOrder less}.

Definition not_greater : relation A := fun x y => less y x = false.

#[local] Instance not_greater_dec x y : Decision (not_greater x y).
Proof. unfold not_greater. apply _. Defined.

#[local] Instance not_greater_total : Total not_greater.
Proof. intros x y. unfold not_greater. destruct (weak_order_total x y); auto. Qed.

#[local] Instance not_greater_trans : Transitive not_greater.
Proof. intros x y z. apply weak_order_trans. Qed.

#[export] Program Instance merge_go_sort : GoSort less :=
  {| go_sort := merge_sort not_greater |}.
Next Obligation. intros l. apply merge_sort_Permutation. Qed.
Next Obligation. intros l. apply (StronglySorted_merge_sort not_greater). Qed.
End merge_sort.

(** ** Strings

    [a < b] on Go strings is the lexical order of their bytes. *)
Fixpoint str_less (a b : string) : bool :=
  match a, b with
  | _, EmptyString => false
  | EmptyString, String _ _ => true
  | String c a, String d b =>
      if Ascii.eqb c d then str_less a b else (Ascii.N_of_ascii c <? Ascii.N_of_ascii d)%N
  end.

Lemma N_of_ascii_inj c d : Ascii.N_of_ascii c = Ascii.N_of_ascii d -> c = d.
Proof. intros H. by rewrite <- (Ascii.ascii_N_embedding c), H, Ascii.ascii_N_embedding. Qed.

Lemma str_less_irrefl a : str_less a a = false.
Proof. induction a as [|c a IH]; [done|]. cbn. by rewrite Ascii.eqb_refl. Qed.

Lemma str_less_antisym a b : str_less a b = false -> str_less b a = false -> a = b.
Proof.
  revert b. induction a as [|c a IH]; intros [|d b]; cbn; [done..|].
  destruct (Ascii.eqb_spec c d) as [->|Hne].
  - rewrite Ascii.eqb_refl. intros ? ?. f_equal. by apply IH.
  - destruct (Ascii.eqb_spec d c) as [->|_]; [done|]. intros H1%N.ltb_ge H2%N.ltb_ge.
    destruct Hne. apply N_of_ascii_inj. lia.
Qed.

#[export] Instance str_less_weak_order : WeakOrder str_less.
Proof.
  split.
  - induction x as [|c x IH]; intros [|d y]; cbn; auto.
    rewrite (Ascii.eqb_sym d c). destruct (Ascii.eqb_spec c d); [auto|].
    destruct (N.ltb_spec (Ascii.N_of_ascii c) (Ascii.N_of_ascii d)); [right|by left].
    apply N.ltb_ge. lia.
  - induction x as [|c x IH]; intros [|d y] [|e z]; cbn; try done.
    destruct (Ascii.eqb_spec d c) as [->|Hdc], (Ascii.eqb_spec e c) as [->|Hec].
    + apply IH.
    + done.
    + destruct (Ascii.eqb_spec c d) as [->|_]; [done|]. rewrite !N.ltb_ge.
      intros H1 H2. destruct Hdc. apply N_of_ascii_inj. lia.
    + destruct (Ascii.eqb_spec e d) as [->|_]; [done|]. rewrite !N.ltb_ge. lia.
Qed.
