(* ===== verification/Codec.v ===== *)
(** * Concrete codecs

    The serialization libraries are interfaces of the model.  A countable
    type is written as the bits of its code, which gives concrete instances
    on which the theorems can be evaluated. *)

From Stdlib Require Import Ascii.
From S2P Require Import Prelude.

Fixpoint pos_str (p : positive) : string :=
  match p with
  | xH => EmptyString
  | xO p => String "0"%char (pos_str p)
  | xI p => String "1"%char (pos_str p)
  end.

Fixpoint str_pos (s : string) : positive :=
  match s with
  | EmptyString => xH
  | String c s => if Ascii.eqb c "1"%char then xI (str_pos s) else xO (str_pos s)
  end.

Lemma str_pos_str p : str_pos (pos_str p) = p.
Proof. induction p as [p IH|p IH|]; cbn; by rewrite ?IH. Qed.

Definition put {A} `{Countable A} (a : A) : string := String ":"%char (pos_str (encode a)).

Definition get_bits {A} `{Countable A} (s : string) : option A :=
  match s with EmptyString => None | String _ s => decode (str_pos s) end.

Lemma get_put {A} `{Countable A} (a : A) : get_bits (put a) = Some a.
Proof. unfold get_bits, put. by rewrite str_pos_str, decode_encode. Qed.

Lemma put_nonempty {A} `{Countable A} (a : A) : put a <> EmptyString.
Proof. done. Qed.
