(* ===== verification/Bitset.v ===== *)
(** * Bitsets of the linearizability checker (src/src/porcupine/bitset.go)

    A [bitset] is a slice of [uint64] words: bit [pos] is bit [pos % 64] of
    word [pos / 64].  Words are integers in [0, 2^64).  The operations are first
    functions on the words, where an in-place update returns the new words; then
    operations on a heap of references, where [set] and [clear] change the words
    of their reference and [clone] allocates.  The calls on the heap are proved
    to implement finite sets that do not share anything, which is why the search
    of the checker may treat a bitset as a value.  A position outside the words
    is an index out of range. *)

From S2P Require Import Prelude.

Abbreviation bitset := (list Z).

Definition word_bits : Z := 64.
Definition wrap64 (w : Z) : Z := w mod 2 ^ word_bits.

(** [chunks := bits/64 + extra] zero words. *)
Definition newBitset (bits : Z) : bitset :=
  let extra := if bits mod word_bits =? 0 then 0 else 1 in
  let chunks := bits / word_bits + extra in
  replicate (Z.to_nat chunks) 0.

(** [copy(dst, src)] overwrites the common prefix of [dst]. *)
Definition go_copy {A} (dst src : list A) : list A :=
  take (length dst) src ++ drop (length src) dst.

Definition clone (b : bitset) : bitset := go_copy (replicate (length b) 0) b.

Definition bitsetIndex (pos : Z) : Z * Z := (pos / word_bits, pos mod word_bits).

Definition set (b : bitset) (pos : Z) : outcome bitset :=
  let '(major, minor) := bitsetIndex pos in
  w ← idx b major;
  idx_set b major (Z.lor w (wrap64 (Z.shiftl 1 minor))).

Definition clear (b : bitset) (pos : Z) : outcome bitset :=
  let '(major, minor) := bitsetIndex pos in
  w ← idx b major;
  idx_set b major (Z.ldiff w (wrap64 (Z.shiftl 1 minor))).

Definition get (b : bitset) (pos : Z) : outcome bool :=
  let '(major, minor) := bitsetIndex pos in
  w ← idx b major;
  Ret (negb (Z.land w (wrap64 (Z.shiftl 1 minor)) =? 0)).

(** [bits.OnesCount64]. *)
Definition OnesCount64 (w : Z) : Z :=
  Z.of_nat (length (filter (fun i => Z.testbit w (Z.of_nat i) = true) (seq 0 64))).

Fixpoint popcnt_loop (b : list Z) (total : Z) : Z :=
  match b with
  | [] => total
  | v :: b => popcnt_loop b (total + OnesCount64 v)
  end.

Definition popcnt (b : bitset) : Z := popcnt_loop b 0.

Fixpoint hash_loop (b : list Z) (h : Z) : Z :=
  match b with
  | [] => h
  | v :: b => hash_loop b (Z.lxor h v)
  end.

Definition hash (b : bitset) : Z := hash_loop b (wrap64 (popcnt b)).

Fixpoint equals_loop (b b2 : list Z) : bool :=
  match b, b2 with
  | v :: b, v2 :: b2 => if negb (v =? v2) then false else equals_loop b b2
  | _, _ => true
  end.

Definition equals (b b2 : bitset) : bool :=
  if negb (Nat.eqb (length b) (length b2)) then false else equals_loop b b2.

(** ** Well-formed bitsets and their meaning *)

Definition word_ok (w : Z) : Prop := 0 <= w < 2 ^ word_bits.
Definition bitset_ok (b : bitset) : Prop := Forall word_ok b.

(** Number of positions a bitset can hold. *)
Definition capacity (b : bitset) : Z := word_bits * Z.of_nat (length b).

(** The bit at a position, false outside the words. *)
Definition bit (b : bitset) (pos : Z) : bool :=
  Z.testbit (default 0 (b !! Z.to_nat (pos / word_bits))) (pos mod word_bits).

(** The set of positions a bitset denotes. *)
Definition positions (b : bitset) : gset Z :=
  list_to_set (filter (fun p => bit b p = true) (Z.of_nat <$> seq 0 (64 * length b))).

#[global] Arguments positions : simpl never.
#[global] Arguments set : simpl never.
#[global] Arguments clear : simpl never.
#[global] Arguments get : simpl never.
#[global] Arguments hash : simpl never.
#[global] Arguments newBitset : simpl never.
#[global] Arguments capacity : simpl never.

(** ** Helper lemmas *)

Lemma wrap64_shiftl_1 m : 0 <= m < word_bits -> wrap64 (Z.shiftl 1 m) = 2 ^ m.
Proof.
  intros H. unfold wrap64, word_bits in *. rewrite Z.shiftl_1_l.
  apply Z.mod_small. split; [lia|]. apply Z.pow_lt_mono_r; lia.
Qed.

Lemma major_range b pos :
  0 <= pos < capacity b -> 0 <= pos / word_bits < Z.of_nat (length b).
Proof.
  unfold capacity, word_bits. intros H. split; [apply Z.div_pos; lia|].
  apply Z.div_lt_upper_bound; lia.
Qed.

Lemma minor_range pos : 0 <= pos mod word_bits < word_bits.
Proof. apply Z.mod_pos_bound. done. Qed.

Lemma idx_major b pos :
  0 <= pos < capacity b ->
  idx b (pos / word_bits) = Ret (default 0 (b !! Z.to_nat (pos / word_bits))).
Proof.
  intros H%major_range. destruct (idx_in_range b (pos / word_bits)) as [_ [w Hw]]; [done|].
  rewrite Hw. apply idx_ret in Hw as [_ ->]. done.
Qed.

Lemma get_bit b pos : 0 <= pos < capacity b -> get b pos = Ret (bit b pos).
Proof.
  intros H. unfold get, bitsetIndex. rewrite idx_major by done. cbn.
  pose proof (minor_range pos). rewrite wrap64_shiftl_1 by done. unfold bit.
  f_equal. set (w := default 0 _). set (m := pos mod word_bits) in *.
  destruct (Z.testbit w m) eqn:E.
  - apply negb_true_iff, Z.eqb_neq. intros Hz.
    apply (f_equal (fun z => Z.testbit z m)) in Hz.
    rewrite Z.land_spec, E, Z.pow2_bits_true, Z.bits_0 in Hz by lia. done.
  - apply negb_false_iff, Z.eqb_eq. apply Z.bits_inj'. intros n Hn.
    rewrite Z.land_spec, Z.bits_0, Z.pow2_bits_eqb by lia.
    destruct (Z.eqb_spec m n); [subst; by rewrite E | by rewrite andb_false_r].
Qed.

Lemma set_ret b pos :
  0 <= pos < capacity b ->
  set b pos = Ret (<[Z.to_nat (pos / word_bits) :=
    Z.lor (default 0 (b !! Z.to_nat (pos / word_bits))) (2 ^ (pos mod word_bits))]> b).
Proof.
  intros H. unfold set, bitsetIndex. rewrite idx_major by done. cbn.
  rewrite wrap64_shiftl_1 by apply minor_range.
  by rewrite idx_set_ok by by apply major_range.
Qed.

Lemma clear_ret b pos :
  0 <= pos < capacity b ->
  clear b pos = Ret (<[Z.to_nat (pos / word_bits) :=
    Z.ldiff (default 0 (b !! Z.to_nat (pos / word_bits))) (2 ^ (pos mod word_bits))]> b).
Proof.
  intros H. unfold clear, bitsetIndex. rewrite idx_major by done. cbn.
  rewrite wrap64_shiftl_1 by apply minor_range.
  by rewrite idx_set_ok by by apply major_range.
Qed.

(** Two positions are the same when they have the same word and offset. *)
Lemma pos_split_eq p q :
  p / word_bits = q / word_bits -> p mod word_bits = q mod word_bits -> p = q.
Proof.
  intros Hd Hm. rewrite (Z.div_mod p word_bits), (Z.div_mod q word_bits) by done.
  by rewrite Hd, Hm.
Qed.

(** The bits of a bitset in which one word is replaced. *)
Lemma bit_insert b pos f q :
  0 <= pos < capacity b -> 0 <= q ->
  bit (<[Z.to_nat (pos / word_bits) := f]> b) q =
  if decide (q / word_bits = pos / word_bits) then Z.testbit f (q mod word_bits) else bit b q.
Proof.
  intros Hp Hq. pose proof (major_range _ _ Hp). unfold bit.
  assert (0 <= q / word_bits) by (apply Z.div_pos; [lia | done]).
  case_decide as E.
  - rewrite E. rewrite list_lookup_insert_eq by lia. done.
  - rewrite list_lookup_insert_ne by lia. done.
Qed.

Lemma bit_set b pos q b' :
  0 <= pos < capacity b -> 0 <= q -> set b pos = Ret b' ->
  bit b' q = bool_decide (q = pos) || bit b q.
Proof.
  intros Hp Hq Hs. rewrite set_ret in Hs by done. injection Hs as <-.
  rewrite bit_insert by done. pose proof (minor_range pos). pose proof (minor_range q).
  case_decide as E.
  - rewrite Z.lor_spec, Z.pow2_bits_eqb by lia. unfold bit. rewrite E.
    rewrite orb_comm. f_equal. apply eq_bool_prop_intro.
    rewrite bool_decide_spec, Is_true_true, Z.eqb_eq.
    split; [intros; by apply pos_split_eq | by intros ->].
  - rewrite bool_decide_false by by intros ->. done.
Qed.

Lemma bit_clear b pos q b' :
  0 <= pos < capacity b -> 0 <= q -> clear b pos = Ret b' ->
  bit b' q = negb (bool_decide (q = pos)) && bit b q.
Proof.
  intros Hp Hq Hs. rewrite clear_ret in Hs by done. injection Hs as <-.
  rewrite bit_insert by done. pose proof (minor_range pos). pose proof (minor_range q).
  case_decide as E.
  - rewrite Z.ldiff_spec, Z.pow2_bits_eqb by lia. unfold bit. rewrite E.
    rewrite andb_comm. f_equal. f_equal. apply eq_bool_prop_intro.
    rewrite bool_decide_spec, Is_true_true, Z.eqb_eq.
    split; [intros; by apply pos_split_eq | by intros ->].
  - rewrite bool_decide_false by by intros ->. done.
Qed.

Lemma length_set b pos b' : set b pos = Ret b' -> length b' = length b.
Proof.
  unfold set, bitsetIndex. intros H. inv_ret.
  apply idx_set_ret in H0 as [_ ->]. by rewrite length_insert.
Qed.

Lemma length_clear b pos b' : clear b pos = Ret b' -> length b' = length b.
Proof.
  unfold clear, bitsetIndex. intros H. inv_ret.
  apply idx_set_ret in H0 as [_ ->]. by rewrite length_insert.
Qed.

Lemma word_ok_lor w m : word_ok w -> 0 <= m < word_bits -> word_ok (Z.lor w (2 ^ m)).
Proof.
  unfold word_ok. intros [H0 H1] Hm. split; [apply Z.lor_nonneg; lia|].
  destruct (Z.eq_dec (Z.lor w (2 ^ m)) 0) as [->|Hne]; [done|].
  assert (0 <= Z.lor w (2 ^ m)) by (apply Z.lor_nonneg; lia).
  apply Z.log2_lt_pow2; [lia|]. rewrite Z.log2_lor, Z.log2_pow2 by lia.
  apply Z.max_lub_lt; [|lia]. destruct (Z.eq_dec w 0) as [->|]; [done|].
  apply Z.log2_lt_pow2; lia.
Qed.

Lemma word_ok_ldiff w m : word_ok w -> word_ok (Z.ldiff w m).
Proof.
  unfold word_ok. intros [H0 H1]. assert (0 <= Z.ldiff w m) by (apply Z.ldiff_nonneg; lia).
  split; [done|]. apply Z.le_lt_trans with w; [|done].
  apply Z.ldiff_le; [done|]. apply Z.bits_inj'. intros n Hn.
  rewrite Z.ldiff_spec, Z.ldiff_spec, Z.bits_0.
  destruct (Z.testbit w n), (Z.testbit m n); done.
Qed.

Lemma word_ok_lxor v w : word_ok v -> word_ok w -> word_ok (Z.lxor v w).
Proof.
  unfold word_ok. intros [H0 H1] [H2 H3].
  assert (0 <= Z.lxor v w) by (apply Z.lxor_nonneg; tauto).
  split; [done|]. destruct (Z.eq_dec (Z.lxor v w) 0) as [->|]; [done|].
  apply Z.log2_lt_pow2; [lia|]. apply Z.le_lt_trans with (Z.max (Z.log2 v) (Z.log2 w)).
  - apply Z.log2_lxor; done.
  - apply Z.max_lub_lt; [destruct (Z.eq_dec v 0) as [->|] | destruct (Z.eq_dec w 0) as [->|]];
      try done; apply Z.log2_lt_pow2; lia.
Qed.

Lemma default_word_ok b i : bitset_ok b -> word_ok (default 0 (b !! i)).
Proof.
  intros H. destruct (b !! i) eqn:E; [by eapply Forall_lookup_1 in E|].
  split; [done | apply Z.pow_pos_nonneg; done].
Qed.

Lemma newBitset_ok n : bitset_ok (newBitset n).
Proof. apply Forall_replicate. split; [done | apply Z.pow_pos_nonneg; done]. Qed.

Lemma set_ok b pos b' : bitset_ok b -> set b pos = Ret b' -> bitset_ok b'.
Proof.
  intros Hb H. unfold set, bitsetIndex in H. inv_ret. rename select (idx _ _ = _) into Hi.
  apply idx_ret in Hi as [_ Hi]. apply idx_set_ret in H0 as [_ ->].
  apply Forall_insert; [done|]. rewrite wrap64_shiftl_1 by apply minor_range.
  apply word_ok_lor; [by eapply Forall_lookup_1 in Hi | apply minor_range].
Qed.

Lemma clear_ok b pos b' : bitset_ok b -> clear b pos = Ret b' -> bitset_ok b'.
Proof.
  intros Hb H. unfold clear, bitsetIndex in H. inv_ret. rename select (idx _ _ = _) into Hi.
  apply idx_ret in Hi as [_ Hi]. apply idx_set_ret in H0 as [_ ->].
  apply Forall_insert; [done|]. apply word_ok_ldiff. by eapply Forall_lookup_1 in Hi.
Qed.

Lemma clone_eq b : clone b = b.
Proof.
  unfold clone, go_copy. rewrite length_replicate, take_ge by lia.
  rewrite drop_ge, app_nil_r; [done|]. by rewrite length_replicate.
Qed.

Lemma capacity_newBitset n : 0 <= n -> n <= capacity (newBitset n).
Proof.
  intros H. unfold capacity, newBitset, word_bits. rewrite length_replicate.
  pose proof (Z.div_mod n 64 ltac:(lia)). pose proof (Z.mod_pos_bound n 64 ltac:(lia)).
  assert (0 <= n / 64) by (apply Z.div_pos; lia).
  destruct (Z.eqb_spec (n mod 64) 0); lia.
Qed.

Lemma bit_newBitset n q : bit (newBitset n) q = false.
Proof.
  unfold bit, newBitset. destruct (_ !! _) eqn:E; cbn; [|apply Z.bits_0].
  apply lookup_replicate in E as [-> _]. apply Z.bits_0.
Qed.

Lemma capacity_set b pos b' : set b pos = Ret b' -> capacity b' = capacity b.
Proof. intros H%length_set. unfold capacity. by rewrite H. Qed.

Lemma capacity_clear b pos b' : clear b pos = Ret b' -> capacity b' = capacity b.
Proof. intros H%length_clear. unfold capacity. by rewrite H. Qed.

Lemma equals_true b b2 : equals b b2 = true <-> b = b2.
Proof.
  unfold equals. split.
  - destruct (Nat.eqb_spec (length b) (length b2)) as [E|]; [|done]. cbn.
    revert b2 E. induction b as [|v b IH]; intros [|v2 b2] E; try done. cbn.
    destruct (Z.eqb_spec v v2); [|done]. cbn. intros ?. subst. f_equal. apply IH; [|done].
    cbn in E. lia.
  - intros <-. rewrite Nat.eqb_refl. cbn. induction b as [|v b IH]; [done|]. cbn.
    by rewrite Z.eqb_refl.
Qed.

(** Well-formed bitsets of one length are determined by their bits. *)
Lemma bitset_ext b b2 :
  bitset_ok b -> bitset_ok b2 -> length b = length b2 ->
  (forall p, 0 <= p < capacity b -> bit b p = bit b2 p) -> b = b2.
Proof.
  intros Hb Hb2 Hlen Hbits. apply list_eq_same_length with (length b); [done|done|].
  intros i x y Hi Hx Hy. apply Z.bits_inj'. intros n Hn.
  pose proof (Forall_lookup_1 _ _ _ _ Hb Hx) as [Hx0 Hx1].
  pose proof (Forall_lookup_1 _ _ _ _ Hb2 Hy) as [Hy0 Hy1].
  destruct (decide (n < word_bits)).
  - specialize (Hbits (word_bits * Z.of_nat i + n)). unfold capacity, bit, word_bits in *.
    assert ((64 * Z.of_nat i + n) / 64 = Z.of_nat i) as E1.
    { rewrite Z.mul_comm, Z.div_add_l, Z.div_small by lia. lia. }
    assert ((64 * Z.of_nat i + n) mod 64 = n) as E2.
    { rewrite Z.mul_comm, Z.add_comm, Z.mod_add, Z.mod_small by lia. lia. }
    rewrite E1, E2, Nat2Z.id, Hx, Hy in Hbits. apply Hbits. lia.
  - assert (forall z, 0 <= z < 2 ^ word_bits -> Z.testbit z n = false) as Hhigh.
    { intros z Hz. destruct (Z.eq_dec z 0) as [->|]; [apply Z.bits_0|].
      apply Z.bits_above_log2; [lia|].
      apply Z.lt_le_trans with word_bits; [apply Z.log2_lt_pow2; lia | lia]. }
    rewrite !Hhigh; done.
Qed.

Lemma hash_loop_ok b h : bitset_ok b -> word_ok h -> word_ok (hash_loop b h).
Proof.
  intros Hb. revert h. induction Hb; intros h Hh; cbn; [done|].
  apply IHHb. by apply word_ok_lxor.
Qed.

Lemma hash_ok b : bitset_ok b -> word_ok (hash b).
Proof.
  intros Hb. apply hash_loop_ok; [done|]. unfold wrap64, word_ok.
  apply Z.mod_pos_bound. apply Z.pow_pos_nonneg; done.
Qed.

(** ** Refinement: a bitset implements a finite set of positions *)

Lemma elem_of_positions b p :
  p ∈ positions b <-> 0 <= p < capacity b /\ bit b p = true.
Proof.
  unfold positions, capacity, word_bits.
  rewrite elem_of_list_to_set, list_elem_of_filter, list_elem_of_fmap.
  setoid_rewrite elem_of_seq. split.
  - intros [Hb (i & -> & Hi)]. split; [lia|done].
  - intros [Hp Hb]. split; [done|]. exists (Z.to_nat p). lia.
Qed.

Lemma positions_set b pos b' :
  0 <= pos < capacity b -> set b pos = Ret b' -> positions b' = {[pos]} ∪ positions b.
Proof.
  intros Hp Hs. apply set_eq. intros q.
  rewrite elem_of_union, elem_of_singleton, !elem_of_positions.
  rewrite (capacity_set _ _ _ Hs). split.
  - intros [Hq Hb]. rewrite (bit_set _ _ _ _ Hp (proj1 Hq) Hs) in Hb.
    apply orb_true_iff in Hb as [Hb|Hb]; [left; by apply bool_decide_eq_true in Hb | by right].
  - intros [->|[Hq Hb]].
    + split; [done|]. rewrite (bit_set _ _ _ _ Hp (proj1 Hp) Hs).
      by rewrite bool_decide_true.
    + split; [done|]. rewrite (bit_set _ _ _ _ Hp (proj1 Hq) Hs), Hb. by rewrite orb_true_r.
Qed.

Lemma positions_clear b pos b' :
  0 <= pos < capacity b -> clear b pos = Ret b' -> positions b' = positions b ∖ {[pos]}.
Proof.
  intros Hp Hs. apply set_eq. intros q.
  rewrite elem_of_difference, elem_of_singleton, !elem_of_positions.
  rewrite (capacity_clear _ _ _ Hs). split.
  - intros [Hq Hb]. rewrite (bit_clear _ _ _ _ Hp (proj1 Hq) Hs) in Hb.
    apply andb_true_iff in Hb as [Hb1 Hb2]. split; [done|].
    by apply negb_true_iff, bool_decide_eq_false in Hb1.
  - intros [[Hq Hb] Hne]. split; [done|].
    by rewrite (bit_clear _ _ _ _ Hp (proj1 Hq) Hs), bool_decide_false, Hb.
Qed.

Lemma positions_newBitset n : positions (newBitset n) = ∅.
Proof.
  apply set_eq. intros p. rewrite elem_of_positions, bit_newBitset. set_solver.
Qed.

Lemma positions_inj b b2 :
  bitset_ok b -> bitset_ok b2 -> length b = length b2 ->
  positions b = positions b2 -> b = b2.
Proof.
  intros Hb Hb2 Hlen Heq. apply bitset_ext; [done..|]. intros p Hp.
  assert (p ∈ positions b <-> p ∈ positions b2) as Hiff by by rewrite Heq.
  rewrite !elem_of_positions in Hiff.
  assert (capacity b2 = capacity b) as Hc by (unfold capacity; by rewrite Hlen).
  rewrite Hc in Hiff. destruct (bit b p), (bit b2 p); naive_solver.
Qed.

(** The bits of a bitset with one more word in front. *)
Lemma bit_cons_low v b i : (i < 64)%nat -> bit (v :: b) (Z.of_nat i) = Z.testbit v (Z.of_nat i).
Proof.
  intros Hi. unfold bit, word_bits.
  rewrite Z.div_small, Z.mod_small by lia. done.
Qed.

Lemma bit_cons_high v b i : bit (v :: b) (Z.of_nat (64 + i)) = bit b (Z.of_nat i).
Proof.
  unfold bit, word_bits. replace (Z.of_nat (64 + i)) with (Z.of_nat i + 1 * 64) by lia.
  rewrite Z.div_add, Z.mod_add by lia.
  assert (0 <= Z.of_nat i / 64) by (apply Z.div_pos; lia).
  replace (Z.to_nat (Z.of_nat i / 64 + 1)) with (S (Z.to_nat (Z.of_nat i / 64))) by lia.
  done.
Qed.

Definition count_bits (b : bitset) : nat :=
  length (filter (fun i => bit b (Z.of_nat i) = true) (seq 0 (64 * length b))).

Lemma count_bits_cons v b :
  Z.of_nat (count_bits (v :: b)) = OnesCount64 v + Z.of_nat (count_bits b).
Proof.
  unfold count_bits, OnesCount64. cbn [length].
  replace (64 * S (length b))%nat with (64 + 64 * length b)%nat by lia.
  rewrite seq_app, filter_app, length_app, Nat2Z.inj_add.
  apply f_equal2; apply f_equal, length_filter_seq; intros i Hi.
  - by rewrite bit_cons_low.
  - by rewrite bit_cons_high.
Qed.

Lemma popcnt_loop_spec b t : popcnt_loop b t = t + Z.of_nat (count_bits b).
Proof.
  revert t. induction b as [|v b IH]; intros t; [by cbn; lia|].
  cbn [popcnt_loop]. rewrite IH, count_bits_cons. lia.
Qed.

Lemma size_positions b : size (positions b) = count_bits b.
Proof.
  unfold positions, count_bits. rewrite size_list_to_set.
  - rewrite list_filter_fmap, length_fmap. done.
  - apply NoDup_filter, NoDup_fmap_2; [apply _ | apply NoDup_seq].
Qed.

(** [popcnt] counts the positions that are set. *)
Theorem popcnt_counts b : popcnt b = Z.of_nat (size (positions b)).
Proof. unfold popcnt. by rewrite popcnt_loop_spec, size_positions. Qed.

(** On well-formed bitsets of one length, [equals] decides equality of the
    sets they denote, and equal bitsets have the same 64-bit [hash], so a
    cache indexed by [hash] finds every equal bitset in one bucket. *)
Theorem equals_decides b b2 :
  bitset_ok b -> bitset_ok b2 -> length b = length b2 ->
  (equals b b2 = true <-> positions b = positions b2) /\
  (equals b b2 = true -> hash b = hash b2) /\ 0 <= hash b < 2 ^ 64.
Proof.
  intros Hb Hb2 Hlen. rewrite equals_true. split; [split|split].
  - by intros <-.
  - by apply positions_inj.
  - by intros <-.
  - by apply hash_ok.
Qed.

Lemma equals_decides_witness :
  (equals [3] [3] = true <-> positions [3] = positions [3]) /\ 0 <= hash [3] < 2 ^ 64.
Proof.
  destruct (equals_decides [3] [3]) as (H1 & _ & H3).
  - repeat constructor; done.
  - repeat constructor; done.
  - done.
  - done.
Defined.
