(* ===== verification/BitsetHeap.v ===== *)
(** * Bitsets in memory (src/src/porcupine/bitset.go)

    A [bitset] variable is a reference to its words: [set] and [clear] change
    the words that every copy of the reference sees and return the reference,
    [newBitset] and [clone] allocate words of their own.  Any sequence of calls
    is proved to implement finite sets that share nothing. *)

From S2P Require Import Prelude Bitset.

Abbreviation ref := positive.

Record heap := mkHeap { h_words : gmap ref bitset; h_next : ref }.

Definition deref (a : ref) (h : heap) : outcome bitset :=
  match h_words h !! a with Some b => Ret b | None => Panic NilDeref end.
Definition alloc (b : bitset) (h : heap) : ref * heap :=
  (h_next h, mkHeap (<[h_next h := b]> (h_words h)) (Pos.succ (h_next h))).
Definition store (a : ref) (b : bitset) (h : heap) : heap := mkHeap (<[a := b]> (h_words h)) (h_next h).

Definition newBitset_ref (bits : Z) (h : heap) : ref * heap := alloc (newBitset bits) h.

Definition clone_ref (a : ref) (h : heap) : outcome (ref * heap) :=
  b ← deref a h;
  Ret (alloc (clone b) h).

Definition set_ref (a : ref) (pos : Z) (h : heap) : outcome (ref * heap) :=
  b ← deref a h;
  b' ← set b pos;
  Ret (a, store a b' h).

Definition clear_ref (a : ref) (pos : Z) (h : heap) : outcome (ref * heap) :=
  b ← deref a h;
  b' ← clear b pos;
  Ret (a, store a b' h).

Definition get_ref (a : ref) (pos : Z) (h : heap) : outcome bool :=
  b ← deref a h;
  get b pos.

(** A client of the package: a sequence of calls and what they answer. *)
Inductive call := CNew (bits : Z) | CClone (a : ref) | CSet (a : ref) (pos : Z) | CClear (a : ref) (pos : Z) | CGet (a : ref) (pos : Z).
Inductive answer := ARef (a : ref) | ABool (b : bool).

Definition do_call (c : call) (h : heap) : outcome (answer * heap) :=
  match c with
  | CNew bits => let '(a, h) := newBitset_ref bits h in Ret (ARef a, h)
  | CClone a => '(a, h) ← clone_ref a h; Ret (ARef a, h)
  | CSet a pos => '(a, h) ← set_ref a pos h; Ret (ARef a, h)
  | CClear a pos => '(a, h) ← clear_ref a pos h; Ret (ARef a, h)
  | CGet a pos => b ← get_ref a pos h; Ret (ABool b, h)
  end.

Fixpoint do_calls (cs : list call) (h : heap) : outcome (list answer * heap) :=
  match cs with
  | [] => Ret ([], h)
  | c :: cs =>
      '(r, h) ← do_call c h;
      '(rs, h) ← do_calls cs h;
      Ret (r :: rs, h)
  end.

(** What the package promises: each reference owns a finite set of the
    positions below its room, and a call changes the set of its own reference
    at most.  A call with a reference that was not handed out, or a position
    outside the room, is not defined. *)
Record sets := mkSets { s_sets : gmap ref (Z * gset Z); s_next : ref }.

Definition new_set (room : Z) (x : gset Z) (s : sets) : answer * sets :=
  (ARef (s_next s), mkSets (<[s_next s := (room, x)]> (s_sets s)) (Pos.succ (s_next s))).

Definition on_set (a : ref) (pos : Z) (f : gset Z -> gset Z) (s : sets) : option (answer * sets) :=
  '(room, x) ← s_sets s !! a;
  if decide (0 <= pos < room) then Some (ARef a, mkSets (<[a := (room, f x)]> (s_sets s)) (s_next s)) else None.

Definition promised (c : call) (s : sets) : option (answer * sets) :=
  match c with
  | CNew bits => if decide (0 <= bits) then Some (new_set (64 * ((bits + 63) / 64)) ∅ s) else None
  | CClone a => '(room, x) ← s_sets s !! a; Some (new_set room x s)
  | CSet a pos => on_set a pos (fun x => {[pos]} ∪ x) s
  | CClear a pos => on_set a pos (fun x => x ∖ {[pos]}) s
  | CGet a pos =>
      '(room, x) ← s_sets s !! a;
      if decide (0 <= pos < room) then Some (ABool (bool_decide (pos ∈ (x : gset Z))), s) else None
  end.

Fixpoint promised_all (cs : list call) (s : sets) : option (list answer * sets) :=
  match cs with
  | [] => Some ([], s)
  | c :: cs =>
      '(r, s) ← promised c s;
      '(rs, s) ← promised_all cs s;
      Some (r :: rs, s)
  end.

(** The words of every reference denote its set. *)
Record denotes (h : heap) (s : sets) : Prop := {
  dn_next : h_next h = s_next s;
  dn_words : map_Forall (fun _ => bitset_ok) (h_words h);
  dn_sets : (fun b => (capacity b, positions b)) <$> h_words h = s_sets s;
}.

Lemma capacity_newBitset_eq n : 0 <= n -> capacity (newBitset n) = 64 * ((n + 63) / 64).
Proof.
  intros H. unfold capacity, newBitset, word_bits. rewrite length_replicate.
  pose proof (Z.div_mod n 64 ltac:(lia)). pose proof (Z.mod_pos_bound n 64 ltac:(lia)).
  assert (0 <= n / 64) by (apply Z.div_pos; lia).
  destruct (Z.eqb_spec (n mod 64) 0) as [E|E].
  - rewrite Z2Nat.id by lia. f_equal. apply (Z.div_unique _ _ _ 63); lia.
  - rewrite Z2Nat.id by lia. f_equal. apply (Z.div_unique _ _ _ (n mod 64 - 1)); lia.
Qed.

Lemma denotes_insert h s a b y nxt :
  denotes h s -> bitset_ok b -> y = (capacity b, positions b) ->
  denotes (mkHeap (<[a := b]> (h_words h)) nxt) (mkSets (<[a := y]> (s_sets s)) nxt).
Proof.
  intros [H1 H2 H3] Hb ->. split; cbn; [done| |by rewrite fmap_insert, H3]. by apply map_Forall_insert_2.
Qed.

Lemma denotes_deref h s a room x :
  denotes h s -> s_sets s !! a = Some (room, x) ->
  exists b, deref a h = Ret b /\ bitset_ok b /\ room = capacity b /\ x = positions b.
Proof.
  intros [_ H2 <-] Ha. rewrite lookup_fmap in Ha. apply fmap_Some in Ha as (b & Hb & [= -> ->]).
  exists b. unfold deref. rewrite Hb. split_and!; [done| |done..]. by apply (H2 a b).
Qed.

Lemma set_positions b pos : bitset_ok b -> 0 <= pos < capacity b ->
  ensures (set b pos) (fun b' => bitset_ok b' /\ capacity b' = capacity b /\ positions b' = {[pos]} ∪ positions b).
Proof.
  intros Hb Hp. pose proof (set_ret _ _ Hp) as Hs. eexists. split; [done|].
  split_and!; eauto using set_ok, capacity_set, positions_set.
Qed.

Lemma clear_positions b pos : bitset_ok b -> 0 <= pos < capacity b ->
  ensures (clear b pos) (fun b' => bitset_ok b' /\ capacity b' = capacity b /\ positions b' = positions b ∖ {[pos]}).
Proof.
  intros Hb Hp. pose proof (clear_ret _ _ Hp) as Hs. eexists. split; [done|].
  split_and!; eauto using clear_ok, capacity_clear, positions_clear.
Qed.

Lemma get_positions b pos : 0 <= pos < capacity b -> get b pos = Ret (bool_decide (pos ∈ positions b)).
Proof.
  intros Hp. rewrite get_bit by done. f_equal. apply eq_bool_prop_intro.
  rewrite bool_decide_spec, elem_of_positions, Is_true_true. tauto.
Qed.

(** An update in place of one reference. *)
Lemma on_set_refines h s a pos f r s' (op : bitset -> Z -> outcome bitset) :
  (forall b, bitset_ok b -> 0 <= pos < capacity b ->
    ensures (op b pos) (fun b' => bitset_ok b' /\ capacity b' = capacity b /\ positions b' = f (positions b))) ->
  denotes h s -> on_set a pos f s = Some (r, s') ->
  exists h', ('(a, h) ← (b ← deref a h; b' ← op b pos; Ret (a, store a b' h)); Ret (ARef a, h)) = Ret (r, h') /\ denotes h' s'.
Proof.
  intros Hop Hd H. unfold on_set in H. apply bind_Some in H as ([room x] & Ha & H). case_decide as Hp; [|done].
  injection H as <- <-. destruct (denotes_deref h s a room x Hd Ha) as (b & -> & Hb & -> & ->). cbn.
  destruct (Hop b Hb Hp) as (b' & -> & Hb' & Hc & Hs). cbn. eexists. split; [done|]. rewrite <- (dn_next _ _ Hd).
  apply denotes_insert; [done..|]. by rewrite Hc, Hs.
Qed.

Lemma do_call_refines c h s r s' :
  denotes h s -> promised c s = Some (r, s') -> exists h', do_call c h = Ret (r, h') /\ denotes h' s'.
Proof.
  intros Hd H. destruct c as [bits|a|a pos|a pos|a pos]; cbn [promised do_call] in H |- *.
  - case_decide; [|done]. injection H as <- <-. rewrite <- (dn_next _ _ Hd). eexists. split; [done|].
    apply denotes_insert; [done|apply newBitset_ok|]. by rewrite capacity_newBitset_eq, positions_newBitset.
  - apply bind_Some in H as ([room x] & Ha & [= <- <-]).
    destruct (denotes_deref h s a room x Hd Ha) as (b & E & Hb & -> & ->). unfold clone_ref. rewrite E. cbn.
    rewrite <- (dn_next _ _ Hd), clone_eq. eexists. split; [done|]. by apply denotes_insert.
  - exact (on_set_refines h s a pos _ r s' set (fun b => set_positions b pos) Hd H).
  - exact (on_set_refines h s a pos _ r s' clear (fun b => clear_positions b pos) Hd H).
  - apply bind_Some in H as ([room x] & Ha & H). destruct (decide (0 <= pos < room)) as [Hp|]; [|done].
    injection H as <- <-.
    destruct (denotes_deref h s a room x Hd Ha) as (b & E & Hb & -> & ->). unfold get_ref. rewrite E. cbn.
    rewrite get_positions by done. by exists h.
Qed.

(** C40: bitsets implement finite sets of positions, the references included.
    Whatever calls of [newBitset], [clone], [set], [clear] and [get] a client
    makes, with references that it was handed and positions that fit, none of
    them panics, each answers what it would answer on sets, and afterwards the
    words of each reference denote its set: [set] and [clear] add and remove one
    position of their own reference and no other, and a clone has the same
    positions and room and shares nothing with the original, whatever is done to
    either of them later. *)
Theorem bitset_refines_set cs h s rs s' :
  denotes h s -> promised_all cs s = Some (rs, s') ->
  exists h', do_calls cs h = Ret (rs, h') /\ denotes h' s'.
Proof.
  revert h s rs. induction cs as [|c cs IH]; intros h s rs Hd H; cbn in H |- *; [injection H as <- <-; by exists h|].
  apply bind_Some in H as ([r s1] & Hc & H). apply bind_Some in H as ([rs1 s2] & Hcs & [= <- <-]).
  destruct (do_call_refines c h s r s1 Hd Hc) as (h1 & -> & Hd1). cbn.
  destruct (IH h1 s1 rs1 Hd1 Hcs) as (h2 & -> & Hd2). by exists h2.
Qed.

(** A clone is taken, the original loses a position and the clone gains one. *)
Definition clone_calls : list call :=
  [CNew 70; CSet 1 65; CClone 1; CClear 1 65; CSet 2 3; CGet 2 65; CGet 1 3].

Lemma bitset_refines_set_witness :
  exists h', do_calls clone_calls (mkHeap ∅ 1) =
    Ret ([ARef 1; ARef 1; ARef 2; ARef 1; ARef 2; ABool true; ABool false], h') /\
    denotes h' (mkSets {[1%positive := (128, ({[65]} ∪ ∅) ∖ {[65]}); 2%positive := (128, {[3]} ∪ ({[65]} ∪ ∅))]} 3).
Proof.
  apply (bitset_refines_set clone_calls (mkHeap ∅ 1) (mkSets ∅ 1)).
  - split; [reflexivity|apply map_Forall_empty|apply fmap_empty].
  - vm_compute. reflexivity.
Defined.
