(* ===== verification/PorcModel.v ===== *)
(** * Histories and models of the linearizability checker
      (src/src/porcupine/model.go and the entry types of checker.go)

    A history is a list of completed operations, or of call and return
    events.  Go's [interface{}] values are the model's inputs and outputs:
    an entry carries an input when it is a call and an output when it is a
    return, so its value is a sum, and the type assertions of a [Step]
    function ([input.(T)], [output.(U)]) are [as_input] and [as_output]. *)

From S2P Require Import Prelude.

Inductive EventKind : Set := CallEvent | ReturnEvent.
Inductive entryKind : Set := callEntry | returnEntry.

#[global] Instance EventKind_eq_dec : EqDecision EventKind.
Proof. solve_decision. Defined.
#[global] Instance entryKind_eq_dec : EqDecision entryKind.
Proof. solve_decision. Defined.

Section types.
Context (I O St : Type).

Record Operation := mkOperation {
  ClientId : Z;
  Input : I;
  Call : Z;
  Output : O;
  Return : Z;
}.

Record Event := mkEvent {
  ev_ClientId : Z;
  Kind : EventKind;
  Value : I + O;
  Id : Z;
}.

Record entry := mkEntry {
  kind : entryKind;
  value : I + O;
  id : Z;
  time : Z;
  clientId : Z;
}.

(** A function field of [Model] that is [nil] is [None]. *)
Record Model := mkModel {
  Partition : option (list Operation -> list (list Operation));
  PartitionEvent : option (list Event -> list (list Event));
  Init : St;
  Step : St -> I -> O -> bool * St;
  Equal : option (St -> St -> bool);
  DescribeOperation : option (I -> O -> string);
  DescribeState : option (St -> string);
}.
End types.

Arguments mkOperation {I O}.
Arguments ClientId {I O}.
Arguments Input {I O}.
Arguments Call {I O}.
Arguments Output {I O}.
Arguments Return {I O}.
Arguments mkEvent {I O}.
Arguments ev_ClientId {I O}.
Arguments Kind {I O}.
Arguments Value {I O}.
Arguments Id {I O}.
Arguments mkEntry {I O}.
Arguments kind {I O}.
Arguments value {I O}.
Arguments id {I O}.
Arguments time {I O}.
Arguments clientId {I O}.
Arguments mkModel {I O St}.
Arguments Partition {I O St}.
Arguments PartitionEvent {I O St}.
Arguments Init {I O St}.
Arguments Step {I O St}.
Arguments Equal {I O St}.
Arguments DescribeOperation {I O St}.
Arguments DescribeState {I O St}.

(** [fmt.Sprintf("%v", x)] of the dynamic values of a model. *)
Class Format (A : Type) := format_v : A -> string.

Section model.
Context {I O St : Type} `{!EqDecision St}.

Definition NoPartition (history : list (Operation I O)) : list (list (Operation I O)) := [history].
Definition NoPartitionEvent (history : list (Event I O)) : list (list (Event I O)) := [history].

(** [state1 == state2] on the dynamic values.  The states are values that Go
    can compare, as those of every model that leaves [Equal] out have to be:
    [EqDecision] stands for that comparison, and a model whose states are maps,
    slices or functions, on which [==] panics, is not covered. *)
Definition ShallowEqual (state1 state2 : St) : bool := bool_decide (state1 = state2).

Definition DefaultDescribeOperation `{!Format I, !Format O} (input : I) (output : O) : string :=
  (format_v input +:+ " -> " +:+ format_v output)%string.
Definition DefaultDescribeState `{!Format St} (state : St) : string := format_v state.

Definition fillDefault `{!Format I, !Format O, !Format St} (model : Model I O St) : Model I O St :=
  mkModel
    (match Partition model with None => Some NoPartition | p => p end)
    (match PartitionEvent model with None => Some NoPartitionEvent | p => p end)
    (Init model) (Step model)
    (match Equal model with None => Some ShallowEqual | e => e end)
    (match DescribeOperation model with None => Some DefaultDescribeOperation | d => d end)
    (match DescribeState model with None => Some DefaultDescribeState | d => d end).

(** Calling a function field: a [nil] function is a nil dereference. *)
Definition call_fn {A B} (f : option (A -> B)) (a : A) : outcome B :=
  match f with Some f => Ret (f a) | None => Panic NilDeref end.

Definition as_input (v : option (I + O)) : outcome I :=
  match v with Some (inl i) => Ret i | _ => Panic TypeAssertion end.
Definition as_output (v : option (I + O)) : outcome O :=
  match v with Some (inr o) => Ret o | _ => Panic TypeAssertion end.

(** ** Entries *)

(** [byTime.Less]: by time, and a call before a return of the same time. *)
Definition Less (a b : entry I O) : bool :=
  if negb (time a =? time b) then time a <? time b
  else bool_decide (kind a = callEntry) && bool_decide (kind b = returnEntry).

Fixpoint makeEntries_loop (history : list (Operation I O)) (i : Z) : list (entry I O) :=
  match history with
  | [] => []
  | elem :: history =>
      mkEntry callEntry (inl (Input elem)) i (Call elem) (ClientId elem) ::
      mkEntry returnEntry (inr (Output elem)) i (Return elem) (ClientId elem) ::
      makeEntries_loop history (i + 1)
  end.

Definition makeEntries `{!GoSort Less} (history : list (Operation I O)) : list (entry I O) :=
  go_sort Less (makeEntries_loop history 0).

Fixpoint renumber_loop (events : list (Event I O)) (m : gmap Z Z) (i : Z) : list (Event I O) :=
  match events with
  | [] => []
  | v :: events =>
      match m !! Id v with
      | Some r => mkEvent (ev_ClientId v) (Kind v) (Value v) r :: renumber_loop events m i
      | None =>
          mkEvent (ev_ClientId v) (Kind v) (Value v) i ::
          renumber_loop events (<[Id v := i]> m) (i + 1)
      end
  end.

Definition renumber (events : list (Event I O)) : list (Event I O) := renumber_loop events ∅ 0.

Fixpoint convertEntries_loop (events : list (Event I O)) (i : Z) : list (entry I O) :=
  match events with
  | [] => []
  | elem :: events =>
      let k := match Kind elem with ReturnEvent => returnEntry | CallEvent => callEntry end in
      mkEntry k (Value elem) (Id elem) i (ev_ClientId elem) :: convertEntries_loop events (i + 1)
  end.

Definition convertEntries (events : list (Event I O)) : list (entry I O) :=
  convertEntries_loop events 0.

(** ** Well-formed entry lists

    What [checkSingle] needs of its history: the ids are [0 .. n-1], each id
    has one call and one return, and the call comes first. *)
Record wf_history (n : nat) (es : list (entry I O)) : Prop := {
  wf_length : length es = (2 * n)%nat;
  wf_id : forall i e, es !! i = Some e -> 0 <= id e < Z.of_nat n;
  wf_all : forall d, 0 <= d < Z.of_nat n -> exists i e, es !! i = Some e /\ id e = d;
  wf_unique : forall i j e e', es !! i = Some e -> es !! j = Some e' ->
    id e = id e' -> kind e = kind e' -> i = j;
  wf_return : forall i e, es !! i = Some e -> kind e = callEntry ->
    exists j e', (i < j)%nat /\ es !! j = Some e' /\ kind e' = returnEntry /\ id e' = id e;
  wf_call : forall j e', es !! j = Some e' -> kind e' = returnEntry ->
    exists i e, (i < j)%nat /\ es !! i = Some e /\ kind e = callEntry /\ id e = id e';
  wf_value : forall i e, es !! i = Some e ->
    match kind e with
    | callEntry => exists v, value e = inl v
    | returnEntry => exists v, value e = inr v
    end;
}.

#[export] Instance Less_weak_order : WeakOrder Less.
Proof.
  unfold Less. split.
  - intros x y. destruct (Z.eqb_spec (time x) (time y)), (Z.eqb_spec (time y) (time x));
      cbn; try lia. destruct (kind x), (kind y); cbn; auto.
  - intros x y z. destruct (Z.eqb_spec (time y) (time x)), (Z.eqb_spec (time z) (time y)),
      (Z.eqb_spec (time z) (time x)); cbn; try lia.
    destruct (kind x), (kind y), (kind z); cbn; auto.
Qed.
End model.
