(* ===== verification/Linked.v ===== *)
(** * The linked list of entries (node, insertBefore, length,
      makeLinkedEntries, lift and unlift of src/src/porcupine/checker.go)

    Nodes live in a store indexed by locations; a pointer is an optional
    location and [None] is [nil].  [lift] unlinks a call and its return from
    the list without touching the fields of the two nodes, and [unlift]
    relinks them from those fields: the main lemma is that [unlift] restores
    the very store [lift] started from. *)

From S2P Require Import Prelude PorcModel.

Abbreviation loc := nat.

Section node.
Context (I O : Type).

Record node := mkNode {
  n_value : option (I + O);
  n_match : option loc;
  n_id : Z;
  n_next : option loc;
  n_prev : option loc;
}.

Record heap := mkHeap { nodes : gmap loc node; brk : loc }.
End node.

Arguments mkNode {I O}.
Arguments n_value {I O}.
Arguments n_match {I O}.
Arguments n_id {I O}.
Arguments n_next {I O}.
Arguments n_prev {I O}.
Arguments mkHeap {I O}.
Arguments nodes {I O}.
Arguments brk {I O}.

Section linked.
Context {I O : Type}.
Implicit Types (h : heap I O) (ns : gmap loc (node I O)) (x p : loc).

Definition set_next (v : option loc) (n : node I O) : node I O :=
  mkNode (n_value n) (n_match n) (n_id n) v (n_prev n).
Definition set_prev (v : option loc) (n : node I O) : node I O :=
  mkNode (n_value n) (n_match n) (n_id n) (n_next n) v.

Definition empty_heap : heap I O := mkHeap ∅ 0%nat.

Definition alloc h (n : node I O) : loc * heap I O :=
  (brk h, mkHeap (<[brk h := n]> (nodes h)) (S (brk h))).

Definition deref h (p : option loc) : outcome (node I O) :=
  match p with
  | None => Panic NilDeref
  | Some x => match nodes h !! x with Some n => Ret n | None => Panic NilDeref end
  end.

(** [p.next = v] and [p.prev = v]. *)
Definition store_next h (p : option loc) (v : option loc) : outcome (heap I O) :=
  match p with
  | None => Panic NilDeref
  | Some x => Ret (mkHeap (alter (set_next v) x (nodes h)) (brk h))
  end.
Definition store_prev h (p : option loc) (v : option loc) : outcome (heap I O) :=
  match p with
  | None => Panic NilDeref
  | Some x => Ret (mkHeap (alter (set_prev v) x (nodes h)) (brk h))
  end.

Definition insertBefore h (n : loc) (mark : option loc) : outcome (heap I O) :=
  match mark with
  | None => Ret h
  | Some _ =>
      mk ← deref h mark;
      let beforeMark := n_prev mk in
      h ← store_prev h mark (Some n);
      h ← store_next h (Some n) mark;
      match beforeMark with
      | None => Ret h
      | Some _ =>
          h ← store_prev h (Some n) beforeMark;
          store_next h beforeMark (Some n)
      end
  end.

Fixpoint length_loop (fuel : nat) h (n : option loc) (l : Z) : outcome Z :=
  match n with
  | None => Ret l
  | Some _ =>
      match fuel with
      | 0%nat => NoFuel
      | S fuel => nd ← deref h n; length_loop fuel h (n_next nd) (l + 1)
      end
  end.

(** A list in the store has at most as many nodes as were allocated. *)
Definition list_length h (n : option loc) : outcome Z := length_loop (S (brk h)) h n 0.

(** One iteration of the loop of [makeLinkedEntries], which runs over the
    entries from the last to the first. *)
Definition link_entry (elem : entry I O) (acc : outcome (option loc * gmap Z loc * heap I O)) :
    outcome (option loc * gmap Z loc * heap I O) :=
  '(root, mtch, h) ← acc;
  match kind elem with
  | returnEntry =>
      let '(x, h) := alloc h (mkNode (Some (value elem)) None (id elem) None None) in
      let mtch := <[id elem := x]> mtch in
      h ← insertBefore h x root;
      Ret (Some x, mtch, h)
  | callEntry =>
      let '(x, h) := alloc h (mkNode (Some (value elem)) (mtch !! id elem) (id elem) None None) in
      h ← insertBefore h x root;
      Ret (Some x, mtch, h)
  end.

Definition makeLinkedEntries h (entries : list (entry I O)) : outcome (option loc * heap I O) :=
  '(root, _, h) ← foldr link_entry (Ret (None, ∅, h)) entries;
  Ret (root, h).

Definition lift h (x : loc) : outcome (heap I O) :=
  en ← deref h (Some x);
  h ← store_next h (n_prev en) (n_next en);
  en ← deref h (Some x);
  h ← store_prev h (n_next en) (n_prev en);
  en ← deref h (Some x);
  let mtch := n_match en in
  mn ← deref h mtch;
  h ← store_next h (n_prev mn) (n_next mn);
  mn ← deref h mtch;
  match n_next mn with
  | None => Ret h
  | Some _ => store_prev h (n_next mn) (n_prev mn)
  end.

Definition unlift h (x : loc) : outcome (heap I O) :=
  en ← deref h (Some x);
  let mtch := n_match en in
  mn ← deref h mtch;
  h ← store_next h (n_prev mn) mtch;
  mn ← deref h mtch;
  h ← match n_next mn with
      | None => Ret h
      | Some _ => store_prev h (n_next mn) mtch
      end;
  en ← deref h (Some x);
  h ← store_next h (n_prev en) (Some x);
  en ← deref h (Some x);
  store_prev h (n_next en) (Some x).

(** ** Chains

    [chain ns prv xs nxt]: the nodes [xs] are linked in this order, the first
    one back to [prv] and the last one on to [nxt]. *)
Fixpoint chain ns (prv : option loc) (xs : list loc) (nxt : option loc) : Prop :=
  match xs with
  | [] => True
  | x :: xs =>
      (exists n, ns !! x = Some n /\ n_prev n = prv /\
        n_next n = match xs with [] => nxt | y :: _ => Some y end) /\
      chain ns (Some x) xs nxt
  end.

Definition first_or (xs : list loc) (d : option loc) : option loc :=
  match xs with [] => d | x :: _ => Some x end.
Definition last_or (xs : list loc) (d : option loc) : option loc :=
  match last xs with Some x => Some x | None => d end.

(** The fields of a node that linking never changes. *)
Definition info (n : node I O) : option (I + O) * option loc * Z :=
  (n_value n, n_match n, n_id n).
Definition same_info ns ns' : Prop := forall x, info <$> ns !! x = info <$> ns' !! x.

(** Unlinking a node from its neighbours and linking it back. *)
Definition unlink ns (x : loc) : gmap loc (node I O) :=
  match ns !! x with
  | None => ns
  | Some n =>
      let ns1 := match n_prev n with Some p => alter (set_next (n_next n)) p ns | None => ns end in
      match n_next n with Some y => alter (set_prev (n_prev n)) y ns1 | None => ns1 end
  end.
Definition relink ns (x : loc) : gmap loc (node I O) :=
  match ns !! x with
  | None => ns
  | Some n =>
      let ns1 := match n_prev n with Some p => alter (set_next (Some x)) p ns | None => ns end in
      match n_next n with Some y => alter (set_prev (Some x)) y ns1 | None => ns1 end
  end.

Lemma last_or_cons x xs d : last_or (x :: xs) d = last_or xs (Some x).
Proof. unfold last_or. rewrite last_cons. by destruct (last xs). Qed.

Lemma chain_app ns prv xs ys nxt :
  chain ns prv (xs ++ ys) nxt <->
  chain ns prv xs (first_or ys nxt) /\ chain ns (last_or xs prv) ys nxt.
Proof.
  revert prv. induction xs as [|x xs IH]; intros prv; [cbn; tauto|].
  cbn [app chain]. rewrite IH, last_or_cons.
  destruct xs as [|x' xs], ys as [|y ys]; cbn; tauto.
Qed.

Lemma chain_frame ns ns' prv xs nxt :
  (forall x, x ∈ xs -> ns' !! x = ns !! x) -> chain ns prv xs nxt -> chain ns' prv xs nxt.
Proof.
  revert prv. induction xs as [|x xs IH]; intros prv Hf; [done|].
  cbn. intros [(n & Hn & ?) Hc]. split.
  - exists n. rewrite Hf by set_solver. done.
  - apply IH; [set_solver | done].
Qed.

Lemma chain_node ns prv xs x ys nxt :
  chain ns prv (xs ++ x :: ys) nxt ->
  exists n, ns !! x = Some n /\ n_prev n = last_or xs prv /\ n_next n = first_or ys nxt.
Proof. rewrite chain_app. cbn. intros (_ & Hn & _). by destruct ys. Qed.

Lemma same_info_refl ns : same_info ns ns.
Proof. done. Qed.

Lemma same_info_alter f ns x :
  (forall n, info (f n) = info n) -> same_info ns (alter f x ns).
Proof.
  intros Hf y. rewrite lookup_alter. case_decide; [|done]. subst.
  destruct (ns !! y); cbn; [by rewrite Hf | done].
Qed.

Lemma same_info_trans ns1 ns2 ns3 : same_info ns1 ns2 -> same_info ns2 ns3 -> same_info ns1 ns3.
Proof. intros H1 H2 x. by rewrite H1. Qed.

Lemma same_info_unlink ns x : same_info ns (unlink ns x).
Proof.
  unfold unlink. destruct (ns !! x) as [n|]; [|done].
  destruct (n_prev n), (n_next n); try done; try by apply same_info_alter.
  eapply same_info_trans; by apply same_info_alter.
Qed.

Lemma node_set_next_back n v : n_next n = v -> set_next v n = n.
Proof. intros <-. by destruct n. Qed.
Lemma node_set_prev_back n v : n_prev n = v -> set_prev v n = n.
Proof. intros <-. by destruct n. Qed.

Lemma alter_set_next_back ns p v n :
  ns !! p = Some n -> alter (set_next (n_next n)) p (alter (set_next v) p ns) = ns.
Proof.
  intros H. apply map_eq. intros q. rewrite !lookup_alter. repeat case_decide; subst; try done.
  rewrite H. cbn. by destruct n.
Qed.
Lemma alter_set_prev_back ns p v n :
  ns !! p = Some n -> alter (set_prev (n_prev n)) p (alter (set_prev v) p ns) = ns.
Proof.
  intros H. apply map_eq. intros q. rewrite !lookup_alter. repeat case_decide; subst; try done.
  rewrite H. cbn. by destruct n.
Qed.

Lemma alter_swap (f g : node I O -> node I O) ns x y :
  x <> y -> alter f x (alter g y ns) = alter g y (alter f x ns).
Proof.
  intros Hxy. apply map_eq. intros q. rewrite !lookup_alter. repeat case_decide; congruence.
Qed.

(** Unlinking the successor of [p] in a chain removes it from the chain, keeps
    its own fields, and [relink] undoes it. *)
Lemma unlink_step ns xs p x ys :
  NoDup (xs ++ p :: x :: ys) -> chain ns None (xs ++ p :: x :: ys) None ->
  chain (unlink ns x) None (xs ++ p :: ys) None /\
  relink (unlink ns x) x = ns /\ unlink ns x !! x = ns !! x.
Proof.
  intros Hnd Hc. pose proof Hc as Hc'. apply chain_app in Hc' as [HA Hrest]. cbn in Hrest.
  destruct Hrest as [(np & Hp & Hpp & Hpn) [(nx & Hx & Hxp & Hxn) HB]].
  apply NoDup_app in Hnd as (_ & HAd & Hnd2).
  apply NoDup_cons in Hnd2 as [Hpx Hnd2]. apply NoDup_cons in Hnd2 as [HxB HndB].
  assert (p <> x) by set_solver.
  unfold unlink. rewrite Hx, Hxp, Hxn. destruct ys as [|y ys].
  - split; [|split].
    + apply chain_app. split; [|cbn; split; [|done]].
      * eapply chain_frame, HA. intros z Hz. by rewrite lookup_alter_ne by set_solver.
      * exists (set_next None np). rewrite lookup_alter_eq, Hp. done.
    + unfold relink. rewrite lookup_alter_ne, Hx, Hxp, Hxn by done.
      rewrite <- Hpn. by apply alter_set_next_back.
    + by rewrite lookup_alter_ne.
  - cbn in HB. destruct HB as [(ny & Hy & Hyp & Hyn) HB].
    assert (p <> y /\ y <> x) as [? ?] by set_solver.
    split; [|split].
    + apply chain_app. split; [|cbn; split; [|split]].
      * eapply chain_frame, HA. intros z Hz. by rewrite !lookup_alter_ne by set_solver.
      * exists (set_next (Some y) np).
        rewrite lookup_alter_ne, lookup_alter_eq, Hp by done. done.
      * exists (set_prev (Some p) ny).
        rewrite lookup_alter_eq, lookup_alter_ne, Hy by done. done.
      * eapply chain_frame, HB. apply NoDup_cons in HndB as [? ?].
        intros z Hz. by rewrite !lookup_alter_ne by set_solver.
    + unfold relink. rewrite !lookup_alter_ne, Hx, Hxp, Hxn by done.
      rewrite (alter_swap (set_next (Some x)) (set_prev (Some p))) by done.
      pose proof (alter_set_next_back ns p (Some y) np Hp) as E. rewrite Hpn in E.
      rewrite E, <- Hyp. by apply alter_set_prev_back.
    + by rewrite !lookup_alter_ne.
Qed.

(** [unlink] of a node of a chain that is not its first node. *)
Lemma unlink_chain ns r xs x :
  NoDup (r :: xs) -> chain ns None (r :: xs) None -> x ∈ xs ->
  chain (unlink ns x) None (r :: filter (fun y => y <> x) xs) None /\
  relink (unlink ns x) x = ns /\ unlink ns x !! x = ns !! x.
Proof.
  intros Hnd Hc (A & B & ->)%list_elem_of_split.
  assert (filter (fun y => y <> x) (A ++ x :: B) = A ++ B) as Hf.
  { apply NoDup_cons in Hnd as [_ Hnd]. apply NoDup_app in Hnd as (_ & HA & HB).
    apply NoDup_cons in HB as [HxB _].
    rewrite filter_app, filter_cons, decide_False by naive_solver.
    f_equal; apply list_filter_all; apply Forall_forall; set_solver. }
  rewrite Hf. destruct A as [|a A _] using rev_ind.
  - apply (unlink_step ns [] r x B); done.
  - replace (r :: (A ++ [a]) ++ x :: B) with ((r :: A) ++ a :: x :: B) in *
      by (cbn; by rewrite <- app_assoc).
    replace (r :: (A ++ [a]) ++ B) with ((r :: A) ++ a :: B) by (cbn; by rewrite <- app_assoc).
    by apply unlink_step.
Qed.

(** A node of a chain after its first one has a predecessor, and its
    neighbours are other nodes. *)
Lemma chain_inner ns r xs x :
  NoDup (r :: xs) -> chain ns None (r :: xs) None -> x ∈ xs ->
  exists n p, ns !! x = Some n /\ n_prev n = Some p /\ p <> x /\ n_next n <> Some x.
Proof.
  intros Hnd Hc (A & B & ->)%list_elem_of_split.
  change (r :: A ++ x :: B) with ((r :: A) ++ x :: B) in *.
  destruct (chain_node _ _ _ _ _ _ Hc) as (n & Hn & Hp & Hx).
  apply NoDup_app in Hnd as (_ & Hd & HB). apply NoDup_cons in HB as [HxB _].
  exists n, (default r (last A)). split; [done|]. rewrite Hp, Hx. split_and!.
  - rewrite last_or_cons. unfold last_or. by destruct (last A).
  - destruct (last A) as [a|] eqn:E; cbn.
    + apply last_Some_elem_of in E. specialize (Hd a). set_solver.
    + specialize (Hd r). set_solver.
  - destruct B; cbn; [done|]. set_solver.
Qed.

Lemma lift_unlink h x mt n m pn pm :
  nodes h !! x = Some n -> n_match n = Some mt -> n_prev n = Some pn -> pn <> x ->
  n_next n <> None -> n_next n <> Some x ->
  unlink (nodes h) x !! mt = Some m -> n_prev m = Some pm -> pm <> mt ->
  lift h x = Ret (mkHeap (unlink (unlink (nodes h) x) mt) (brk h)).
Proof.
  intros Hx Hmt Hp Hpx Hn0 Hnx Hm Hmp Hpm. destruct (n_next n) as [y|] eqn:Ey; [|done].
  assert (y <> x) by congruence.
  assert (unlink (nodes h) x = alter (set_prev (Some pn)) y (alter (set_next (Some y)) pn (nodes h)))
    as Eu by (unfold unlink; by rewrite Hx, Hp, Ey).
  unfold unlink at 1. rewrite Hm, Hmp. rewrite Eu in *. unfold lift. cbn. rewrite Hx. cbn.
  rewrite Hp, Ey. cbn. rewrite !lookup_alter_ne by done. rewrite Hx. cbn. rewrite Hp, Ey. cbn.
  rewrite !lookup_alter_ne by done. rewrite Hx. cbn. rewrite Hmt. cbn.
  rewrite Hm. cbn. rewrite Hmp. cbn.
  rewrite (lookup_alter_ne _ _ pm) by done. rewrite Hm. cbn.
  destruct (n_next m); cbn; [|done]. by rewrite Hmp.
Qed.

Lemma unlift_relink h x mt n0 n m pn pm y :
  nodes h !! mt = Some m -> n_prev m = Some pm -> pm <> mt ->
  nodes h !! x = Some n0 -> n_match n0 = Some mt ->
  relink (nodes h) mt !! x = Some n -> n_prev n = Some pn -> pn <> x -> n_next n = Some y ->
  unlift h x = Ret (mkHeap (relink (relink (nodes h) mt) x) (brk h)).
Proof.
  intros Hm Hmp Hpm Hx Hmt Hrx Hp Hpx Hy. unfold unlift. cbn. rewrite Hx. cbn. rewrite Hmt. cbn.
  rewrite Hm. cbn. rewrite Hmp. cbn. rewrite (lookup_alter_ne _ _ pm) by done. rewrite Hm. cbn.
  unfold relink at 1. rewrite Hrx, Hp, Hy. unfold relink in *. rewrite Hm, Hmp in *.
  destruct (n_next m); cbn; rewrite Hrx; cbn; rewrite Hp; cbn;
    rewrite (lookup_alter_ne _ _ pn) by done; rewrite Hrx; cbn; by rewrite Hy.
Qed.

(** ** The contract of [lift] and [unlift]

    On a chain [r :: xs] that holds a call [x] and, after it, its return
    [mt], [lift] leaves the chain without the two nodes and [unlift] on the
    result returns the store [lift] was given. *)
Definition lifted (h : heap I O) (x mt : loc) : heap I O :=
  mkHeap (unlink (unlink (nodes h) x) mt) (brk h).

Lemma lift_chain h r xs x mt n :
  NoDup (r :: xs) -> chain (nodes h) None (r :: xs) None ->
  x ∈ xs -> mt ∈ xs -> x <> mt ->
  nodes h !! x = Some n -> n_match n = Some mt -> n_next n <> None ->
  lift h x = Ret (lifted h x mt) /\
  unlift (lifted h x mt) x = Ret h /\
  chain (nodes (lifted h x mt)) None (r :: filter (fun y => y <> x /\ y <> mt) xs) None /\
  same_info (nodes h) (nodes (lifted h x mt)).
Proof.
  intros Hnd Hc Hx Hm Hne Hn Hmt Hnext.
  destruct (chain_inner _ _ _ _ Hnd Hc Hx) as (n' & pn & Hn' & Hp & Hpx & Hnx).
  assert (n' = n) as -> by congruence.
  destruct (unlink_chain _ _ _ _ Hnd Hc Hx) as (Hc1 & Hr1 & Hsame1).
  set (xs1 := filter (fun y => y <> x) xs) in *.
  assert (NoDup (r :: xs1)) as Hnd1.
  { apply NoDup_cons in Hnd as [Hr Hnd]. apply NoDup_cons. split; [|by apply NoDup_filter].
    unfold xs1. rewrite list_elem_of_filter. tauto. }
  assert (mt ∈ xs1) as Hm1 by (unfold xs1; apply list_elem_of_filter; split; congruence).
  destruct (chain_inner _ _ _ _ Hnd1 Hc1 Hm1) as (m & pm & Hm' & Hmp & Hpm & Hmx).
  destruct (unlink_chain _ _ _ _ Hnd1 Hc1 Hm1) as (Hc2 & Hr2 & Hsame2).
  split_and!.
  - by eapply lift_unlink.
  - destruct (n_next n) as [y|] eqn:Ey; [|done]. unfold lifted.
    assert (exists n2, unlink (unlink (nodes h) x) mt !! x = Some n2 /\ n_match n2 = Some mt)
      as (n2 & Hn2 & Hmt2).
    { pose proof (same_info_unlink (unlink (nodes h) x) mt x) as Hi. rewrite Hsame1, Hn in Hi.
      destruct (unlink (unlink (nodes h) x) mt !! x) as [n2|]; [|done]. exists n2. split; [done|]. cbn in Hi.
      unfold info in Hi. congruence. }
    rewrite (unlift_relink _ x mt n2 n m pn pm y); cbn; try done.
    + rewrite Hr2, Hr1. by destruct h.
    + by rewrite Hsame2.
    + by rewrite Hr2, Hsame1.
  - cbn. replace (filter (fun y => y <> x /\ y <> mt) xs) with (filter (fun y => y <> mt) xs1); [done|].
    unfold xs1. rewrite list_filter_filter. apply list_filter_ext. naive_solver.
  - eapply same_info_trans; apply same_info_unlink.
Qed.

(** ** What [makeLinkedEntries] builds *)

(** The locations of the nodes of [k] entries, in list order: the loop
    allocates from the last entry to the first. *)
Fixpoint locs (k : nat) : list loc :=
  match k with
  | 0%nat => []
  | S k => k :: locs k
  end.

(** The node of the first return entry with an id. *)
Fixpoint find_return (es : list (entry I O)) (d : Z) : option loc :=
  match es with
  | [] => None
  | e :: es =>
      if decide (kind e = returnEntry /\ id e = d) then Some (length es) else find_return es d
  end.

(** The store holds, for each entry, a node with its value and id; a call
    node points to the first return node with its id, a return node to none. *)
Fixpoint linked ns (es : list (entry I O)) : Prop :=
  match es with
  | [] => True
  | e :: es =>
      (exists nd, ns !! length es = Some nd /\
        info nd = (Some (value e),
          match kind e with callEntry => find_return es (id e) | returnEntry => None end, id e)) /\
      linked ns es
  end.

Lemma elem_of_locs k x : x ∈ locs k <-> (x < k)%nat.
Proof.
  induction k as [|k IH]; cbn; [|rewrite elem_of_cons, IH]; [|lia].
  split; [by intros ?%not_elem_of_nil | lia].
Qed.

Lemma NoDup_locs k : NoDup (locs k).
Proof.
  induction k; cbn; constructor; [|done]. rewrite elem_of_locs. lia.
Qed.

Lemma length_locs k : length (locs k) = k.
Proof. induction k; cbn; by f_equal. Qed.

Lemma linked_same_info ns ns' es : same_info ns ns' -> linked ns es -> linked ns' es.
Proof.
  intros Hs. induction es as [|e es IH]; [done|]. cbn. intros [(nd & Hnd & Hi) Hl].
  split; [|by apply IH]. specialize (Hs (length es)). rewrite Hnd in Hs. cbn in Hs.
  destruct (ns' !! length es) as [nd'|]; [|done]. exists nd'. split; [done|].
  cbn in Hs. congruence.
Qed.

Lemma linked_insert ns es x nd : (length es <= x)%nat -> linked ns es -> linked (<[x := nd]> ns) es.
Proof.
  induction es as [|e es IH]; [done|]. cbn. intros Hx [(nd' & Hnd & Hi) Hl].
  split; [|apply IH; [lia | done]]. exists nd'. rewrite lookup_insert_ne by lia. done.
Qed.

Lemma linked_cons ns ns' e es nd :
  linked ns es -> same_info (<[length es := nd]> ns) ns' ->
  info nd = (Some (value e),
    match kind e with callEntry => find_return es (id e) | returnEntry => None end, id e) ->
  linked ns' (e :: es).
Proof.
  intros Hl Hs Hi. cbn. split; [|by eapply linked_same_info, linked_insert].
  specialize (Hs (length es)). rewrite lookup_insert_eq in Hs. cbn in Hs.
  destruct (ns' !! length es) as [nd'|]; [|done]. exists nd'. split; [done|].
  cbn in Hs. congruence.
Qed.

(** Linking a fresh node in front of a chain. *)
Lemma insertBefore_chain h k nd :
  brk h = k -> chain (nodes h) None (locs k) None ->
  n_next nd = None -> n_prev nd = None ->
  ensures (insertBefore (snd (alloc h nd)) k (first_or (locs k) None)) (fun h' =>
    brk h' = S k /\ chain (nodes h') None (locs (S k)) None /\
    same_info (<[k := nd]> (nodes h)) (nodes h')).
Proof.
  intros Hb Hc Hnn Hnp. cbn [alloc snd]. rewrite Hb. destruct k as [|k]; cbn [locs first_or].
  - cbn. exists (mkHeap (<[0%nat := nd]> (nodes h)) 1%nat). split; [done|]. cbn.
    split_and!; [done| |done|done]. exists nd. by rewrite lookup_insert_eq.
  - cbn in Hc. destruct Hc as [(rn & Hrn & Hrp & Hrx) Hc]. cbn.
    rewrite (lookup_insert_ne _ (S k) k), Hrn by lia. cbn. rewrite Hrp. cbn.
    eexists. split; [done|]. cbn. split_and!; [done| | | |].
    + exists (set_next (Some k) nd). rewrite lookup_alter_eq, lookup_alter_ne, lookup_insert_eq by lia.
      cbn. by rewrite Hnp.
    + exists (set_prev (Some (S k)) rn).
      rewrite lookup_alter_ne, lookup_alter_eq, lookup_insert_ne, Hrn by lia. done.
    + eapply chain_frame, Hc. intros y Hy%elem_of_locs.
      by rewrite !lookup_alter_ne, lookup_insert_ne by lia.
    + eapply same_info_trans; by apply same_info_alter.
Qed.

Lemma link_entries_spec es :
  ensures (foldr link_entry (Ret (None, ∅, empty_heap)) es) (fun '(root, mtch, h) =>
    brk h = length es /\ root = first_or (locs (length es)) None /\
    chain (nodes h) None (locs (length es)) None /\ linked (nodes h) es /\
    (forall d, mtch !! d = find_return es d)).
Proof.
  induction es as [|e es IH]; cbn [foldr].
  - apply ensures_ret. cbn. split_and!; [done..|]. intros d. apply lookup_empty.
  - unfold link_entry at 1. eapply ensures_bind; [exact IH|]. clear IH.
    intros [[root mtch] h] (Hb & -> & Hc & Hl & Hm). cbn [length].
    destruct (kind e) eqn:Ek; cbn [alloc].
    + rewrite Hm. set (nd := mkNode (Some (value e)) (find_return es (id e)) (id e) None None).
      rewrite Hb. eapply ensures_bind.
      { pose proof (insertBefore_chain h (length es) nd Hb Hc eq_refl eq_refl) as Hi.
        cbn [alloc snd] in Hi. rewrite Hb in Hi. exact Hi. }
      intros h' (Hb' & Hc' & Hs). apply ensures_ret. split_and!; [done..| |].
      * eapply linked_cons; [done | exact Hs|]. by rewrite Ek.
      * intros d. cbn. rewrite Ek, decide_False by naive_solver. apply Hm.
    + set (nd := mkNode (Some (value e)) None (id e) None None).
      rewrite Hb. eapply ensures_bind.
      { pose proof (insertBefore_chain h (length es) nd Hb Hc eq_refl eq_refl) as Hi.
        cbn [alloc snd] in Hi. rewrite Hb in Hi. exact Hi. }
      intros h' (Hb' & Hc' & Hs). apply ensures_ret. split_and!; [done..| |].
      * eapply linked_cons; [done | exact Hs|]. by rewrite Ek.
      * intros d. cbn. rewrite Ek, lookup_insert. repeat case_decide; naive_solver.
Qed.

Lemma length_loop_chain fuel h prv xs l :
  chain (nodes h) prv xs None -> (length xs <= fuel)%nat ->
  length_loop fuel h (first_or xs None) l = Ret (l + Z.of_nat (length xs)).
Proof.
  revert fuel prv l. induction xs as [|x xs IH]; intros fuel prv l Hc Hf.
  - cbn. destruct fuel; cbn; f_equal; lia.
  - cbn in Hc. destruct Hc as [(n & Hn & _ & Hx) Hc]. cbn in Hf.
    destruct fuel as [|fuel]; [lia|]. cbn. rewrite Hn. cbn.
    replace (n_next n) with (first_or xs None) by by destruct xs.
    rewrite (IH fuel (Some x) (l + 1)) by (done || lia). f_equal. cbn [length]. lia.
Qed.

End linked.
