(* ===== verification/Checker.v ===== *)
(** * The search for a linearization (src/src/porcupine/checker.go)

    [checkSingle] is translated statement by statement: the loop state is
    [search], one pass through the loop body is [check_iter], and
    [check_loop] runs it.  The [kill] flag that another goroutine may set is
    an oracle that says, for each iteration, what the atomic load returns.
    [checkParallel] runs one search per partition; the order in which the
    results arrive and the timeout are the list of events [arrival]. *)

From S2P Require Import Prelude Bitset PorcModel Linked.

Inductive CheckResult : Set := Unknown | Ok | Illegal.

#[global] Instance CheckResult_eq_dec : EqDecision CheckResult.
Proof. solve_decision. Defined.

(** [uint(i)] of an [int]. *)
Definition to_uint (i : Z) : Z := i mod 2 ^ 64.

(** A pointer to a slice variable: the identity of the variable and the slice. *)
Abbreviation seq_ptr := (nat * list Z)%type.

Section checker.
Context {I O St : Type} `{!EqDecision St}.
Implicit Types (model : Model I O St) (h : heap I O).

Record cacheEntry := mkCacheEntry { ce_linearized : bitset; ce_state : St }.
Record callsEntry := mkCallsEntry { cs_entry : loc; cs_state : St }.

Fixpoint cacheContains_loop model (bucket : list cacheEntry) (entry : cacheEntry) : outcome bool :=
  match bucket with
  | [] => Ret false
  | elem :: bucket =>
      if equals (ce_linearized entry) (ce_linearized elem) then
        eq ← call_fn (Equal model) (ce_state entry);
        if eq (ce_state elem) : bool then Ret true else cacheContains_loop model bucket entry
      else cacheContains_loop model bucket entry
  end.

Definition cacheContains model (cache : gmap Z (list cacheEntry)) (entry : cacheEntry) : outcome bool :=
  cacheContains_loop model (default [] (cache !! hash (ce_linearized entry))) entry.

Record search := mkSearch {
  s_heap : heap I O;
  s_entry : option loc;
  s_state : St;
  s_linearized : bitset;
  s_cache : gmap Z (list cacheEntry);
  s_calls : list callsEntry;
  s_longest : list (option seq_ptr);
  s_fresh : nat;
}.

(** [for i, v := range calls { seq[i] = v.entry.id }]. *)
Fixpoint call_ids h (calls : list callsEntry) : outcome (list Z) :=
  match calls with
  | [] => Ret []
  | v :: calls =>
      n ← deref h (Some (cs_entry v));
      rest ← call_ids h calls;
      Ret (n_id n :: rest)
  end.

(** The loop that records the current calls as the longest linearization of
    each of them; [seq] is created lazily and shared. *)
Fixpoint longest_loop h (calls vs : list callsEntry) (fresh : nat) (seq : option (list Z))
    (longest : list (option seq_ptr)) : outcome (list (option seq_ptr)) :=
  match vs with
  | [] => Ret longest
  | v :: vs =>
      n ← deref h (Some (cs_entry v));
      cur ← idx longest (n_id n);
      let better := match cur with
                    | None => true
                    | Some (_, l) => bool_decide (length l < length calls)%nat
                    end in
      if better then
        s ← match seq with Some s => Ret s | None => call_ids h calls end;
        longest ← idx_set longest (n_id n) (Some (fresh, s));
        longest_loop h calls vs fresh (Some s) longest
      else longest_loop h calls vs fresh seq longest
  end.

(** One evaluation of the loop condition and, when it holds, one pass through
    the body; [inr] is a return of [checkSingle]. *)
Definition check_iter model (computePartial killed : bool) (headEntry : loc) (s : search) :
    outcome (search + bool * list (option seq_ptr)) :=
  let h := s_heap s in
  hd ← deref h (Some headEntry);
  match n_next hd with
  | None =>
      seq ← call_ids h (s_calls s);
      Ret (inr (true, replicate (length (s_longest s)) (Some (s_fresh s, seq))))
  | Some _ =>
      if killed then Ret (inr (false, s_longest s)) else
      en ← deref h (s_entry s);
      match n_match en with
      | Some _ =>
          matching ← deref h (n_match en);
          input ← as_input (n_value en);
          output ← as_output (n_value matching);
          let '(ok, newState) := Step model (s_state s) input output in
          if ok : bool then
            newLinearized ← set (clone (s_linearized s)) (to_uint (n_id en));
            let newCacheEntry := mkCacheEntry newLinearized newState in
            seen ← cacheContains model (s_cache s) newCacheEntry;
            if negb seen then
              let hsh := hash newLinearized in
              let cache := <[hsh := default [] (s_cache s !! hsh) ++ [newCacheEntry]]> (s_cache s) in
              x ← match s_entry s with Some x => Ret x | None => Panic NilDeref end;
              let calls := s_calls s ++ [mkCallsEntry x (s_state s)] in
              linearized ← set (s_linearized s) (to_uint (n_id en));
              h ← lift h x;
              hd ← deref h (Some headEntry);
              Ret (inl (mkSearch h (n_next hd) newState linearized cache calls
                          (s_longest s) (s_fresh s)))
            else
              Ret (inl (mkSearch h (n_next en) (s_state s) (s_linearized s) (s_cache s)
                          (s_calls s) (s_longest s) (s_fresh s)))
          else
            Ret (inl (mkSearch h (n_next en) (s_state s) (s_linearized s) (s_cache s)
                        (s_calls s) (s_longest s) (s_fresh s)))
      | None =>
          match last (s_calls s) with
          | None => Ret (inr (false, s_longest s))
          | Some callsTop =>
              longest ← if computePartial
                        then longest_loop h (s_calls s) (s_calls s) (s_fresh s) None (s_longest s)
                        else Ret (s_longest s);
              let x := cs_entry callsTop in
              en ← deref h (Some x);
              linearized ← clear (s_linearized s) (to_uint (n_id en));
              let calls := take (length (s_calls s) - 1) (s_calls s) in
              h ← unlift h x;
              en ← deref h (Some x);
              Ret (inl (mkSearch h (n_next en) (cs_state callsTop) linearized (s_cache s)
                          calls longest (S (s_fresh s))))
          end
      end
  end.

Fixpoint check_loop model (computePartial : bool) (kill : nat -> bool) (headEntry : loc)
    (fuel it : nat) (s : search) : outcome (bool * list (option seq_ptr)) :=
  match fuel with
  | 0%nat => NoFuel
  | S fuel =>
      r ← check_iter model computePartial (kill it) headEntry s;
      match r with
      | inl s => check_loop model computePartial kill headEntry fuel (S it) s
      | inr res => Ret res
      end
  end.

(** A bound on the number of iterations that explore [k] pending operations. *)
Fixpoint search_bound (k : nat) : nat :=
  match k with
  | 0%nat => 1
  | S k => 2 * S k * (1 + search_bound k) + 1
  end%nat.

(** The state in which the loop starts. *)
Definition check_init model (history : list (entry I O)) : outcome (loc * search) :=
  '(root, h) ← makeLinkedEntries empty_heap history;
  len ← list_length h root;
  let n := len / 2 in
  let '(headEntry, h) := alloc h (mkNode None None (-1) None None) in
  h ← insertBefore h headEntry root;
  Ret (headEntry, mkSearch h root (Init model) (newBitset (to_uint n)) ∅ []
                    (replicate (Z.to_nat n) None) 0%nat).

Definition checkSingle model (history : list (entry I O)) (computePartial : bool)
    (kill : nat -> bool) : outcome (bool * list (option seq_ptr)) :=
  '(headEntry, s) ← check_init model history;
  check_loop model computePartial kill headEntry
    (S (search_bound (length (s_longest s)))) 0 s.

(** ** Running one search per partition *)

(** What the select of [checkParallel] receives: the result of a partition's
    goroutine, or the timer. *)
Inductive arrival : Set := Result (i : nat) | TimerFires.

Record linearizationInfo := mkInfo {
  li_history : list (list (entry I O));
  li_partials : list (list (list Z));
}.

(** The receive loop: the value of [ok], whether the timer fired, and the
    results received when the loop is left; [None] while it waits. *)
Fixpoint receive_loop (n : nat) (computeInfo timer : bool) (results : list bool)
    (evs : list arrival) (count : nat) (ok : bool) : option (bool * bool * nat) :=
  match evs with
  | [] => None
  | Result i :: evs =>
      let count := S count in
      let ok := ok && default false (results !! i) in
      if negb ok && negb computeInfo then Some (ok, false, count)
      else if bool_decide (n <= count)%nat then Some (ok, false, count)
      else receive_loop n computeInfo timer results evs count ok
  | TimerFires :: evs =>
      if timer then Some (ok, true, count)
      else receive_loop n computeInfo timer results evs count ok
  end.

(** The distinct slice variables of [longest], in the order a map range
    visits them. *)
Fixpoint dedup_ptrs (seen : list nat) (l : list (option seq_ptr)) : list seq_ptr :=
  match l with
  | [] => []
  | None :: l => dedup_ptrs seen l
  | Some p :: l =>
      if bool_decide (p.1 ∈ seen) then dedup_ptrs seen l else p :: dedup_ptrs (p.1 :: seen) l
  end.

Definition partials_of `{!RangeOrder seq_ptr} (longest : list (option seq_ptr)) : list (list Z) :=
  snd <$> range_order (dedup_ptrs [] longest).

(** A result received in the loop was computed while [kill] was unset.  When
    the timer fires, [kill] is set at some iteration of each search that still
    runs, which the oracle [kill] describes; with [computeInfo] the results of
    these searches are waited for, and only their partial linearizations are
    used. *)
Definition checkParallel `{!RangeOrder seq_ptr} model (history : list (list (entry I O)))
    (computeInfo : bool) (timeout : Z) (evs : list arrival) (kill : nat -> nat -> bool) :
    outcome (option (CheckResult * linearizationInfo)) :=
  rs ← mapM (fun sub => checkSingle model sub computeInfo (fun _ => false)) history;
  match receive_loop (length history) computeInfo (bool_decide (0 < timeout)) (fst <$> rs) evs 0 true with
  | None => Ret None
  | Some (ok, timedOut, _) =>
      info ← if computeInfo then
               longest ← mapM (fun '(i, sub) =>
                   checkSingle model sub computeInfo (if timedOut then kill i else fun _ => false))
                 (imap pair history);
               Ret (mkInfo history (partials_of ∘ snd <$> longest))
             else Ret (mkInfo [] []);
      let result := if negb ok then Illegal else if timedOut then Unknown else Ok in
      Ret (Some (result, info))
  end.

(** ** Entry points *)

Context `{!Format I, !Format O, !Format St}.

Definition checkEvents `{!RangeOrder seq_ptr} model (history : list (Event I O)) (verbose : bool)
    (timeout : Z) (evs : list arrival) (kill : nat -> nat -> bool) :
    outcome (option (CheckResult * linearizationInfo)) :=
  let model := fillDefault model in
  partitions ← call_fn (PartitionEvent model) history;
  let l := (fun subhistory => convertEntries (renumber subhistory)) <$> partitions in
  checkParallel model l verbose timeout evs kill.

Definition checkOperations `{!RangeOrder seq_ptr} `{!GoSort (@Less I O)} model
    (history : list (Operation I O)) (verbose : bool)
    (timeout : Z) (evs : list arrival) (kill : nat -> nat -> bool) :
    outcome (option (CheckResult * linearizationInfo)) :=
  let model := fillDefault model in
  partitions ← call_fn (Partition model) history;
  let l := makeEntries <$> partitions in
  checkParallel model l verbose timeout evs kill.

(** [CheckOperations] of src/src/porcupine/porcupine.go. *)
Definition CheckOperations `{!RangeOrder seq_ptr} `{!GoSort (@Less I O)} model
    (history : list (Operation I O)) (evs : list arrival) (kill : nat -> nat -> bool) :
    outcome (option bool) :=
  r ← checkOperations model history false 0 evs kill;
  Ret (match r with Some (res, _) => Some (bool_decide (res = Ok)) | None => None end).

Definition CheckOperationsTimeout `{!RangeOrder seq_ptr} `{!GoSort (@Less I O)} model
    (history : list (Operation I O)) (timeout : Z) (evs : list arrival) (kill : nat -> nat -> bool) :
    outcome (option CheckResult) :=
  r ← checkOperations model history false timeout evs kill;
  Ret (match r with Some (res, _) => Some res | None => None end).

Definition CheckOperationsVerbose `{!RangeOrder seq_ptr} `{!GoSort (@Less I O)} model
    (history : list (Operation I O)) (timeout : Z) (evs : list arrival) (kill : nat -> nat -> bool) :
    outcome (option (CheckResult * linearizationInfo)) :=
  checkOperations model history true timeout evs kill.

Definition CheckEvents `{!RangeOrder seq_ptr} model
    (history : list (Event I O)) (evs : list arrival) (kill : nat -> nat -> bool) :
    outcome (option bool) :=
  r ← checkEvents model history false 0 evs kill;
  Ret (match r with Some (res, _) => Some (bool_decide (res = Ok)) | None => None end).

Definition CheckEventsTimeout `{!RangeOrder seq_ptr} model
    (history : list (Event I O)) (timeout : Z) (evs : list arrival) (kill : nat -> nat -> bool) :
    outcome (option CheckResult) :=
  r ← checkEvents model history false timeout evs kill;
  Ret (match r with Some (res, _) => Some res | None => None end).

Definition CheckEventsVerbose `{!RangeOrder seq_ptr} model
    (history : list (Event I O)) (timeout : Z) (evs : list arrival) (kill : nat -> nat -> bool) :
    outcome (option (CheckResult * linearizationInfo)) :=
  checkEvents model history true timeout evs kill.
End checker.

Arguments cacheEntry : clear implicits.
Arguments callsEntry : clear implicits.
Arguments search : clear implicits.
