(* ===== verification/SearchProof.v ===== *)
(** * Correctness of the search loop of [checkSingle]

    The loop is related to a declarative search: [lin S st] says that the
    operations that are not in [S] can be linearized one after the other from
    state [st], each one being a call before the first pending return.  The
    invariant of the loop relates the store to the calls that are lifted out
    of it, the bitset to the set of their ids, and says of the cache that each
    of its configurations is on the current path or has no linearization.
    The loop ends within [search_bound] iterations, with [true] exactly when
    [lin] holds initially. *)

From S2P Require Import Prelude Bitset PorcModel Linked Checker.

Section search_proof.
Context {I O St : Type} `{!EqDecision St}.
Context (model : Model I O St) (eqv : St -> St -> bool).
Context (n : nat) (h0 : heap I O) (hd : loc) (L0 : list loc).

Definition idof (x : loc) : Z :=
  match nodes h0 !! x with Some nd => n_id nd | None => -1 end.
Definition mt (x : loc) : option loc := nodes h0 !! x ≫= n_match.
Definition is_call (x : loc) : Prop := is_Some (mt x).

Definition val (x : loc) : option (I + O) := nodes h0 !! x ≫= n_value.

(** Applying the call at [x] with the output of its return. *)
Definition stp (st : St) (x : loc) : bool * St :=
  match val x, mt x ≫= val with
  | Some (inl i), Some (inr o) => Step model st i o
  | _, _ => (false, st)
  end.

(** What the store built from a well-formed history looks like. *)
Record static : Prop := {
  static_nodup : NoDup (hd :: L0);
  static_chain : chain (nodes h0) None (hd :: L0) None;
  static_length : length L0 = (2 * n)%nat;
  static_id : forall x, x ∈ L0 -> 0 <= idof x < Z.of_nat n;
  static_call : forall x m, x ∈ L0 -> mt x = Some m ->
    idof m = idof x /\ mt m = None /\
    (exists A B, L0 = A ++ x :: B /\ m ∈ B) /\
    (exists i o, val x = Some (inl i) /\ val m = Some (inr o));
  static_ret : forall m, m ∈ L0 -> mt m = None -> exists x, x ∈ L0 /\ mt x = Some m;
  static_unique : forall x y, x ∈ L0 -> y ∈ L0 -> idof x = idof y ->
    x = y \/ mt x = Some y \/ mt y = Some x;
}.

(** The nodes of the operations that are not in [S]. *)
Definition rem (S : gset Z) : list loc := filter (fun x => idof x ∉ S) L0.

(** The operations outside [S] have a linearization from [st]. *)
Inductive lin : gset Z -> St -> Prop :=
  | lin_done S st : rem S = [] -> lin S st
  | lin_call S st A x B st' :
      rem S = A ++ x :: B -> Forall is_call A -> is_call x ->
      stp st x = (true, st') -> lin ({[idof x]} ∪ S) st' -> lin S st.

(** A level of the search: the configuration from which [f_x] was linearized,
    and the pending nodes before and after it. *)
Record frame := mkFrame {
  f_S : gset Z;
  f_st : St;
  f_A : list loc;
  f_x : loc;
  f_B : list loc;
}.

Inductive path : list frame -> gset Z -> St -> Prop :=
  | path_nil : path [] ∅ (Init model)
  | path_cons fr S st A x B st' :
      path fr S st -> rem S = A ++ x :: B -> Forall is_call A -> is_call x ->
      stp st x = (true, st') ->
      path (mkFrame S st A x B :: fr) ({[idof x]} ∪ S) st'.

(** The store after the calls of the frames have been lifted. *)
Fixpoint heap_of (fr : list frame) : heap I O :=
  match fr with
  | [] => h0
  | f :: fr => lifted (heap_of fr) (f_x f) (default 0%nat (mt (f_x f)))
  end.

(** States that [Equal] identifies allow the same steps, to states it
    identifies again. *)
Definition equal_sound : Prop :=
  forall st1 st2 i o st1', eqv st1 st2 = true -> Step model st1 i o = (true, st1') ->
    exists st2', Step model st2 i o = (true, st2') /\ eqv st1' st2' = true.

(** ** The cache *)

Definition in_cache (cache : gmap Z (list (cacheEntry St))) (S : gset Z) (st : St) : Prop :=
  exists hsh bucket ce, cache !! hsh = Some bucket /\ ce ∈ bucket /\
    positions (ce_linearized ce) = S /\ ce_state ce = st.

Definition cache_ok (len : nat) (cache : gmap Z (list (cacheEntry St))) : Prop :=
  forall hsh bucket ce, cache !! hsh = Some bucket -> ce ∈ bucket ->
    hash (ce_linearized ce) = hsh /\ bitset_ok (ce_linearized ce) /\
    length (ce_linearized ce) = len.

(** The call at [a] need not be tried again from [(S, st)]. *)
Definition closed cache (S : gset Z) (st : St) (a : loc) : Prop :=
  forall st', stp st a = (true, st') ->
    exists st'', in_cache cache ({[idof a]} ∪ S) st'' /\ (st'' = st' \/ eqv st' st'' = true).

Definition on_path (fr : list frame) (S : gset Z) (st : St) (S' : gset Z) (st' : St) : Prop :=
  (S' = S /\ st' = st) \/ exists f, f ∈ fr /\ S' = f_S f /\ st' = f_st f.

Fixpoint cached_path cache (fr : list frame) (S : gset Z) (st : St) : Prop :=
  match fr with
  | [] => True
  | f :: fr => in_cache cache S st /\ cached_path cache fr (f_S f) (f_st f)
  end.

(** ** The invariant and the measure *)

Definition calls_of (fr : list frame) : list (callsEntry St) :=
  reverse ((fun f => mkCallsEntry (f_x f) (f_st f)) <$> fr).
Definition ids_of (fr : list frame) : list Z := reverse ((fun f => idof (f_x f)) <$> fr).

(** A recorded partial linearization is the ids of a path, and not empty. *)
Definition partial_ok (p : option seq_ptr) : Prop :=
  match p with
  | None => True
  | Some (_, l) => exists fr S st, path fr S st /\ fr <> [] /\ l = ids_of fr
  end.

Record inv (fr : list frame) (A X : list loc) (s : search I O St) : Prop := {
  inv_path : path fr (positions (s_linearized s)) (s_state s);
  inv_bits : bitset_ok (s_linearized s);
  inv_bits_len : length (s_linearized s) = length (newBitset (Z.of_nat n));
  inv_heap : s_heap s = heap_of fr;
  inv_rem : rem (positions (s_linearized s)) = A ++ X;
  inv_entry : s_entry s = first_or X None;
  inv_A : Forall is_call A;
  inv_calls : s_calls s = calls_of fr;
  inv_closed : Forall (closed (s_cache s) (positions (s_linearized s)) (s_state s)) A;
  inv_frames : Forall (fun f => Forall (closed (s_cache s) (f_S f) (f_st f)) (f_A f)) fr;
  inv_cache : cache_ok (length (newBitset (Z.of_nat n))) (s_cache s);
  inv_dead : equal_sound -> forall S st, in_cache (s_cache s) S st ->
    ~ lin S st \/ on_path fr (positions (s_linearized s)) (s_state s) S st;
  inv_cached : cached_path (s_cache s) fr (positions (s_linearized s)) (s_state s);
  inv_longest_len : length (s_longest s) = n;
  inv_longest : Forall partial_ok (s_longest s);
}.

Definition weight (r k : nat) : nat := (r * (1 + search_bound (k - 1)) + 1)%nat.

Fixpoint frames_weight (fr : list frame) : nat :=
  match fr with
  | [] => 0
  | f :: fr => weight (length (f_B f)) (n - length fr) + frames_weight fr
  end%nat.

Definition measure (fr : list frame) (X : list loc) : nat :=
  (weight (length X) (n - length fr) + frames_weight fr)%nat.

Lemma rem_empty : rem ∅ = L0.
Proof. apply list_filter_all, Forall_forall. set_solver. Qed.

Lemma weight_full k : weight (2 * k) k = search_bound k.
Proof. unfold weight. destruct k as [|k]; [done|]. 
  replace (S k - 1)%nat with k by lia. done.
Qed.

Lemma weight_succ r k : weight (S r) k = (weight r k + 1 + search_bound (k - 1))%nat.
Proof. unfold weight. lia. Qed.

Lemma cache_ok_empty len : cache_ok len ∅.
Proof. intros hsh bucket ce H. by rewrite lookup_empty in H. Qed.

Lemma in_cache_empty S st : ~ in_cache ∅ S st.
Proof. intros (? & ? & ? & H & _). by rewrite lookup_empty in H. Qed.

Hypothesis Hst : static.
Hypothesis HEqual : Equal model = Some eqv.
Hypothesis Hn : Z.of_nat n < 2 ^ 63.

(** ** The pending nodes *)

Lemma elem_of_rem S x : x ∈ rem S <-> x ∈ L0 /\ idof x ∉ S.
Proof. unfold rem. rewrite list_elem_of_filter. tauto. Qed.

Lemma NoDup_rem S : NoDup (hd :: rem S).
Proof.
  pose proof (static_nodup Hst) as [Hh Hnd]%NoDup_cons. apply NoDup_cons.
  split; [rewrite elem_of_rem; tauto | by apply NoDup_filter].
Qed.

(** Linearizing a pending call removes exactly it and its return. *)
Lemma rem_step S x m :
  x ∈ rem S -> mt x = Some m ->
  rem ({[idof x]} ∪ S) = filter (fun y => y <> x /\ y <> m) (rem S).
Proof.
  intros [Hx Hxs]%elem_of_rem Hm. unfold rem. rewrite list_filter_filter.
  apply list_filter_ext. intros y Hy.
  destruct (static_call Hst x m Hx Hm) as (Hid & Hmm & _ & _).
  rewrite not_elem_of_union, not_elem_of_singleton. split.
  - intros [Hne Hys]. split_and!; [by intros -> | intros ->; congruence | done].
  - intros [[Hyx Hym] Hys]. split; [|done]. intros Heq.
    destruct (static_unique Hst y x Hy Hx Heq) as [?|[Hyx'|?]]; [done| |congruence].
    destruct (static_call Hst y x Hy Hyx') as (_ & Hnone & _). congruence.
Qed.

Lemma match_pending S x m :
  x ∈ rem S -> mt x = Some m -> m ∈ rem S /\ x <> m.
Proof.
  intros [Hx Hxs]%elem_of_rem Hm.
  destruct (static_call Hst x m Hx Hm) as (Hid & Hmm & (A & B & HL & HmB) & _).
  split; [|intros ->; congruence]. apply elem_of_rem. rewrite Hid. split; [|done].
  rewrite HL. set_solver.
Qed.

Lemma length_remove_two (xs : list loc) (x m : loc) :
  NoDup xs -> x ∈ xs -> m ∈ xs -> x <> m ->
  length xs = S (S (length (filter (fun y => y <> x /\ y <> m) xs))).
Proof.
  intros Hnd Hx Hm Hne.
  assert (x :: m :: filter (fun y => y <> x /\ y <> m) xs ≡ₚ xs) as Hp.
  { apply NoDup_Permutation; [|done|].
    - repeat apply NoDup_cons_2; [| |by apply NoDup_filter];
        rewrite ?elem_of_cons, list_elem_of_filter; naive_solver.
    - intros y. rewrite !elem_of_cons, list_elem_of_filter.
      destruct (decide (y = x)), (decide (y = m)); naive_solver. }
  symmetry. apply (Permutation_length Hp).
Qed.

Lemma path_sizes fr S st :
  path fr S st -> length (rem S) = (2 * (n - length fr))%nat /\ (length fr <= n)%nat /\
    size S = length fr.
Proof.
  induction 1 as [|fr S st A x B st' Hp (IH1 & IH2 & IH3) Hr HA [m Hm] Hs].
  - rewrite rem_empty, size_empty. cbn. rewrite (static_length Hst). lia.
  - assert (x ∈ rem S) as Hx by (rewrite Hr; set_solver).
    destruct (match_pending _ _ _ Hx Hm) as [Hmr Hne].
    pose proof (NoDup_rem S) as [_ Hnd]%NoDup_cons.
    pose proof (length_remove_two _ _ _ Hnd Hx Hmr Hne) as Hl.
    rewrite <- (rem_step _ _ _ Hx Hm) in Hl. cbn [length].
    rewrite size_union, size_singleton by (apply elem_of_rem in Hx as [_ Hx]; set_solver).
    lia.
Qed.
(** The return of a pending call is pending after it. *)
Lemma match_after S A x B m :
  rem S = A ++ x :: B -> mt x = Some m -> m ∈ B.
Proof.
  intros Hr Hm. assert (x ∈ rem S) as Hx by (rewrite Hr; set_solver).
  destruct (match_pending _ _ _ Hx Hm) as [Hmr _].
  apply elem_of_rem in Hx as [Hx Hxs]. apply elem_of_rem in Hmr as [_ Hms].
  destruct (static_call Hst x m Hx Hm) as (_ & _ & (A0 & B0 & HL & HmB) & _).
  pose proof (NoDup_rem S) as [_ Hnd]%NoDup_cons.
  assert (rem S = filter (fun y => idof y ∉ S) A0 ++ x :: filter (fun y => idof y ∉ S) B0) as Hr'.
  { unfold rem. rewrite HL, filter_app, filter_cons, decide_True by done. done. }
  rewrite Hr in Hr', Hnd. destruct (split_unique _ _ _ _ _ Hnd Hr') as [_ ->].
  by apply list_elem_of_filter.
Qed.

(** ** The store along a path *)

Lemma node_fields ns x nd :
  same_info (nodes h0) ns -> ns !! x = Some nd ->
  n_id nd = idof x /\ n_match nd = mt x /\ n_value nd = val x.
Proof.
  intros Hi Hx. specialize (Hi x). rewrite Hx in Hi. unfold idof, mt, val.
  destruct (nodes h0 !! x) as [nd0|]; [|done]. cbn in *. unfold info in Hi. naive_solver.
Qed.

Lemma lift_pending h S x m :
  chain (nodes h) None (hd :: rem S) None -> same_info (nodes h0) (nodes h) ->
  x ∈ rem S -> mt x = Some m ->
  lift h x = Ret (lifted h x m) /\ unlift (lifted h x m) x = Ret h /\
  chain (nodes (lifted h x m)) None (hd :: rem ({[idof x]} ∪ S)) None /\
  same_info (nodes h0) (nodes (lifted h x m)).
Proof.
  intros Hc Hi Hx Hm. destruct (match_pending _ _ _ Hx Hm) as [Hmr Hne].
  pose proof Hx as (A & B & Hr)%list_elem_of_split.
  pose proof (match_after _ _ _ _ _ Hr Hm) as HmB.
  assert (exists nd, nodes h !! x = Some nd /\ n_next nd = first_or B None) as (nd & Hnd & Hnx).
  { rewrite Hr in Hc. change (hd :: A ++ x :: B) with ((hd :: A) ++ x :: B) in Hc.
    destruct (chain_node _ _ _ _ _ _ Hc) as (nd & ? & _ & ?). eauto. }
  destruct (node_fields _ _ _ Hi Hnd) as (_ & Hmt & _). rewrite Hm in Hmt.
  destruct (lift_chain h hd (rem S) x m nd) as (H1 & H2 & H3 & H4);
    [apply NoDup_rem | done | done | done | done | done | done | |].
  { rewrite Hnx. destruct B; [by apply not_elem_of_nil in HmB | done]. }
  split_and!; [done | done | by rewrite (rem_step _ _ _ Hx Hm) |].
  by eapply same_info_trans.
Qed.

Lemma path_heap fr S st :
  path fr S st ->
  chain (nodes (heap_of fr)) None (hd :: rem S) None /\ same_info (nodes h0) (nodes (heap_of fr)).
Proof.
  induction 1 as [|fr S st A x B st' Hp [IHc IHi] Hr HA [m Hm] Hs]; cbn [heap_of f_x].
  - rewrite rem_empty. split; [apply (static_chain Hst) | apply same_info_refl].
  - rewrite Hm. cbn [default from_option]. 
    assert (x ∈ rem S) as Hx by (rewrite Hr; set_solver).
    destruct (lift_pending _ _ _ _ IHc IHi Hx Hm) as (_ & _ & H3 & H4). done.
Qed.

(** The node of a pending position, seen from the current store. *)
Lemma pending_node fr S st A x B :
  path fr S st -> rem S = A ++ x :: B ->
  exists nd, nodes (heap_of fr) !! x = Some nd /\ n_next nd = first_or B None /\
    n_id nd = idof x /\ n_match nd = mt x /\ n_value nd = val x.
Proof.
  intros Hp Hr. destruct (path_heap _ _ _ Hp) as [Hc Hi]. rewrite Hr in Hc.
  change (hd :: A ++ x :: B) with ((hd :: A) ++ x :: B) in Hc.
  destruct (chain_node _ _ _ _ _ _ Hc) as (nd & Hnd & _ & Hnx).
  destruct (node_fields _ _ _ Hi Hnd) as (? & ? & ?). eauto 10.
Qed.

Lemma head_node fr S st :
  path fr S st ->
  exists nd, nodes (heap_of fr) !! hd = Some nd /\ n_next nd = first_or (rem S) None.
Proof.
  intros Hp. destruct (path_heap _ _ _ Hp) as [Hc _].
  destruct (chain_node _ _ [] _ _ _ Hc) as (nd & ? & _ & ?). eauto.
Qed.

(** A call that was lifted out of the store keeps its node. *)
Lemma lifted_node fr S st x :
  path fr S st -> x ∈ L0 ->
  exists nd, nodes (heap_of fr) !! x = Some nd /\
    n_id nd = idof x /\ n_match nd = mt x /\ n_value nd = val x.
Proof.
  intros Hp Hx. destruct (path_heap _ _ _ Hp) as [_ Hi].
  assert (exists nd0, nodes h0 !! x = Some nd0) as [nd0 Hnd0].
  { pose proof (static_chain Hst) as Hc. apply list_elem_of_split in Hx as (A & B & HL).
    rewrite HL in Hc. change (hd :: A ++ x :: B) with ((hd :: A) ++ x :: B) in Hc.
    destruct (chain_node _ _ _ _ _ _ Hc) as (nd & ? & _). eauto. }
  pose proof (Hi x) as Hix. rewrite Hnd0 in Hix.
  destruct (nodes (heap_of fr) !! x) as [nd|] eqn:E; [|done]. exists nd. split; [done|].
  by apply node_fields with (nodes (heap_of fr)).
Qed.

Lemma path_frame_in fr S st f : path fr S st -> f ∈ fr -> f_x f ∈ L0 /\ idof (f_x f) ∈ S.
Proof.
  induction 1 as [|fr S st A x B st' Hp IH Hr HA Hc Hs]; [by intros ?%not_elem_of_nil|].
  intros [->|Hf]%elem_of_cons; cbn.
  - split; [|set_solver]. assert (x ∈ rem S) as [? _]%elem_of_rem by (rewrite Hr; set_solver). done.
  - destruct (IH Hf). split; [done | set_solver].
Qed.

(** ** Paths and linearizations *)

Lemma path_lin fr S st : path fr S st -> lin S st -> lin ∅ (Init model).
Proof. induction 1; [done|]. intros Hl. apply IHpath. by eapply lin_call. Qed.

Lemma path_frame_size fr S st f : path fr S st -> f ∈ fr -> (size (f_S f) < size S)%nat.
Proof.
  induction 1 as [|fr S st A x B st' Hp IH Hr HA Hc Hs]; [by intros ?%not_elem_of_nil|].
  assert (size ({[idof x]} ∪ S) = (1 + size S)%nat) as Hsz.
  { assert (x ∈ rem S) as [_ ?]%elem_of_rem by (rewrite Hr; set_solver).
    rewrite size_union, size_singleton by set_solver. done. }
  intros [->|Hf]%elem_of_cons; cbn; [lia|]. specialize (IH Hf). lia.
Qed.

Lemma path_bottom S st : path [] S st -> S = ∅ /\ st = Init model.
Proof. by inversion 1. Qed.

(** ** The cache *)

Lemma cacheContains_spec len cache bl st :
  cache_ok len cache -> bitset_ok bl -> length bl = len ->
  exists b, cacheContains model cache (mkCacheEntry bl st) = Ret b /\
    (b = true <-> exists st'', in_cache cache (positions bl) st'' /\ eqv st st'' = true).
Proof.
  intros Hok Hbl Hlen. unfold cacheContains. cbn [ce_linearized].
  assert (forall bucket, (forall ce, ce ∈ bucket ->
      bitset_ok (ce_linearized ce) /\ length (ce_linearized ce) = len) ->
    exists b, cacheContains_loop model bucket (mkCacheEntry bl st) = Ret b /\
    (b = true <-> exists ce, ce ∈ bucket /\ positions (ce_linearized ce) = positions bl /\
      eqv st (ce_state ce) = true)) as Hloop.
  { induction bucket as [|ce bucket IH]; intros Hb; cbn.
    - exists false. split; [done|]. split; [done|]. by intros (? & ?%not_elem_of_nil & _).
    - destruct IH as (b & Hbb & Hiff); [set_solver|].
      destruct (Hb ce ltac:(set_solver)) as [Hce Hcl].
      destruct (equals bl (ce_linearized ce)) eqn:E.
      + rewrite HEqual. cbn. apply equals_true in E.
        destruct (eqv st (ce_state ce)) eqn:E2.
        * exists true. split; [done|]. split; [|done]. intros _. exists ce.
          split; [set_solver|]. by rewrite <- E.
        * exists b. split; [done|]. rewrite Hiff. split.
          -- intros (ce' & ? & ?). exists ce'. set_solver.
          -- intros (ce' & [->|?]%elem_of_cons & ? & ?); [congruence | eauto].
      + exists b. split; [done|]. rewrite Hiff. split.
        * intros (ce' & ? & ?). exists ce'. set_solver.
        * intros (ce' & [->|?]%elem_of_cons & Hpos & ?); [|eauto].
          assert (bl = ce_linearized ce) as Heq by (apply positions_inj; (done || congruence)).
          apply equals_true in Heq. congruence. }
  destruct (cache !! hash bl) as [bucket|] eqn:Eb; cbn.
  - destruct (Hloop bucket) as (b & Hb & Hiff).
    { intros ce Hce. destruct (Hok _ _ _ Eb Hce) as (_ & ? & ?). done. }
    exists b. split; [done|]. rewrite Hiff. split.
    + intros (ce & Hce & Hp & Heq). exists (ce_state ce). split; [|done].
      exists (hash bl), bucket, ce. done.
    + intros (st'' & (hsh & bk & ce & Hbk & Hce & Hp & <-) & Heq).
      destruct (Hok _ _ _ Hbk Hce) as (Hh & Hcok & Hcl).
      assert (ce_linearized ce = bl) as Heb by (apply positions_inj; (done || congruence)).
      assert (bk = bucket) as -> by congruence. eauto.
  - exists false. split; [done|]. split; [done|].
    intros (st'' & (hsh & bk & ce & Hbk & Hce & Hp & <-) & Heq).
    destruct (Hok _ _ _ Hbk Hce) as (Hh & Hcok & Hcl).
    assert (ce_linearized ce = bl) as Heb by (apply positions_inj; (done || congruence)). congruence.
Qed.

Definition add_cache (cache : gmap Z (list (cacheEntry St))) (ce : cacheEntry St) :=
  <[hash (ce_linearized ce) := default [] (cache !! hash (ce_linearized ce)) ++ [ce]]> cache.

Lemma in_cache_add cache ce S st :
  in_cache (add_cache cache ce) S st <->
  in_cache cache S st \/ (S = positions (ce_linearized ce) /\ st = ce_state ce).
Proof.
  unfold in_cache, add_cache. set (hc := hash (ce_linearized ce)). split.
  - intros (hsh & bucket & ce' & Hb & Hce & Hp & Hs). rewrite lookup_insert in Hb.
    case_decide; [|left; eauto 10]. subst hsh. injection Hb as <-.
    apply elem_of_app in Hce as [Hce|Hce%list_elem_of_singleton]; [|right; by subst].
    left. destruct (cache !! hc) eqn:E; cbn in Hce; [eauto 10 | by apply not_elem_of_nil in Hce].
  - intros [(hsh & bucket & ce' & Hb & Hce & Hp & Hs)|[-> ->]].
    + destruct (decide (hc = hsh)) as [<-|].
      * exists hc, (bucket ++ [ce]), ce'. rewrite lookup_insert_eq, Hb. set_solver.
      * exists hsh, bucket, ce'. by rewrite lookup_insert_ne.
    + exists hc, (default [] (cache !! hc) ++ [ce]), ce. rewrite lookup_insert_eq. set_solver.
Qed.

Lemma cache_ok_add len cache ce :
  cache_ok len cache -> bitset_ok (ce_linearized ce) -> length (ce_linearized ce) = len ->
  cache_ok len (add_cache cache ce).
Proof.
  intros Hok Hb Hl hsh bucket ce' Hbk Hce. unfold add_cache in Hbk.
  rewrite lookup_insert in Hbk. case_decide as E; [|by eapply Hok].
  injection Hbk as <-. apply elem_of_app in Hce as [Hce|Hce%list_elem_of_singleton]; [|by subst].
  destruct (cache !! hash (ce_linearized ce)) eqn:E2; cbn in Hce; [|by apply not_elem_of_nil in Hce].
  rewrite <- E. by eapply Hok.
Qed.

Lemma closed_mono cache cache' S st a :
  (forall S' st', in_cache cache S' st' -> in_cache cache' S' st') ->
  closed cache S st a -> closed cache' S st a.
Proof. intros Hm Hc st' Hs. destruct (Hc st' Hs) as (st'' & ? & ?). eauto. Qed.

Lemma cached_path_mono cache cache' fr S st :
  (forall S' st', in_cache cache S' st' -> in_cache cache' S' st') ->
  cached_path cache fr S st -> cached_path cache' fr S st.
Proof.
  intros Hm. revert S st. induction fr; intros S st; cbn; [done|]. intros [? ?]. eauto.
Qed.

(** ** Bounds *)

Lemma to_uint_id x : x ∈ L0 -> to_uint (idof x) = idof x.
Proof.
  intros Hx. pose proof (static_id Hst x Hx). unfold to_uint. apply Z.mod_small. lia.
Qed.

Lemma id_in_capacity b x :
  length b = length (newBitset (Z.of_nat n)) -> x ∈ L0 -> 0 <= idof x < capacity b.
Proof.
  intros Hl Hx. pose proof (static_id Hst x Hx).
  pose proof (capacity_newBitset (Z.of_nat n) ltac:(lia)). unfold capacity in *. rewrite Hl. lia.
Qed.

(** ** Recording partial linearizations *)

Lemma call_ids_path fr S st fr' :
  path fr S st -> (forall f, f ∈ fr' -> f_x f ∈ L0) ->
  call_ids (heap_of fr) ((fun f => mkCallsEntry (f_x f) (f_st f)) <$> fr') =
    Ret ((fun f => idof (f_x f)) <$> fr').
Proof.
  intros Hp. induction fr' as [|f fr' IH]; intros Hin; [done|]. cbn.
  destruct (lifted_node _ _ _ (f_x f) Hp) as (nd & Hnd & Hid & _); [apply Hin; set_solver|].
  rewrite Hnd. cbn. rewrite IH by set_solver. cbn. by rewrite Hid.
Qed.

Lemma call_ids_calls fr S st :
  path fr S st -> call_ids (heap_of fr) (calls_of fr) = Ret (ids_of fr).
Proof.
  intros Hp. unfold calls_of, ids_of. rewrite <- !fmap_reverse.
  eapply call_ids_path; [done|]. intros f Hf. rewrite elem_of_reverse in Hf.
  by destruct (path_frame_in _ _ _ _ Hp Hf).
Qed.

Lemma longest_loop_ok fr S st vs fresh sq longest :
  path fr S st -> fr <> [] -> (forall v, v ∈ vs -> cs_entry v ∈ L0) ->
  length longest = n -> Forall partial_ok longest ->
  (sq = None \/ sq = Some (ids_of fr)) ->
  ensures (longest_loop (heap_of fr) (calls_of fr) vs fresh sq longest) (fun l =>
    length l = n /\ Forall partial_ok l).
Proof.
  intros Hp Hne. revert sq longest. induction vs as [|v vs IH]; intros sq longest Hin Hlen Hok Hsq.
  - by apply ensures_ret.
  - cbn. assert (cs_entry v ∈ L0) as Hv by (apply Hin; set_solver).
    destruct (lifted_node _ _ _ _ Hp Hv) as (nd & Hnd & Hid & _). rewrite Hnd. cbn.
    pose proof (static_id Hst _ Hv) as Hrange.
    destruct (idx_in_range longest (n_id nd)) as [_ [cur Hcur]]; [rewrite Hid; lia|].
    rewrite Hcur. cbn. destruct (match cur with None => true | Some _ => _ end).
    + assert (match sq with Some s => Ret s | None => call_ids (heap_of fr) (calls_of fr) end
              = Ret (ids_of fr)) as -> .
      { destruct Hsq as [->| ->]; [by eapply call_ids_calls | done]. }
      cbn. rewrite idx_set_ok by (rewrite Hid; lia). cbn. apply IH; [set_solver| | |by right].
      * by rewrite length_insert.
      * apply Forall_insert; [done|]. cbn. eauto 10.
    + apply IH; [set_solver|done..].
Qed.

(** ** Configurations without a linearization *)

Lemma lin_equal S st1 st2 : equal_sound -> lin S st1 -> eqv st1 st2 = true -> lin S st2.
Proof.
  intros Hsound Hl. revert st2. induction Hl as [S st Hr|S st A x B st' Hr HA Hx Hs _ IH];
    intros st2 Heq; [by apply lin_done|].
  assert (exists st2', stp st2 x = (true, st2') /\ eqv st' st2' = true) as (st2' & Hs2 & Heq2).
  { unfold stp in *. destruct (val x) as [[i|o']|]; [|done|done].
    destruct (mt x ≫= val) as [[i'|o]|]; [done| |done]. by eapply Hsound. }
  eapply lin_call; [done..|]. by apply IH.
Qed.

(** When every call before the first pending return is closed, there is no
    linearization. *)
Lemma closed_no_lin cache fr S st A y B :
  equal_sound -> path fr S st -> rem S = A ++ y :: B -> Forall is_call A -> mt y = None ->
  Forall (closed cache S st) A ->
  (forall S' st', in_cache cache S' st' -> ~ lin S' st' \/ on_path fr S st S' st') ->
  ~ lin S st.
Proof.
  intros Hsound Hp Hr HA Hy Hcl Hdead Hl.
  inversion Hl as [S0 st0 Hr'|S0 st0 A' x B' st' Hr' HA' Hx Hs Hl' HS Hst0]; subst S0 st0.
  { rewrite Hr' in Hr. by destruct A. }
  assert (x ∈ A) as HxA.
  { rewrite Hr in Hr'. clear -Hr' HA' Hx Hy. revert A' Hr' HA'.
    induction A as [|a A IH]; intros [|a' A'] Hr' HA'; cbn in Hr'; injection Hr' as ? ?; subst.
    - by destruct Hx as [? ?]; congruence.
    - apply Forall_cons in HA' as [[? ?] _]. congruence.
    - set_solver.
    - apply Forall_cons in HA' as [_ HA']. specialize (IH A'). set_solver. }
  rewrite Forall_forall in Hcl. destruct (Hcl x HxA st' Hs) as (st'' & Hin & Hor).
  destruct (Hdead _ _ Hin) as [Hno|Hon].
  - apply Hno. destruct Hor as [->|Heq]; [done|]. by eapply lin_equal.
  - assert (x ∈ rem S) as [_ Hxs]%elem_of_rem by (rewrite Hr; set_solver).
    assert (size ({[idof x]} ∪ S) = (1 + size S)%nat) as Hsz
      by (rewrite size_union, size_singleton by set_solver; done).
    destruct Hon as [[HS' _]|(f & Hf & HS' & _)].
    + rewrite HS' in Hsz. lia.
    + pose proof (path_frame_size _ _ _ _ Hp Hf). rewrite HS' in Hsz. lia.
Qed.

(** ** The four ways an iteration goes *)

Definition iter_result (fr : list frame) (X : list loc)
    (r : search I O St + bool * list (option seq_ptr)) : Prop :=
  match r with
  | inl s' => exists fr' A' X', inv fr' A' X' s' /\ (measure fr' X' < measure fr X)%nat
  | inr (b, l) =>
      length l = n /\ Forall partial_ok l /\
      (b = true -> lin ∅ (Init model)) /\
      (b = false -> equal_sound -> ~ lin ∅ (Init model))
  end.

Lemma inv_no_rem fr A s : inv fr A [] s -> A = [].
Proof.
  intros Hi. destruct A as [|a A]; [done|].
  pose proof (inv_rem _ _ _ _ Hi) as Hr. rewrite app_nil_r in Hr.
  pose proof (inv_A _ _ _ _ Hi) as HA. apply Forall_cons in HA as [[m Hm] HA].
  pose proof (match_after _ [] _ _ _ Hr Hm) as HmA.
  rewrite Forall_forall in HA. destruct (HA m HmA) as [m' Hm'].
  assert (a ∈ L0) as Ha.
  { assert (a ∈ rem (positions (s_linearized s))) as [? _]%elem_of_rem; [|done].
    rewrite Hr. set_solver. }
  destruct (static_call Hst a m Ha Hm) as (_ & Hnone & _). congruence.
Qed.

(** The next node is tried after a call that is closed. *)
Lemma inv_advance fr A x B s nxt :
  inv fr A (x :: B) s -> is_call x ->
  closed (s_cache s) (positions (s_linearized s)) (s_state s) x ->
  nxt = first_or B None ->
  inv fr (A ++ [x]) B (mkSearch (s_heap s) nxt (s_state s) (s_linearized s) (s_cache s)
    (s_calls s) (s_longest s) (s_fresh s)).
Proof.
  intros [] Hx Hcl ->. split; cbn; try done.
  - by rewrite <- app_assoc.
  - by apply Forall_app_2; [|apply Forall_singleton].
  - by apply Forall_app_2; [|apply Forall_singleton].
Qed.

(** A call whose successor is new is linearized. *)
Lemma inv_push fr A x B s st' bl :
  inv fr A (x :: B) s -> is_call x ->
  stp (s_state s) x = (true, st') -> set (s_linearized s) (idof x) = Ret bl ->
  let f := mkFrame (positions (s_linearized s)) (s_state s) A x B in
  inv (f :: fr) [] (rem (positions bl))
    (mkSearch (heap_of (f :: fr)) (first_or (rem (positions bl)) None) st' bl
      (add_cache (s_cache s) (mkCacheEntry bl st'))
      (s_calls s ++ [mkCallsEntry x (s_state s)]) (s_longest s) (s_fresh s)).
Proof.
  intros [] Hx Hs Hset f.
  assert (x ∈ rem (positions (s_linearized s))) as [HxL HxS]%elem_of_rem
    by (rewrite inv_rem0; set_solver).
  pose proof (id_in_capacity _ _ inv_bits_len0 HxL) as Hcap.
  pose proof (positions_set _ _ _ Hcap Hset) as Hpos.
  assert (forall S st, in_cache (s_cache s) S st ->
    in_cache (add_cache (s_cache s) (mkCacheEntry bl st')) S st) as Hmono
    by (intros; apply in_cache_add; by left).
  split; cbn [s_linearized s_state s_cache s_calls s_heap s_entry s_longest]; try done.
  - rewrite Hpos. apply path_cons; done.
  - by eapply set_ok.
  - rewrite <- inv_bits_len0. by eapply length_set.
  - unfold calls_of. cbn [fmap list_fmap]. rewrite reverse_cons. by rewrite inv_calls0.
  - apply Forall_cons. split.
    + cbn. eapply Forall_impl; [exact inv_closed0|]. intros a. by apply closed_mono.
    + eapply Forall_impl; [exact inv_frames0|]. intros f' Hf'.
      eapply Forall_impl; [exact Hf'|]. intros a. by apply closed_mono.
  - apply cache_ok_add; [done| |]; cbn; [by eapply set_ok|].
    rewrite <- inv_bits_len0. by eapply length_set.
  - intros Hsound S st [Hin|[-> ->]]%in_cache_add; cbn.
    + destruct (inv_dead0 Hsound _ _ Hin) as [?|Hon]; [by left|]. right. right.
      destruct Hon as [[-> ->]|(f' & Hf' & ?)].
      * exists f. split; [set_solver|done].
      * exists f'. split; [set_solver|done].
    + right. by left.
  - split; [apply in_cache_add; by right | by eapply cached_path_mono].
Qed.

Lemma calls_of_cons f fr : calls_of (f :: fr) = calls_of fr ++ [mkCallsEntry (f_x f) (f_st f)].
Proof. unfold calls_of. cbn [fmap list_fmap]. by rewrite reverse_cons. Qed.

(** The last linearized call is taken back at a pending return. *)
Lemma inv_pop f fr A y B s bl l k :
  inv (f :: fr) A (y :: B) s -> mt y = None ->
  clear (s_linearized s) (idof (f_x f)) = Ret bl ->
  length l = n -> Forall partial_ok l ->
  inv fr (f_A f ++ [f_x f]) (f_B f)
    (mkSearch (heap_of fr) (first_or (f_B f) None) (f_st f) bl (s_cache s) (calls_of fr) l k).
Proof.
  intros [] Hy Hclear Hl Hok.
  inversion inv_path0 as [|fr0 S st A0 x B0 st' Hp Hr HA Hx Hs Hf HS Hst']; subst fr0 f. cbn in *.
  assert (x ∈ rem S) as [HxL HxS]%elem_of_rem by (rewrite Hr; set_solver).
  pose proof (id_in_capacity _ _ inv_bits_len0 HxL) as Hcap.
  pose proof (positions_clear _ _ _ Hcap Hclear) as Hpos. rewrite <- HS in Hpos.
  assert (positions bl = S) as HblS by (rewrite Hpos; set_solver).
  destruct inv_cached0 as [Hin_cur Hcached].
  split; cbn [s_linearized s_state s_cache s_calls s_heap s_entry s_longest]; rewrite ?HblS; try done.
  - by eapply clear_ok.
  - rewrite <- inv_bits_len0. by eapply length_clear.
  - by rewrite <- app_assoc.
  - by apply Forall_app_2; [|apply Forall_singleton].
  - apply Forall_cons in inv_frames0 as [HfA _]. apply Forall_app_2; [done|].
    apply Forall_singleton. intros st'' Hs''. exists (s_state s).
    rewrite <- HS in Hin_cur. split; [done|]. left. congruence.
  - by apply Forall_cons in inv_frames0 as [_ ?].
  - intros Hsound S' st'' Hin. destruct (inv_dead0 Hsound _ _ Hin) as [?|Hon]; [by left|].
    destruct Hon as [[-> ->]|(f' & [->|Hf']%elem_of_cons & -> & ->)].
    + left. eapply closed_no_lin with (fr := mkFrame S st A0 x B0 :: fr); try done. by apply inv_dead0.
    + right. left. done.
    + right. right. eauto.
Qed.

Lemma iter_done fr A s cp :
  inv fr A [] s -> ensures (check_iter model cp false hd s) (iter_result fr []).
Proof.
  intros Hi. pose proof (inv_no_rem _ _ _ Hi) as ->. destruct Hi.
  destruct (head_node _ _ _ inv_path0) as (hn & Hhn & Hnx). rewrite inv_rem0 in Hnx.
  unfold check_iter. rewrite inv_heap0, inv_calls0. cbn. rewrite Hhn. cbn. rewrite Hnx. cbn.
  rewrite (call_ids_calls _ _ _ inv_path0). apply ensures_ret. cbn. split_and!.
  - by rewrite length_replicate.
  - destruct fr as [|f fr]; [|apply Forall_replicate; cbn; eauto 10].
    assert (n = 0%nat) as Hn0; [|rewrite inv_longest_len0, Hn0; constructor].
    assert (positions (s_linearized s) = ∅) as HS by by inversion inv_path0. rewrite HS in inv_rem0. cbn in inv_rem0. unfold rem in inv_rem0.
    rewrite list_filter_all in inv_rem0 by (apply Forall_forall; intros; set_solver).
    pose proof (static_length Hst) as Hlen. rewrite inv_rem0 in Hlen. cbn in Hlen. lia.
  - intros _. eapply path_lin; [done|]. by apply lin_done.
  - done.
Qed.

(** What an iteration at a call does, once the store is read. *)
Lemma iter_call_eq fr A x B s cp m :
  inv fr A (x :: B) s -> mt x = Some m ->
  exists bl seen, set (s_linearized s) (idof x) = Ret bl /\
  let '(ok, st') := stp (s_state s) x in
  cacheContains model (s_cache s) (mkCacheEntry bl st') = Ret seen /\
  check_iter model cp false hd s =
    if ok && negb seen then
      Ret (inl (mkSearch (heap_of (mkFrame (positions (s_linearized s)) (s_state s) A x B :: fr))
        (first_or (rem (positions bl)) None) st' bl
        (add_cache (s_cache s) (mkCacheEntry bl st'))
        (s_calls s ++ [mkCallsEntry x (s_state s)]) (s_longest s) (s_fresh s)))
    else
      Ret (inl (mkSearch (s_heap s) (first_or B None) (s_state s) (s_linearized s) (s_cache s)
        (s_calls s) (s_longest s) (s_fresh s))).
Proof.
  intros Hi Hm. pose proof Hi as [].
  assert (x ∈ rem (positions (s_linearized s))) as Hxr by (rewrite inv_rem0; set_solver).
  pose proof Hxr as [HxL HxS]%elem_of_rem.
  destruct (match_pending _ _ _ Hxr Hm) as [Hmr Hne]. pose proof Hmr as [HmL _]%elem_of_rem.
  destruct (static_call Hst x m HxL Hm) as (_ & _ & _ & (i & o & Hvx & Hvm)).
  destruct (head_node _ _ _ inv_path0) as (hn & Hhn & Hhx).
  destruct (pending_node _ _ _ _ _ _ inv_path0 inv_rem0) as (nd & Hnd & Hnx & Hid & Hmt & Hval).
  destruct (lifted_node _ _ _ _ inv_path0 HmL) as (mn & Hmn & _ & _ & Hmval).
  pose proof (id_in_capacity _ _ inv_bits_len0 HxL) as Hcap.
  pose proof (set_ret _ _ Hcap) as Hset. set (bl := <[_ := _]> _) in Hset.
  assert (stp (s_state s) x = Step model (s_state s) i o) as Hstp
    by (unfold stp; rewrite Hvx, Hm; cbn; by rewrite Hvm).
  destruct (stp (s_state s) x) as [ok st'] eqn:Eok.
  destruct (cacheContains_spec _ (s_cache s) bl st' inv_cache0) as (seen & Hseen & _).
  { by eapply set_ok. }
  { rewrite <- inv_bits_len0. by eapply length_set. }
  exists bl, seen. split; [done|]. split; [done|].
  unfold check_iter. rewrite inv_heap0, inv_entry0. cbn [deref first_or].
  rewrite Hhn. cbn [mbind outcome_bind]. rewrite Hhx, inv_rem0.
  assert (exists z, first_or (A ++ x :: B) None = Some z) as [z ->] by (destruct A; cbn; eauto).
  rewrite Hnd. cbn [mbind outcome_bind]. rewrite Hmt, Hm. cbn [deref]. rewrite Hmn.
  cbn [mbind outcome_bind].
  rewrite Hval, Hvx, Hmval, Hvm. cbn [as_input as_output mbind outcome_bind].
  rewrite <- Hstp. destruct ok; [|by rewrite Hnx].
  rewrite clone_eq, Hid, (to_uint_id _ HxL), Hset. cbn [mbind outcome_bind].
  rewrite Hseen. cbn [mbind outcome_bind]. destruct seen; cbn [negb andb]; [by rewrite Hnx|].
  destruct (path_heap _ _ _ inv_path0) as [Hc Hinf].
  destruct (lift_pending _ _ _ _ Hc Hinf Hxr Hm) as (Hlift & _ & _ & _).
  rewrite Hlift. cbn [mbind outcome_bind].
  assert (path (mkFrame (positions (s_linearized s)) (s_state s) A x B :: fr)
    ({[idof x]} ∪ positions (s_linearized s)) st') as Hp' by (apply path_cons; done || by exists m).
  destruct (head_node _ _ _ Hp') as (hn' & Hhn' & Hhx').
  rewrite <- (positions_set _ _ _ Hcap Hset) in Hhx'.
  cbn [heap_of f_x] in Hhn' |- *. rewrite Hm in Hhn' |- *. cbn [from_option Datatypes.id] in Hhn' |- *.
  cbn [deref]. rewrite Hhn'. cbn [mbind outcome_bind]. by rewrite Hhx'.
Qed.

Lemma iter_call fr A x B s cp m :
  inv fr A (x :: B) s -> mt x = Some m ->
  ensures (check_iter model cp false hd s) (iter_result fr (x :: B)).
Proof.
  intros Hi Hm. destruct (iter_call_eq _ _ _ _ _ cp _ Hi Hm) as (bl & seen & Hset & Heq).
  assert (is_call x) as Hx by by exists m.
  destruct (stp (s_state s) x) as [ok st'] eqn:Eok. destruct Heq as [Hseen ->].
  destruct (ok && negb seen) eqn:E; apply ensures_ret.
  - apply andb_true_iff in E as [-> _].
    eexists _, _, _. split; [by apply inv_push|]. unfold measure. cbn [frames_weight length f_B].
    pose proof (inv_path _ _ _ _ (inv_push _ _ _ _ _ _ _ Hi Hx Eok Hset)) as Hp'.
    destruct (path_sizes _ _ _ Hp') as (Hsz & Hle & _). cbn [length s_linearized] in Hsz, Hle. rewrite Hsz.
    rewrite weight_full, weight_succ.
    replace (n - S (length fr))%nat with (n - length fr - 1)%nat by lia. lia.
  - eexists _, _, _. split; [eapply inv_advance; [done|done| |done]|].
    + intros st'' Hs. rewrite Eok in Hs. injection Hs as -> ->. cbn in E.
      apply negb_false_iff in E. subst seen.
      pose proof Hi as []. assert (x ∈ L0) as HxL.
      { assert (x ∈ rem (positions (s_linearized s))) as [? _]%elem_of_rem; [|done].
        rewrite inv_rem0. set_solver. }
      pose proof (id_in_capacity _ _ inv_bits_len0 HxL) as Hcap.
      destruct (cacheContains_spec _ (s_cache s) bl st'' inv_cache0) as (seen & Hseen' & Hiff).
      { by eapply set_ok. }
      { rewrite <- inv_bits_len0. by eapply length_set. }
      rewrite Hseen in Hseen'. injection Hseen' as <-. destruct Hiff as [Hiff _].
      destruct (Hiff eq_refl) as (st2 & Hin & He). exists st2.
      rewrite <- (positions_set _ _ _ Hcap Hset). auto.
    + unfold measure. cbn [length]. rewrite weight_succ. lia.
Qed.

Lemma last_calls_of f fr : last (calls_of (f :: fr)) = Some (mkCallsEntry (f_x f) (f_st f)).
Proof. rewrite calls_of_cons. apply last_snoc. Qed.

Lemma take_calls_of f fr : take (length (calls_of (f :: fr)) - 1) (calls_of (f :: fr)) = calls_of fr.
Proof.
  rewrite calls_of_cons, length_app. cbn [length].
  replace (length (calls_of fr) + 1 - 1)%nat with (length (calls_of fr)) by lia.
  by rewrite take_app_length.
Qed.

Lemma iter_return_empty A y B s cp :
  inv [] A (y :: B) s -> mt y = None ->
  ensures (check_iter model cp false hd s) (iter_result [] (y :: B)).
Proof.
  intros Hi Hy. pose proof Hi as [].
  destruct (head_node _ _ _ inv_path0) as (hn & Hhn & Hhx).
  destruct (pending_node _ _ _ _ _ _ inv_path0 inv_rem0) as (nd & Hnd & Hnx & Hid & Hmt & Hval).
  unfold check_iter. rewrite inv_heap0, inv_entry0, inv_calls0. cbn [deref first_or].
  rewrite Hhn. cbn [mbind outcome_bind]. rewrite Hhx, inv_rem0.
  assert (exists z, first_or (A ++ y :: B) None = Some z) as [z ->] by (destruct A; cbn; eauto).
  rewrite Hnd. cbn [mbind outcome_bind]. rewrite Hmt, Hy. cbn. apply ensures_ret. cbn.
  split_and!; [done|done|done|]. intros _ Hsound.
  destruct (path_bottom _ _ inv_path0) as [HS HI]. rewrite <- HS, <- HI.
  eapply (closed_no_lin (s_cache s) [] _ _ A y B); auto.
Qed.

Lemma iter_return_pop f fr A y B s cp :
  inv (f :: fr) A (y :: B) s -> mt y = None ->
  ensures (check_iter model cp false hd s) (iter_result (f :: fr) (y :: B)).
Proof.
  intros Hi Hy. pose proof Hi as [].
  destruct (head_node _ _ _ inv_path0) as (hn & Hhn & Hhx).
  destruct (pending_node _ _ _ _ _ _ inv_path0 inv_rem0) as (nd & Hnd & Hnx & Hid & Hmt & Hval).
  destruct (path_frame_in _ _ _ f inv_path0 ltac:(set_solver)) as [HxL HxS].
  pose proof (id_in_capacity _ _ inv_bits_len0 HxL) as Hcap.
  pose proof (clear_ret _ _ Hcap) as Hclear. set (bl := <[_ := _]> _) in Hclear.
  destruct (lifted_node _ _ _ _ inv_path0 HxL) as (xn & Hxn & Hxid & Hxm & _).
  assert (ensures (if cp then longest_loop (heap_of (f :: fr)) (calls_of (f :: fr))
      (calls_of (f :: fr)) (s_fresh s) None (s_longest s) else Ret (s_longest s))
    (fun l => length l = n /\ Forall partial_ok l)) as (l & Hl & Hll & Hlok).
  { destruct cp; [|by apply ensures_ret]. eapply longest_loop_ok; [done|done| |done|done|by left].
    intros v Hv. unfold calls_of in Hv. rewrite elem_of_reverse in Hv.
    apply list_elem_of_fmap in Hv as (f' & -> & Hf').
    by destruct (path_frame_in _ _ _ _ inv_path0 Hf'). }
  inversion inv_path0 as [|fr0 S st A0 x B0 st' Hp Hr HA [m Hm] Hs Hf HS Hst']; subst fr0 f.
  cbn [f_x f_st f_A f_B f_S] in *.
  destruct (path_heap _ _ _ Hp) as [Hc Hinf].
  assert (x ∈ rem S) as Hxr by (rewrite Hr; set_solver).
  destruct (lift_pending _ _ _ _ Hc Hinf Hxr Hm) as (_ & Hunlift & _ & _).
  destruct (pending_node _ _ _ _ _ _ Hp Hr) as (xn' & Hxn' & Hxnx & _).
  unfold check_iter. rewrite inv_heap0, inv_entry0, inv_calls0. cbn [deref first_or].
  rewrite Hhn. cbn [mbind outcome_bind]. rewrite Hhx, inv_rem0.
  assert (exists z, first_or (A ++ y :: B) None = Some z) as [z ->] by (destruct A; cbn; eauto).
  rewrite Hnd. cbn [mbind outcome_bind]. rewrite Hmt, Hy, last_calls_of, Hl.
  cbn [mbind outcome_bind cs_entry cs_state f_x f_st]. rewrite Hxn. cbn [mbind outcome_bind].
  rewrite Hxid, (to_uint_id _ HxL), Hclear. cbn [mbind outcome_bind].
  rewrite take_calls_of. cbn [heap_of f_x]. rewrite Hm. cbn [from_option Datatypes.id].
  rewrite Hunlift. cbn [mbind outcome_bind deref]. rewrite Hxn'. cbn [mbind outcome_bind].
  rewrite Hxnx. apply ensures_ret. eexists _, _, _.
  split; [exact (inv_pop _ _ _ _ _ _ _ _ _ Hi Hy Hclear Hll Hlok)|].
  unfold measure. cbn [f_B frames_weight length]. unfold weight at 2. lia.
Qed.

(** Every iteration from a state that satisfies the invariant returns, and
    either ends the search with the right answer or makes progress. *)
Lemma iter_ok fr A X s cp :
  inv fr A X s -> ensures (check_iter model cp false hd s) (iter_result fr X).
Proof.
  intros Hi. destruct X as [|x B]; [by eapply iter_done|].
  destruct (mt x) as [m|] eqn:Em; [by eapply iter_call|].
  destruct fr as [|f fr]; [by eapply iter_return_empty | by eapply iter_return_pop].
Qed.

(** An iteration that sees the kill flag ends the search; it answers [true]
    only when every call is linearized. *)
Lemma iter_killed fr A X s cp :
  inv fr A X s -> ensures (check_iter model cp true hd s) (fun r =>
    match r with
    | inl _ => False
    | inr (b, l) => length l = n /\ Forall partial_ok l /\ (b = true -> lin ∅ (Init model))
    end).
Proof.
  intros Hi. destruct X as [|x B].
  - destruct (iter_done _ _ _ cp Hi) as (r & Hr & Hres). exists r. split.
    + rewrite <- Hr. pose proof (inv_no_rem _ _ _ Hi) as ->. destruct Hi.
      destruct (head_node _ _ _ inv_path0) as (hn & Hhn & Hnx). rewrite inv_rem0 in Hnx.
      unfold check_iter. rewrite inv_heap0. cbn [deref]. rewrite Hhn. cbn [mbind outcome_bind].
      by rewrite Hnx.
    + destruct r as [s'|[b l]]; [|by destruct Hres as (? & ? & ? & _)].
      exfalso. pose proof (inv_no_rem _ _ _ Hi) as ->. destruct Hi.
      destruct (head_node _ _ _ inv_path0) as (hn & Hhn & Hnx). rewrite inv_rem0 in Hnx.
      unfold check_iter in Hr. rewrite inv_heap0, inv_calls0 in Hr. cbn [deref] in Hr.
      rewrite Hhn in Hr. cbn [mbind outcome_bind] in Hr. rewrite Hnx in Hr. cbn [first_or app] in Hr.
      rewrite (call_ids_calls _ _ _ inv_path0) in Hr. done.
  - destruct Hi. destruct (head_node _ _ _ inv_path0) as (hn & Hhn & Hnx). rewrite inv_rem0 in Hnx.
    exists (inr (false, s_longest s)). split; [|done].
    unfold check_iter. rewrite inv_heap0. cbn [deref]. rewrite Hhn. cbn [mbind outcome_bind].
    rewrite Hnx. by destruct A.
Qed.

(** The search ends within its bound, whatever the kill flag does. *)
Lemma loop_ok fuel it fr A X s cp kill :
  inv fr A X s -> (measure fr X < fuel)%nat ->
  ensures (check_loop model cp kill hd fuel it s) (fun '(b, l) =>
    length l = n /\ Forall partial_ok l /\
    (b = true -> lin ∅ (Init model)) /\
    (b = false -> equal_sound -> (forall i, kill i = false) -> ~ lin ∅ (Init model))).
Proof.
  revert it fr A X s. induction fuel as [|fuel IH]; intros it fr A X s Hi Hm; [lia|].
  cbn [check_loop]. destruct (kill it) eqn:Ek.
  - destruct (iter_killed _ _ _ _ cp Hi) as ([s'|[b l]] & -> & Hr); [done|]. cbn [mbind outcome_bind].
    apply ensures_ret. destruct Hr as (? & ? & ?). split_and!; [done..|].
    intros _ _ Hk. by rewrite Hk in Ek.
  - destruct (iter_ok _ _ _ _ cp Hi) as ([s'|[b l]] & -> & Hr); cbn [mbind outcome_bind].
    + destruct Hr as (fr' & A' & X' & Hi' & Hm'). eapply IH; [done|lia].
    + apply ensures_ret. destruct Hr as (? & ? & ? & ?). split_and!; auto.
Qed.

End search_proof.
