(* ===== verification/LinSpec.v ===== *)
(** * What the checker decides: linearizability of a history

    [Linearizable] is the declarative property of a list of completed
    operations: some permutation of it is a legal sequential execution of the
    model and never puts an operation after one that was called after it had
    returned.  [Linearizable_entries] is the same property of a list of call
    and return entries.  The two agree on the entries that [makeEntries]
    produces. *)

From S2P Require Import Prelude PorcModel.

Section lin_spec.
Context {I O St : Type} (model : Model I O St).

(** ** Operations *)

Inductive legal_ops : St -> list (Operation I O) -> Prop :=
  | legal_ops_nil st : legal_ops st []
  | legal_ops_cons st op st' ops :
      Step model st (Input op) (Output op) = (true, st') ->
      legal_ops st' ops -> legal_ops st (op :: ops).

(** No operation is placed after one that was called after its return. *)
Definition real_time : list (Operation I O) -> Prop :=
  StronglySorted (fun a b => ~ Return b < Call a).

Definition Linearizable (history : list (Operation I O)) : Prop :=
  exists ops, ops ≡ₚ history /\ legal_ops (Init model) ops /\ real_time ops.

(** ** Entries *)

(** The operation [a] returns before the operation [b] is called. *)
Definition precedes (es : list (entry I O)) (a b : Z) : Prop :=
  exists i j ea eb, (i < j)%nat /\ es !! i = Some ea /\ kind ea = returnEntry /\ id ea = a /\
    es !! j = Some eb /\ kind eb = callEntry /\ id eb = b.

(** The input and the output of an operation. *)
Definition op_of (es : list (entry I O)) (d : Z) (i : I) (o : O) : Prop :=
  exists p q ep eq, es !! p = Some ep /\ kind ep = callEntry /\ id ep = d /\ value ep = inl i /\
    es !! q = Some eq /\ kind eq = returnEntry /\ id eq = d /\ value eq = inr o.

Inductive legal (es : list (entry I O)) : St -> list Z -> Prop :=
  | legal_nil st : legal es st []
  | legal_cons st d i o st' ds :
      op_of es d i o -> Step model st i o = (true, st') -> legal es st' ds -> legal es st (d :: ds).

Definition Linearizable_entries (n : nat) (es : list (entry I O)) : Prop :=
  exists order, order ≡ₚ Z.of_nat <$> seq 0 n /\ legal es (Init model) order /\
    StronglySorted (fun a b => ~ precedes es b a) order.

(** Every operation returns no earlier than it is called. *)
Definition well_timed (history : list (Operation I O)) : Prop :=
  Forall (fun op => Call op <= Return op) history.

(** ** The entries of a history of operations *)

Definition call_entry (op : Operation I O) (d : Z) : entry I O :=
  mkEntry callEntry (inl (Input op)) d (Call op) (ClientId op).
Definition return_entry (op : Operation I O) (d : Z) : entry I O :=
  mkEntry returnEntry (inr (Output op)) d (Return op) (ClientId op).

Lemma makeEntries_loop_lookup (h : list (Operation I O)) d0 i :
  makeEntries_loop h d0 !! i =
  (fun op => if Nat.even i then call_entry op (d0 + Z.of_nat (Nat.div2 i))
             else return_entry op (d0 + Z.of_nat (Nat.div2 i))) <$> h !! Nat.div2 i.
Proof.
  revert d0 i. induction h as [|op h IH]; intros d0 i; [done|].
  destruct i as [|[|i]]; cbn [makeEntries_loop lookup list_lookup Nat.div2 Nat.even].
  - cbn. unfold call_entry. do 2 f_equal. lia.
  - cbn. unfold return_entry. do 2 f_equal. lia.
  - rewrite IH. cbn. destruct (h !! Nat.div2 i); cbn; [|done].
    replace (d0 + 1 + Z.of_nat (Nat.div2 i)) with (d0 + Z.of_nat (S (Nat.div2 i))) by lia. done.
Qed.

Lemma length_makeEntries_loop (h : list (Operation I O)) d0 :
  length (makeEntries_loop h d0) = (2 * length h)%nat.
Proof. revert d0. induction h as [|op h IH]; intros d0; cbn; [done|]. rewrite IH. lia. Qed.

(** An entry of the unsorted list is the call or the return of one operation. *)
Lemma makeEntries_loop_elem (h : list (Operation I O)) e :
  e ∈ makeEntries_loop h 0 <->
  exists k op, h !! k = Some op /\
    (e = call_entry op (Z.of_nat k) \/ e = return_entry op (Z.of_nat k)).
Proof.
  rewrite list_elem_of_lookup. split.
  - intros [i Hi]. rewrite makeEntries_loop_lookup in Hi.
    destruct (h !! Nat.div2 i) as [op|] eqn:E; [|done]. cbn in Hi. injection Hi as <-.
    exists (Nat.div2 i), op. split; [done|]. destruct (Nat.even i); auto.
  - intros (k & op & Hk & [->| ->]).
    + exists (2 * k)%nat. rewrite makeEntries_loop_lookup, Nat.div2_double, Hk.
      rewrite Nat.even_mul. done.
    + exists (S (2 * k)). rewrite makeEntries_loop_lookup, Nat.div2_succ_double, Hk.
      rewrite Nat.even_succ, Nat.odd_mul. done.
Qed.

Lemma makeEntries_loop_unique (h : list (Operation I O)) i j e e' :
  makeEntries_loop h 0 !! i = Some e -> makeEntries_loop h 0 !! j = Some e' ->
  id e = id e' -> kind e = kind e' -> i = j.
Proof.
  rewrite !makeEntries_loop_lookup. intros Hi Hj Hid Hkind.
  destruct (h !! Nat.div2 i) as [op|]; [|done]. destruct (h !! Nat.div2 j) as [op'|]; [|done].
  cbn in *. rewrite (Nat.div2_odd i), (Nat.div2_odd j).
  rewrite <- !Nat.negb_even. 
  destruct (Nat.even i), (Nat.even j); injection Hi as <-; injection Hj as <-; cbn in *; try done; lia.
Qed.

Section sorted_entries.
Context `{!GoSort (@Less I O)}.
Implicit Types (h : list (Operation I O)).

Lemma makeEntries_elem h e :
  e ∈ makeEntries h <->
  exists k op, h !! k = Some op /\
    (e = call_entry op (Z.of_nat k) \/ e = return_entry op (Z.of_nat k)).
Proof. unfold makeEntries. rewrite go_sort_perm. apply makeEntries_loop_elem. Qed.

Lemma makeEntries_lookup h i e :
  makeEntries h !! i = Some e ->
  exists k op, h !! k = Some op /\
    (e = call_entry op (Z.of_nat k) \/ e = return_entry op (Z.of_nat k)).
Proof. intros H. apply makeEntries_elem, list_elem_of_lookup. eauto. Qed.

Lemma makeEntries_unique h i j e e' :
  makeEntries h !! i = Some e -> makeEntries h !! j = Some e' ->
  id e = id e' -> kind e = kind e' -> i = j.
Proof.
  assert (NoDup ((fun e => (id e, kind e)) <$> makeEntries h)) as Hnd.
  { unfold makeEntries. rewrite go_sort_perm. apply NoDup_alt. intros p q [d k] Hp Hq.
    apply list_lookup_fmap_Some in Hp as (ep & Hep & ?).
    apply list_lookup_fmap_Some in Hq as (eq & Heq & ?).
    apply (makeEntries_loop_unique h p q ep eq); congruence. }
  intros Hi Hj Hid Hk. rewrite NoDup_alt in Hnd. apply (Hnd i j (id e, kind e)).
  - by rewrite list_lookup_fmap, Hi.
  - rewrite list_lookup_fmap, Hj. cbn. by rewrite Hid, Hk.
Qed.

(** The order of two entries of the sorted list. *)
Lemma makeEntries_lt h i j e e' :
  makeEntries h !! i = Some e -> makeEntries h !! j = Some e' -> (i < j)%nat -> Less e' e = false.
Proof.
  intros Hi Hj Hlt. pose proof (go_sort_sorted Less (makeEntries_loop h 0)) as Hs.
  fold (makeEntries h) in Hs. revert i j Hi Hj Hlt.
  induction Hs as [|x l Hs IH Hall]; intros i j Hi Hj Hlt; [done|].
  destruct j as [|j]; [lia|]. cbn in Hj. destruct i as [|i].
  - injection Hi as ->. eapply Forall_lookup_1 in Hall; [|exact Hj]. done.
  - cbn in Hi. apply (IH i j); [done|done|lia].
Qed.

Lemma Less_irrefl (e : entry I O) : Less e e = false.
Proof. unfold Less. rewrite Z.eqb_refl. cbn. by destruct (kind e). Qed.

Lemma makeEntries_Less h i j e e' :
  makeEntries h !! i = Some e -> makeEntries h !! j = Some e' -> Less e e' = true -> (i < j)%nat.
Proof.
  intros Hi Hj Hl. destruct (lt_eq_lt_dec i j) as [[?|<-]|Hji]; [done| |].
  - assert (e = e') as -> by congruence. by rewrite Less_irrefl in Hl.
  - rewrite (makeEntries_lt _ _ _ _ _ Hj Hi Hji) in Hl. done.
Qed.

Lemma Less_call_return a b d d' :
  Less (call_entry a d) (return_entry b d') = true <-> Call a <= Return b.
Proof. unfold Less. cbn. destruct (Z.eqb_spec (Call a) (Return b)); cbn.
  - rewrite !bool_decide_true by done. cbn. lia.
  - rewrite Z.ltb_lt. lia.
Qed.

Lemma Less_return_call a b d d' :
  Less (return_entry a d) (call_entry b d') = true <-> Return a < Call b.
Proof. unfold Less. cbn. destruct (Z.eqb_spec (Return a) (Call b)); cbn.
  - rewrite !bool_decide_false by done. cbn. lia.
  - rewrite Z.ltb_lt. lia.
Qed.

(** The index of an entry that is in the list. *)
Lemma makeEntries_index h k op e :
  h !! k = Some op -> e = call_entry op (Z.of_nat k) \/ e = return_entry op (Z.of_nat k) ->
  exists i, makeEntries h !! i = Some e.
Proof. intros Hk He. apply list_elem_of_lookup, makeEntries_elem. eauto. Qed.

Lemma makeEntries_wf h : well_timed h -> wf_history (length h) (makeEntries h).
Proof.
  intros Hw. assert (forall k op, h !! k = Some op -> Call op <= Return op) as Htime.
  { intros k op Hk. by eapply Forall_lookup_1 in Hk; [|exact Hw]. }
  split.
  - unfold makeEntries. rewrite go_sort_perm. apply length_makeEntries_loop.
  - intros i e (k & op & Hk & [->| ->])%makeEntries_lookup; cbn;
      apply lookup_lt_Some in Hk; lia.
  - intros d Hd. destruct (lookup_lt_is_Some_2 h (Z.to_nat d)) as [op Hop]; [lia|].
    destruct (makeEntries_index h _ op (call_entry op d) Hop) as [i Hi];
      [left; f_equal; lia|]. eexists i, _. split; [exact Hi|done].
  - intros i j e e'. apply makeEntries_unique.
  - intros i e Hi Hkind. destruct (makeEntries_lookup _ _ _ Hi) as (k & op & Hk & [->| ->]); [|done].
    destruct (makeEntries_index h k op (return_entry op (Z.of_nat k)) Hk) as [j Hj]; [by right|].
    exists j, (return_entry op (Z.of_nat k)). split; [|done].
    eapply makeEntries_Less; [done..|]. by apply Less_call_return, (Htime k).
  - intros j e Hj Hkind. destruct (makeEntries_lookup _ _ _ Hj) as (k & op & Hk & [->| ->]); [done|].
    destruct (makeEntries_index h k op (call_entry op (Z.of_nat k)) Hk) as [i Hi]; [by left|].
    exists i, (call_entry op (Z.of_nat k)). split; [|done].
    eapply makeEntries_Less; [done..|]. by apply Less_call_return, (Htime k).
  - intros i e (k & op & Hk & [->| ->])%makeEntries_lookup; cbn; eauto.
Qed.

Lemma precedes_times h a b opa opb :
  h !! a = Some opa -> h !! b = Some opb ->
  precedes (makeEntries h) (Z.of_nat a) (Z.of_nat b) <-> Return opa < Call opb.
Proof.
  intros Ha Hb. split.
  - intros (i & j & ea & eb & Hij & Hi & Hka & Hia & Hj & Hkb & Hib).
    destruct (makeEntries_lookup _ _ _ Hi) as (k & op & Hk & [->| ->]); [done|].
    destruct (makeEntries_lookup _ _ _ Hj) as (k' & op' & Hk' & [->| ->]); [|done].
    cbn in *. apply Nat2Z.inj in Hia as ->, Hib as ->.
    assert (op = opa) as -> by congruence. assert (op' = opb) as -> by congruence.
    pose proof (makeEntries_lt _ _ _ _ _ Hi Hj Hij) as Hl.
    destruct (decide (Call opb <= Return opa)) as [Hle|]; [|lia].
    apply (Less_call_return opb opa (Z.of_nat b) (Z.of_nat a)) in Hle. congruence.
  - intros Hlt.
    destruct (makeEntries_index h a opa (return_entry opa (Z.of_nat a)) Ha) as [i Hi]; [by right|].
    destruct (makeEntries_index h b opb (call_entry opb (Z.of_nat b)) Hb) as [j Hj]; [by left|].
    exists i, j, (return_entry opa (Z.of_nat a)), (call_entry opb (Z.of_nat b)).
    split_and!; try done. eapply makeEntries_Less; [done..|]. by apply Less_return_call.
Qed.

Lemma op_of_lookup h d i o :
  op_of (makeEntries h) d i o <->
  exists k op, d = Z.of_nat k /\ h !! k = Some op /\ Input op = i /\ Output op = o.
Proof.
  split.
  - intros (p & q & ep & eq & Hp & Hkp & Hdp & Hvp & Hq & Hkq & Hdq & Hvq).
    destruct (makeEntries_lookup _ _ _ Hp) as (k & op & Hk & [->| ->]); [|done].
    destruct (makeEntries_lookup _ _ _ Hq) as (k' & op' & Hk' & [->| ->]); [done|].
    cbn in *. exists k, op. assert (k' = k) as -> by lia. simplify_eq. done.
  - intros (k & op & -> & Hk & <- & <-).
    destruct (makeEntries_index h k op (call_entry op (Z.of_nat k)) Hk) as [p Hp]; [by left|].
    destruct (makeEntries_index h k op (return_entry op (Z.of_nat k)) Hk) as [q Hq]; [by right|].
    eexists p, q, _, _. split_and!; done.
Qed.

(** ** The two specifications agree *)

(** The operations at a list of positions. *)
Definition picks h : list nat -> list (Operation I O) -> Prop :=
  Forall2 (fun k op => h !! k = Some op).

Lemma picks_legal h ks ops st :
  picks h ks ops -> legal (makeEntries h) st (Z.of_nat <$> ks) <-> legal_ops st ops.
Proof.
  intros Hp. revert st. induction Hp as [|k op ks ops Hk Hp IH]; intros st; cbn.
  - split; constructor.
  - split.
    + inversion 1 as [|st0 d i o st' ds Hop Hs Hl]; subst.
      apply op_of_lookup in Hop as (k' & op' & Heq & Hk' & <- & <-).
      apply Nat2Z.inj in Heq as ->. assert (op' = op) as -> by congruence.
      econstructor; [done|]. by apply IH.
    + inversion 1 as [|st0 op0 st' ops0 Hs Hl]; subst. econstructor; [|exact Hs|by apply IH].
      apply op_of_lookup. eauto 10.
Qed.

Lemma picks_sorted h ks ops :
  picks h ks ops ->
  StronglySorted (fun a b => ~ precedes (makeEntries h) b a) (Z.of_nat <$> ks) <-> real_time ops.
Proof.
  unfold real_time. induction 1 as [|k op ks ops Hk Hp IH]; cbn; [split; constructor|].
  rewrite !StronglySorted_cons, IH. apply and_iff_compat_r.
  rewrite Forall_fmap. clear IH. induction Hp as [|k' op' ks ops Hk' Hp IH]; [done|].
  rewrite !Forall_cons, IH. cbn. by rewrite (precedes_times h k' k op' op).
Qed.

Lemma picks_zip h ks : Forall (fun k => k < length h)%nat ks -> exists ops, picks h ks ops.
Proof.
  induction 1 as [|k ks Hk _ [ops IH]]; [exists []; constructor|].
  destruct (lookup_lt_is_Some_2 h k Hk) as [op Hop]. exists (op :: ops). by constructor.
Qed.

Lemma picks_omap h ks ops : picks h ks ops -> omap (fun k => h !! k) ks = ops.
Proof. induction 1 as [|k op ks ops Hk _ IH]; [done|]. cbn. by rewrite Hk, IH. Qed.

Lemma picks_all h : picks h (seq 0 (length h)) h.
Proof.
  apply Forall2_same_length_lookup_2; [by rewrite length_seq|].
  intros i k op Hk Hop. apply lookup_seq in Hk as [-> _]. done.
Qed.

Lemma picks_perm h ops :
  ops ≡ₚ h -> exists ks, ks ≡ₚ seq 0 (length h) /\ picks h ks ops.
Proof.
  intros Hp. set (zs := zip (seq 0 (length h)) h).
  assert (zs.*2 = h) as H2 by (apply snd_zip; rewrite length_seq; lia).
  assert (zs.*1 = seq 0 (length h)) as H1 by (apply fst_zip; rewrite length_seq; lia).
  rewrite <- H2 in Hp at 1. apply Permutation_map_inv in Hp as (zs' & -> & Hz).
  exists (zs'.*1). split; [by rewrite <- H1, Hz|]. unfold picks.
  change (map snd zs') with (zs'.*2). apply Forall2_fmap, Forall_Forall2_diag, Forall_forall.
  intros [k op] Hin. rewrite <- Hz in Hin. cbn. unfold zs in Hin.
  apply list_elem_of_lookup in Hin as [i Hi]. apply lookup_zip_with_Some in Hi as (k' & op' & Heq & Hk & Hop).
  injection Heq as -> ->. apply lookup_seq in Hk as [-> _]. done.
Qed.

Lemma linearizable_entries_iff h :
  Linearizable_entries (length h) (makeEntries h) <-> Linearizable h.
Proof.
  split.
  - intros (order & Hperm & Hlegal & Hsort).
    assert (order = Z.of_nat <$> (Z.to_nat <$> order)) as Ho.
    { rewrite <- list_fmap_compose. rewrite <- (list_fmap_id order) at 1.
      apply list_fmap_ext. intros i d Hd. assert (d ∈ order) as Hin by (apply list_elem_of_lookup; eauto).
      rewrite Hperm in Hin. apply list_elem_of_fmap in Hin as (k & -> & _). cbn. lia. }
    set (ks := Z.to_nat <$> order) in *.
    assert (ks ≡ₚ seq 0 (length h)) as Hks.
    { unfold ks. rewrite Hperm, <- list_fmap_compose. erewrite list_fmap_ext.
      - by rewrite list_fmap_id.
      - intros i k _. cbn. lia. }
    destruct (picks_zip h ks) as [ops Hops].
    { rewrite Hks. apply Forall_forall. intros k Hk%elem_of_seq. lia. }
    exists ops. rewrite Ho in Hlegal, Hsort. split_and!.
    + rewrite <- (picks_omap _ _ _ Hops), Hks. by rewrite (picks_omap _ _ _ (picks_all h)).
    + by apply (picks_legal _ _ _ _ Hops).
    + by apply (picks_sorted _ _ _ Hops).
  - intros (ops & Hperm & Hlegal & Hrt). destruct (picks_perm _ _ Hperm) as (ks & Hks & Hops).
    exists (Z.of_nat <$> ks). split_and!.
    + by rewrite Hks.
    + by apply (picks_legal _ _ _ _ Hops).
    + by apply (picks_sorted _ _ _ Hops).
Qed.
End sorted_entries.
End lin_spec.
