(* ===== verification/CheckerCorrect.v ===== *)
(** * [checkSingle] decides linearizability

    The store that [check_init] builds from a well-formed history satisfies
    the hypotheses of the search proof, and the declarative search [lin] on
    that store is [Linearizable_entries] of the history.  The theorems about
    [checkSingle], [checkParallel] and [CheckOperations] follow. *)

From S2P Require Import Prelude Bitset PorcModel Linked Checker SearchProof LinSpec.

(** A partial linearization: a legal sequence of distinct operations, none of
    which is placed after one that was called after its return. *)
Definition partial_linearization {I O St} (model : Model I O St) (es : list (entry I O))
    (order : list Z) : Prop :=
  order <> [] /\ NoDup order /\ legal model es (Init model) order /\
  StronglySorted (fun a b => ~ precedes es b a) order /\
  forall a b, a ∈ order -> b ∉ order -> ~ precedes es b a.

Section init.
Context {I O St : Type} `{!EqDecision St}.
Context (model : Model I O St) (eqv : St -> St -> bool).
Context (n : nat) (es : list (entry I O)) (Hwf : wf_history n es).
Hypothesis HEqual : Equal model = Some eqv.
Hypothesis Hn : Z.of_nat n < 2 ^ 63.

(** The entry of a node. *)
Definition entry_at (x : loc) : option (entry I O) := es !! (2 * n - S x)%nat.

Lemma linked_lookup (ns : gmap loc (node I O)) (l : list (entry I O)) i e :
  linked ns l -> l !! i = Some e ->
  exists nd, ns !! (length l - S i)%nat = Some nd /\
    info nd = (Some (value e),
      match kind e with callEntry => find_return (drop (S i) l) (id e) | returnEntry => None end,
      id e).
Proof.
  revert i. induction l as [|e' l IH]; intros i Hl Hi; [done|]. cbn in Hl.
  destruct Hl as [Hnd Hl]. destruct i as [|i].
  - injection Hi as ->. cbn. rewrite Nat.sub_0_r. done.
  - cbn in Hi. destruct (IH i Hl Hi) as (nd & ? & ?). exists nd. cbn. done.
Qed.

Lemma find_return_some (l : list (entry I O)) d x :
  find_return l d = Some x ->
  exists j e, l !! j = Some e /\ kind e = returnEntry /\ id e = d /\ x = (length l - S j)%nat.
Proof.
  induction l as [|e l IH]; [done|]. cbn. case_decide as E.
  - intros [= <-]. exists 0%nat, e. cbn. naive_solver lia.
  - intros H. destruct (IH H) as (j & e' & ? & ? & ? & ->). exists (S j), e'. done.
Qed.

Lemma find_return_exists (l : list (entry I O)) j e :
  l !! j = Some e -> kind e = returnEntry -> exists x, find_return l (id e) = Some x.
Proof.
  revert j. induction l as [|e' l IH]; intros j Hj Hk; [done|]. cbn. case_decide; [eauto|].
  destruct j as [|j]; [|by apply (IH j)]. injection Hj as ->. naive_solver.
Qed.

(** What the nodes of the list hold. *)
Definition nodes_of (h : heap I O) : Prop :=
  forall x e, (x < 2 * n)%nat -> entry_at x = Some e ->
    idof h x = id e /\ val h x = Some (value e) /\
    match kind e with
    | callEntry => exists y e', mt h x = Some y /\ (y < x)%nat /\ entry_at y = Some e' /\
                     kind e' = returnEntry /\ id e' = id e
    | returnEntry => mt h x = None
    end.

Lemma linked_nodes_of h : linked (nodes h) es -> nodes_of h.
Proof.
  intros Hl x e Hx He. unfold entry_at in *. pose proof (wf_length _ _ Hwf) as Hlen.
  destruct (linked_lookup _ _ _ _ Hl He) as (nd & Hnd & Hi).
  replace (length es - S (2 * n - S x))%nat with x in Hnd by lia.
  unfold idof, val, mt. rewrite Hnd. cbn [mbind option_bind]. unfold info in Hi. injection Hi as -> Hm ->.
  split; [done|]. split; [done|]. destruct (kind e) eqn:Ek; [|done].
  destruct (wf_return _ _ Hwf _ _ He Ek) as (j & e' & Hij & Hj & Hk' & Hid').
  destruct (find_return_exists (drop (S (2 * n - S x)) es) (j - S (2 * n - S x)) e') as [y Hy];
    [rewrite lookup_drop; by replace (S (2 * n - S x) + (j - S (2 * n - S x)))%nat with j by lia|done|].
  rewrite Hid' in Hy. change (n + (n + 0))%nat with (2 * n)%nat in Hm. rewrite Hy in Hm. exists y.
  destruct (find_return_some _ _ _ Hy) as (j' & e2 & Hj' & Hk2 & Hid2 & ->).
  pose proof Hj' as Hlt%lookup_lt_Some. rewrite lookup_drop in Hj'. exists e2.
  rewrite length_drop in *. split_and!; try done; [lia|]. rewrite <- Hj'. f_equal. lia.
Qed.

Lemma locs_split k x : (x < k)%nat -> exists A, locs k = A ++ x :: locs x.
Proof.
  induction k as [|k IH]; intros Hx; [lia|]. cbn. destruct (decide (x = k)) as [->|].
  - by exists [].
  - destruct IH as [A ->]; [lia|]. by exists (k :: A).
Qed.

Lemma entry_at_total x : (x < 2 * n)%nat -> exists e, entry_at x = Some e.
Proof.
  intros Hx. unfold entry_at. apply lookup_lt_is_Some_2. rewrite (wf_length _ _ Hwf). lia.
Qed.

Lemma entry_at_inj x y e e' :
  (x < 2 * n)%nat -> (y < 2 * n)%nat -> entry_at x = Some e -> entry_at y = Some e' ->
  id e = id e' -> kind e = kind e' -> x = y.
Proof.
  intros Hx Hy He He' Hid Hk.
  pose proof (wf_unique _ _ Hwf _ _ _ _ He He' Hid Hk). lia.
Qed.

Lemma nodes_of_static h :
  nodes_of h -> chain (nodes h) None (locs (S (2 * n))) None -> static n h (2 * n)%nat (locs (2 * n)).
Proof.
  intros Hnodes Hc. split.
  - apply (NoDup_locs (S (2 * n))).
  - exact Hc.
  - apply length_locs.
  - intros x Hx%elem_of_locs. destruct (entry_at_total x Hx) as [e He].
    destruct (Hnodes x e Hx He) as (-> & _). by apply (wf_id _ _ Hwf _ _ He).
  - intros x m Hx%elem_of_locs Hm. destruct (entry_at_total x Hx) as [e He].
    destruct (Hnodes x e Hx He) as (Hid & Hv & Hk). destruct (kind e) eqn:Ek; [|congruence].
    destruct Hk as (y & e' & Hy & Hyx & He' & Hk' & Hid'). assert (y = m) as -> by congruence.
    destruct (Hnodes m e' ltac:(lia) He') as (Hidm & Hvm & Hkm). rewrite Hk' in Hkm.
    split_and!; [congruence|done| |].
    + destruct (locs_split _ _ Hx) as [A HA]. exists A, (locs x). split; [done|].
      by apply elem_of_locs.
    + pose proof (wf_value _ _ Hwf _ _ He) as Hve. rewrite Ek in Hve. destruct Hve as [i Hi].
      pose proof (wf_value _ _ Hwf _ _ He') as Hvo. rewrite Hk' in Hvo. destruct Hvo as [o Ho].
      exists i, o. rewrite Hv, Hvm, Hi, Ho. done.
  - intros m Hm%elem_of_locs Hnone. destruct (entry_at_total m Hm) as [e He].
    destruct (Hnodes m e Hm He) as (Hid & _ & Hk). destruct (kind e) eqn:Ek.
    { destruct Hk as (y & ? & ? & _). congruence. }
    destruct (wf_call _ _ Hwf _ _ He Ek) as (i & e' & Hi & He' & Hk' & Hid').
    pose proof He' as Hlt%lookup_lt_Some. rewrite (wf_length _ _ Hwf) in Hlt.
    exists (2 * n - S i)%nat.
    assert (entry_at (2 * n - S i) = Some e') as Hx by (unfold entry_at; rewrite <- He'; f_equal; lia).
    split; [apply elem_of_locs; lia|].
    destruct (Hnodes (2 * n - S i)%nat e' ltac:(lia) Hx) as (_ & _ & Hkx). rewrite Hk' in Hkx.
    destruct Hkx as (y & e2 & Hy & Hyx & He2 & Hk2 & Hid2). rewrite Hy. f_equal.
    apply (entry_at_inj y m e2 e); [lia|done|done|done|congruence|congruence].
  - intros x y Hx%elem_of_locs Hy%elem_of_locs Heq.
    destruct (entry_at_total x Hx) as [e He]. destruct (entry_at_total y Hy) as [e' He'].
    destruct (Hnodes x e Hx He) as (Hid & _ & Hk). destruct (Hnodes y e' Hy He') as (Hid' & _ & Hk').
    destruct (kind e) eqn:Ek, (kind e') eqn:Ek'.
    + left. apply (entry_at_inj x y e e'); congruence.
    + right. left. destruct Hk as (z & e2 & Hz & Hzx & He2 & Hk2 & Hid2). rewrite Hz. f_equal.
      apply (entry_at_inj z y e2 e'); [lia|done|done|done|congruence|congruence].
    + right. right. destruct Hk' as (z & e2 & Hz & Hzx & He2 & Hk2 & Hid2). rewrite Hz. f_equal.
      apply (entry_at_inj z x e2 e); [lia|done|done|done|congruence|congruence].
    + left. apply (entry_at_inj x y e e'); congruence.
Qed.

Lemma check_init_ok :
  ensures (check_init model es) (fun '(hd, s) =>
    hd = (2 * n)%nat /\ nodes_of (s_heap s) /\
    static n (s_heap s) hd (locs (2 * n)) /\
    inv model eqv n (s_heap s) (locs (2 * n)) [] [] (locs (2 * n)) s /\
    length (s_longest s) = n).
Proof.
  unfold check_init, makeLinkedEntries. pose proof (wf_length _ _ Hwf) as Hlen.
  destruct (link_entries_spec es) as ([[root mtch] h] & -> & Hb & -> & Hc & Hl & _).
  rewrite Hlen in *. cbn [mbind outcome_bind]. unfold list_length.
  rewrite (length_loop_chain _ _ None _ 0 Hc) by (rewrite length_locs, Hb; lia).
  cbn [mbind outcome_bind]. rewrite length_locs, Z.add_0_l.
  set (nd := mkNode None None (-1) None None).
  destruct (insertBefore_chain h (2 * n) nd Hb Hc eq_refl eq_refl) as (h' & Hins & Hb' & Hc' & Hs).
  cbn [alloc snd] in Hins. unfold alloc. rewrite Hb in *. rewrite Hins. cbn [mbind outcome_bind].
  assert (Z.of_nat (2 * n) / 2 = Z.of_nat n) as ->.
  { rewrite Nat2Z.inj_mul, Z.mul_comm, Z.div_mul; lia. }
  apply ensures_ret. cbn [s_heap s_longest]. split; [done|].
  assert (nodes_of h') as Hnodes.
  { apply linked_nodes_of. eapply linked_same_info; [exact Hs|]. apply linked_insert; [lia|done]. }
  pose proof (nodes_of_static _ Hnodes Hc') as Hst.
  assert (to_uint (Z.of_nat n) = Z.of_nat n) as Hu by (unfold to_uint; apply Z.mod_small; lia).
  split_and!; [done|done| |by rewrite length_replicate, Nat2Z.id].
  rewrite Hu, Nat2Z.id. split; cbn [s_linearized s_state s_cache s_calls s_heap s_entry s_longest].
  - rewrite positions_newBitset. constructor.
  - apply newBitset_ok.
  - done.
  - done.
  - rewrite positions_newBitset. apply rem_empty.
  - done.
  - constructor.
  - done.
  - constructor.
  - constructor.
  - apply cache_ok_empty.
  - intros _ S st Hin. by apply in_cache_empty in Hin.
  - done.
  - apply length_replicate.
  - apply Forall_replicate. done.
Qed.

(** ** The search and the specification *)

Section lin.
Context (h : heap I O) (Hnodes : nodes_of h).

Lemma is_call_entry x e :
  (x < 2 * n)%nat -> entry_at x = Some e -> is_call h x <-> kind e = callEntry.
Proof.
  intros Hx He. destruct (Hnodes x e Hx He) as (_ & _ & Hk). unfold is_call.
  destruct (kind e).
  - destruct Hk as (y & e' & -> & _). split; [done | by eexists].
  - rewrite Hk. split; [by intros [? ?] | done].
Qed.

(** The nodes before a node of the pending list are the earlier entries. *)
Lemma rem_before S A x B y :
  rem h (locs (2 * n)) S = A ++ x :: B ->
  y ∈ A <-> y ∈ rem h (locs (2 * n)) S /\ (x < y)%nat.
Proof.
  intros Hr. assert (x ∈ rem h (locs (2 * n)) S) as Hx by (rewrite Hr; set_solver).
  unfold rem in *. apply list_elem_of_filter in Hx as [HxS Hx%elem_of_locs].
  destruct (locs_split _ _ Hx) as [A0 HA0].
  assert (forall z, z ∈ A0 <-> (z < 2 * n)%nat /\ (x < z)%nat) as Hz.
  { intros z. pose proof (NoDup_locs (2 * n)) as Hnd. rewrite HA0 in Hnd.
    apply NoDup_app in Hnd as (_ & Hd & _). split.
    - intros Hz. assert (z ∈ locs (2 * n)) as Hz2%elem_of_locs by (rewrite HA0; set_solver).
      split; [done|]. specialize (Hd z Hz). rewrite not_elem_of_cons, elem_of_locs in Hd. lia.
    - intros [Hz1 Hz2]. assert (z ∈ locs (2 * n)) as Hz3 by by apply elem_of_locs.
      rewrite HA0 in Hz3. apply elem_of_app in Hz3 as [?|[?|?%elem_of_locs]%elem_of_cons]; [done|lia|lia]. }
  pose proof (NoDup_filter (fun x => idof h x ∉ S) _ (NoDup_locs (2 * n))) as Hnd.
  rewrite Hr in Hnd. rewrite HA0, filter_app, filter_cons, decide_True in Hr by done.
  symmetry in Hr. destruct (split_unique _ _ _ _ _ Hnd Hr) as [-> _].
  rewrite HA0, filter_app, elem_of_app, !list_elem_of_filter, elem_of_cons.
  rewrite Hz, elem_of_locs. split; [tauto|]. intros [[?|[_ [?|?]]] Hlt]; [tauto|lia|lia].
Qed.

Lemma rem_locs_elem S x :
  x ∈ rem h (locs (2 * n)) S <-> (x < 2 * n)%nat /\ idof h x ∉ S.
Proof. unfold rem. rewrite list_elem_of_filter, elem_of_locs. tauto. Qed.

(** The node of an entry. *)
Lemma node_at i e :
  es !! i = Some e -> (2 * n - S i < 2 * n)%nat /\ entry_at (2 * n - S i) = Some e.
Proof.
  intros Hi. pose proof Hi as Hlt%lookup_lt_Some. rewrite (wf_length _ _ Hwf) in Hlt.
  split; [lia|]. unfold entry_at. rewrite <- Hi. f_equal. lia.
Qed.

(** Stepping at a call node is stepping the operation of its entry. *)
Lemma stp_entry x e st :
  (x < 2 * n)%nat -> entry_at x = Some e -> kind e = callEntry ->
  exists i o, op_of es (id e) i o /\ stp model h st x = Step model st i o.
Proof.
  intros Hx He Hk. destruct (Hnodes x e Hx He) as (_ & Hv & Hm). rewrite Hk in Hm.
  destruct Hm as (y & e' & Hy & Hyx & He' & Hk' & Hid').
  destruct (Hnodes y e' ltac:(lia) He') as (_ & Hvy & _).
  pose proof (wf_value _ _ Hwf _ _ He) as Hve. rewrite Hk in Hve. destruct Hve as [i Hi].
  pose proof (wf_value _ _ Hwf _ _ He') as Hvo. rewrite Hk' in Hvo. destruct Hvo as [o Ho].
  exists i, o. split.
  - exists (2 * n - S x)%nat, (2 * n - S y)%nat, e, e'. done.
  - unfold stp. rewrite Hv, Hy. cbn. by rewrite Hvy, Hi, Ho.
Qed.

Lemma op_of_unique d i o i' o' : op_of es d i o -> op_of es d i' o' -> i = i' /\ o = o'.
Proof.
  intros (p & q & ep & eq & Hp & Hkp & Hdp & Hvp & Hq & Hkq & Hdq & Hvq)
    (p' & q' & ep' & eq' & Hp' & Hkp' & Hdp' & Hvp' & Hq' & Hkq' & Hdq' & Hvq').
  assert (p = p') as <- by (eapply (wf_unique _ _ Hwf); [exact Hp|exact Hp'|congruence..]).
  assert (q = q') as <- by (eapply (wf_unique _ _ Hwf); [exact Hq|exact Hq'|congruence..]).
  split; congruence.
Qed.

(** The id of some entry. *)
Definition has_id (d : Z) : Prop := exists i e, es !! i = Some e /\ id e = d.

Abbreviation L := (locs (2 * n)).

Lemma lin_sound S st :
  lin model h L S st ->
  exists order, NoDup order /\
    (forall d, d ∈ order <-> (d ∉ S) /\ has_id d) /\
    legal model es st order /\ StronglySorted (fun a b => ~ precedes es b a) order.
Proof.
  induction 1 as [S st Hr|S st A x B st' Hr HA Hx Hs _ IH].
  - exists []. split_and!; [constructor| |constructor|constructor].
    intros d. split; [by intros ?%not_elem_of_nil|].
    intros [HdS (i & e & Hi & <-)]. destruct (node_at _ _ Hi) as [Hlt He].
    destruct (Hnodes _ _ Hlt He) as [Hid _].
    assert ((2 * n - Datatypes.S i)%nat ∈ rem h L S) as Hin by (apply rem_locs_elem; by rewrite Hid).
    rewrite Hr in Hin. by apply not_elem_of_nil in Hin.
  - destruct IH as (order & Hnd & Hmem & Hlegal & Hsort).
    assert (x ∈ rem h L S) as [Hxn HxS]%rem_locs_elem by (rewrite Hr; set_solver).
    destruct (entry_at_total x Hxn) as [e He].
    destruct (Hnodes x e Hxn He) as (Hid & _ & _). apply (is_call_entry x e Hxn He) in Hx as Hk.
    exists (id e :: order). rewrite Hid in *. split_and!.
    + apply NoDup_cons. split; [|done]. rewrite Hmem. set_solver.
    + intros d. rewrite elem_of_cons, Hmem. split.
      * intros [->|[? ?]]; [|set_solver]. split; [done|]. exists (2 * n - Datatypes.S x)%nat, e. done.
      * intros [HdS Hd]. destruct (decide (d = id e)); [by left|]. right. set_solver.
    + destruct (stp_entry x e st Hxn He Hk) as (i & o & Hop & Hst).
      econstructor; [done| |done]. congruence.
    + apply StronglySorted_cons. split; [|done]. apply Forall_forall. intros b Hb Hprec.
      apply Hmem in Hb as [HbS _].
      destruct Hprec as (i & j & ea & eb & Hij & Hi & Hka & Hia & Hj & Hkb & Hib).
      destruct (node_at _ _ Hi) as [Hlt Hea]. destruct (Hnodes _ _ Hlt Hea) as [Hida _].
      assert (j = (2 * n - Datatypes.S x)%nat) as ->.
      { eapply (wf_unique _ _ Hwf); [exact Hj|exact He|congruence..]. }
      assert ((2 * n - Datatypes.S i)%nat ∈ A) as HinA.
      { apply (rem_before _ _ _ _ _ Hr). rewrite rem_locs_elem, Hida, Hia.
        split_and!; [done|set_solver|lia]. }
      rewrite Forall_forall in HA. apply HA in HinA.
      apply (is_call_entry _ _ Hlt Hea) in HinA. congruence.
Qed.

Lemma lin_complete order S st :
  NoDup order ->
  (forall d, d ∈ order <-> (d ∉ S) /\ has_id d) ->
  legal model es st order -> StronglySorted (fun a b => ~ precedes es b a) order ->
  lin model h L S st.
Proof.
  intros Hnd Hmem Hlegal Hsort. revert S Hnd Hmem Hsort.
  induction Hlegal as [st|st d i o st' ds Hop Hstep _ IH]; intros S Hnd Hmem Hsort.
  - apply lin_done. destruct (rem h L S) as [|x l] eqn:Er; [done|].
    assert (x ∈ rem h L S) as [Hxn HxS]%rem_locs_elem by (rewrite Er; set_solver).
    destruct (entry_at_total x Hxn) as [e He]. destruct (Hnodes x e Hxn He) as (Hid & _ & _).
    assert (id e ∈ @nil Z) as Hin; [|by apply not_elem_of_nil in Hin].
    apply Hmem. rewrite <- Hid. split; [done|]. exists (2 * n - Datatypes.S x)%nat, e. done.
  - apply NoDup_cons in Hnd as [Hd Hnd]. apply StronglySorted_cons in Hsort as [Hmin Hsort].
    pose proof Hop as (p & q & ep & eq & Hp & Hkp & Hdp & Hvp & Hq & Hkq & Hdq & Hvq).
    destruct (node_at _ _ Hp) as [Hxn He]. set (x := (2 * n - Datatypes.S p)%nat) in *.
    destruct (Hnodes x ep Hxn He) as (Hid & _ & _).
    assert (d ∉ S) as HdS by (apply (Hmem d); set_solver).
    assert (x ∈ rem h L S) as Hx by (apply rem_locs_elem; split; [done|congruence]).
    apply list_elem_of_split in Hx as (A & B & Hr).
    destruct (stp_entry x ep st Hxn He Hkp) as (i' & o' & Hop' & Hst'). rewrite Hdp in Hop'.
    destruct (op_of_unique _ _ _ _ _ Hop Hop') as [<- <-].
    eapply (lin_call _ _ _ _ _ A x B st' Hr); [| |congruence|].
    + apply Forall_forall. intros y Hy. apply (rem_before _ _ _ _ _ Hr) in Hy as [Hy Hxy].
      apply rem_locs_elem in Hy as [Hyn HyS]. destruct (entry_at_total y Hyn) as [e2 He2].
      apply (is_call_entry y e2 Hyn He2). destruct (kind e2) eqn:Ek2; [done|exfalso].
      destruct (Hnodes y e2 Hyn He2) as (Hid2 & _ & _). rewrite Hid2 in HyS.
      assert (id e2 ∈ d :: ds) as Hin.
      { apply Hmem. split; [done|]. exists (2 * n - Datatypes.S y)%nat, e2. done. }
      assert (p < 2 * n)%nat as Hpn by (apply lookup_lt_Some in Hp; by rewrite (wf_length _ _ Hwf) in Hp).
      apply elem_of_cons in Hin as [Heq|Hin].
      * destruct (wf_call _ _ Hwf _ _ He2 Ek2) as (i2 & e3 & Hi2 & He3 & Hk3 & Hid3).
        assert (i2 = p) as -> by (eapply (wf_unique _ _ Hwf); [exact He3|exact Hp|congruence..]).
        unfold x in Hxy. lia.
      * rewrite Forall_forall in Hmin. apply (Hmin (id e2) Hin).
        exists (2 * n - Datatypes.S y)%nat, p, e2, ep. split; [unfold x in Hxy; lia|]. done.
    + apply (is_call_entry x ep Hxn He). done.
    + rewrite Hid, Hdp. apply IH; [done| |done]. intros b. split.
      * intros Hb. assert ((b ∉ S) /\ has_id b) as [HbS ?]
          by (apply Hmem; set_solver). split; [set_solver|done].
      * intros [HbS ?]. assert (b ∈ d :: ds) as [->|?]%elem_of_cons by (apply Hmem; set_solver); [set_solver|done].
Qed.

Lemma all_ids d : has_id d <-> d ∈ (Z.of_nat <$> seq 0 n).
Proof.
  rewrite list_elem_of_fmap. split.
  - intros (i & e & Hi & <-). pose proof (wf_id _ _ Hwf _ _ Hi). exists (Z.to_nat (id e)).
    rewrite elem_of_seq. lia.
  - intros (k & -> & Hk%elem_of_seq). apply (wf_all _ _ Hwf). lia.
Qed.

Lemma lin_iff : lin model h L ∅ (Init model) <-> Linearizable_entries model n es.
Proof.
  split.
  - intros (order & Hnd & Hmem & Hlegal & Hsort)%lin_sound. exists order. split; [|done].
    apply NoDup_Permutation; [done|apply NoDup_fmap_2; [apply _|apply NoDup_seq]|].
    intros d. rewrite Hmem, all_ids. set_solver.
  - intros (order & Hperm & Hlegal & Hsort). apply lin_complete with order; [| |done|done].
    + rewrite Hperm. apply NoDup_fmap_2; [apply _|apply NoDup_seq].
    + intros d. rewrite Hperm, all_ids. set_solver.
Qed.

(** ** Paths are partial linearizations *)

Inductive legal_to : St -> list Z -> St -> Prop :=
  | legal_to_nil st : legal_to st [] st
  | legal_to_snoc st ds st1 d i o st2 :
      legal_to st ds st1 -> op_of es d i o -> Step model st1 i o = (true, st2) ->
      legal_to st (ds ++ [d]) st2.

Lemma legal_to_legal st ds st' : legal_to st ds st' -> forall d i o st2 rest,
  op_of es d i o -> Step model st' i o = (true, st2) -> legal model es st2 rest ->
  legal model es st (ds ++ d :: rest).
Proof.
  induction 1 as [st|st ds st1 d i o st2 _ IH Hop Hs]; intros d' i' o' st3 rest Hop' Hs' Hl.
  - cbn. by econstructor.
  - rewrite <- app_assoc. cbn. eapply IH; [done|done|]. by econstructor.
Qed.

Lemma legal_to_end st ds st' : legal_to st ds st' -> legal model es st ds.
Proof.
  destruct 1 as [st|st ds st1 d i o st2 Hl Hop Hs]; [constructor|].
  eapply legal_to_legal; [done..|constructor].
Qed.

Abbreviation path := (path model h L).

Lemma path_after fr S st f y e :
  path fr S st -> f ∈ fr -> (y < 2 * n)%nat -> entry_at y = Some e -> kind e = returnEntry ->
  idof h y ∉ S -> ~ (f_x f < y)%nat.
Proof.
  intros Hp. induction Hp as [|fr S st A x B st' Hp IH Hr HA Hx Hs]; [by intros ?%not_elem_of_nil|].
  intros [->|Hf]%elem_of_cons Hy He Hk HyS; cbn.
  - intros Hlt. assert (y ∈ A) as HyA.
    { apply (rem_before _ _ _ _ _ Hr). rewrite rem_locs_elem. split_and!; [done|set_solver|done]. }
    rewrite Forall_forall in HA. apply HA in HyA. apply (is_call_entry y e Hy He) in HyA. congruence.
  - apply IH; [done..|set_solver].
Qed.

Lemma path_frame_call fr S st f :
  path fr S st -> f ∈ fr -> (f_x f < 2 * n)%nat /\ is_call h (f_x f).
Proof.
  induction 1 as [|fr S st A x B st' Hp IH Hr HA Hx Hs]; [by intros ?%not_elem_of_nil|].
  intros [->|Hf]%elem_of_cons; [|by apply IH]. cbn. split; [|done].
  assert (x ∈ rem h L S) as [? _]%rem_locs_elem by (rewrite Hr; set_solver). done.
Qed.

Lemma ids_of_cons (f : @frame St) fr : ids_of h (f :: fr) = ids_of h fr ++ [idof h (f_x f)].
Proof. unfold ids_of. cbn [fmap list_fmap]. by rewrite reverse_cons. Qed.

Lemma elem_of_ids_of fr S st d : path fr S st -> d ∈ ids_of h fr <-> d ∈ S.
Proof.
  induction 1 as [|fr S st A x B st' Hp IH Hr HA Hx Hs].
  - cbn. set_solver.
  - rewrite ids_of_cons, elem_of_app, IH, list_elem_of_singleton. cbn. set_solver.
Qed.

(** An operation outside a path does not return before one of the path is
    called. *)
Lemma path_closed fr S st a b : path fr S st -> a ∈ ids_of h fr -> b ∉ S -> ~ precedes es b a.
Proof.
  intros Hp Ha Hb (p & q & ep & eq & Hpq & Hep & Hkp & Hdp & Heq & Hkq & Hdq).
  unfold ids_of in Ha. rewrite elem_of_reverse in Ha. apply list_elem_of_fmap in Ha as (f & -> & Hf).
  destruct (node_at _ _ Hep) as [Hlt Hea]. destruct (Hnodes _ _ Hlt Hea) as [Hida _].
  destruct (path_frame_call _ _ _ f Hp Hf) as [Hfn Hfc].
  apply (path_after _ _ _ f (2 * n - Datatypes.S p)%nat ep Hp Hf Hlt Hea Hkp).
  { rewrite Hida. congruence. }
  destruct (entry_at_total _ Hfn) as [ef Hef]. destruct (Hnodes _ _ Hfn Hef) as (Hidf & _ & _).
  apply (is_call_entry _ _ Hfn Hef) in Hfc.
  assert (q = (2 * n - Datatypes.S (f_x f))%nat) as ->; [|lia].
  eapply (wf_unique _ _ Hwf); [exact Heq|exact Hef|congruence..].
Qed.

Lemma path_partial fr S st :
  path fr S st ->
  legal_to (Init model) (ids_of h fr) st /\ NoDup (ids_of h fr) /\
  StronglySorted (fun a b => ~ precedes es b a) (ids_of h fr).
Proof.
  induction 1 as [|fr S st A x B st' Hp (IH1 & IH2 & IH3) Hr HA Hx Hs].
  { cbn. split_and!; constructor. }
  rewrite ids_of_cons. cbn [f_x].
  assert (x ∈ rem h L S) as [Hxn HxS]%rem_locs_elem by (rewrite Hr; set_solver).
  destruct (entry_at_total x Hxn) as [e He]. destruct (Hnodes x e Hxn He) as (Hid & _ & _).
  apply (is_call_entry x e Hxn He) in Hx as Hk.
  destruct (stp_entry x e st Hxn He Hk) as (i & o & Hop & Hst). split_and!.
  - econstructor; [done|by rewrite Hid|congruence].
  - apply NoDup_app. split_and!; [done| |apply NoDup_singleton].
    intros d Hd. rewrite (elem_of_ids_of _ _ _ _ Hp) in Hd. rewrite list_elem_of_singleton.
    intros ->. done.
  - apply StronglySorted_app_2; [|done|constructor; constructor].
    intros a b Ha Hb%list_elem_of_singleton. subst b. by eapply path_closed.
Qed.

End lin.

(** ** [checkSingle] *)

(** What holds of the recorded partial linearizations. *)
Definition longest_ok (longest : list (option seq_ptr)) : Prop :=
  length longest = n /\
  Forall (fun p => match p with
                   | Some (_, l) => partial_linearization model es l
                   | None => True
                   end) longest.

Lemma checkSingle_ok cp kill :
  ensures (checkSingle model es cp kill) (fun '(b, longest) =>
    longest_ok longest /\
    (b = true -> Linearizable_entries model n es) /\
    (b = false -> equal_sound model eqv -> (forall i, kill i = false) ->
      ~ Linearizable_entries model n es)).
Proof.
  unfold checkSingle.
  destruct check_init_ok as ([hd s] & -> & -> & Hnodes & Hst & Hinv & Hlen).
  cbn [mbind outcome_bind]. rewrite Hlen.
  eapply ensures_mono.
  { eapply (loop_ok model eqv n (s_heap s) (2 * n)%nat (locs (2 * n)) Hst HEqual Hn); [exact Hinv|].
    unfold measure. rewrite length_locs. cbn [frames_weight length]. rewrite Nat.sub_0_r, weight_full. lia. }
  intros [b l] (Hl & Hpart & Htrue & Hfalse). rewrite (lin_iff (s_heap s) Hnodes) in Htrue, Hfalse.
  split_and!; [|done|done]. split; [done|]. eapply Forall_impl; [exact Hpart|].
  intros [[k order]|]; [|done]. cbn. intros (fr & S & st & Hp & Hne & ->).
  destruct (path_partial _ Hnodes _ _ _ Hp) as (H1 & H2 & H3). split_and!; [|done| |done|].
  - destruct fr as [|f fr]; [done|]. rewrite ids_of_cons. by intros [_ ?]%app_nil.
  - by eapply legal_to_end.
  - intros a b0 Ha Hb. eapply path_closed; [done..|]. intros Hin. apply Hb. by eapply elem_of_ids_of.
Qed.
End init.
