(* ===== verification/ParallelCorrect.v ===== *)
(** * The checker's entry points decide linearizability

    Theorems about [checkSingle], [checkParallel], [CheckOperations] and the
    other entry points of src/src/porcupine/porcupine.go, for every order in
    which the partitions' results arrive and with or without a timeout. *)

From S2P Require Import Prelude Bitset PorcModel Linked Checker SearchProof LinSpec CheckerCorrect.

(** The result arrivals of a schedule. *)
Definition arrived (evs : list arrival) : list nat :=
  omap (fun a => match a with Result i => Some i | TimerFires => None end) evs.

(** Each partition sends one result. *)
Definition arrivals_ok (n : nat) (evs : list arrival) : Prop :=
  NoDup (arrived evs) /\ Forall (fun i => i < n)%nat (arrived evs).

Lemma receive_all n (recv : list nat) :
  NoDup recv -> Forall (fun i => i < n)%nat recv -> (n <= length recv)%nat ->
  forall i, (i < n)%nat -> i ∈ recv.
Proof.
  intros Hnd Hlt Hlen i Hi.
  assert (recv ⊆+ seq 0 n) as Hsub.
  { apply NoDup_submseteq; [done|]. intros k Hk. rewrite Forall_forall in Hlt.
    apply elem_of_seq. specialize (Hlt k Hk). lia. }
  assert (recv ≡ₚ seq 0 n) as -> by (apply submseteq_length_Permutation; [done|by rewrite length_seq]).
  apply elem_of_seq. lia.
Qed.

(** What the receive loop reports about the results [rs]. *)
Lemma receive_loop_spec n ci timer (rs : list bool) evs recv ok ok' timedOut k :
  length rs = n ->
  NoDup (recv ++ arrived evs) -> Forall (fun i => i < n)%nat (recv ++ arrived evs) ->
  (ok = true <-> Forall (fun i => rs !! i = Some true) recv) ->
  receive_loop n ci timer rs evs (length recv) ok = Some (ok', timedOut, k) ->
  (ok' = false -> exists i, rs !! i = Some false) /\
  (ok' = true -> timedOut = false -> forall i, (i < n)%nat -> rs !! i = Some true) /\
  (timedOut = true -> timer = true /\ TimerFires ∈ evs).
Proof.
  intros Hlen. revert recv ok. induction evs as [|[i|] evs IH]; intros recv ok Hnd Hlt Hok; [done| |].
  - change (arrived (Result i :: evs)) with (i :: arrived evs) in Hnd, Hlt. cbn [receive_loop].
    assert ((recv ++ [i]) ++ arrived evs = recv ++ i :: arrived evs) as Happ by by rewrite <- app_assoc.
    assert (i < n)%nat as Hi by (rewrite Forall_app, Forall_cons in Hlt; tauto).
    destruct (lookup_lt_is_Some_2 rs i) as [b Hb]; [lia|]. rewrite Hb. cbn [default from_option].
    assert (ok && b = true <-> Forall (fun i => rs !! i = Some true) (recv ++ [i])) as Hok'.
    { rewrite andb_true_iff, Forall_app, Forall_singleton, Hok, Hb.
      split; intros [? ?]; split; congruence. }
    assert (S (length recv) = length (recv ++ [i])) as Hl by (rewrite length_app; cbn; lia).
    assert (ok && b = false -> exists i, rs !! i = Some false) as Hfalse.
    { intros Hf. destruct b; [|eauto]. rewrite andb_true_r in Hf.
      destruct (decide (Exists (fun i => rs !! i = Some false) recv)) as [He|He].
      - apply Exists_exists in He as (j & _ & ?). eauto.
      - exfalso. rewrite Hf in Hok. destruct Hok as [_ Hok]. discriminate Hok.
        apply Forall_forall. intros j Hj.
        destruct (lookup_lt_is_Some_2 rs j) as [[] ?]; [|done|].
        + rewrite Forall_app, Forall_forall in Hlt. destruct Hlt as [Hlt _]. specialize (Hlt j Hj). lia.
        + exfalso. apply He, Exists_exists. eauto. }
    cbn [Datatypes.id] in *. destruct (negb (ok && b) && negb ci) eqn:E1.
    + intros [= <- <- <-]. apply andb_true_iff in E1 as [E1 _]. apply negb_true_iff in E1.
      split_and!; [auto|congruence|done].
    + case_bool_decide as E2.
      * intros [= <- <- <-]. split_and!; [auto| |done]. intros Ht _ j Hj.
        apply Hok' in Ht. rewrite Forall_forall in Ht. apply Ht.
        apply (receive_all n); [|by rewrite <- Happ in Hlt; apply Forall_app in Hlt as [? _]|lia|done].
        rewrite <- Happ in Hnd. by apply NoDup_app in Hnd as [? _].
      * rewrite Hl. intros Hr. apply IH in Hr; [|by rewrite Happ|by rewrite Happ|done].
        destruct Hr as (? & ? & Ht). split_and!; [done..|]. intros Hto. destruct (Ht Hto). set_solver.
  - change (arrived (TimerFires :: evs)) with (arrived evs) in Hnd, Hlt. cbn [receive_loop]. destruct timer.
    + intros [= <- <- <-]. split_and!; [|done|set_solver]. intros Hf.
      destruct (decide (Exists (fun i => rs !! i = Some false) recv)) as [He|He].
      { apply Exists_exists in He as (j & _ & ?). eauto. }
      exfalso. rewrite Hf in Hok. destruct Hok as [_ Hok]. discriminate Hok.
      apply Forall_forall. intros j Hj.
      destruct (lookup_lt_is_Some_2 rs j) as [[] ?]; [|done|].
      * rewrite Forall_app, Forall_forall in Hlt. destruct Hlt as [Hlt _]. specialize (Hlt j Hj). lia.
      * exfalso. apply He, Exists_exists. eauto.
    + intros Hr. apply IH in Hr; [|done..]. destruct Hr as (? & ? & Ht).
      split_and!; [done..|]. intros Hto. destruct (Ht Hto). done.
Qed.

(** When every result arrives, the loop is left. *)
Lemma receive_loop_progress n ci timer (rs : list bool) evs count ok :
  (n <= count + length (arrived evs))%nat -> (count < n)%nat ->
  exists r, receive_loop n ci timer rs evs count ok = Some r.
Proof.
  revert count ok. induction evs as [|[i|] evs IH]; intros count ok Hc Hlt; [cbn in Hc; lia| |];
    cbn [receive_loop].
  - change (length (arrived (Result i :: evs))) with (S (length (arrived evs))) in Hc.
    destruct (_ && _); [eauto|]. case_bool_decide; [eauto|]. apply IH; lia.
  - change (arrived (TimerFires :: evs)) with (arrived evs) in Hc.
    destruct timer; [eauto|]. by apply IH.
Qed.

(** With no partition the loop waits for a result that is never sent. *)
Lemma receive_loop_empty ci (rs : list bool) evs ok :
  arrivals_ok 0 evs -> receive_loop 0 ci false rs evs 0 ok = None.
Proof.
  intros [_ Hlt]. induction evs as [|[i|] evs IH]; cbn in *; [done| |by apply IH].
  apply Forall_cons in Hlt as [? _]. lia.
Qed.

Section parallel.
Context {I O St : Type} `{!EqDecision St} `{!RangeOrder seq_ptr}.
Context (model : Model I O St) (eqv : St -> St -> bool).

(** The history of one partition, within the range of [int]. *)
Definition sub_ok (sub : list (entry I O)) : Prop :=
  exists n, wf_history n sub /\ Z.of_nat n < 2 ^ 63.

Definition sub_lin (sub : list (entry I O)) : Prop :=
  exists n, wf_history n sub /\ Linearizable_entries model n sub.

Lemma wf_history_fun n m (sub : list (entry I O)) :
  wf_history n sub -> wf_history m sub -> n = m.
Proof. intros H1%wf_length H2%wf_length. lia. Qed.

Definition partials_ok (sub : list (entry I O)) (longest : list (option seq_ptr)) : Prop :=
  Forall (fun p => match p with
                   | Some (_, l) => partial_linearization model sub l
                   | None => True
                   end) longest.

Lemma checkSingle_sub sub cp kill :
  Equal model = Some eqv -> sub_ok sub ->
  ensures (checkSingle model sub cp kill) (fun '(b, longest) =>
    partials_ok sub longest /\
    (b = true -> sub_lin sub) /\
    (b = false -> equal_sound model eqv -> (forall i, kill i = false) -> ~ sub_lin sub)).
Proof.
  intros HE (n & Hwf & Hn).
  eapply ensures_mono; [by apply (checkSingle_ok model eqv n)|].
  intros [b l] ([_ Hl] & Ht & Hf). split_and!; [done|intros Hb; exists n; auto|].
  intros Hb Hs Hk (m & Hm & Hlin). rewrite (wf_history_fun _ _ _ Hm Hwf) in Hlin.
  by apply Hf.
Qed.

Lemma ensures_mapM {A B} (f : A -> outcome B) (P : A -> B -> Prop) l :
  (forall x, x ∈ l -> ensures (f x) (P x)) -> ensures (mapM f l) (Forall2 P l).
Proof.
  induction l as [|x l IH]; intros H; cbn; [by apply ensures_ret|].
  eapply ensures_bind; [apply H; set_solver|]. intros y Hy.
  eapply ensures_bind; [apply IH; set_solver|]. intros ys Hys. apply ensures_ret. by constructor.
Qed.

Lemma dedup_ptrs_elem seen l p : p ∈ dedup_ptrs seen l -> Some p ∈ l.
Proof.
  revert seen. induction l as [|[q|] l IH]; intros seen; cbn; [set_solver| |set_solver].
  case_bool_decide; set_solver.
Qed.

Lemma partials_of_ok (P : list Z -> Prop) longest :
  Forall (fun p => match p with Some (_, l) => P l | None => True end) longest ->
  Forall P (partials_of longest).
Proof.
  intros H. rewrite Forall_forall in H. apply Forall_forall. intros l Hl. unfold partials_of in Hl.
  apply list_elem_of_fmap in Hl as ([k l'] & -> & Hl). rewrite range_order_perm in Hl.
  apply dedup_ptrs_elem in Hl. by apply (H (Some (k, l'))).
Qed.

(** What a caller of [checkParallel] may rely on. *)
Definition parallel_post (history : list (list (entry I O))) (computeInfo : bool) (timeout : Z)
    (evs : list arrival) (r : option (CheckResult * linearizationInfo)) : Prop :=
  match r with
  | None => history = [] \/ (length (arrived evs) < length history)%nat
  | Some (res, info) =>
      (res = Ok -> Forall sub_lin history) /\
      (res = Illegal -> Exists (fun sub => ~ sub_lin sub) history) /\
      (res = Unknown -> 0 < timeout /\ TimerFires ∈ evs) /\
      (computeInfo = true -> li_history info = history /\
        Forall2 (fun sub => Forall (partial_linearization model sub)) history (li_partials info))
  end.

Lemma Forall2_imap_snd {A B} (P : A -> B -> Prop) (l : list A) (k : list B) :
  Forall2 (fun (x : nat * A) y => P x.2 y) (imap pair l) k -> Forall2 P l k.
Proof.
  assert (snd <$> imap pair l = l) as Hl.
  { rewrite fmap_imap. apply list_eq. intros i. rewrite list_lookup_imap. by destruct (l !! i). }
  intros H. rewrite <- Hl. by apply Forall2_fmap_l.
Qed.

Lemma checkParallel_ok history computeInfo timeout evs kill :
  Equal model = Some eqv -> equal_sound model eqv ->
  Forall sub_ok history -> arrivals_ok (length history) evs ->
  ensures (checkParallel model history computeInfo timeout evs kill)
    (parallel_post history computeInfo timeout evs).
Proof.
  intros HE Hs Hok [Hnd Hlt]. unfold checkParallel. rewrite Forall_forall in Hok.
  eapply ensures_bind.
  { apply (ensures_mapM _ (fun sub r => r.1 = true <-> sub_lin sub)). intros sub Hsub.
    eapply ensures_mono; [apply checkSingle_sub; [done|by apply Hok]|].
    intros [[] l] (_ & Ht & Hf); cbn; [tauto|]. split; [done|]. intros Hl. by destruct (Hf eq_refl Hs). }
  intros rs Hrs. pose proof (Forall2_length _ _ _ Hrs) as Hlen.
  destruct (receive_loop _ _ _ _ _ _ _) as [[[ok timedOut] k]|] eqn:Hr.
  2:{ apply ensures_ret. cbn. destruct (decide (length (arrived evs) < length history)%nat); [by right|].
      left. destruct history as [|sub history]; [done|].
      destruct (receive_loop_progress (length (sub :: history)) computeInfo (bool_decide (0 < timeout))
        (fst <$> rs) evs 0 true) as [r Hr']; [lia|cbn; lia|]. congruence. }
  apply (receive_loop_spec _ _ _ _ _ []) in Hr;
    [|by rewrite length_fmap|done|done|by split; [intros; constructor|]].
  destruct Hr as (Hbad & Hgood & Hto).
  eapply ensures_bind with (P := fun info => computeInfo = true -> li_history info = history /\
    Forall2 (fun sub => Forall (partial_linearization model sub)) history (li_partials info)).
  { destruct computeInfo; [|by apply ensures_ret]. eapply ensures_bind.
    - apply (ensures_mapM _ (fun (x : nat * list (entry I O)) r => partials_ok x.2 r.2)).
      intros [i sub] (j & y & Heq & Hsub)%elem_of_lookup_imap_1. injection Heq as -> ->.
      eapply ensures_mono; [apply checkSingle_sub; [done|]|by intros [] (? & _)].
      apply Hok. by eapply list_elem_of_lookup_2.
    - intros longest Hl. apply ensures_ret. intros _. split; [done|]. cbn.
      apply Forall2_fmap_r. apply Forall2_imap_snd. eapply Forall2_impl; [exact Hl|].
      intros [i sub] [b l]. apply partials_of_ok. }
  intros info Hinfo. apply ensures_ret. cbn. split_and!; [..|done].
  - intros Hres. destruct ok, timedOut; try done. apply Forall_lookup. intros i sub Hi.
    destruct (Forall2_lookup_l _ _ _ _ _ Hrs Hi) as (r & Hri & Hiff). apply Hiff.
    specialize (Hgood eq_refl eq_refl i (lookup_lt_Some _ _ _ Hi)).
    rewrite list_lookup_fmap, Hri in Hgood. by injection Hgood.
  - intros Hres. destruct ok; [by destruct timedOut|]. destruct (Hbad eq_refl) as [i Hi].
    rewrite list_lookup_fmap in Hi. apply fmap_Some in Hi as (r & Hri & Hfr).
    destruct (Forall2_lookup_r _ _ _ _ _ Hrs Hri) as (sub & Hsub & Hiff).
    apply Exists_exists. exists sub. split; [by eapply list_elem_of_lookup_2|].
    rewrite <- Hiff, <- Hfr. done.
  - intros Hres. destruct ok; [|done]. destruct timedOut; [|done].
    destruct (Hto eq_refl) as [?%bool_decide_eq_true_1 ?]. done.
Qed.
End parallel.

(** ** The defaults *)

Section defaults.
Context {I O St : Type} `{!EqDecision St} `{!Format I, !Format O, !Format St}.
Implicit Types (model : Model I O St).

Lemma legal_ops_fillDefault model st ops :
  legal_ops (fillDefault model) st ops <-> legal_ops model st ops.
Proof. split; induction 1; econstructor; eauto. Qed.

Lemma Linearizable_fillDefault model history :
  Linearizable (fillDefault model) history <-> Linearizable model history.
Proof.
  unfold Linearizable. change (Init (fillDefault model)) with (Init model).
  split; intros (ops & ? & H & ?); exists ops; (split_and!; [done| |done]);
    by apply legal_ops_fillDefault.
Qed.

(** The equivalence that the search uses to prune: the one the model gives,
    or equality. *)
Definition state_equal model : St -> St -> bool := default ShallowEqual (Equal model).

Lemma fillDefault_Equal model : Equal (fillDefault model) = Some (state_equal model).
Proof. unfold state_equal, fillDefault. cbn. by destruct (Equal model). Qed.

(** The equivalence of a model that can be pruned with: related states allow
    the same outputs and stay related. *)
Definition equal_ok model : Prop :=
  forall st1 st2 i o st1', state_equal model st1 st2 = true -> Step model st1 i o = (true, st1') ->
    exists st2', Step model st2 i o = (true, st2') /\ state_equal model st1' st2' = true.

Lemma equal_ok_default model : Equal model = None -> equal_ok model.
Proof.
  intros HE st1 st2 i o st1'. unfold state_equal, ShallowEqual. rewrite HE. cbn.
  intros ->%bool_decide_eq_true_1 Hs. exists st1'. split; [done|]. by apply bool_decide_eq_true_2.
Qed.

Lemma equal_ok_sound model : equal_ok model -> equal_sound (fillDefault model) (state_equal model).
Proof. done. Qed.
End defaults.

(** ** Operations *)

Section operations.
Context {I O St : Type} `{!EqDecision St} `{!Format I, !Format O, !Format St} `{!RangeOrder seq_ptr} `{!GoSort (@Less I O)}.
Implicit Types (model : Model I O St) (history : list (Operation I O)).

(** The partitions that a model makes of a history. *)
Definition partitions_of model history : list (list (Operation I O)) :=
  default NoPartition (Partition model) history.

(** A history that an [int] can number, in which no operation returns before
    it is called. *)
Definition ops_ok history : Prop := well_timed history /\ Z.of_nat (length history) < 2 ^ 63.

Lemma makeEntries_sub_ok history : ops_ok history -> sub_ok (makeEntries history).
Proof. intros [Hw Hl]. exists (length history). split; [by apply makeEntries_wf|done]. Qed.

Lemma makeEntries_sub_lin model history :
  ops_ok history -> sub_lin (fillDefault model) (makeEntries history) <-> Linearizable model history.
Proof.
  intros [Hw Hl]. rewrite <- Linearizable_fillDefault, <- linearizable_entries_iff by done. split.
  - intros (n & Hn & Hlin). by rewrite (wf_history_fun _ _ _ Hn (makeEntries_wf _ Hw)) in Hlin.
  - intros Hlin. exists (length history). split; [by apply makeEntries_wf|done].
Qed.

Lemma checkOperations_ok model history verbose timeout evs kill :
  equal_ok model -> Forall ops_ok (partitions_of model history) ->
  arrivals_ok (length (partitions_of model history)) evs ->
  ensures (checkOperations model history verbose timeout evs kill)
    (parallel_post (fillDefault model) (makeEntries <$> partitions_of model history) verbose timeout evs).
Proof.
  intros Hs Hok Harr. unfold checkOperations.
  assert (call_fn (Partition (fillDefault model)) history = Ret (partitions_of model history)) as ->.
  { unfold partitions_of, fillDefault. cbn. by destruct (Partition model). }
  apply (checkParallel_ok _ (state_equal model)).
  - apply fillDefault_Equal.
  - by apply equal_ok_sound.
  - apply Forall_fmap. eapply Forall_impl; [exact Hok|]. apply makeEntries_sub_ok.
  - by rewrite length_fmap.
Qed.

(** The verdict in terms of the partitions' operations. *)
Lemma parallel_post_ops model history verbose timeout evs res info :
  Forall ops_ok (partitions_of model history) ->
  parallel_post (fillDefault model) (makeEntries <$> partitions_of model history) verbose timeout evs
    (Some (res, info)) ->
  (res = Ok -> Forall (Linearizable model) (partitions_of model history)) /\
  (res = Illegal -> ~ Forall (Linearizable model) (partitions_of model history)) /\
  (res = Unknown -> 0 < timeout /\ TimerFires ∈ evs).
Proof.
  intros Hok (H1 & H2 & H3 & _). rewrite Forall_forall in Hok. split_and!; [| |done].
  - intros Hres%H1. rewrite Forall_fmap in Hres. rewrite Forall_forall in *.
    intros p Hp. apply makeEntries_sub_lin; [by apply Hok|]. by apply Hres.
  - intros Hres%H2 Hall. apply Exists_exists in Hres as (sub & Hsub & Hno).
    apply list_elem_of_fmap in Hsub as (p & -> & Hp). apply Hno.
    apply makeEntries_sub_lin; [by apply Hok|]. rewrite Forall_forall in Hall. by apply Hall.
Qed.
End operations.
