(* ===== verification/Events.v ===== *)
(** * Histories of events (src/src/porcupine/checker.go: renumber, convertEntries, checkEvents)

    A history may also be given as call and return events with arbitrary
    identifiers.  [renumber] replaces the identifiers by [0 .. n-1]; the
    result is a well-formed entry list, and renumbering does not change
    which histories are linearizable. *)

From S2P Require Import Prelude PorcModel LinSpec Checker CheckerCorrect ParallelCorrect.

Section events.
Context {I O St : Type} (model : Model I O St).
Implicit Types (events : list (Event I O)).

(** Each identifier has one call and one return, the call first, and the
    events carry an input or an output accordingly. *)
Record wf_events events : Prop := {
  we_unique : NoDup ((fun v => (Kind v, Id v)) <$> events);
  we_return : forall i v, events !! i = Some v -> Kind v = CallEvent ->
    exists j v', (i < j)%nat /\ events !! j = Some v' /\ Kind v' = ReturnEvent /\ Id v' = Id v;
  we_call : forall j v', events !! j = Some v' -> Kind v' = ReturnEvent ->
    exists i v, (i < j)%nat /\ events !! i = Some v /\ Kind v = CallEvent /\ Id v = Id v';
  we_value : forall i v, events !! i = Some v ->
    match Kind v with
    | CallEvent => exists x, Value v = inl x
    | ReturnEvent => exists x, Value v = inr x
    end;
}.

(** Some order of all the identifiers is a legal execution and respects the
    order of the events. *)
Definition Linearizable_events events : Prop :=
  exists order, order ≡ₚ remove_dups (Id <$> events) /\
    legal model (convertEntries events) (Init model) order /\
    StronglySorted (fun a b => ~ precedes (convertEntries events) b a) order.

(** ** What [renumber] computes *)

Definition set_id (f : Z -> Z) (v : Event I O) : Event I O :=
  mkEvent (ev_ClientId v) (Kind v) (Value v) (f (Id v)).

Lemma renumber_loop_spec events seen m :
  NoDup seen ->
  (forall d j, m !! d = Some j <-> 0 <= j /\ seen !! Z.to_nat j = Some d) ->
  exists all f, NoDup all /\ seen `prefix_of` all /\
    (forall d, d ∈ all <-> d ∈ seen \/ d ∈ Id <$> events) /\
    (forall j d, all !! j = Some d -> f d = Z.of_nat j) /\
    renumber_loop events m (Z.of_nat (length seen)) = set_id f <$> events.
Proof.
  revert seen m. induction events as [|v events IH]; intros seen m Hnd Hm.
  - exists seen, (fun d => default 0 (m !! d)). split_and!; [done|done|set_solver| |done].
    intros j d Hj. assert (m !! d = Some (Z.of_nat j)) as ->; [|done].
    apply Hm. rewrite Nat2Z.id. split; [lia|done].
  - cbn [renumber_loop]. destruct (m !! Id v) as [r|] eqn:Er.
    + destruct (IH seen m Hnd Hm) as (all & f & Hall & Hpre & Hin & Hf & Heq).
      apply Hm in Er as [Hr Hseen]. exists all, f. split_and!; [done|done| |done|].
      * intros d. rewrite Hin, fmap_cons, elem_of_cons.
        split; [tauto|]. intros [?|[->|?]]; [tauto| |tauto]. left. by eapply list_elem_of_lookup_2.
      * rewrite Heq. cbn. unfold set_id at 2. rewrite (Hf (Z.to_nat r) (Id v)); [f_equal; f_equal; lia|].
        by eapply prefix_lookup_Some.
    + assert (Id v ∉ seen) as Hv.
      { intros [j Hj]%list_elem_of_lookup. assert (m !! Id v = Some (Z.of_nat j)); [|congruence].
        apply Hm. rewrite Nat2Z.id. split; [lia|done]. }
      destruct (IH (seen ++ [Id v]) (<[Id v := Z.of_nat (length seen)]> m))
        as (all & f & Hall & Hpre & Hin & Hf & Heq).
      { apply NoDup_app. split_and!; [done| |apply NoDup_singleton]. set_solver. }
      { intros d j. destruct (decide (d = Id v)) as [->|Hd].
        - rewrite lookup_insert_eq. split.
          + intros [= <-]. split; [lia|]. rewrite Nat2Z.id. by apply list_lookup_middle.
          + intros [Hj [Hl|[Hlen Hl]]%lookup_app_Some].
            * by apply list_elem_of_lookup_2 in Hl.
            * apply list_lookup_singleton_Some in Hl as [? _]. f_equal. lia.
        - rewrite lookup_insert_ne, Hm by done. split; (intros [Hj Hl]; split; [done|]).
          + by apply lookup_app_l_Some.
          + apply lookup_app_Some in Hl as [Hl|[_ Hl]]; [done|].
            apply list_lookup_singleton_Some in Hl as [_ ?]. congruence. }
      exists all, f. split_and!; [done|by eapply prefix_app_l| |done|].
      * intros d. rewrite Hin. set_solver.
      * rewrite length_app in Heq. cbn [length] in Heq.
        replace (Z.of_nat (length seen) + 1) with (Z.of_nat (length seen + 1)) by lia.
        rewrite Heq. cbn. unfold set_id at 2. do 2 f_equal. symmetry. apply Hf.
        eapply prefix_lookup_Some; [|exact Hpre]. by apply list_lookup_middle.
Qed.

(** [renumber] applies a bijection from the identifiers to [0 .. n-1]. *)
Lemma renumber_spec events :
  exists all f, all ≡ₚ remove_dups (Id <$> events) /\
    (forall j d, all !! j = Some d -> f d = Z.of_nat j) /\
    renumber events = set_id f <$> events.
Proof.
  destruct (renumber_loop_spec events [] ∅) as (all & f & Hnd & _ & Hin & Hf & Heq).
  - constructor.
  - intros d j. rewrite lookup_empty, lookup_nil. split; [done|]. by intros [_ ?].
  - exists all, f. split_and!; [|done|done]. apply NoDup_Permutation; [done|apply NoDup_remove_dups|].
    intros d. rewrite Hin, elem_of_remove_dups. set_solver.
Qed.

(** ** Entries under a renaming of the identifiers *)

Definition rename (f : Z -> Z) (e : entry I O) : entry I O :=
  mkEntry (kind e) (value e) (f (id e)) (time e) (clientId e).

Definition to_entryKind (k : EventKind) : entryKind :=
  match k with CallEvent => callEntry | ReturnEvent => returnEntry end.

Lemma convertEntries_loop_lookup events i0 i :
  convertEntries_loop events i0 !! i =
  (fun v => mkEntry (to_entryKind (Kind v)) (Value v) (Id v) (i0 + Z.of_nat i) (ev_ClientId v)) <$> events !! i.
Proof.
  revert i0 i. induction events as [|v events IH]; intros i0 [|i]; cbn [convertEntries_loop]; [done..| |].
  - cbn. f_equal. destruct (Kind v); cbn; f_equal; lia.
  - cbn. rewrite IH. destruct (events !! i); cbn; [|done].
    replace (i0 + 1 + Z.of_nat i) with (i0 + Z.of_nat (S i)) by lia. done.
Qed.

Lemma length_convertEntries_loop events i0 : length (convertEntries_loop events i0) = length events.
Proof. revert i0. induction events as [|v l IH]; intros i0; cbn; [done|]. by rewrite IH. Qed.

Lemma convertEntries_lookup events i e :
  convertEntries events !! i = Some e <->
  exists v, events !! i = Some v /\
    e = mkEntry (to_entryKind (Kind v)) (Value v) (Id v) (Z.of_nat i) (ev_ClientId v).
Proof.
  unfold convertEntries. rewrite convertEntries_loop_lookup, fmap_Some. naive_solver.
Qed.

Lemma convertEntries_set_id f events :
  convertEntries (set_id f <$> events) = rename f <$> convertEntries events.
Proof.
  apply list_eq. intros i. unfold convertEntries.
  rewrite list_lookup_fmap, !convertEntries_loop_lookup, list_lookup_fmap.
  by destruct (events !! i).
Qed.

Section rename.
Context (f : Z -> Z) (all : list Z) (es : list (entry I O)).
Context (Hids : forall i e, es !! i = Some e -> id e ∈ all).
Context (Hinj : forall a b, a ∈ all -> b ∈ all -> f a = f b -> a = b).

Lemma rename_lookup i e' :
  (rename f <$> es) !! i = Some e' <-> exists e, es !! i = Some e /\ e' = rename f e.
Proof. rewrite list_lookup_fmap, fmap_Some. naive_solver. Qed.

Lemma rename_id i e d : es !! i = Some e -> d ∈ all -> id (rename f e) = f d <-> id e = d.
Proof. intros He Hd. cbn. split; [|by intros ->]. apply Hinj; [by eapply Hids|done]. Qed.

Lemma op_of_rename d x y : d ∈ all -> op_of (rename f <$> es) (f d) x y <-> op_of es d x y.
Proof.
  intros Hd. unfold op_of. split.
  - intros (p & q & ep & eq & Hp & Hkp & Hdp & Hvp & Hq & Hkq & Hdq & Hvq).
    apply rename_lookup in Hp as (ep' & Hp & ->), Hq as (eq' & Hq & ->).
    apply (rename_id _ _ _ Hp Hd) in Hdp. apply (rename_id _ _ _ Hq Hd) in Hdq.
    by exists p, q, ep', eq'.
  - intros (p & q & ep & eq & Hp & Hkp & Hdp & Hvp & Hq & Hkq & Hdq & Hvq).
    exists p, q, (rename f ep), (rename f eq). rewrite !rename_lookup. split_and!; eauto; cbn; congruence.
Qed.

Lemma precedes_rename a b :
  a ∈ all -> b ∈ all -> precedes (rename f <$> es) (f a) (f b) <-> precedes es a b.
Proof.
  intros Ha Hb. unfold precedes. split.
  - intros (i & j & ea & eb & Hij & Hi & Hka & Hda & Hj & Hkb & Hdb).
    apply rename_lookup in Hi as (ea' & Hi & ->), Hj as (eb' & Hj & ->).
    apply (rename_id _ _ _ Hi Ha) in Hda. apply (rename_id _ _ _ Hj Hb) in Hdb.
    by exists i, j, ea', eb'.
  - intros (i & j & ea & eb & Hij & Hi & Hka & <- & Hj & Hkb & <-).
    exists i, j, (rename f ea), (rename f eb). rewrite !rename_lookup. split_and!; eauto.
Qed.

Lemma legal_rename st order :
  Forall (fun d => d ∈ all) order ->
  legal model (rename f <$> es) st (f <$> order) <-> legal model es st order.
Proof.
  intros Hall. revert st. induction Hall as [|d order Hd _ IH]; intros st; [split; constructor|].
  split; intros Hl; inversion Hl as [|? ? x y st' ? Hop Hs Hl']; subst.
  - econstructor; [by apply op_of_rename in Hop|done|]. by apply IH.
  - econstructor; [by apply op_of_rename|done|]. by apply IH.
Qed.

Lemma sorted_rename order :
  Forall (fun d => d ∈ all) order ->
  StronglySorted (fun a b => ~ precedes (rename f <$> es) b a) (f <$> order) <->
  StronglySorted (fun a b => ~ precedes es b a) order.
Proof.
  induction 1 as [|d order Hd Ho IH]; [split; constructor|]. rewrite fmap_cons, !StronglySorted_cons, IH.
  rewrite Forall_fmap, !Forall_forall. rewrite Forall_forall in Ho.
  split; (intros [Hf Hs]; split; [|done]); intros b Hb; specialize (Hf b Hb); cbn in *;
    by rewrite precedes_rename in * by auto.
Qed.

Lemma lin_rename :
  (exists order, order ≡ₚ f <$> all /\ legal model (rename f <$> es) (Init model) order /\
    StronglySorted (fun a b => ~ precedes (rename f <$> es) b a) order) <->
  (exists order, order ≡ₚ all /\ legal model es (Init model) order /\
    StronglySorted (fun a b => ~ precedes es b a) order).
Proof.
  assert (forall order, order ≡ₚ all -> Forall (fun d => d ∈ all) order) as Hsub.
  { intros order Hp. apply Forall_forall. intros d. by rewrite Hp. }
  split.
  - intros (order' & Hp & Hl & Hs). apply Permutation_map_inv in Hp as (order & -> & Hp).
    symmetry in Hp. exists order. specialize (Hsub _ Hp).
    split_and!; [done|by apply legal_rename in Hl|by apply sorted_rename in Hs].
  - intros (order & Hp & Hl & Hs). exists (f <$> order). specialize (Hsub _ Hp).
    split_and!; [by rewrite Hp|by apply legal_rename|by apply sorted_rename].
Qed.
End rename.

(** ** The renumbered history *)

Lemma index_inj (all : list Z) (f : Z -> Z) :
  (forall j d, all !! j = Some d -> f d = Z.of_nat j) ->
  (forall a b, a ∈ all -> b ∈ all -> f a = f b -> a = b) /\ f <$> all = Z.of_nat <$> seq 0 (length all).
Proof.
  intros Hf. split.
  - intros a b [i Hi]%list_elem_of_lookup [j Hj]%list_elem_of_lookup.
    rewrite (Hf _ _ Hi), (Hf _ _ Hj). intros Heq%Nat2Z.inj. congruence.
  - apply list_eq. intros i. rewrite !list_lookup_fmap. destruct (all !! i) as [d|] eqn:E; cbn.
    + rewrite lookup_seq_lt by by eapply lookup_lt_Some. cbn. f_equal. by apply Hf.
    + apply lookup_ge_None in E. by rewrite lookup_seq_ge.
Qed.

(** A history has as many calls, and as many returns, as identifiers. *)
Lemma kind_ids events k :
  wf_events events -> Id <$> filter (fun v => Kind v = k) events ≡ₚ remove_dups (Id <$> events).
Proof.
  intros Hwf. apply NoDup_Permutation; [|apply NoDup_remove_dups|].
  - assert (NoDup ((fun v => (Kind v, Id v)) <$> filter (fun v => Kind v = k) events)) as Hnd.
    { eapply sublist_NoDup; [apply (we_unique _ Hwf)|]. apply fmap_sublist, sublist_filter. }
    apply (NoDup_fmap_1 (pair k)). rewrite <- list_fmap_compose.
    erewrite list_fmap_ext; [exact Hnd|]. intros i v Hv%list_elem_of_lookup_2.
    apply list_elem_of_filter in Hv as [<- _]. done.
  - intros d. rewrite elem_of_remove_dups, !list_elem_of_fmap. setoid_rewrite list_elem_of_filter. split.
    + intros (v & -> & _ & Hv). eauto.
    + intros (v & -> & [i Hi]%list_elem_of_lookup).
      destruct (decide (Kind v = k)) as [Hk|Hk]; [exists v; eauto using list_elem_of_lookup_2|].
      destruct (Kind v) eqn:Ev.
      * destruct (we_return _ Hwf _ _ Hi Ev) as (j & v' & _ & Hj & Hk' & Hid).
        exists v'. split_and!; [done| |by eapply list_elem_of_lookup_2]. destruct k; congruence.
      * destruct (we_call _ Hwf _ _ Hi Ev) as (j & v' & _ & Hj & Hk' & Hid).
        exists v'. split_and!; [done| |by eapply list_elem_of_lookup_2]. destruct k; congruence.
Qed.

Lemma wf_events_length events :
  wf_events events -> length events = (2 * length (remove_dups (Id <$> events)))%nat.
Proof.
  intros Hwf. pose proof (kind_ids events CallEvent Hwf) as Hc.
  pose proof (kind_ids events ReturnEvent Hwf) as Hr.
  apply Permutation_length in Hc, Hr. rewrite length_fmap in Hc, Hr.
  assert (length events = length (filter (fun v => Kind v = CallEvent) events) +
    length (filter (fun v => Kind v = ReturnEvent) events))%nat; [|lia].
  clear. induction events as [|v events IH]; [done|]. rewrite !filter_cons.
  destruct (Kind v) eqn:E; repeat case_decide; try congruence; cbn [length]; lia.
Qed.

Lemma renumber_wf events :
  wf_events events ->
  wf_history (length (remove_dups (Id <$> events))) (convertEntries (renumber events)).
Proof.
  intros Hwf. destruct (renumber_spec events) as (all & f & Hall & Hf & Heq).
  destruct (index_inj all f Hf) as [Hinj Himg]. rewrite Heq. clear Heq.
  assert (length (convertEntries (set_id f <$> events)) = length events) as Hlen.
  { rewrite convertEntries_set_id, length_fmap. apply length_convertEntries_loop. }
  assert (forall i v, events !! i = Some v -> Id v ∈ all) as Hid.
  { intros i v Hi. rewrite Hall, elem_of_remove_dups, list_elem_of_fmap.
    eauto using list_elem_of_lookup_2. }
  assert (forall i e, convertEntries (set_id f <$> events) !! i = Some e <-> exists v, events !! i = Some v /\
    e = mkEntry (to_entryKind (Kind v)) (Value v) (f (Id v)) (Z.of_nat i) (ev_ClientId v)) as Hlk.
  { intros i e. rewrite convertEntries_lookup. setoid_rewrite list_lookup_fmap.
    setoid_rewrite fmap_Some. naive_solver. }
  rewrite <- (Permutation_length Hall). split; try setoid_rewrite Hlk.
  - rewrite Hlen, (Permutation_length Hall). by apply wf_events_length.
  - intros i e (v & Hi & ->). cbn. destruct (proj1 (list_elem_of_lookup _ _) (Hid _ _ Hi)) as [j Hj].
    rewrite (Hf _ _ Hj). apply lookup_lt_Some in Hj. lia.
  - intros d Hd. destruct (lookup_lt_is_Some_2 all (Z.to_nat d)) as [x Hx]; [lia|].
    assert (x ∈ all) as Hin by by eapply list_elem_of_lookup_2.
    rewrite Hall, elem_of_remove_dups, list_elem_of_fmap in Hin.
    destruct Hin as (v & -> & [i Hi]%list_elem_of_lookup).
    eexists i, _. split; [by exists v|]. cbn. rewrite (Hf _ _ Hx). lia.
  - intros i j ? ? (v & Hi & ->) (v' & Hj & ->). cbn. intros Hd Hk.
    eapply NoDup_lookup; [apply (we_unique _ Hwf)|rewrite list_lookup_fmap, Hi; done|].
    rewrite list_lookup_fmap, Hj. cbn. do 2 f_equal; [by destruct (Kind v), (Kind v')|].
    symmetry. apply Hinj; eauto.
  - intros i e (v & Hi & ->) Hk. cbn in Hk.
    destruct (we_return _ Hwf i v Hi) as (j & v' & Hij & Hj & Hk' & Hd); [by destruct (Kind v)|].
    eexists j, _. split_and!; [done|by exists v'|cbn; by rewrite Hk'|cbn; by rewrite Hd].
  - intros j e (v & Hj & ->) Hk. cbn in Hk.
    destruct (we_call _ Hwf j v Hj) as (i & v' & Hij & Hi & Hk' & Hd); [by destruct (Kind v)|].
    eexists i, _. split_and!; [done|by exists v'|cbn; by rewrite Hk'|cbn; by rewrite Hd].
  - intros i e (v & Hi & ->). cbn. pose proof (we_value _ Hwf i v Hi). by destruct (Kind v).
Qed.

Lemma renumber_lin events :
  Linearizable_entries model (length (remove_dups (Id <$> events))) (convertEntries (renumber events)) <->
  Linearizable_events events.
Proof.
  destruct (renumber_spec events) as (all & f & Hall & Hf & ->).
  destruct (index_inj all f Hf) as [Hinj Himg]. rewrite convertEntries_set_id.
  unfold Linearizable_entries. rewrite <- (Permutation_length Hall), <- Himg.
  rewrite (lin_rename f all).
  - unfold Linearizable_events. by setoid_rewrite Hall.
  - intros i e (v & Hi & ->)%convertEntries_lookup. cbn.
    rewrite Hall, elem_of_remove_dups, list_elem_of_fmap. eauto using list_elem_of_lookup_2.
  - done.
Qed.
End events.
