(* ===== verification/Locality.v ===== *)
(** * Linearizability is local

    A store that keeps an independent state per key is linearizable exactly
    when the operations on each key are.  This is what makes it sound to
    check a key-value history one partition at a time. *)

From S2P Require Import Prelude PorcModel LinSpec.

Section locality.
Context {I O St K : Type} `{Countable K}.
Context (model : Model I O St) (key : I -> K).

(** The store that runs one copy of [model] per key. *)
Definition product_step (m : gmap K St) (inp : I) (out : O) : bool * gmap K St :=
  let '(ok, st) := Step model (default (Init model) (m !! key inp)) inp out in
  (ok, <[key inp := st]> m).

Definition product_model : Model I O (gmap K St) :=
  mkModel None None ∅ product_step None None None.

Definition on_key (k : K) (op : Operation I O) : Prop := key (Input op) = k.

#[local] Instance on_key_dec k op : Decision (on_key k op).
Proof. unfold on_key. apply _. Defined.

(** A sequence is legal for the store exactly when it is on every key. *)
Lemma product_legal m ops :
  legal_ops product_model m ops <->
  forall k, legal_ops model (default (Init model) (m !! k)) (filter (on_key k) ops).
Proof.
  revert m. induction ops as [|op ops IH]; intros m.
  { split; intros; constructor. }
  split.
  - intros Hl k. inversion Hl as [|? ? m' ? Hs Hl']; subst. rewrite IH in Hl'.
    cbn in Hs. unfold product_step in Hs.
    destruct (Step model _ _ _) as [ok st] eqn:E. injection Hs as -> <-.
    rewrite filter_cons. specialize (Hl' k). case_decide as Hk; unfold on_key in Hk.
    + subst k. rewrite lookup_insert_eq in Hl'. by econstructor.
    + by rewrite lookup_insert_ne in Hl' by done.
  - intros Hall. pose proof (Hall (key (Input op))) as Hop. rewrite filter_cons, decide_True in Hop by done.
    inversion Hop as [|? ? st ? Hs Hl]; subst.
    econstructor; [cbn; unfold product_step; by rewrite Hs|]. apply IH. intros k.
    destruct (decide (key (Input op) = k)) as [<-|Hk].
    + by rewrite lookup_insert_eq.
    + rewrite lookup_insert_ne by done. specialize (Hall k). by rewrite filter_cons, decide_False in Hall.
Qed.

Lemma filter_StronglySorted {A} (R : relation A) (P : A -> Prop) (HP : forall x, Decision (P x)) l :
  StronglySorted R l -> StronglySorted R (filter P l).
Proof.
  induction 1 as [|x l _ IH Hx]; [constructor|]. rewrite filter_cons. case_decide; [|done].
  constructor; [done|]. apply Forall_forall. intros y [_ Hy]%list_elem_of_filter.
  rewrite Forall_forall in Hx. by apply Hx.
Qed.

Lemma product_lin_keys h k :
  Linearizable product_model h -> Linearizable model (filter (on_key k) h).
Proof.
  intros (ops & Hp & Hl & Hrt). exists (filter (on_key k) ops). split_and!.
  - by rewrite Hp.
  - change (Init product_model) with (∅ : gmap K St) in Hl.
    rewrite product_legal in Hl. specialize (Hl k). by rewrite lookup_empty in Hl.
  - by apply filter_StronglySorted.
Qed.

(** ** Linearization points

    In a list ordered by real time, the greatest call so far is a point
    inside each operation, and these points do not decrease. *)

Abbreviation pointed := (Z * Operation I O)%type.

Fixpoint points (p : Z) (ops : list (Operation I O)) : list pointed :=
  match ops with
  | [] => []
  | op :: ops => let p := Z.max p (Call op) in (p, op) :: points p ops
  end.

Definition point_le (a b : pointed) : Prop := a.1 <= b.1.

#[local] Instance point_le_dec a b : Decision (point_le a b).
Proof. unfold point_le. apply _. Defined.
#[local] Instance point_le_total : Total point_le.
Proof. intros a b. unfold point_le. lia. Qed.
#[local] Instance point_le_trans : Transitive point_le.
Proof. intros a b c. unfold point_le. lia. Qed.

Definition point_ok (a : pointed) : Prop := Call a.2 <= a.1 <= Return a.2.

Lemma points_snd p ops : snd <$> points p ops = ops.
Proof. revert p. induction ops as [|op ops IH]; intros p; cbn; [done|]. f_equal. apply IH. Qed.

Lemma points_ge p ops : Forall (fun a => p <= a.1) (points p ops).
Proof.
  revert p. induction ops as [|op ops IH]; intros p; cbn; constructor; cbn; [lia|].
  eapply Forall_impl; [apply IH|]. cbn. lia.
Qed.

Lemma points_sorted p ops : StronglySorted point_le (points p ops).
Proof.
  revert p. induction ops as [|op ops IH]; intros p; cbn; constructor; [apply IH|].
  apply points_ge.
Qed.

Lemma points_ok p ops :
  well_timed ops -> real_time ops -> Forall (fun op => p <= Return op) ops ->
  Forall point_ok (points p ops).
Proof.
  revert p. induction ops as [|op ops IH]; intros p Hw Hrt Hp; cbn; constructor.
  - apply Forall_cons in Hw as [? _]. apply Forall_cons in Hp as [? _]. unfold point_ok. cbn. lia.
  - apply Forall_cons in Hw as [? Hw]. apply Forall_cons in Hp as [? Hp].
    apply StronglySorted_cons in Hrt as [Hop Hrt]. apply IH; [done..|].
    rewrite Forall_forall in *. intros b Hb. specialize (Hop b Hb). specialize (Hp b Hb).
    cbn in Hop. lia.
Qed.

(** Points inside the operations, in order, respect real time. *)
Lemma points_real_time l :
  StronglySorted point_le l -> Forall point_ok l -> real_time (snd <$> l).
Proof.
  induction 1 as [|a l _ IH Ha]; intros Hok; cbn; [constructor|].
  apply Forall_cons in Hok as [Hoka Hok]. constructor; [by apply IH|].
  apply Forall_fmap. rewrite Forall_forall in *. intros b Hb.
  specialize (Ha b Hb). specialize (Hok b Hb). unfold point_le, point_ok in *. cbn. lia.
Qed.

(** ** Merging the keys *)

Definition merge_points : list pointed -> list pointed -> list pointed := list_merge point_le.

Lemma merge_points_sorted l1 l2 :
  StronglySorted point_le l1 -> StronglySorted point_le l2 ->
  StronglySorted point_le (merge_points l1 l2).
Proof.
  intros H1 H2. apply Sorted_StronglySorted; [apply _|]. apply Sorted_list_merge; [apply _|..];
    by apply StronglySorted_Sorted.
Qed.

Lemma merge_points_filter (P : pointed -> Prop) (HP : forall x, Decision (P x)) l1 l2 :
  filter P l1 = [] \/ filter P l2 = [] ->
  filter P (merge_points l1 l2) = filter P l1 ++ filter P l2.
Proof.
  unfold merge_points. intros Hor.
  revert l2 Hor. induction l1 as [|x1 l1 IH1]; intros l2; [by rewrite list_merge_nil_l|].
  induction l2 as [|x2 l2 IH2]; intros Hor; [by rewrite list_merge_nil_r, app_nil_r|].
  rewrite list_merge_cons. destruct (decide (point_le x1 x2)) as [Hle|Hle].
  - rewrite filter_cons, (filter_cons _ x1 l1). rewrite filter_cons in Hor.
    destruct (decide (P x1)); [|apply IH1; tauto]. cbn. f_equal. apply IH1.
    destruct Hor as [[=]|]; by right.
  - rewrite filter_cons, (filter_cons _ x2 l2). rewrite (filter_cons _ x2) in Hor.
    destruct (decide (P x2)); [|apply IH2; tauto].
    destruct Hor as [Hn|[=]]. rewrite IH2 by by left. rewrite Hn. done.
Qed.

(** Merging the linearizations of a list of keys. *)
Fixpoint merge_all (ls : list (list pointed)) : list pointed :=
  match ls with
  | [] => []
  | l :: ls => merge_points l (merge_all ls)
  end.

Lemma merge_all_sorted ls :
  Forall (StronglySorted point_le) ls -> StronglySorted point_le (merge_all ls).
Proof.
  induction 1 as [|l ls Hl _ IH]; cbn; [constructor|]. by apply merge_points_sorted.
Qed.

Lemma merge_all_perm ls : merge_all ls ≡ₚ concat ls.
Proof.
  induction ls as [|l ls IH]; cbn; [done|]. unfold merge_points. by rewrite merge_Permutation, IH.
Qed.

Definition pt_on (k : K) (a : pointed) : Prop := on_key k a.2.

#[local] Instance pt_on_dec k a : Decision (pt_on k a).
Proof. unfold pt_on. apply _. Defined.

Lemma merge_all_other k ks (f : K -> list pointed) :
  (forall j, j ∈ ks -> Forall (pt_on j) (f j)) -> k ∉ ks ->
  filter (pt_on k) (merge_all (f <$> ks)) = [].
Proof.
  intros Hf Hk. apply list_filter_none. apply Forall_forall. intros a Ha Hon.
  rewrite merge_all_perm in Ha. apply list_elem_of_In, in_concat in Ha as (l & Hl & Ha).
  apply list_elem_of_In in Hl, Ha. apply list_elem_of_fmap in Hl as (j & -> & Hj).
  specialize (Hf j Hj). rewrite Forall_forall in Hf. specialize (Hf a Ha).
  unfold pt_on, on_key in *. by subst.
Qed.

Lemma merge_all_key k ks (f : K -> list pointed) :
  (forall j, j ∈ ks -> Forall (pt_on j) (f j)) -> NoDup ks -> k ∈ ks ->
  filter (pt_on k) (merge_all (f <$> ks)) = f k.
Proof.
  intros Hf Hnd. induction Hnd as [|j ks Hj Hnd IH]; [by intros ?%not_elem_of_nil|].
  intros Hk. cbn [fmap list_fmap merge_all].
  assert (forall i, i ∈ ks -> Forall (pt_on i) (f i)) as Hf' by (intros; apply Hf; by right).
  pose proof (Hf j ltac:(by left)) as Hfj.
  destruct (decide (k = j)) as [->|Hne].
  - rewrite merge_points_filter by (right; by apply merge_all_other).
    rewrite merge_all_other by done. rewrite app_nil_r. by apply list_filter_all.
  - assert (filter (pt_on k) (f j) = []) as Hn.
    { apply list_filter_none. eapply Forall_impl; [exact Hfj|]. unfold pt_on, on_key. congruence. }
    rewrite merge_points_filter by by left. rewrite Hn. cbn. apply IH; [done|].
    by apply elem_of_cons in Hk as [->|?].
Qed.

Lemma choose_keys {A} (P : K -> A -> Prop) (d : A) (ks : list K) :
  (forall k, exists a, P k a) -> exists f, forall k, k ∈ ks -> P k (f k).
Proof.
  intros HP. induction ks as [|k ks [f IH]].
  - exists (fun _ => d). by intros k ?%not_elem_of_nil.
  - destruct (HP k) as [a Ha]. exists (fun j => if decide (j = k) then a else f j). intros j Hj.
    case_decide as E; [by subst|]. apply IH. by apply elem_of_cons in Hj as [?|?].
Qed.

(** One sequence from the linearizations [f] of the keys [ks]. *)
Definition merged (lo : Z) (f : K -> list (Operation I O)) (ks : list K) : list (Operation I O) :=
  snd <$> merge_all ((fun k => points lo (f k)) <$> ks).

Lemma merged_on lo f ks k :
  (forall j, j ∈ ks -> Forall (on_key j) (f j)) -> NoDup ks ->
  filter (on_key k) (merged lo f ks) = if decide (k ∈ ks) then f k else [].
Proof.
  intros Hon Hnd. unfold merged. rewrite list_filter_fmap.
  assert (forall j, j ∈ ks -> Forall (pt_on j) (points lo (f j))) as Hpt.
  { intros j Hj. specialize (Hon j Hj). rewrite <- (points_snd lo (f j)) in Hon. exact (proj1 (Forall_fmap snd _ _) Hon). }
  rewrite (list_filter_ext _ (pt_on k) _ _) by done. case_decide as Hk.
  - rewrite (merge_all_key k ks (fun k => points lo (f k))) by done. apply points_snd.
  - by rewrite (merge_all_other k ks (fun k => points lo (f k))) by done.
Qed.

Lemma merged_real_time lo f ks :
  (forall k, k ∈ ks -> well_timed (f k) /\ real_time (f k) /\ Forall (fun op => lo <= Return op) (f k)) ->
  real_time (merged lo f ks).
Proof.
  intros Hf. apply points_real_time.
  - apply merge_all_sorted, Forall_fmap, Forall_true. intros k. apply points_sorted.
  - apply Forall_forall. intros a Ha. rewrite merge_all_perm in Ha.
    apply list_elem_of_In, in_concat in Ha as (l & Hl & Ha). apply list_elem_of_In in Hl, Ha.
    apply list_elem_of_fmap in Hl as (k & -> & Hk). revert a Ha. apply Forall_forall.
    destruct (Hf k Hk) as (? & ? & ?). by apply points_ok.
Qed.

Lemma returns_bound (h : list (Operation I O)) : exists lo, Forall (fun op => lo <= Return op) h.
Proof.
  induction h as [|op h [lo IH]]; [by exists 0|]. exists (Z.min lo (Return op)).
  constructor; [lia|]. eapply Forall_impl; [exact IH|]. cbn. lia.
Qed.

(** The operations on each key linearize, so the store does. *)
Lemma keys_lin_product h :
  well_timed h -> (forall k, Linearizable model (filter (on_key k) h)) ->
  Linearizable product_model h.
Proof.
  intros Hw Hall. set (ks := remove_dups ((fun op => key (Input op)) <$> h)).
  destruct (returns_bound h) as [lo Hlo].
  destruct (choose_keys (fun k ops => ops ≡ₚ filter (on_key k) h /\
    legal_ops model (Init model) ops /\ real_time ops) [] ks Hall) as [f Hf].
  assert (forall k, k ∈ ks -> Forall (fun op => op ∈ h /\ on_key k op) (f k)) as Hin.
  { intros k Hk. destruct (Hf k Hk) as [Hp _]. apply Forall_forall. intros op Hop.
    rewrite Hp in Hop. apply list_elem_of_filter in Hop. tauto. }
  assert (forall k, filter (on_key k) (merged lo f ks) = if decide (k ∈ ks) then f k else []) as Hproj.
  { intros k. apply merged_on; [|apply NoDup_remove_dups]. intros j Hj.
    eapply Forall_impl; [by apply Hin|]. cbn. tauto. }
  assert (forall k, k ∉ ks -> filter (on_key k) h = []) as Hnone.
  { intros k Hk. apply list_filter_none, Forall_forall. intros op Hop Hkey. apply Hk.
    unfold ks. apply elem_of_remove_dups, list_elem_of_fmap. exists op. by rewrite Hkey. }
  exists (merged lo f ks). split_and!.
  - apply (perm_by_key (fun op => key (Input op))). intros k.
    change (filter (on_key k) (merged lo f ks) ≡ₚ filter (on_key k) h). rewrite Hproj.
    case_decide as Hk; [by apply Hf|]. by rewrite Hnone.
  - apply product_legal. intros k. cbn. rewrite lookup_empty, Hproj. cbn.
    case_decide as Hk; [by apply Hf|constructor].
  - apply merged_real_time. intros k Hk. destruct (Hf k Hk) as (_ & _ & Hrt).
    unfold well_timed in *. rewrite Forall_forall in Hw, Hlo.
    split_and!; [|done|]; (eapply Forall_impl; [by apply Hin|]; cbn; intros op [? _]; auto).
Qed.

Lemma locality h :
  well_timed h ->
  Linearizable product_model h <-> forall k, Linearizable model (filter (on_key k) h).
Proof. intros Hw. split; [intros Hl k; by apply product_lin_keys|by apply keys_lin_product]. Qed.
End locality.
