(* ===== verification/KvModel.v ===== *)
(** * The key-value model (src/src/models/kv.go)

    [KvModel] splits a history by key and models one key's value.  Its
    partition is the per-key subsequences in key order, whatever order the
    map is ranged over, and checking the partitions decides linearizability
    of the whole store ([Locality]). *)

From S2P Require Import Prelude PorcModel LinSpec Locality.

Record KvInput := mkKvInput { Op : Z; Key : string; KvValue : string }.
Record KvOutput := mkKvOutput { OutValue : string }.

Abbreviation KvOp := (Operation KvInput KvOutput).

(** The [%v] format of the values of the model. *)
#[export] Instance string_format : Format string := fun s => s.
#[export] Instance KvInput_format : Format KvInput := fun i =>
  ("{" +:+ pretty (Op i) +:+ " " +:+ Key i +:+ " " +:+ KvValue i +:+ "}")%string.
#[export] Instance KvOutput_format : Format KvOutput := fun o => ("{" +:+ OutValue o +:+ "}")%string.
#[export] Instance store_format : Format (gmap string string) := fun m =>
  ("map[" +:+ String.concat " " ((fun '(k, v) => k +:+ ":" +:+ v) <$> map_to_list m) +:+ "]")%string.

Section kv.
Context `{!RangeOrder string} `{!GoSort str_less}.

(** [m[key] = append(m[key], v)] for each operation. *)
Fixpoint kv_group (history : list KvOp) (m : gmap string (list KvOp)) : gmap string (list KvOp) :=
  match history with
  | [] => m
  | v :: history =>
      let key := Key (Input v) in
      kv_group history (<[key := default [] (m !! key) ++ [v]]> m)
  end.

Definition kv_Partition (history : list KvOp) : list (list KvOp) :=
  let m := kv_group history ∅ in
  let keys := go_sort str_less (range_order (map_to_list m).*1) in
  (fun k => default [] (m !! k)) <$> keys.

Definition kv_Init : string := "".

Definition kv_Step (st : string) (inp : KvInput) (out : KvOutput) : bool * string :=
  if Op inp =? 0 then (bool_decide (OutValue out = st), st)
  else if Op inp =? 1 then (true, KvValue inp)
  else (true, (st +:+ KvValue inp)%string).

Definition kv_DescribeOperation (inp : KvInput) (out : KvOutput) : string :=
  (if (Op inp =? 0)%Z then "get('" +:+ Key inp +:+ "') -> '" +:+ OutValue out +:+ "'"
   else if (Op inp =? 1)%Z then "put('" +:+ Key inp +:+ "', '" +:+ KvValue inp +:+ "')"
   else if (Op inp =? 2)%Z then "append('" +:+ Key inp +:+ "', '" +:+ KvValue inp +:+ "')"
   else "<invalid>")%string.

Definition KvModel : Model KvInput KvOutput string :=
  mkModel (Some kv_Partition) None kv_Init kv_Step None
    (Some kv_DescribeOperation) None.

(** ** The partition *)

Definition op_key (op : KvOp) : string := Key (Input op).

Lemma kv_group_lookup history m k :
  kv_group history m !! k =
  match filter (fun op => op_key op = k) history with
  | [] => m !! k
  | ops => Some (default [] (m !! k) ++ ops)
  end.
Proof.
  revert m. induction history as [|v history IH]; intros m; [done|]. cbn [kv_group].
  rewrite IH, filter_cons. unfold op_key at 2. case_decide as E.
  - subst k. rewrite lookup_insert_eq. destruct (filter _ history); cbn; [done|].
    by rewrite <- app_assoc.
  - rewrite lookup_insert_ne by done. done.
Qed.

Definition kv_keys (history : list KvOp) : list string :=
  go_sort str_less (range_order (map_to_list (kv_group history ∅)).*1).

Lemma kv_keys_elem history k : k ∈ kv_keys history <-> k ∈ op_key <$> history.
Proof.
  unfold kv_keys. rewrite go_sort_perm, range_order_perm, list_elem_of_fmap.
  setoid_rewrite list_elem_of_fmap. split.
  - intros ([k' ops] & -> & Hk%elem_of_map_to_list). cbn. rewrite kv_group_lookup in Hk.
    destruct (filter _ history) as [|op l] eqn:E; [done|].
    assert (op ∈ filter (fun op => op_key op = k') history) as [? ?]%list_elem_of_filter
      by (rewrite E; left). eauto.
  - intros (op & -> & Hop).
    assert (op ∈ filter (fun o => op_key o = op_key op) history) as Hf by by apply list_elem_of_filter.
    destruct (filter _ history) as [|op' l] eqn:E; [by apply not_elem_of_nil in Hf|].
    exists (op_key op, op' :: l). split; [done|]. apply elem_of_map_to_list.
    by rewrite kv_group_lookup, E, lookup_empty.
Qed.

Lemma kv_keys_NoDup history : NoDup (kv_keys history).
Proof. unfold kv_keys. rewrite go_sort_perm, range_order_perm. apply NoDup_fst_map_to_list. Qed.

Lemma kv_keys_sorted history : StronglySorted (fun a b => str_less a b = true) (kv_keys history).
Proof.
  pose proof (go_sort_sorted str_less (range_order (map_to_list (kv_group history ∅)).*1)) as Hs.
  pose proof (kv_keys_NoDup history) as Hnd. fold (kv_keys history) in Hs.
  induction Hs as [|k ks _ IH Hk]; constructor; apply NoDup_cons in Hnd as [Hnk Hnd]; [by apply IH|].
  rewrite Forall_forall in *. intros j Hj. specialize (Hk j Hj).
  destruct (str_less k j) eqn:E; [done|]. rewrite (str_less_antisym _ _ E Hk) in Hnk. done.
Qed.

Lemma kv_Partition_eq history :
  kv_Partition history =
  (fun k => filter (fun op => op_key op = k) history) <$> kv_keys history.
Proof.
  unfold kv_Partition. apply list_fmap_ext. intros i k Hk%list_elem_of_lookup_2.
  rewrite kv_keys_elem, list_elem_of_fmap in Hk. destruct Hk as (op & -> & Hop).
  rewrite kv_group_lookup, lookup_empty.
  assert (op ∈ filter (fun o => op_key o = op_key op) history) as Hf by by apply list_elem_of_filter.
  destruct (filter _ history); [by apply not_elem_of_nil in Hf|done].
Qed.

(** ** The whole store *)

(** The specification: one map from keys to values, absent keys being empty. *)
Definition kv_store_step (m : gmap string string) (inp : KvInput) (out : KvOutput) :
    bool * gmap string string :=
  let st := default "" (m !! Key inp) in
  if Op inp =? 0 then (bool_decide (OutValue out = st), m)
  else if Op inp =? 1 then (true, <[Key inp := KvValue inp]> m)
  else (true, <[Key inp := (st +:+ KvValue inp)%string]> m).

Definition KvStore : Model KvInput KvOutput (gmap string string) :=
  mkModel None None ∅ kv_store_step None None None.

(** The store and the product of the per-key models accept the same
    sequences: their states agree up to explicit empty values. *)
Lemma kv_store_product m1 m2 ops :
  (forall k, default "" (m1 !! k) = default "" (m2 !! k)) ->
  legal_ops KvStore m1 ops <-> legal_ops (product_model KvModel Key) m2 ops.
Proof.
  revert m1 m2. induction ops as [|op ops IH]; intros m1 m2 Heq; [split; constructor|].
  assert (forall m1', kv_store_step m1 (Input op) (Output op) = (true, m1') ->
    exists m2', product_step KvModel Key m2 (Input op) (Output op) = (true, m2') /\
      (forall k, default "" (m1' !! k) = default "" (m2' !! k))) as Hfw.
  { intros m1'. unfold kv_store_step, product_step. cbn. unfold kv_Step, kv_Init. rewrite <- Heq.
    destruct (Op (Input op) =? 0); [|destruct (Op (Input op) =? 1)]; intros Hst;
      injection Hst; clear Hst; intros; subst m1';
      eexists; (split; [f_equal; eassumption || reflexivity|]); intros k;
      destruct (decide (k = Key (Input op))) as [->|]; simplify_map_eq; auto. }
  assert (forall m2', product_step KvModel Key m2 (Input op) (Output op) = (true, m2') ->
    exists m1', kv_store_step m1 (Input op) (Output op) = (true, m1')) as Hbw.
  { intros m2'. unfold kv_store_step, product_step. cbn. unfold kv_Step, kv_Init. rewrite <- Heq.
    destruct (Op (Input op) =? 0); [|destruct (Op (Input op) =? 1)]; intros Hst;
      injection Hst; clear Hst; intros;
      eexists; f_equal; eassumption || reflexivity. }
  split; intros Hl; inversion Hl as [|? ? m' ? Hs Hl']; subst; cbn in Hs.
  - destruct (Hfw _ Hs) as (m2' & H2 & Heq'). econstructor; [exact H2|]. by apply (IH m').
  - destruct (Hbw _ Hs) as (m1' & H1). destruct (Hfw _ H1) as (m2' & H2 & Heq').
    econstructor; [exact H1|]. apply (IH m1' m'); [|done]. congruence.
Qed.

Lemma KvStore_product h :
  Linearizable KvStore h <-> Linearizable (product_model KvModel Key) h.
Proof.
  unfold Linearizable. split; intros (ops & ? & Hl & ?); exists ops; (split_and!; [done| |done]);
    by eapply (kv_store_product ∅ ∅).
Qed.

Lemma kv_store_partitions h :
  well_timed h -> Linearizable KvStore h <-> Forall (Linearizable KvModel) (kv_Partition h).
Proof.
  intros Hw. rewrite KvStore_product, locality by done. rewrite kv_Partition_eq, Forall_fmap, Forall_forall.
  split; [intros Hall k _; apply (Hall k)|]. intros Hall k.
  destruct (decide (k ∈ kv_keys h)) as [Hk|Hk]; [by apply (Hall k)|].
  rewrite list_filter_none; [by exists []; split_and!; [|constructor..]|].
  apply Forall_forall. intros op Hop Hon. apply Hk, kv_keys_elem, list_elem_of_fmap. by exists op.
Qed.
End kv.
