(* ===== verification/PorcSpec.v ===== *)
(** * What the linearizability checker guarantees

    The properties of src/src/porcupine and src/src/models that a user of the
    checker relies on, each with a concrete history to which it applies. *)

From S2P Require Import Prelude Bitset PorcModel Linked Checker SearchProof LinSpec CheckerCorrect ParallelCorrect Events Locality KvModel.

(** A schedule in which every one of [n] partitions delivers its result. *)
Definition all_arrive (n : nat) (evs : list arrival) : Prop :=
  arrivals_ok n evs /\ (n <= length (arrived evs))%nat.

Section operations.
Context {I O St : Type} `{!EqDecision St} `{!Format I, !Format O, !Format St} `{!RangeOrder seq_ptr} `{!GoSort (@Less I O)}.

Lemma CheckOperations_returns (model : Model I O St) history evs kill :
  equal_ok model -> partitions_of model history <> [] ->
  Forall ops_ok (partitions_of model history) ->
  all_arrive (length (partitions_of model history)) evs ->
  exists b, CheckOperations model history evs kill = Ret (Some b) /\
    (b = true <-> Forall (Linearizable model) (partitions_of model history)).
Proof.
  intros Hs Hne Hok [Harr Hall].
  destruct (checkOperations_ok model history false 0 evs kill Hs Hok Harr) as (r & Hr & Hpost).
  unfold CheckOperations. rewrite Hr. cbn [mbind outcome_bind].
  destruct r as [[res info]|].
  - apply (parallel_post_ops model history false 0 evs res info Hok) in Hpost as (H1 & H2 & H3).
    eexists. split; [done|]. destruct res; cbn; [destruct (H3 eq_refl); lia|..].
    + split; [intros _; by apply H1|done].
    + split; [done|]. intros Hf. by destruct (H2 eq_refl).
  - cbn in Hpost. rewrite length_fmap in Hpost.
    destruct Hpost as [?%fmap_nil_inv|?]; [done|lia].
Qed.
End operations.

Lemma kv_Partition_subset `{!RangeOrder string} `{!GoSort str_less} h p op :
  p ∈ kv_Partition h -> op ∈ p -> op ∈ h.
Proof.
  rewrite kv_Partition_eq. intros (k & -> & _)%list_elem_of_fmap. rewrite list_elem_of_filter. tauto.
Qed.

Lemma kv_Partition_ok `{!RangeOrder string} `{!GoSort str_less} h :
  ops_ok h -> Forall ops_ok (kv_Partition h).
Proof.
  intros [Hw Hlen]. apply Forall_forall. intros p Hp. split.
  - unfold well_timed in *. rewrite Forall_forall in *. intros op Hop. apply Hw.
    by eapply kv_Partition_subset.
  - rewrite kv_Partition_eq in Hp. apply list_elem_of_fmap in Hp as (k & -> & _).
    pose proof (length_filter (fun op => op_key op = k) h). lia.
Qed.

Lemma kv_Partition_nonempty `{!RangeOrder string} `{!GoSort str_less} h :
  h <> [] -> kv_Partition h <> [].
Proof.
  intros Hh. rewrite kv_Partition_eq. intros Hn%fmap_nil_inv. destruct h as [|op h]; [done|].
  assert (op_key op ∈ kv_keys (op :: h)) as Hk by (apply kv_keys_elem; left).
  rewrite Hn in Hk. by apply not_elem_of_nil in Hk.
Qed.

(** C1: for a non-empty history of completed operations of the key-value store,
    [CheckOperations] with [KvModel] returns in every arrival order of the
    partitions' results, and returns true exactly when the whole history,
    over all keys, is linearizable with respect to one map from keys to
    values. *)
Theorem CheckOperations_KvModel_decides `{!RangeOrder string} `{!GoSort str_less}
    `{!RangeOrder seq_ptr} `{!GoSort (@Less KvInput KvOutput)} history evs kill :
  history <> [] -> ops_ok history -> all_arrive (length (kv_Partition history)) evs ->
  exists b, CheckOperations KvModel history evs kill = Ret (Some b) /\
    (b = true <-> Linearizable KvStore history).
Proof.
  intros Hne Hok Harr. setoid_rewrite (kv_store_partitions history (proj1 Hok)).
  apply (CheckOperations_returns KvModel history evs kill).
  - by apply equal_ok_default.
  - by apply kv_Partition_nonempty.
  - by apply kv_Partition_ok.
  - done.
Qed.

(** Two clients and two keys; the gets overlap the writes. *)
Definition kv_demo : list KvOp :=
  [ mkOperation 0 (mkKvInput 1 "x" "a") 0 (mkKvOutput "") 10;
    mkOperation 1 (mkKvInput 0 "x" "") 5 (mkKvOutput "a") 15;
    mkOperation 0 (mkKvInput 2 "y" "b") 11 (mkKvOutput "") 20;
    mkOperation 1 (mkKvInput 0 "y" "") 16 (mkKvOutput "") 18 ].

Lemma kv_demo_ok : ops_ok kv_demo.
Proof. split; [repeat constructor|]; cbn; lia. Qed.

Lemma kv_demo_arrive : all_arrive (length (kv_Partition kv_demo)) [Result 1; Result 0].
Proof.
  replace (length (kv_Partition kv_demo)) with 2%nat by by vm_compute.
  split; [split; eapply bool_decide_unpack; by vm_compute|cbn; lia].
Qed.

Lemma CheckOperations_KvModel_decides_witness :
  CheckOperations KvModel kv_demo [Result 1; Result 0] (fun _ _ => false) = Ret (Some true) /\
  Linearizable KvStore kv_demo.
Proof.
  destruct (CheckOperations_KvModel_decides kv_demo [Result 1; Result 0] (fun _ _ => false))
    as (b & Hb & Hiff); [done|apply kv_demo_ok|apply kv_demo_arrive|].
  assert (CheckOperations KvModel kv_demo [Result 1; Result 0] (fun _ _ => false) = Ret (Some true))
    as Hrun by (vm_compute; reflexivity).
  split; [exact Hrun|]. apply Hiff. rewrite Hrun in Hb. injection Hb as <-. reflexivity.
Defined.

(** C4: on a well-formed entry list that is never killed, [checkSingle]
    terminates without a panic and its verdict is exactly linearizability,
    for any equivalence of states that is compatible with [Step] as the
    pruning test. *)
Theorem checkSingle_decides {I O St} `{!EqDecision St} (model : Model I O St) eqv n es computePartial :
  Equal model = Some eqv -> equal_sound model eqv -> wf_history n es -> Z.of_nat n < 2 ^ 63 ->
  exists b longest, checkSingle model es computePartial (fun _ => false) = Ret (b, longest) /\
    (b = true <-> Linearizable_entries model n es).
Proof.
  intros HE Hs Hwf Hn.
  destruct (checkSingle_ok model eqv n es Hwf HE Hn computePartial (fun _ => false))
    as ([b longest] & Hr & _ & Ht & Hf).
  exists b, longest. split; [done|]. split; [done|]. intros Hl. destruct b; [done|].
  by destruct (Hf eq_refl Hs).
Qed.

(** A register history in which the second read is stale. *)
Definition stale_demo : list KvOp :=
  [ mkOperation 0 (mkKvInput 1 "x" "a") 0 (mkKvOutput "") 1;
    mkOperation 1 (mkKvInput 0 "x" "") 2 (mkKvOutput "a") 3;
    mkOperation 1 (mkKvInput 0 "x" "") 4 (mkKvOutput "") 5 ].

Lemma checkSingle_decides_witness :
  ~ Linearizable_entries (fillDefault KvModel) 3 (makeEntries stale_demo).
Proof.
  destruct (checkSingle_decides (fillDefault KvModel) ShallowEqual 3 (makeEntries stale_demo) false)
    as (b & longest & Hr & Hiff).
  - reflexivity.
  - apply (equal_ok_sound KvModel), equal_ok_default. reflexivity.
  - apply (makeEntries_wf stale_demo). repeat constructor; cbn; lia.
  - lia.
  - rewrite <- Hiff. assert (fst <$> checkSingle (fillDefault KvModel) (makeEntries stale_demo) false
      (fun _ => false) = Ret false) as Hrun by (vm_compute; reflexivity).
    rewrite Hr in Hrun. injection Hrun as ->. discriminate.
Defined.

(** C27: whatever another goroutine does to the [kill] flag, [checkSingle]
    terminates without a panic; a true verdict means that the history is
    linearizable, and every sequence it records is a legal partial
    linearization that respects real time. *)
Theorem checkSingle_killed_safe {I O St} `{!EqDecision St} (model : Model I O St) eqv n es
    computePartial kill :
  Equal model = Some eqv -> wf_history n es -> Z.of_nat n < 2 ^ 63 ->
  ensures (checkSingle model es computePartial kill) (fun '(b, longest) =>
    longest_ok model n es longest /\ (b = true -> Linearizable_entries model n es)).
Proof.
  intros HE Hwf Hn. eapply ensures_mono; [by apply (checkSingle_ok model eqv n)|].
  intros [b l] (? & ? & _). done.
Qed.

Lemma checkSingle_killed_safe_witness :
  ensures (checkSingle (fillDefault KvModel) (makeEntries stale_demo) true (Nat.eqb 5))
    (fun '(b, longest) => longest_ok (fillDefault KvModel) 3 (makeEntries stale_demo) longest /\
      (b = true -> Linearizable_entries (fillDefault KvModel) 3 (makeEntries stale_demo))).
Proof.
  apply (checkSingle_killed_safe (fillDefault KvModel) ShallowEqual).
  - reflexivity.
  - apply (makeEntries_wf stale_demo). repeat constructor; cbn; lia.
  - lia.
Defined.

(** C8: [checkParallel] never panics.  When it returns, [Ok] means that every
    partition is linearizable, [Illegal] that some partition is not, and
    [Unknown] only occurs when a positive timeout expired; the information
    for the visualization holds legal partial linearizations of each
    partition.  It keeps waiting only while fewer results than partitions
    have arrived, or when there is no partition at all. *)
Theorem checkParallel_sound {I O St} `{!EqDecision St} `{!RangeOrder seq_ptr} (model : Model I O St)
    eqv history computeInfo timeout evs kill :
  Equal model = Some eqv -> equal_sound model eqv -> Forall sub_ok history ->
  arrivals_ok (length history) evs ->
  ensures (checkParallel model history computeInfo timeout evs kill)
    (parallel_post model history computeInfo timeout evs).
Proof. intros. by apply (checkParallel_ok model eqv). Qed.

Lemma checkParallel_sound_witness :
  ensures (checkParallel (fillDefault KvModel) [makeEntries stale_demo] true 3 [TimerFires]
    (fun _ => Nat.eqb 4)) (parallel_post (fillDefault KvModel) [makeEntries stale_demo] true 3 [TimerFires]).
Proof.
  apply (checkParallel_sound (fillDefault KvModel) ShallowEqual).
  - reflexivity.
  - apply (equal_ok_sound KvModel), equal_ok_default. reflexivity.
  - constructor; [|constructor]. apply makeEntries_sub_ok. split; [repeat constructor|]; cbn; lia.
  - split; constructor.
Defined.

(** [CheckOperations] of a model that gives no partition function decides
    linearizability of the history itself. *)
Theorem CheckOperations_decides {I O St} `{!EqDecision St} `{!Format I, !Format O, !Format St} `{!RangeOrder seq_ptr}
    `{!GoSort (@Less I O)} (model : Model I O St) history evs kill :
  Partition model = None -> equal_ok model -> ops_ok history -> all_arrive 1 evs ->
  exists b, CheckOperations model history evs kill = Ret (Some b) /\
    (b = true <-> Linearizable model history).
Proof.
  intros HP Hs Hok Harr. assert (partitions_of model history = [history]) as Hpart
    by (unfold partitions_of; by rewrite HP).
  destruct (CheckOperations_returns model history evs kill Hs) as (b & Hb & Hiff);
    rewrite ?Hpart; [done|by constructor|done|].
  exists b. by rewrite Hiff, Hpart, Forall_singleton.
Qed.

Lemma CheckOperations_decides_witness : ~ Linearizable KvStore stale_demo.
Proof.
  destruct (CheckOperations_decides KvStore stale_demo [Result 0] (fun _ _ => false))
    as (b & Hb & <-).
  - reflexivity.
  - apply equal_ok_default. reflexivity.
  - split; [repeat constructor|]; cbn; lia.
  - split; [split; eapply bool_decide_unpack; by vm_compute|cbn; lia].
  - assert (CheckOperations KvStore stale_demo [Result 0] (fun _ _ => false) = Ret (Some false)) as Hrun
      by (vm_compute; reflexivity).
    rewrite Hrun in Hb. injection Hb as <-. discriminate.
Defined.

(** With an empty history [KvModel] makes no partition, and
    [CheckOperations] then waits for a result that no goroutine sends: it
    does not return in any schedule. *)
Theorem CheckOperations_empty_blocks `{!RangeOrder string} `{!GoSort str_less}
    `{!RangeOrder seq_ptr} `{!GoSort (@Less KvInput KvOutput)} evs kill :
  arrivals_ok 0 evs -> CheckOperations KvModel [] evs kill = Ret None.
Proof.
  intros Harr. unfold CheckOperations, checkOperations.
  assert (kv_Partition [] = []) as Hp.
  { rewrite kv_Partition_eq. destruct (kv_keys []) as [|k ks] eqn:E; [done|].
    assert (k ∈ kv_keys []) as Hk by (rewrite E; left). rewrite kv_keys_elem in Hk.
    by apply not_elem_of_nil in Hk. }
  cbn [fillDefault Partition KvModel call_fn mbind outcome_bind]. rewrite Hp. cbn [fmap list_fmap].
  unfold checkParallel. cbn [mapM mbind outcome_bind mret outcome_ret length fmap list_fmap].
  rewrite bool_decide_eq_false_2 by lia. by rewrite receive_loop_empty.
Qed.

Lemma CheckOperations_empty_blocks_witness :
  CheckOperations KvModel [] [TimerFires; TimerFires] (fun _ _ => false) = Ret None.
Proof. apply CheckOperations_empty_blocks. split; constructor. Defined.

(** The partition of [KvModel] consists of the operations on each key
    that occurs, in the order of the history, for the keys in strictly
    increasing order; it does not depend on the order in which the map is
    ranged over or on how the keys are sorted. *)
Theorem kv_Partition_by_key `{!RangeOrder string} `{!GoSort str_less} history :
  exists keys, kv_Partition history =
      (fun k => filter (fun op => op_key op = k) history) <$> keys /\
    StronglySorted (fun a b => str_less a b = true) keys /\
    (forall k, k ∈ keys <-> k ∈ op_key <$> history).
Proof.
  exists (kv_keys history). split_and!; [apply kv_Partition_eq|apply kv_keys_sorted|apply kv_keys_elem].
Qed.

(** ** Histories of events *)

Section events.
Context {I O St : Type} `{!EqDecision St} `{!Format I, !Format O, !Format St} `{!RangeOrder seq_ptr}.
Implicit Types (model : Model I O St).

Lemma legal_fillDefault model es st order :
  legal (fillDefault model) es st order <-> legal model es st order.
Proof. split; induction 1; econstructor; eauto. Qed.

Lemma Linearizable_events_fillDefault model events :
  Linearizable_events (fillDefault model) events <-> Linearizable_events model events.
Proof.
  unfold Linearizable_events. change (Init (fillDefault model)) with (Init model).
  by setoid_rewrite legal_fillDefault.
Qed.

(** C28: [CheckEvents] of a model that gives no partition function decides
    linearizability of a complete event history, whatever identifiers its
    events carry. *)
Theorem CheckEvents_decides model events evs kill :
  PartitionEvent model = None -> equal_ok model -> wf_events events ->
  Z.of_nat (length events) < 2 ^ 63 -> all_arrive 1 evs ->
  exists b, CheckEvents model events evs kill = Ret (Some b) /\
    (b = true <-> Linearizable_events model events).
Proof.
  intros HP Hs Hwf Hlen [Harr Hall]. set (es := convertEntries (renumber events)).
  assert (sub_ok es) as Hok.
  { eexists. split; [by apply renumber_wf|]. rewrite wf_events_length in Hlen by done. lia. }
  assert (sub_lin (fillDefault model) es <-> Linearizable_events model events) as Hlin.
  { rewrite <- Linearizable_events_fillDefault, <- renumber_lin. split.
    - intros (n & Hn & Hl). by rewrite (wf_history_fun _ _ _ Hn (renumber_wf _ Hwf)) in Hl.
    - intros Hl. eexists. split; [by apply renumber_wf|done]. }
  destruct (checkParallel_ok (fillDefault model) (state_equal model) [es] false 0 evs kill)
    as (r & Hr & Hpost); [apply fillDefault_Equal|by apply equal_ok_sound|by constructor|done|].
  unfold CheckEvents, checkEvents.
  assert (call_fn (PartitionEvent (fillDefault model)) events = Ret [events]) as ->
    by (unfold fillDefault; cbn; by rewrite HP).
  cbn [mbind outcome_bind fmap list_fmap]. fold es. rewrite Hr. cbn [mbind outcome_bind].
  destruct r as [[res info]|]; [|cbn in Hpost; destruct Hpost; [done|lia]].
  destruct Hpost as (H1 & H2 & H3 & _). eexists. split; [done|]. rewrite <- Hlin.
  destruct res; cbn; [destruct (H3 eq_refl); lia|..].
  - split; [|done]. intros _. specialize (H1 eq_refl). rewrite Forall_singleton in H1. exact H1.
  - split; [done|]. intros Hl. specialize (H2 eq_refl). by apply Exists_cons in H2 as [?|?%Exists_nil].
Qed.
End events.

(** An event history with identifiers 7 and 3, in which the get overlaps the put. *)
Definition event_demo : list (Event KvInput KvOutput) :=
  [ mkEvent 0 CallEvent (inl (mkKvInput 1 "x" "a")) 7;
    mkEvent 1 CallEvent (inl (mkKvInput 0 "x" "")) 3;
    mkEvent 1 ReturnEvent (inr (mkKvOutput "")) 3;
    mkEvent 0 ReturnEvent (inr (mkKvOutput "")) 7 ].

Lemma event_demo_wf : wf_events event_demo.
Proof.
  split.
  - eapply bool_decide_unpack. by vm_compute.
  - intros [|[|[|[|i]]]] v [= <-]; try done; intros _.
    + exists 3%nat, (mkEvent 0 ReturnEvent (inr (mkKvOutput "")) 7). cbn. split_and!; [lia|done..].
    + exists 2%nat, (mkEvent 1 ReturnEvent (inr (mkKvOutput "")) 3). cbn. split_and!; [lia|done..].
  - intros [|[|[|[|i]]]] v [= <-]; try done; intros _.
    + exists 1%nat, (mkEvent 1 CallEvent (inl (mkKvInput 0 "x" "")) 3). cbn. split_and!; [lia|done..].
    + exists 0%nat, (mkEvent 0 CallEvent (inl (mkKvInput 1 "x" "a")) 7). cbn. split_and!; [lia|done..].
  - intros [|[|[|[|i]]]] v [= <-]; cbn; eauto.
Qed.

Lemma CheckEvents_decides_witness : Linearizable_events KvModel event_demo.
Proof.
  destruct (CheckEvents_decides KvModel event_demo [Result 0] (fun _ _ => false)) as (b & Hb & <-).
  - reflexivity.
  - apply equal_ok_default. reflexivity.
  - apply event_demo_wf.
  - cbn. lia.
  - split; [split; eapply bool_decide_unpack; by vm_compute|cbn; lia].
  - assert (CheckEvents KvModel event_demo [Result 0] (fun _ _ => false) = Ret (Some true)) as Hrun
      by (vm_compute; reflexivity).
    rewrite Hrun in Hb. injection Hb as <-. reflexivity.
Defined.
