(* ===== verification/Visualize.v ===== *)
(** * The data of the visualization (src/src/porcupine/visualization.go)

    [computeVisualizationData] turns the information of a verbose check into
    the history of each partition, its partial linearizations with the states
    they go through, and for each operation the longest of them that has it.
    It sorts the partial linearizations of its argument in place, so the new
    information is a result too.  The entries of the history carry the
    dynamic values, which [DescribeOperation] and [Step] assert to be an input
    and an output.  The theorem is that it never fails on what a check of
    the same model produced. *)

From S2P Require Import Prelude Bitset PorcModel Linked Checker SearchProof LinSpec CheckerCorrect ParallelCorrect KvModel PorcSpec.

Record historyElement := mkHistoryElement { he_ClientId : Z; Start : Z; End : Z; Description : string }.
Record linearizationStep := mkLinStep { Index : Z; StateDescription : string }.
Record partitionVisualizationData := mkPartitionData {
  History : list historyElement;
  PartialLinearizations : list (list linearizationStep);
  Largest : gmap Z Z;
}.

(** The order of [sort.Slice]. *)
Definition longer (a b : list Z) : bool := (length b <? length a)%nat.
#[export] Instance longer_weak_order : WeakOrder longer.
Proof. unfold longer. split; intros; rewrite ?Nat.ltb_ge in *; lia. Qed.

Section visualize.
Context {I O St : Type} `{!EqDecision St} `{!Format I, !Format O, !Format St}.
Implicit Types (model : Model I O St) (es : list (entry I O)).

(** The history and the values by operation. *)
Record by_op := mkByOp { b_history : list historyElement; callValue : gmap Z (I + O); returnValue : gmap Z (I + O) }.

Definition record_entry model (e : entry I O) (b : by_op) : outcome by_op :=
  h ← idx (b_history b) (id e);
  match kind e with
  | callEntry =>
      hs ← idx_set (b_history b) (id e) (mkHistoryElement (clientId e) (time e) (End h) (Description h));
      Ret (mkByOp hs (<[id e := value e]> (callValue b)) (returnValue b))
  | returnEntry =>
      i ← as_input (callValue b !! id e);
      o ← as_output (Some (value e));
      d ← call_fn (DescribeOperation model) i;
      hs ← idx_set (b_history b) (id e) (mkHistoryElement (he_ClientId h) (Start h) (time e) (d o));
      Ret (mkByOp hs (callValue b) (<[id e := value e]> (returnValue b)))
  end.

Definition record_history model es : outcome by_op :=
  for_each (record_entry model) es
    (mkByOp (replicate (length es / 2) (mkHistoryElement 0 0 0 EmptyString)) ∅ ∅).

(** The tables [largestIndex] and [largestSize]; a missing size is 0. *)
Record largest := mkLargest { largestIndex : gmap Z Z; largestSize : gmap Z Z }.

Definition note_largest (d i size : Z) (lg : largest) : largest :=
  if default 0 (largestSize lg !! d) <? size
  then mkLargest (<[d := i]> (largestIndex lg)) (<[d := size]> (largestSize lg)) else lg.

(** The loop over one partial linearization, the [i]-th, of [size]
    operations. *)
Definition run_step model (b : by_op) (i size : Z) (histId : Z) (s : St * list linearizationStep * largest)
    : outcome (St * list linearizationStep * largest) :=
  let '(state, steps, lg) := s in
  input ← as_input (callValue b !! histId);
  output ← as_output (returnValue b !! histId);
  let '(ok, state) := Step model state input output in
  if ok : bool then
    desc ← call_fn (DescribeState model) state;
    Ret (state, steps ++ [mkLinStep histId desc], note_largest histId i size lg)
  else Panic Explicit.

Definition run_partial model (b : by_op) (partial : list Z) (s : Z * list (list linearizationStep) * largest)
    : outcome (Z * list (list linearizationStep) * largest) :=
  let '(i, lins, lg) := s in
  '(_, steps, lg) ← for_each (run_step model b i (Z.of_nat (length partial))) partial (Init model, [], lg);
  Ret (i + 1, lins ++ [steps], lg).

Definition visualize_partition `{!GoSort longer} model es (partials : list (list Z))
    : outcome (partitionVisualizationData * list (list Z)) :=
  b ← record_history model es;
  let partials := go_sort longer partials in
  '(_, lins, lg) ← for_each (run_partial model b) partials (0, [], mkLargest ∅ ∅);
  Ret (mkPartitionData (b_history b) lins (largestIndex lg), partials).

Definition computeVisualizationData `{!GoSort longer} model (info : linearizationInfo)
    : outcome (list partitionVisualizationData * linearizationInfo) :=
  let model := fillDefault model in
  '(data, info) ← for_each (fun partition '(data, info) =>
      es ← idx (li_history info) partition;
      partials ← idx (li_partials info) partition;
      '(d, partials) ← visualize_partition model es partials;
      ps ← idx_set (li_partials info) partition partials;
      Ret (data ++ [d], mkInfo (li_history info) ps)) (upto (length (li_history info))) ([], info);
  Ret (data, info).

(** ** Writing the page *)

(** The template is split at its only verb; [json_Marshal] gives the text or an
    error.  A write that fails leaves [partial]. *)
Section output.
Context (json_Marshal : list partitionVisualizationData -> string + string) (html_before html_after : string).

Definition Visualize `{!GoSort longer} model (info : linearizationInfo) (failure : option (string * string))
    : outcome (string * linearizationInfo * option string) :=
  '(data, info) ← computeVisualizationData model info;
  match json_Marshal data with
  | inr err => Ret (EmptyString, info, Some err)
  | inl jsonData =>
      match failure with
      | Some (partial, err) => Ret (partial, info, Some err)
      | None => Ret (html_before +:+ jsonData +:+ html_after, info, None)
      end
  end.

(** [os.Create] empties an existing file; [create_error] is its error. *)
Definition VisualizePath `{!GoSort longer} model (info : linearizationInfo) (path : string) (create_error : option string)
    (failure : option (string * string)) (fs : gmap string string) : outcome (gmap string string * linearizationInfo * option string) :=
  match create_error with
  | Some err => Ret (fs, info, Some err)
  | None =>
      '(text, info, err) ← Visualize model info failure;
      Ret (<[path := text]> fs, info, err)
  end.

Lemma VisualizePath_writes `{!GoSort longer} model info path fs data info' jsonData :
  computeVisualizationData model info = Ret (data, info') -> json_Marshal data = inl jsonData ->
  VisualizePath model info path None None fs = Ret (<[path := html_before +:+ jsonData +:+ html_after]> fs, info', None).
Proof. intros Hd Hj. unfold VisualizePath, Visualize. rewrite Hd. cbn. by rewrite Hj. Qed.
End output.
End visualize.

(** ** One partition *)

Section partition.
Context {I O St : Type} `{!EqDecision St}.
Context (model : Model I O St) (describe : I -> O -> string) (describe_state : St -> string).
Context (n : nat) (es : list (entry I O)).
Hypothesis Hop : DescribeOperation model = Some describe.
Hypothesis Hst : DescribeState model = Some describe_state.
Hypothesis Hwf : wf_history n es.

Lemma wf_fresh pre e post e' :
  es = pre ++ e :: post -> e' ∈ pre -> id e' = id e -> kind e' = kind e -> False.
Proof.
  intros Hes [i Hi]%list_elem_of_lookup Hid Hk. apply lookup_lt_Some in Hi as Hlt.
  assert (i = length pre) as ->; [|lia]. apply (wf_unique n es Hwf i (length pre) e' e); [| |done|done].
  - rewrite Hes. by apply lookup_app_l_Some.
  - rewrite Hes. by apply list_lookup_middle.
Qed.

Lemma wf_called pre e post :
  es = pre ++ e :: post -> kind e = returnEntry ->
  exists e' v, e' ∈ pre /\ kind e' = callEntry /\ id e' = id e /\ value e' = inl v.
Proof.
  intros Hes Hk. assert (es !! length pre = Some e) as He by (rewrite Hes; by apply list_lookup_middle).
  destruct (wf_call n es Hwf _ _ He Hk) as (i & e' & Hlt & Hi & Hk' & Hid).
  pose proof (wf_value n es Hwf i e' Hi) as Hv. rewrite Hk' in Hv. destruct Hv as [v Hv].
  exists e', v. split_and!; [|done..]. rewrite Hes, lookup_app_l in Hi by done. by eapply list_elem_of_lookup_2.
Qed.

(** The values recorded for the entries [pre]. *)
Definition values_of (k : entryKind) (pre : list (entry I O)) (m : gmap Z (I + O)) : Prop :=
  forall d v, m !! d = Some v <-> exists e, e ∈ pre /\ kind e = k /\ id e = d /\ value e = v.

(** What the history says of operation [d], as far as [pre] goes. *)
Definition element_ok (pre : list (entry I O)) (d : Z) (h : historyElement) : Prop :=
  (forall e, e ∈ pre -> id e = d -> kind e = callEntry -> he_ClientId h = clientId e /\ Start h = time e) /\
  (forall e, e ∈ pre -> id e = d -> kind e = returnEntry -> End h = time e /\
     exists e' i o, e' ∈ pre /\ kind e' = callEntry /\ id e' = d /\ value e' = inl i /\ value e = inr o /\
       Description h = describe i o).

Definition recorded_ok (pre : list (entry I O)) (b : by_op) : Prop :=
  length (b_history b) = n /\ values_of callEntry pre (callValue b) /\ values_of returnEntry pre (returnValue b) /\
  forall d h, b_history b !! d = Some h -> element_ok pre (Z.of_nat d) h.

Lemma values_of_same k pre e m : values_of k pre m -> kind e <> k -> values_of k (pre ++ [e]) m.
Proof.
  intros Hm Hk d v. rewrite (Hm d v). setoid_rewrite elem_of_app. setoid_rewrite list_elem_of_singleton.
  split; [intros (e' & ? & ?); exists e'; auto|]. intros (e' & [He| ->] & Hk' & ?); [eauto|done].
Qed.

Lemma values_of_add k pre e post m :
  es = pre ++ e :: post -> values_of k pre m -> kind e = k -> values_of k (pre ++ [e]) (<[id e := value e]> m).
Proof.
  intros Hes Hm Hk d v. setoid_rewrite elem_of_app. setoid_rewrite list_elem_of_singleton. rewrite lookup_insert.
  case_decide as Hd.
  - split; [intros [= <-]; exists e; auto|]. intros (e' & [He| ->] & Hk' & Hid & <-); [|done].
    destruct (wf_fresh pre e post e' Hes He); congruence.
  - rewrite (Hm d v). split; [intros (e' & ? & ?); exists e'; auto|]. intros (e' & [He| ->] & Hk' & Hid & Hv); [eauto|done].
Qed.

Lemma element_other pre e d h : element_ok pre d h -> id e <> d -> element_ok (pre ++ [e]) d h.
Proof.
  intros [H1 H2] Hne. split; intros e' [He| ->%list_elem_of_singleton]%elem_of_app Hid Hk; try done; [by apply H1|].
  destruct (H2 e' He Hid Hk) as (? & e2 & i & o & ? & ?). split; [done|]. exists e2, i, o. rewrite elem_of_app. tauto.
Qed.

Lemma record_entry_ok pre e post b :
  es = pre ++ e :: post -> recorded_ok pre b -> ensures (record_entry model e b) (recorded_ok (pre ++ [e])).
Proof.
  intros Hes (Hl & Hc & Hr & Hh). unfold record_entry.
  assert (es !! length pre = Some e) as He by (rewrite Hes; by apply list_lookup_middle).
  pose proof (wf_id n es Hwf _ _ He) as Hid. destruct (Z_of_nat_complete (id e) ltac:(lia)) as [d Hd].
  destruct (lookup_lt_is_Some_2 (b_history b) d) as [h Hh']; [lia|].
  assert (idx (b_history b) (id e) = Ret h) as -> by (apply idx_ret; rewrite Hd, Nat2Z.id; split; [lia|done]).
  cbn [mbind outcome_bind]. pose proof (wf_value n es Hwf _ _ He) as Hv. destruct (Hh d h Hh') as [H1 H2].
  assert (forall h', idx_set (b_history b) (id e) h' = Ret (<[d := h']> (b_history b))) as Hset.
  { intros h'. unfold idx_set. rewrite decide_True by lia. by rewrite Hd, Nat2Z.id. }
  destruct (kind e) eqn:Hk; [|destruct (wf_called pre e post Hes Hk) as (ec & i & Hec & Hkc & Hidc & Hvc);
    rewrite (proj2 (Hc (id e) (inl i))) by eauto 10; cbn [as_input mbind outcome_bind];
    destruct Hv as [o Hv]; rewrite Hv; cbn [as_output mbind outcome_bind]; rewrite Hop; cbn [call_fn mbind outcome_bind]];
    rewrite Hset; apply ensures_ret; (split_and!; cbn; [by rewrite length_insert| | |]).
  - by apply (values_of_add _ pre e post).
  - apply values_of_same; [done|by rewrite Hk].
  - intros d' h'. rewrite list_lookup_insert_Some. intros [(<- & <- & _)|[Hne Hd']]; [|apply element_other; [by apply Hh|lia]].
    split; intros e' [He'| ->%list_elem_of_singleton]%elem_of_app Hid' Hk'; cbn; try congruence; try done.
    + destruct (wf_fresh pre e post e' Hes He'); congruence.
    + destruct (H2 e' He' Hid' Hk') as (? & e2 & i & o & ? & ?). split; [done|]. exists e2, i, o. rewrite elem_of_app. tauto.
  - apply values_of_same; [done|by rewrite Hk].
  - rewrite <- Hv. by apply (values_of_add _ pre e post).
  - intros d' h'. rewrite list_lookup_insert_Some. intros [(<- & <- & _)|[Hne Hd']]; [|apply element_other; [by apply Hh|lia]].
    split; intros e' [He'| ->%list_elem_of_singleton]%elem_of_app Hid' Hk'; cbn; try congruence.
    + by apply H1.
    + destruct (wf_fresh pre e post e' Hes He'); congruence.
    + split; [done|]. exists ec, i, o. rewrite elem_of_app. split_and!; auto; congruence.
Qed.

(** The element of an operation: its client, the times of its call and its
    return, and its description. *)
Definition element_of (d : Z) (h : historyElement) : Prop :=
  exists c r i o, c ∈ es /\ kind c = callEntry /\ id c = d /\ value c = inl i /\
    r ∈ es /\ kind r = returnEntry /\ id r = d /\ value r = inr o /\
    h = mkHistoryElement (clientId c) (time c) (time r) (describe i o).

Lemma record_history_ok : ensures (record_history model es) (recorded_ok es).
Proof.
  unfold record_history. apply (for_each_ensures _ recorded_ok).
  - intros pre e post b Hes Hr. by eapply record_entry_ok.
  - split_and!; cbn [b_history callValue returnValue].
    + rewrite length_replicate, (wf_length n es Hwf). rewrite Nat.mul_comm. by apply Nat.div_mul.
    + intros d v. rewrite lookup_empty. split; [done|]. intros (e & He & _). by apply not_elem_of_nil in He.
    + intros d v. rewrite lookup_empty. split; [done|]. intros (e & He & _). by apply not_elem_of_nil in He.
    + intros d h _. split; intros e He; by apply not_elem_of_nil in He.
Qed.

Lemma recorded_elements b d h : recorded_ok es b -> b_history b !! d = Some h -> element_of (Z.of_nat d) h.
Proof.
  intros (Hl & _ & _ & Hh) Hd. destruct (Hh d h Hd) as [H1 H2]. apply lookup_lt_Some in Hd as Hlt.
  destruct (wf_all n es Hwf (Z.of_nat d) ltac:(lia)) as (p & e & He & Hid).
  assert (exists c r, c ∈ es /\ kind c = callEntry /\ id c = Z.of_nat d /\ r ∈ es /\ kind r = returnEntry /\ id r = Z.of_nat d)
    as (c & r & Hc & Hkc & Hidc & Hr & Hkr & Hidr).
  { destruct (kind e) eqn:Hk.
    - destruct (wf_return n es Hwf p e He Hk) as (q & e' & _ & Hq & Hk' & Hid'). exists e, e'.
      split_and!; try done; [by eapply list_elem_of_lookup_2..|congruence].
    - destruct (wf_call n es Hwf p e He Hk) as (q & e' & _ & Hq & Hk' & Hid'). exists e', e.
      split_and!; try done; [by eapply list_elem_of_lookup_2|congruence|by eapply list_elem_of_lookup_2]. }
  destruct (H1 c Hc Hidc Hkc) as [E1 E2]. destruct (H2 r Hr Hidr Hkr) as (E3 & c' & i & o & Hc' & Hkc' & Hidc' & Hv & Hvr & E4).
  destruct (H1 c' Hc' Hidc' Hkc') as [E5 E6]. exists c', r, i, o. split_and!; try done. destruct h; cbn in *. congruence.
Qed.

(** ** One partial linearization *)

(** The states that a sequence of operations goes through. *)
Inductive traced : St -> list Z -> list linearizationStep -> Prop :=
  | traced_nil st : traced st [] []
  | traced_cons st d i o st' ds ss :
      op_of es d i o -> Step model st i o = (true, st') -> traced st' ds ss ->
      traced st (d :: ds) (mkLinStep d (describe_state st') :: ss).

Lemma recorded_op b d i o :
  recorded_ok es b -> op_of es d i o -> callValue b !! d = Some (inl i) /\ returnValue b !! d = Some (inr o).
Proof.
  intros (_ & Hc & Hr & _) (p & q & ep & eq & Hp & Hkp & Hidp & Hvp & Hq & Hkq & Hidq & Hvq). split.
  - apply Hc. exists ep. split_and!; try done. by eapply list_elem_of_lookup_2.
  - apply Hr. exists eq. split_and!; try done. by eapply list_elem_of_lookup_2.
Qed.

Lemma run_steps_ok b i size l st acc lg :
  recorded_ok es b -> legal model es st l ->
  exists st' ss, for_each (run_step model b i size) l (st, acc, lg) =
    Ret (st', acc ++ ss, foldl (fun lg d => note_largest d i size lg) lg l) /\ traced st l ss.
Proof.
  intros Hb Hl. revert acc lg. induction Hl as [st|st d x o st1 ds Hd Hs Hl IH]; intros acc lg.
  - exists st, []. rewrite app_nil_r. split; [done|constructor].
  - destruct (recorded_op b d x o Hb Hd) as [Hc Hr]. cbn [for_each].
    assert (run_step model b i size d (st, acc, lg) =
      Ret (st1, acc ++ [mkLinStep d (describe_state st1)], note_largest d i size lg)) as ->.
    { unfold run_step. rewrite Hc, Hr. cbn [as_input as_output mbind outcome_bind]. by rewrite Hs, Hst. }
    cbn [mbind outcome_bind].
    destruct (IH (acc ++ [mkLinStep d (describe_state st1)]) (note_largest d i size lg)) as (st' & ss & Hf & Ht).
    exists st', (mkLinStep d (describe_state st1) :: ss). split; [|by econstructor].
    rewrite Hf. by rewrite <- app_assoc.
Qed.

(** ** The largest partial linearizations *)

(** The first of the sequences [ps] that has operation [d]. *)
Definition first_with (ps : list (list Z)) (d : Z) : option (nat * list Z) := list_find (fun l => d ∈ l) ps.

Definition largest_ok (ps : list (list Z)) (lg : largest) : Prop :=
  forall d, largestIndex lg !! d = (fun x => Z.of_nat x.1) <$> first_with ps d /\
            largestSize lg !! d = (fun x => Z.of_nat (length x.2)) <$> first_with ps d.

Lemma first_with_snoc ps l d :
  first_with (ps ++ [l]) d =
    match first_with ps d with Some x => Some x | None => if decide (d ∈ l) then Some (length ps, l) else None end.
Proof.
  unfold first_with. destruct (list_find (fun l => d ∈ l) ps) as [[k l']|] eqn:E.
  - by apply list_find_app_l.
  - rewrite list_find_app_r by done. cbn. by case_decide.
Qed.

Lemma note_fold i size l (lg : largest) d :
  let lg' := foldl (fun lg d => note_largest d i size lg) lg l in
  0 < size ->
  if decide (d ∈ l /\ default 0 (largestSize lg !! d) < size)
  then largestIndex lg' !! d = Some i /\ largestSize lg' !! d = Some size
  else largestIndex lg' !! d = largestIndex lg !! d /\ largestSize lg' !! d = largestSize lg !! d.
Proof.
  cbn zeta. intros Hs. revert lg. induction l as [|d' l IH]; intros lg; cbn [foldl].
  { rewrite decide_False; [done|]. intros [Hd _]. by apply not_elem_of_nil in Hd. }
  specialize (IH (note_largest d' i size lg)). set (lg' := foldl _ _ l) in *. clearbody lg'.
  unfold note_largest in IH. destruct (Z.ltb_spec (default 0 (largestSize lg !! d')) size) as [Hlt|Hge]; cbn in IH.
  - rewrite !lookup_insert in IH. destruct (decide (d' = d)) as [->|Hne].
    + cbn in IH. rewrite decide_False in IH by lia. rewrite decide_True by (split; [by left|done]). done.
    + destruct (decide (d ∈ l /\ _)) as [Hd|Hd]; [rewrite decide_True by (split; [right; tauto|tauto]); done|].
      rewrite decide_False; [done|]. intros [[->|Hin]%elem_of_cons ?]; tauto.
  - destruct (decide (d ∈ l /\ _)) as [Hd|Hd]; [rewrite decide_True by (split; [right; tauto|tauto]); done|].
    rewrite decide_False; [done|]. intros [[->|Hin]%elem_of_cons ?]; [lia|tauto].
Qed.

Lemma largest_ok_snoc ps l lg :
  largest_ok ps lg -> Forall (fun l' => (length l <= length l')%nat) ps ->
  largest_ok (ps ++ [l])
    (foldl (fun lg d => note_largest d (Z.of_nat (length ps)) (Z.of_nat (length l)) lg) lg l).
Proof.
  intros Hlg Hall d. destruct l as [|d0 l0] eqn:El.
  { cbn. rewrite first_with_snoc, decide_False by (by apply not_elem_of_nil). destruct (Hlg d) as [-> ->].
    by destruct (first_with ps d). }
  rewrite <- El in *. pose proof (note_fold (Z.of_nat (length ps)) (Z.of_nat (length l)) l lg d ltac:(subst; cbn; lia)) as Hn.
  cbn zeta in Hn. destruct (Hlg d) as [E1 E2]. rewrite first_with_snoc. destruct (first_with ps d) as [[k l']|] eqn:Ef.
  - rewrite decide_False in Hn; [by rewrite E1, E2 in Hn|]. rewrite E2. cbn. intros [_ Hlt].
    apply list_find_Some in Ef as (Hk & _). rewrite Forall_lookup in Hall. specialize (Hall k l' Hk). lia.
  - rewrite E1, E2 in Hn. cbn in Hn. destruct (decide (d ∈ l)) as [Hd|Hd].
    + rewrite decide_True in Hn; [done|]. split; [done|]. subst; cbn; lia.
    + rewrite decide_False in Hn by tauto. done.
Qed.

(** What the data of a partition shows: the operations, the partial
    linearizations by decreasing length with the states they go through, and
    for each operation the first, hence a longest, one that has it. *)
Record partition_shown (partials ps : list (list Z)) (data : partitionVisualizationData) : Prop := {
  ps_perm : ps ≡ₚ partials;
  ps_sorted : StronglySorted (fun a b => (length b <= length a)%nat) ps;
  ps_count : length (History data) = n;
  ps_history : forall d h, History data !! d = Some h -> element_of (Z.of_nat d) h;
  ps_states : Forall2 (traced (Init model)) ps (PartialLinearizations data);
  ps_largest : forall d, Largest data !! d = (fun x => Z.of_nat x.1) <$> first_with ps d;
}.

Lemma sorted_longer `{!GoSort longer} l : StronglySorted (fun a b => (length b <= length a)%nat) (go_sort longer l).
Proof.
  pose proof (go_sort_sorted longer l) as Hs. rewrite <- (list_fmap_id (go_sort longer l)).
  eapply StronglySorted_fmap; [|exact Hs]. intros a b Hab. by apply Nat.ltb_ge in Hab.
Qed.

Lemma run_partials_ok b ps :
  recorded_ok es b -> Forall (legal model es (Init model)) ps ->
  StronglySorted (fun a b => (length b <= length a)%nat) ps ->
  ensures (for_each (run_partial model b) ps (0, [], mkLargest ∅ ∅)) (fun '(_, lins, lg) =>
    Forall2 (traced (Init model)) ps lins /\ largest_ok ps lg).
Proof.
  intros Hb Hl Hs. eapply ensures_mono; [apply (for_each_ensures _ (fun pre '(i, lins, lg) =>
    i = Z.of_nat (length pre) /\ Forall2 (traced (Init model)) pre lins /\ largest_ok pre lg))|].
  - intros pre l post [[i lins] lg] Hps (-> & Ht & Hlg). unfold run_partial.
    assert (legal model es (Init model) l) as Hll by (rewrite Forall_forall in Hl; apply Hl; rewrite Hps; set_solver).
    destruct (run_steps_ok b (Z.of_nat (length pre)) (Z.of_nat (length l)) l (Init model) [] lg Hb Hll) as (st' & ss & -> & Hss).
    apply ensures_ret. split_and!.
    + rewrite length_app. cbn. lia.
    + apply Forall2_app; [done|]. by constructor.
    + apply largest_ok_snoc; [done|]. rewrite Hps in Hs.
      apply StronglySorted_app in Hs as (Hs & _). apply Forall_forall. intros l' Hl'. apply (Hs l' l Hl'). by left.
  - split_and!; [done|constructor|]. by intros d.
  - by intros [[i lins] lg] (_ & ? & ?).
Qed.

Lemma visualize_partition_ok `{!GoSort longer} partials :
  Forall (legal model es (Init model)) partials ->
  ensures (visualize_partition model es partials) (fun '(data, ps) => partition_shown partials ps data).
Proof.
  intros Hl. unfold visualize_partition. eapply ensures_bind; [apply record_history_ok|]. intros b Hb.
  eapply ensures_bind; [apply (run_partials_ok b _ Hb); [|apply sorted_longer]|].
  - by rewrite (go_sort_perm longer).
  - intros [[i lins] lg] [Ht Hlg]. apply ensures_ret. split; cbn.
    + apply go_sort_perm.
    + apply sorted_longer.
    + apply Hb.
    + intros d h Hd. by apply (recorded_elements b).
    + done.
    + intros d. by destruct (Hlg d) as [-> _].
Qed.
End partition.

(** ** All partitions *)

Section data.
Context {I O St : Type} `{!EqDecision St} `{!Format I, !Format O, !Format St}.
Implicit Types (model : Model I O St).

(** The descriptions that a model gives. *)
Definition describe_op model : I -> O -> string := default DefaultDescribeOperation (DescribeOperation model).
Definition describe_st model : St -> string := default DefaultDescribeState (DescribeState model).

Definition shown model (sub : list (entry I O)) (partials ps : list (list Z)) (data : partitionVisualizationData) : Prop :=
  exists n, wf_history n sub /\ partition_shown (fillDefault model) (describe_op model) (describe_st model) n sub partials ps data.

(** The data after the partitions [done]. *)
Definition data_upto model (info : linearizationInfo) (k : nat) (s : list partitionVisualizationData * linearizationInfo) : Prop :=
  length s.1 = k /\ li_history s.2 = li_history info /\ length (li_partials s.2) = length (li_partials info) /\
  (forall p, (k <= p)%nat -> li_partials s.2 !! p = li_partials info !! p) /\
  (forall p sub partials, (p < k)%nat -> li_history info !! p = Some sub -> li_partials info !! p = Some partials ->
     exists ps d, li_partials s.2 !! p = Some ps /\ s.1 !! p = Some d /\ shown model sub partials ps d).

Lemma visualize_sub `{!GoSort longer} model sub partials :
  sub_ok sub -> Forall (partial_linearization (fillDefault model) sub) partials ->
  ensures (visualize_partition (fillDefault model) sub partials) (fun '(d, ps) => shown model sub partials ps d).
Proof.
  intros (n & Hwf & _) Hp. eapply ensures_mono.
  - apply (visualize_partition_ok (fillDefault model) (describe_op model) (describe_st model) n sub).
    + unfold describe_op. cbn. by destruct (DescribeOperation model).
    + unfold describe_st. cbn. by destruct (DescribeState model).
    + done.
    + eapply Forall_impl; [exact Hp|]. by intros l (_ & _ & ? & _).
  - intros [d ps] Hs. by exists n.
Qed.

Lemma computeVisualizationData_ok `{!GoSort longer} model info :
  Forall sub_ok (li_history info) ->
  Forall2 (fun sub => Forall (partial_linearization (fillDefault model) sub)) (li_history info) (li_partials info) ->
  ensures (computeVisualizationData model info) (data_upto model info (length (li_history info))).
Proof.
  intros Hok Hp. pose proof (Forall2_length _ _ _ Hp) as Hlen. unfold computeVisualizationData.
  eapply ensures_bind; [apply (for_each_ensures _ (fun pre => data_upto model info (length pre)))|].
  - intros pre x post [data inf] Hups (H1 & H2 & H3 & H4 & H5). cbn [fst snd] in *.
    assert (x = Z.of_nat (length pre) /\ (length pre < length (li_history info))%nat) as [-> Hlt].
    { assert (upto (length (li_history info)) !! length pre = Some x) as Hx by (rewrite Hups; by apply list_lookup_middle).
      unfold upto in Hx. apply list_lookup_fmap_Some in Hx as (y & -> & [-> ?]%lookup_seq). split; lia. }
    set (p := length pre) in *. destruct (lookup_lt_is_Some_2 _ _ Hlt) as [sub Hsub].
    destruct (Forall2_lookup_l _ _ _ _ _ Hp Hsub) as (partials & Hpar & Hlin).
    assert (idx (li_history inf) (Z.of_nat p) = Ret sub) as -> by (apply idx_ret; rewrite Nat2Z.id, H2; split; [lia|done]).
    assert (idx (li_partials inf) (Z.of_nat p) = Ret partials) as ->
      by (apply idx_ret; rewrite Nat2Z.id, H4 by done; split; [lia|done]).
    cbn [mbind outcome_bind]. rewrite Forall_lookup in Hok.
    destruct (visualize_sub model sub partials (Hok _ _ Hsub) Hlin) as ([d ps] & -> & Hd). cbn [mbind outcome_bind].
    unfold idx_set. rewrite decide_True by lia. cbn [mbind outcome_bind]. apply ensures_ret.
    rewrite Nat2Z.id, length_app, Nat.add_1_r. fold p. split_and!; cbn [fst snd li_history li_partials].
    + rewrite length_app. cbn. lia.
    + done.
    + by rewrite length_insert.
    + intros q Hq. rewrite list_lookup_insert_ne by lia. apply H4. lia.
    + intros q sub' par' Hq Hs' Hp'. destruct (decide (q = p)) as [->|Hne].
      * simplify_eq. exists ps, d. rewrite list_lookup_insert_eq by lia. split_and!; [done| |done].
        rewrite <- H1. by apply list_lookup_middle.
      * destruct (H5 q sub' par') as (ps' & d' & ? & ? & ?); [lia|done|done|]. exists ps', d'.
        rewrite list_lookup_insert_ne by done. split_and!; [done|by apply lookup_app_l_Some|done].
  - split_and!; cbn; try done. intros ? ? ? ?. lia.
  - intros [data inf] Hd. apply ensures_ret. by rewrite length_upto in Hd.
Qed.

(** The data of a verbose check, partition by partition. *)
Lemma check_visualized `{!RangeOrder seq_ptr} `{!GoSort (@Less I O)} `{!GoSort longer} model history timeout evs kill res info :
  equal_ok model -> Forall ops_ok (partitions_of model history) ->
  arrivals_ok (length (partitions_of model history)) evs ->
  CheckOperationsVerbose model history timeout evs kill = Ret (Some (res, info)) ->
  exists data info', computeVisualizationData model info = Ret (data, info') /\
    length data = length (partitions_of model history) /\
    forall p ops, partitions_of model history !! p = Some ops ->
      exists partials ps d, li_partials info !! p = Some partials /\ li_partials info' !! p = Some ps /\
        data !! p = Some d /\ shown model (makeEntries ops) partials ps d /\
        Forall (partial_linearization (fillDefault model) (makeEntries ops)) partials.
Proof.
  intros Heq Hok Harr Hc. destruct (checkOperations_ok model history true timeout evs kill Heq Hok Harr) as (r & Hr & Hpost).
  unfold CheckOperationsVerbose in Hc. rewrite Hr in Hc. injection Hc as ->.
  destruct Hpost as (_ & _ & _ & Hinfo). destruct (Hinfo eq_refl) as [Hh Hp].
  destruct (computeVisualizationData_ok model info) as ([data info'] & Hd & (H1 & H2 & H3 & H4 & H5)).
  - rewrite Hh. apply Forall_fmap. eapply Forall_impl; [exact Hok|]. apply makeEntries_sub_ok.
  - by rewrite Hh.
  - exists data, info'. cbn [fst snd] in *. rewrite Hh, length_fmap in H1. split_and!; [done|done|]. intros p ops Hops.
    assert (li_history info !! p = Some (makeEntries ops)) as Hsub by (by rewrite Hh, list_lookup_fmap, Hops).
    rewrite <- Hh in Hp. destruct (Forall2_lookup_l _ _ _ _ _ Hp Hsub) as (partials & Hpar & Hlin).
    destruct (H5 p (makeEntries ops) partials) as (ps & d & ? & ? & ?); [by apply lookup_lt_Some in Hsub|done|done|].
    by exists partials, ps, d.
Qed.

(** C32: the visualization of a verbose check never fails.  Whatever the order
    in which the results arrive, and also when the timer fires, the data
    computed from the check's information shows of every partition its
    operations with the times of call and return and their descriptions, its
    partial linearizations by decreasing length with the states they go
    through, and for each operation the first, hence a longest, partial
    linearization that has it. *)
Theorem visualization_shows `{!RangeOrder seq_ptr} `{!GoSort (@Less I O)} `{!GoSort longer} model history timeout evs kill res info :
  equal_ok model -> Forall ops_ok (partitions_of model history) ->
  arrivals_ok (length (partitions_of model history)) evs ->
  CheckOperationsVerbose model history timeout evs kill = Ret (Some (res, info)) ->
  exists data info', computeVisualizationData model info = Ret (data, info') /\
    length data = length (partitions_of model history) /\
    forall p ops, partitions_of model history !! p = Some ops ->
      exists partials ps d, li_partials info !! p = Some partials /\ li_partials info' !! p = Some ps /\
        data !! p = Some d /\ shown model (makeEntries ops) partials ps d.
Proof.
  intros Heq Hok Harr Hc.
  destruct (check_visualized model history timeout evs kill res info Heq Hok Harr Hc) as (data & info' & Hd & Hl & Hall).
  exists data, info'. split_and!; [done..|]. intros p ops Hops.
  destruct (Hall p ops Hops) as (partials & ps & d & ? & ? & ? & ? & _). by exists partials, ps, d.
Qed.
End data.

(** The information of a check that finds a stale read. *)
Definition stale_check : option (CheckResult * linearizationInfo) :=
  match CheckOperationsVerbose KvModel stale_demo 0 [Result 0] (fun _ _ => false) with Ret r => r | _ => None end.
Definition stale_info : linearizationInfo := match stale_check with Some (_, info) => info | None => mkInfo [] [] end.

Lemma visualization_shows_witness :
  exists data info', computeVisualizationData KvModel stale_info = Ret (data, info') /\ length data = 1%nat.
Proof.
  assert (CheckOperationsVerbose KvModel stale_demo 0 [Result 0] (fun _ _ => false) = Ret (Some (Illegal, stale_info)))
    as Hc by (vm_compute; reflexivity).
  destruct (visualization_shows KvModel stale_demo 0 [Result 0] (fun _ _ => false) Illegal stale_info) as (data & info' & H1 & H2 & _).
  - apply equal_ok_default. reflexivity.
  - assert (partitions_of KvModel stale_demo = [stale_demo]) as -> by (vm_compute; reflexivity).
    constructor; [|constructor]. split; [repeat constructor|]; cbn; lia.
  - split; eapply bool_decide_unpack; by vm_compute.
  - exact Hc.
  - exists data, info'. split; [exact H1|exact H2].
Defined.
