(* ===== verification/Render.v ===== *)
(** * The page of the visualization (the script in src/src/porcupine/visualization.go)

    [Visualize] writes a page whose script, [render], lays the operations of
    a check out on a time axis and draws them with the partial linearizations
    as polylines.  The script warps time: it maps the timestamps to positions
    from left to right, as close to each other as the texts and the points of
    the linearizations allow.

    The numbers of the script are floating-point numbers.  Timestamps are
    integers here, in half nanoseconds, since the script takes the mean of two
    of them once; positions are rational numbers.  Reading a property that an
    object does not have gives [undefined] in the script, and every number
    computed from it is NaN; here such a read is a failure. *)

From Stdlib Require Import QArith Qminmax.
From S2P Require Import Prelude PorcModel Visualize.

#[local] Open Scope Z_scope.

(** [a < b] on positions is only used through [Math.max]. *)
Definition max_pos (a b : Q) : Q := Qmax a b.

Definition PADDING : Q := 10.
Definition BOX_HEIGHT : Q := 30.
Definition BOX_SPACE : Q := 15.
Definition XOFF : Q := 20.
Definition EPSILON : Q := 20.
Definition LINE_BLEED : Q := 5.
Definition BOX_GAP : Q := 20.
Definition BOX_TEXT_PADDING : Q := 10.

(** A property that must be there. *)
Definition read_prop {A} (o : option A) : outcome A :=
  match o with Some a => Ret a | None => Panic NilDeref end.

(** ** The data of the page *)

(** An element of a history with what the script adds to it. *)
Record event := mkEvent {
  ev_ClientId : Z;
  ev_Start : Z;
  ev_End : Z;
  ev_OriginalEnd : Z;
  ev_Description : string;
  ev_Gid : nat;
}.

Record jpart := mkJpart {
  jp_History : list event;
  jp_Lins : list (list linearizationStep);
  jp_Largest : gmap Z Z;
}.

(** The JSON text as objects: timestamps in half nanoseconds, the elements
    numbered through all partitions from [gid] on. *)
Definition number_history (gid : nat) (h : list historyElement) : list event :=
  imap (fun i el => mkEvent (he_ClientId el) (2 * Start el) (2 * End el) (2 * End el) (Description el) (gid + i)) h.

Fixpoint number_parts (gid : nat) (data : list partitionVisualizationData) : list jpart :=
  match data with
  | [] => []
  | p :: data =>
      mkJpart (number_history gid (History p)) (PartialLinearizations p) (Largest p) ::
      number_parts (gid + length (History p)) data
  end.

Definition events_of (data : list jpart) : list event := data ≫= jp_History.

(** [maxClient + 1]. *)
Definition nClient (data : list jpart) : Z :=
  foldl (fun m el => Z.max m (ev_ClientId el)) (-1) (events_of data) + 1.

(** ** Timestamps *)

Definition sort_times (times : gset Z) : list Z := merge_sort Z.le (elements times).

(** [nextTs]: the timestamp after each but the last. *)
Definition next_ts (sorted : list Z) : gmap Z Z := list_to_map (zip sorted (tail sorted)).

(** An end that is also a start is moved half-way to the next timestamp. *)
Definition tweak (starts : gset Z) (nextTs : gmap Z Z) (el : event) : event :=
  let end_ := ev_End el in
  if decide (end_ ∈ starts) then
    match nextTs !! end_ with
    | Some next => mkEvent (ev_ClientId el) (ev_Start el) ((end_ + next) / 2) end_ (ev_Description el) (ev_Gid el)
    | None => el
    end
  else el.

(** The data with the ends tweaked, and all timestamps in order. *)
Definition prepare (data : list jpart) : list jpart * list Z :=
  let events := events_of data in
  let startTimestamps : gset Z := list_to_set (ev_Start <$> events) in
  let allTimestamps : gset Z := startTimestamps ∪ list_to_set (ev_End <$> events) in
  let nextTs := next_ts (sort_times allTimestamps) in
  let data := (fun p => mkJpart (tweak startTimestamps nextTs <$> jp_History p) (jp_Lins p) (jp_Largest p)) <$> data in
  let allTimestamps := allTimestamps ∪ list_to_set (ev_End <$> events_of data) in
  (data, sort_times allTimestamps).

(** ** Linearizations *)

(** The partial linearizations of all partitions, in order. *)
Definition all_lins (data : list jpart) : list (jpart * list linearizationStep) :=
  data ≫= fun p => (fun lin => (p, lin)) <$> jp_Lins p.

(** [globalized]: the numbers of the elements of a linearization. *)
Fixpoint globalize (p : jpart) (lin : list linearizationStep) : outcome (list nat) :=
  match lin with
  | [] => Ret []
  | id :: lin =>
      el ← idx (jp_History p) (Index id);
      gs ← globalize p lin;
      Ret (ev_Gid el :: gs)
  end.

Fixpoint globalize_all (lins : list (jpart * list linearizationStep)) : outcome (list (list nat)) :=
  match lins with
  | [] => Ret []
  | (p, lin) :: lins =>
      g ← globalize p lin;
      gs ← globalize_all lins;
      Ret (g :: gs)
  end.

Definition included (lin : list linearizationStep) (k : nat) : bool :=
  bool_decide (Z.of_nat k ∈ Index <$> lin).

(** The elements of a partition that a linearization leaves out. *)
Definition excluded (p : jpart) (lin : list linearizationStep) : list (nat * event) :=
  filter (fun x => included lin x.1 = false) (imap (fun k el => (k, el)) (jp_History p)).

(** [minEnd]; [None] is Infinity. *)
Definition min_end (els : list (nat * event)) : option Z :=
  foldl (fun m x => Some (match m with Some m => Z.min m (ev_End x.2) | None => ev_End x.2 end)) None els.

Definition before_min (m : option Z) (start : Z) : bool :=
  match m with Some m => start <? m | None => true end.

(** The elements that could come next but may not. *)
Definition illegal_next (p : jpart) (lin : list linearizationStep) : list (nat * event) :=
  let els := excluded p lin in
  filter (fun x => before_min (min_end els) (ev_Start x.2) = true) els.

(** [eventToLinearizations[g]]: the linearizations with the element, and
    where in them. *)
Definition points_of (lins : list (list nat)) (g : nat) : list (nat * nat) :=
  concat (imap (fun index lin =>
    concat (imap (fun position g' => if decide (g' = g) then [(index, position)] else []) lin)) lins).

(** [eventIllegalLast[g]]: the linearizations that the element may not
    continue. *)
Definition illegal_of (lins : list (jpart * list linearizationStep)) (g : nat) : list nat :=
  concat (imap (fun index l =>
    if decide (g ∈ ev_Gid ∘ snd <$> illegal_next l.1 l.2) then [index] else []) lins).

(** ** The layout *)

(** An element of [byEnd]. *)
Record box := mkBox { b_start : Z; b_end : Z; b_width : Q; b_gid : nat }.

Definition ends_before (a b : box) : bool := b_end a <? b_end b.

#[export] Instance ends_before_weak_order : WeakOrder ends_before.
Proof. unfold ends_before. split; intros; lia. Qed.

Section render.
(** The width of a text that the browser draws. *)
Context (bbox_width : string -> Q) `{!GoSort ends_before}.

Definition box_of (el : event) : box :=
  mkBox (ev_Start el) (ev_End el) (bbox_width (ev_Description el) + 2 * BOX_TEXT_PADDING)%Q (ev_Gid el).

Definition by_end (data : list jpart) : list box := go_sort ends_before (box_of <$> events_of data).

Section scan.
Context (events : list event) (lins : list (list nat)).

(** The points of a linearization that are not placed yet, up to [k] more:
    each at the start of its element or to the right of the point before. *)
Fixpoint place (xPos : gmap Z Q) (lin : list nat) (ps : list Q) (k : nat) : outcome (list Q) :=
  match k with
  | 0%nat => Ret ps
  | S k =>
      g ← read_prop (lin !! length ps);
      el ← read_prop (events !! g);
      x ← read_prop (xPos !! ev_Start el);
      let nextPos := match last ps with
                     | None => x
                     | Some prev => max_pos x (prev + EPSILON)%Q
                     end in
      place xPos lin (ps ++ [nextPos]) k
  end.

(** One linearization at an element: its points up to [position] are placed
    and the end is pushed behind the point there. *)
Definition fit_point (xPos : gmap Z Q) (li : nat * Z) (s : list (list Q) * Q) : outcome (list (list Q) * Q) :=
  let '(linPos, pos) := s in
  let '(index, position) := li in
  lin ← read_prop (lins !! index);
  ps ← read_prop (linPos !! index);
  ps ← place xPos lin ps (Z.to_nat (position + 1) - length ps);
  x ← idx ps position;
  Ret (<[index := ps]> linPos, max_pos pos x).

(** The end is pushed behind the illegal next point. *)
Definition fit_illegal (linPos : list (list Q)) (index : nat) (pos : Q) : outcome Q :=
  ps ← read_prop (linPos !! index);
  prev ← read_prop (last ps);
  Ret (max_pos pos (prev + EPSILON)%Q).

(** One pass of the inner loop: the end of an element at the current
    timestamp. *)
Definition fit_box (illegal : nat -> list nat) (xPos : gmap Z Q) (b : box) (s : list (list Q) * Q) :
    outcome (list (list Q) * Q) :=
  let '(linPos, pos) := s in
  x ← read_prop (xPos !! b_start b);
  let pos := max_pos pos (x + b_width b)%Q in
  lens ← for_each (fun index acc => lin ← read_prop (lins !! index); Ret (acc ++ [(index, Z.of_nat (length lin) - 1)]))
           (illegal (b_gid b)) [];
  '(linPos, pos) ← for_each (fit_point xPos)
    (((fun x => (x.1, Z.of_nat x.2)) <$> points_of lins (b_gid b)) ++ lens) (linPos, pos);
  pos ← for_each (fit_illegal linPos) (illegal (b_gid b)) pos;
  Ret (linPos, pos).

(** The inner loop: the elements that end at or before [ts]. *)
Fixpoint fit_boxes (illegal : nat -> list nat) (xPos : gmap Z Q) (ts : Z) (boxes : list box) (s : list (list Q) * Q) :
    outcome (list box * (list (list Q) * Q)) :=
  match boxes with
  | b :: rest =>
      if b_end b <=? ts then s ← fit_box illegal xPos b s; fit_boxes illegal xPos ts rest s
      else Ret (boxes, s)
  | [] => Ret ([], s)
  end.

(** The scan over the timestamps after [prev]. *)
Fixpoint scan (illegal : nat -> list nat) (prev : Z) (times : list Z) (boxes : list box)
    (xPos : gmap Z Q) (linPos : list (list Q)) : outcome (gmap Z Q * list (list Q)) :=
  match times with
  | [] => Ret (xPos, linPos)
  | ts :: times =>
      x ← read_prop (xPos !! prev);
      '(boxes, (linPos, pos)) ← fit_boxes illegal xPos ts boxes (linPos, x + BOX_GAP)%Q;
      scan illegal ts times boxes (<[ts := pos]> xPos) linPos
  end.
End scan.

(** [xPos] and [linearizationPositions] for the prepared data. *)
Definition layout (data : list jpart) (sorted : list Z) : outcome (gmap Z Q * list (list Q)) :=
  let alls := all_lins data in
  lins ← globalize_all alls;
  let empty := replicate (length lins) [] in
  match sorted with
  | [] => Ret (∅, empty)
  | t0 :: times => scan (events_of data) lins (illegal_of alls) t0 times (by_end data) {[t0 := 0%Q]} empty
  end.

(** ** The drawing *)

Record rect := mkRect { r_x : Q; r_y : Q; r_width : Q; r_height : Q }.

Definition row (el : event) : Q := (PADDING + inject_Z (ev_ClientId el) * (BOX_HEIGHT + BOX_SPACE))%Q.

(** The box of an element. *)
Definition draw_box (xPos : gmap Z Q) (el : event) : outcome rect :=
  rx ← read_prop (xPos !! ev_Start el);
  re ← read_prop (xPos !! ev_End el);
  Ret (mkRect (rx + XOFF + PADDING)%Q (row el) (re - rx)%Q BOX_HEIGHT).

Inductive line_class := LinearizationLine | LinearizationPoint | InvalidLine | InvalidPoint.

#[export] Instance line_class_eq_dec : EqDecision line_class.
Proof. solve_decision. Defined.

Record line := mkLine { l_x1 : Q; l_x2 : Q; l_y1 : Q; l_y2 : Q; l_class : line_class }.

(** The line from the point of [prev] at [(x1, y1)] to that of [el]. *)
Definition connect (c : line_class) (prev : event) (x1 y1 : Q) (el : event) (x y : Q) : line :=
  mkLine x1 x
    (if ev_ClientId el <=? ev_ClientId prev then y1 else y1 + BOX_HEIGHT + 2 * LINE_BLEED)%Q
    (if ev_ClientId prev <=? ev_ClientId el then y else y + BOX_HEIGHT + 2 * LINE_BLEED)%Q c.

Definition point (c : line_class) (x y : Q) : line := mkLine x x y (y + BOX_HEIGHT + 2 * LINE_BLEED)%Q c.

(** Where a point of [el] goes after the previous one. *)
Definition point_x (xPos : gmap Z Q) (prev : option (event * Q * Q)) (el : event) : outcome Q :=
  x0 ← read_prop (xPos !! ev_Start el);
  let hereX := (PADDING + XOFF + x0)%Q in
  Ret (match prev with Some (_, prevX, _) => max_pos hereX (prevX + EPSILON)%Q | None => hereX end).

(** A point of the linearization, with the line that leads to it. *)
Definition draw_point (xPos : gmap Z Q) (p : jpart) (id : linearizationStep) (s : list line * option (event * Q * Q)) :
    outcome (list line * option (event * Q * Q)) :=
  let '(lines, prev) := s in
  el ← idx (jp_History p) (Index id);
  x ← point_x xPos prev el;
  let y := (row el - LINE_BLEED)%Q in
  let from := match prev with Some (e, x1, y1) => [connect LinearizationLine e x1 y1 el x y] | None => [] end in
  Ret (lines ++ from ++ [point LinearizationPoint x y], Some (el, x, y)).

(** [errorPoints]: the point, and the partition and element it stands for. *)
Record error_point := mkError { er_x : Q; er_partition : nat; er_index : Z; er_lin : nat }.

(** What the drawing of the partial linearizations leaves for the handlers. *)
Record drawn := mkDrawn {
  d_lines : list (list line);
  d_illegal : list (gset nat);
  d_largest : gmap nat nat;
  d_largestLen : gmap nat nat;
  d_errors : list error_point;
}.

(** An illegal next point; without a previous point there is none to connect
    to. *)
Definition draw_illegal (xPos : gmap Z Q) (pi li : nat) (lin : list linearizationStep) (prev : option (event * Q * Q))
    (x : nat * event) (s : list line * gset nat * drawn) : outcome (list line * gset nat * drawn) :=
  let '(lines, ill, d) := s in
  let '(index, el) := x in
  px ← point_x xPos prev el;
  let y := (row el - LINE_BLEED)%Q in
  '(e, x1, y1) ← read_prop prev;
  lst ← read_prop (last lin);
  let fresh := match d_largestLen d !! index with None => true | Some m => (m <? length lin)%nat end in
  Ret (lines ++ [connect InvalidLine e x1 y1 el px y; point InvalidPoint px y], {[index]} ∪ ill,
       mkDrawn (d_lines d) (d_illegal d)
         (if fresh then <[index := li]> (d_largest d) else d_largest d)
         (if fresh then <[index := length lin]> (d_largestLen d) else d_largestLen d)
         (d_errors d ++ [mkError px pi (Index lst) li])).

Definition draw_lin (xPos : gmap Z Q) (pi : nat) (p : jpart) (lin : list linearizationStep) (s : nat * drawn) :
    outcome (nat * drawn) :=
  let '(li, d) := s in
  '(lines, prev) ← for_each (draw_point xPos p) lin ([], None);
  '(lines, ill, d) ← for_each (draw_illegal xPos pi li lin prev) (illegal_next p lin) (lines, ∅, d);
  Ret (S li, mkDrawn (d_lines d ++ [lines]) (d_illegal d ++ [ill]) (d_largest d) (d_largestLen d) (d_errors d)).

Definition draw_partition (xPos : gmap Z Q) (p : jpart) (s : nat * list drawn) : outcome (nat * list drawn) :=
  let '(pi, ds) := s in
  '(_, d) ← for_each (draw_lin xPos pi p) (jp_Lins p) (0%nat, mkDrawn [] [] ∅ ∅ []);
  Ret (S pi, ds ++ [d]).

(** The order of [errorPoints.sort]. *)
Definition left_of (a b : error_point) : bool := match (er_x a ?= er_x b)%Q with Lt => true | _ => false end.

Lemma left_of_true a b : left_of a b = true <-> (er_x a < er_x b)%Q.
Proof. unfold left_of. rewrite Qlt_alt. by destruct (er_x a ?= er_x b)%Q. Qed.

Lemma left_of_false a b : left_of a b = false <-> (er_x b <= er_x a)%Q.
Proof.
  rewrite <- not_true_iff_false, left_of_true. split; [apply Qnot_lt_le|apply Qle_not_lt].
Qed.

#[export] Instance left_of_weak_order : WeakOrder left_of.
Proof.
  split; [intros x y|intros x y z]; rewrite !left_of_false.
  - destruct (Qlt_le_dec (er_x x) (er_x y)); [right; by apply Qlt_le_weak|by left].
  - intros ? ?. by eapply Qle_trans.
Qed.

(** The page: its size, the boxes per partition, and the linearizations. *)
Record page := mkPage {
  pg_width : Q;
  pg_height : Q;
  pg_data : list jpart;
  pg_boxes : list (list rect);
  pg_drawn : list drawn;
  pg_errors : list error_point;
}.

Fixpoint draw_boxes (xPos : gmap Z Q) (els : list event) : outcome (list rect) :=
  match els with
  | [] => Ret []
  | el :: els => r ← draw_box xPos el; rs ← draw_boxes xPos els; Ret (r :: rs)
  end.

Definition render `{!GoSort left_of} (input : list partitionVisualizationData) : outcome page :=
  let '(data, sorted) := prepare (number_parts 0 input) in
  '(xPos, _) ← layout data sorted;
  let n := inject_Z (nClient data) in
  let height := (2 * PADDING + BOX_HEIGHT * n + BOX_SPACE * (n - 1))%Q in
  right ← match last sorted with Some t => read_prop (xPos !! t) | None => Ret 0%Q end;
  let width := (2 * PADDING + XOFF + right)%Q in
  boxes ← for_each (fun p acc => rs ← draw_boxes xPos (jp_History p); Ret (acc ++ [rs])) data [];
  '(_, ds) ← for_each (draw_partition xPos) data (0%nat, []);
  Ret (mkPage width height data boxes ds (go_sort left_of (ds ≫= d_errors))).
End render.
