(* ===== verification/RenderProof.v ===== *)
(** * The layout of the page is correct and the narrowest possible

    The left-to-right scan satisfies the constraints that the comments of the
    script state, and every other layout that satisfies them is at least as
    wide at every timestamp. *)

From Stdlib Require Import QArith Qminmax Lqa.
From S2P Require Import Prelude PorcModel Visualize Render.

#[local] Open Scope Z_scope.

Lemma max_pos_l a b : (a <= max_pos a b)%Q.
Proof. apply Q.le_max_l. Qed.
Lemma max_pos_r a b : (b <= max_pos a b)%Q.
Proof. apply Q.le_max_r. Qed.
Lemma max_pos_lub a b c : (a <= c)%Q -> (b <= c)%Q -> (max_pos a b <= c)%Q.
Proof. apply Q.max_lub. Qed.

Create HintDb pos.
#[export] Hint Resolve max_pos_l max_pos_r max_pos_lub Qle_refl : pos.

Section layout.
Context (width : event -> Q) (events : list event) (lins : list (list nat)) (illegal : nat -> list nat).
Context (times : list Z).

(** ** The constraints *)

(** A layout: the position of each timestamp and of each point. *)
Record feasible (x : Z -> Q) (p : nat -> nat -> Q) : Prop := {
  fe_start : forall t, t ∈ times -> (0 <= x t)%Q;
  fe_gap : forall t t', t ∈ times -> t' ∈ times -> t < t' -> (x t + BOX_GAP <= x t')%Q;
  fe_text : forall el, el ∈ events -> (x (ev_Start el) + width el <= x (ev_End el))%Q;
  fe_point : forall i lin j g el, lins !! i = Some lin -> lin !! j = Some g -> events !! g = Some el ->
    (x (ev_Start el) <= p i j)%Q /\ (p i j <= x (ev_End el))%Q;
  fe_spaced : forall i lin j, lins !! i = Some lin -> (S j < length lin)%nat -> (p i j + EPSILON <= p i (S j))%Q;
  fe_illegal : forall g el i lin, events !! g = Some el -> i ∈ illegal g -> lins !! i = Some lin ->
    (p i (length lin - 1)%nat + EPSILON <= x (ev_End el))%Q;
}.

(** What the data must satisfy: an element starts before it ends, and points
    only have to be placed at ends that come after the starts they need. *)
Record layout_data : Prop := {
  ld_gid : forall g el, events !! g = Some el -> ev_Gid el = g;
  ld_times : forall el, el ∈ events -> ev_Start el ∈ times /\ ev_End el ∈ times /\ ev_Start el < ev_End el;
  ld_lins : forall i lin g, lins !! i = Some lin -> g ∈ lin -> is_Some (events !! g);
  ld_order : forall i lin j k g g' el el', lins !! i = Some lin -> (j <= k)%nat ->
    lin !! j = Some g -> lin !! k = Some g' -> events !! g = Some el -> events !! g' = Some el' ->
    ev_Start el < ev_End el';
  ld_illegal : forall g el i, events !! g = Some el -> i ∈ illegal g ->
    exists lin, lins !! i = Some lin /\ lin <> [] /\
      forall g' el', g' ∈ lin -> events !! g' = Some el' -> ev_Start el' < ev_End el;
}.

Context (Hdata : layout_data).

Definition below (x : Z -> Q) (xPos : gmap Z Q) : Prop := forall t v, xPos !! t = Some v -> (v <= x t)%Q.

(** ** The points of a linearization *)

Inductive placed (xPos : gmap Z Q) (lin : list nat) : list Q -> Prop :=
  | placed_nil : placed xPos lin []
  | placed_snoc ps g el x :
      placed xPos lin ps -> lin !! length ps = Some g -> events !! g = Some el -> xPos !! ev_Start el = Some x ->
      placed xPos lin (ps ++ [match last ps with None => x | Some prev => max_pos x (prev + EPSILON)%Q end]).

Lemma placed_length xPos lin ps : placed xPos lin ps -> (length ps <= length lin)%nat.
Proof.
  induction 1 as [|ps g el x _ IH Hg _ _]; [cbn; lia|]. apply lookup_lt_Some in Hg. rewrite length_app. cbn. lia.
Qed.

Lemma placed_mono xPos xPos' lin ps : xPos ⊆ xPos' -> placed xPos lin ps -> placed xPos' lin ps.
Proof.
  intros Hs. induction 1 as [|ps g el x _ IH Hg He Hx]; [constructor|]. econstructor; try done.
  by eapply lookup_weaken.
Qed.

(** A point is not left of the start of its element. *)
Lemma placed_start xPos lin ps j v :
  placed xPos lin ps -> ps !! j = Some v ->
  exists g el x, lin !! j = Some g /\ events !! g = Some el /\ xPos !! ev_Start el = Some x /\ (x <= v)%Q.
Proof.
  induction 1 as [|ps g el x _ IH Hg He Hx]; [done|]. intros [?|[Hj Hv]]%lookup_app_Some; [by apply IH|].
  apply list_lookup_singleton_Some in Hv as [Hv <-]. assert (j = length ps) as -> by lia.
  exists g, el, x. split_and!; try done. destruct (last ps); auto with pos.
Qed.

Lemma placed_spaced xPos lin ps j v v' :
  placed xPos lin ps -> ps !! j = Some v -> ps !! S j = Some v' -> (v + EPSILON <= v')%Q.
Proof.
  induction 1 as [|ps g el x _ IH Hg He Hx]; [done|]. intros H1 H2.
  apply lookup_app_Some in H2 as [H2|[Hj Hv]].
  - apply IH; [|done]. rewrite lookup_app_l in H1; [done|]. apply lookup_lt_Some in H2. lia.
  - apply list_lookup_singleton_Some in Hv as [Hv <-]. assert (length ps = S j) as Hl by lia.
    rewrite lookup_app_l in H1 by lia. rewrite last_lookup, Hl. cbn. rewrite H1. auto with pos.
Qed.

(** Every other layout has its points at least as far to the right. *)
Lemma placed_below xPos i lin ps x p j v :
  feasible x p -> below x xPos -> lins !! i = Some lin -> placed xPos lin ps -> ps !! j = Some v -> (v <= p i j)%Q.
Proof.
  intros Hf Hb Hi Hp. revert j v. induction Hp as [|ps g el y Hp IH Hg He Hy]; [done|]. intros j v.
  intros [?|[Hj Hv]]%lookup_app_Some; [by apply IH|]. apply list_lookup_singleton_Some in Hv as [Hv <-].
  assert (j = length ps) as -> by lia.
  destruct (fe_point _ _ Hf i lin _ g el Hi Hg He) as [H1 _]. pose proof (Hb _ _ Hy) as H2.
  assert (y <= p i (length ps))%Q as Hyp by lra.
  destruct (last ps) as [prev|] eqn:El; [|done]. apply max_pos_lub; [done|].
  rewrite last_lookup in El. pose proof (lookup_lt_Some _ _ _ El) as Hlt.
  pose proof (IH _ _ El) as Hprev. pose proof (lookup_lt_Some _ _ _ Hg) as Hgl.
  destruct (length ps) as [|m] eqn:Em; [lia|]. cbn in Hprev.
  pose proof (fe_spaced _ _ Hf i lin m Hi ltac:(lia)). lra.
Qed.

Lemma place_ok xPos lin ps k :
  (forall g, g ∈ lin -> is_Some (events !! g)) -> placed xPos lin ps -> (length ps + k <= length lin)%nat ->
  (forall j g el, (length ps <= j < length ps + k)%nat -> lin !! j = Some g -> events !! g = Some el -> is_Some (xPos !! ev_Start el)) ->
  ensures (place events xPos lin ps k) (fun ps' =>
    placed xPos lin ps' /\ ps `prefix_of` ps' /\ length ps' = (length ps + k)%nat).
Proof.
  intros Hev. revert ps. induction k as [|k IH]; intros ps Hp Hl Hx; cbn [place].
  { apply ensures_ret. split_and!; [done..|lia]. }
  destruct (lookup_lt_is_Some_2 lin (length ps)) as [g Hg]; [lia|].
  destruct (Hev g) as [el He]; [by eapply list_elem_of_lookup_2|].
  destruct (Hx (length ps) g el) as [x Hxs]; [lia|done..|].
  rewrite Hg. cbn [read_prop mbind outcome_bind]. rewrite He. cbn [read_prop mbind outcome_bind]. rewrite Hxs. cbn [read_prop mbind outcome_bind].
  eapply ensures_mono; [apply IH|].
  - by econstructor.
  - rewrite length_app. cbn. lia.
  - rewrite length_app. cbn. intros j g' el' Hj. apply Hx. lia.
  - cbn. intros ps' (? & ? & Hlen). split_and!; [done|by etrans; [apply prefix_app_r|]|].
    rewrite Hlen, length_app. cbn. lia.
Qed.

(** ** One element at its end *)

Definition points_ok (xPos : gmap Z Q) (linPos : list (list Q)) : Prop := Forall2 (placed xPos) lins linPos.

Definition grows : relation (list (list Q)) := Forall2 prefix.

#[local] Instance grows_refl : Reflexive grows.
Proof. intros l. induction l; by constructor. Qed.

Lemma grows_trans l1 l2 l3 : grows l1 l2 -> grows l2 l3 -> grows l1 l3.
Proof.
  intros H1. revert l3. induction H1 as [|a b l1 l2 Hab _ IH]; intros l3 H2; [done|].
  inversion H2 as [|? c ? l4 Hbc Hl]; subst. constructor; [by etrans|by apply IH].
Qed.

Lemma grows_lookup l l' i ps : grows l l' -> l !! i = Some ps -> exists ps', l' !! i = Some ps' /\ ps `prefix_of` ps'.
Proof. intros Hg Hi. destruct (Forall2_lookup_l _ _ _ _ _ Hg Hi) as (ps' & ? & ?). eauto. Qed.

(** The point of a linearization at a position is placed left of [v]. *)
Definition fitted (linPos : list (list Q)) (v : Q) (i j : nat) (gap : Q) : Prop :=
  exists ps y, linPos !! i = Some ps /\ ps !! j = Some y /\ (y + gap <= v)%Q.

Lemma fitted_mono l l' v v' i j gap : grows l l' -> (v <= v')%Q -> fitted l v i j gap -> fitted l' v' i j gap.
Proof.
  intros Hg Hv (ps & y & Hi & Hj & Hy). destruct (grows_lookup _ _ _ _ Hg Hi) as (ps' & Hi' & Hpre).
  exists ps', y. split_and!; [done| |lra]. by eapply prefix_lookup_Some.
Qed.

(** A point that can be placed, and that every layout has left of [ts]. *)
Definition item_ok (xPos : gmap Z Q) (ts : Z) (li : nat * Z) : Prop :=
  exists lin, lins !! li.1 = Some lin /\ 0 <= li.2 < Z.of_nat (length lin) /\
    (forall j g el, Z.of_nat j <= li.2 -> lin !! j = Some g -> events !! g = Some el -> is_Some (xPos !! ev_Start el)) /\
    forall x p, feasible x p -> (p li.1 (Z.to_nat li.2) <= x ts)%Q.

(** What one or more points do to the positions and the end. *)
Definition fit_post (xPos : gmap Z Q) (ts : Z) (l : list (list Q)) (v : Q) (s : list (list Q) * Q) : Prop :=
  points_ok xPos s.1 /\ grows l s.1 /\ (v <= s.2)%Q /\
  forall x p, feasible x p -> below x xPos -> (v <= x ts)%Q -> (s.2 <= x ts)%Q.

Lemma fit_point_ok xPos ts li l v :
  points_ok xPos l -> item_ok xPos ts li ->
  ensures (fit_point events lins xPos li (l, v)) (fun s =>
    fit_post xPos ts l v s /\ fitted s.1 s.2 li.1 (Z.to_nat li.2) 0).
Proof.
  destruct li as [i pos]. intros Hl (lin & Hi & Hpos & Hst & Hmin). cbn [fst snd] in *.
  destruct (Forall2_lookup_l _ _ _ _ _ Hl Hi) as (ps & Hps & Hp).
  unfold fit_point. rewrite Hi. cbn [read_prop mbind outcome_bind]. rewrite Hps. cbn [read_prop mbind outcome_bind].
  pose proof (placed_length _ _ _ Hp) as Hlen.
  destruct (place_ok xPos lin ps (Z.to_nat (pos + 1) - length ps)) as (ps' & -> & Hp' & Hpre & Hlen').
  { intros g Hg. by eapply (ld_lins Hdata). }
  { done. }
  { lia. }
  { intros j g el Hj. apply Hst. lia. }
  cbn [mbind outcome_bind].
  destruct (lookup_lt_is_Some_2 ps' (Z.to_nat pos)) as [y Hy]; [lia|].
  assert (idx ps' pos = Ret y) as -> by (apply idx_ret; split; [lia|done]). cbn [mbind outcome_bind].
  pose proof (lookup_lt_Some _ _ _ Hps) as Hil.
  apply ensures_ret. split; [split_and!|].
  - cbn. apply Forall2_same_length_lookup_2; [rewrite length_insert; by apply Forall2_length in Hl|].
    intros k a b Ha Hb. destruct (decide (k = i)) as [->|Hne].
    + rewrite list_lookup_insert_eq in Hb by done. congruence.
    + rewrite list_lookup_insert_ne in Hb by done. by eapply Forall2_lookup_lr.
  - cbn. apply Forall2_same_length_lookup_2; [by rewrite length_insert|].
    intros k a b Ha Hb. destruct (decide (k = i)) as [->|Hne].
    + rewrite list_lookup_insert_eq in Hb by done. congruence.
    + rewrite list_lookup_insert_ne in Hb by done. by simplify_eq.
  - cbn. apply max_pos_l.
  - cbn. intros x p Hf Hb Hv. apply max_pos_lub; [done|].
    pose proof (placed_below _ _ _ _ _ _ _ _ Hf Hb Hi Hp' Hy). pose proof (Hmin _ _ Hf). lra.
  - exists ps', y. cbn. rewrite list_lookup_insert_eq by done. split_and!; [done..|].
    pose proof (max_pos_r v y). lra.
Qed.

Lemma fit_points_ok xPos ts items l v :
  points_ok xPos l -> Forall (item_ok xPos ts) items ->
  ensures (for_each (fit_point events lins xPos) items (l, v)) (fun s =>
    fit_post xPos ts l v s /\ forall li, li ∈ items -> fitted s.1 s.2 li.1 (Z.to_nat li.2) 0).
Proof.
  intros Hl Hit.
  apply (for_each_ensures _ (fun pre s => fit_post xPos ts l v s /\ forall li, li ∈ pre -> fitted s.1 s.2 li.1 (Z.to_nat li.2) 0)).
  - intros pre li post [l1 v1] Hsplit [(H1 & H2 & H3 & H4) H5]. cbn [fst snd] in *.
    rewrite Hsplit in Hit. apply Forall_app in Hit as [_ [Hli _]%Forall_cons].
    eapply ensures_mono; [by apply (fit_point_ok xPos ts)|]. intros [l2 v2] [(G1 & G2 & G3 & G4) G5]. cbn [fst snd] in *.
    split; [split_and!|].
    + done.
    + by eapply grows_trans.
    + cbn [snd]. lra.
    + intros x p Hf Hb Hv. cbn [snd]. eauto.
    + intros li' [Hin|Hin]%elem_of_app; [|apply list_elem_of_singleton in Hin as ->; done].
      by eapply fitted_mono; [| |apply H5].
  - split; [split_and!; try done; apply Qle_refl|]. by intros li ?%not_elem_of_nil.
Qed.

Lemma elem_of_concat_imap {A B} (f : nat -> A -> list B) l y :
  y ∈ concat (imap f l) <-> exists i x, l !! i = Some x /\ y ∈ f i x.
Proof.
  rewrite list_elem_of_In, in_concat. split.
  - intros (zs & Hzs & Hy). apply list_elem_of_In, list_elem_of_lookup in Hzs as [i Hi].
    rewrite list_lookup_imap in Hi. apply fmap_Some in Hi as (x & Hx & ->). exists i, x.
    split; [done|by apply list_elem_of_In].
  - intros (i & x & Hx & Hy). exists (f i x). split; [|by apply list_elem_of_In].
    apply list_elem_of_In, list_elem_of_lookup. exists i. by rewrite list_lookup_imap, Hx.
Qed.

Lemma elem_of_points g i j : (i, j) ∈ points_of lins g <-> exists lin, lins !! i = Some lin /\ lin !! j = Some g.
Proof.
  unfold points_of. rewrite elem_of_concat_imap. split.
  - intros (i' & lin & Hi & Hj). apply elem_of_concat_imap in Hj as (j' & g' & Hj' & Hin).
    case_decide as Hg; [|by apply not_elem_of_nil in Hin]. apply list_elem_of_singleton in Hin. injection Hin as -> ->.
    subst. eauto.
  - intros (lin & Hi & Hj). exists i, lin. split; [done|]. apply elem_of_concat_imap. exists j, g. split; [done|].
    rewrite decide_True by done. by left.
Qed.

(** All points of the linearizations that an element may not continue are
    placed, so the illegal next point fits too. *)
Lemma fit_illegals_ok xPos ts g el l v :
  points_ok xPos l -> events !! g = Some el -> ev_End el = ts ->
  (forall i lin, i ∈ illegal g -> lins !! i = Some lin -> fitted l v i (length lin - 1) 0) ->
  ensures (for_each (fit_illegal l) (illegal g) v) (fun v' => (v <= v')%Q /\
    (forall i lin, i ∈ illegal g -> lins !! i = Some lin -> fitted l v' i (length lin - 1) EPSILON) /\
    forall x p, feasible x p -> below x xPos -> (v <= x ts)%Q -> (v' <= x ts)%Q).
Proof.
  intros Hl Hg Hts Hfit.
  apply (for_each_ensures _ (fun pre v' => (v <= v')%Q /\
    (forall i lin, i ∈ pre -> lins !! i = Some lin -> fitted l v' i (length lin - 1) EPSILON) /\
    forall x p, feasible x p -> below x xPos -> (v <= x ts)%Q -> (v' <= x ts)%Q)).
  - intros pre i post v1 Hsplit (H1 & H2 & H3).
    assert (i ∈ illegal g) as Hi by (rewrite Hsplit; set_solver).
    destruct (ld_illegal Hdata g el i Hg Hi) as (lin & Hlin & Hne & _).
    destruct (Hfit i lin Hi Hlin) as (ps & y & Hps & Hy & _).
    pose proof (Forall2_lookup_lr _ _ _ _ _ _ Hl Hlin Hps) as Hp. pose proof (placed_length _ _ _ Hp) as Hlen.
    pose proof (lookup_lt_Some _ _ _ Hy) as Hlt. destruct lin as [|g0 lin]; [done|]. set (lin0 := g0 :: lin) in *.
    assert (last ps = Some y) as Hlast.
    { rewrite last_lookup. replace (Init.Nat.pred (length ps)) with (length lin0 - 1)%nat; [done|]. unfold lin0 in *. cbn in *. lia. }
    unfold fit_illegal. rewrite Hps. cbn [read_prop mbind outcome_bind]. rewrite Hlast. cbn [read_prop mbind outcome_bind].
    apply ensures_ret. pose proof (max_pos_l v1 (y + EPSILON)). pose proof (max_pos_r v1 (y + EPSILON)). split_and!.
    + lra.
    + intros i' lin' [Hin|Hin]%elem_of_app Hl'.
      * by eapply fitted_mono; [| |by apply H2].
      * apply list_elem_of_singleton in Hin as ->. assert (lin' = lin0) as -> by congruence. exists ps, y. done.
    + intros x p Hf Hb Hv. apply max_pos_lub; [by eapply H3|].
      pose proof (placed_below _ _ _ _ _ _ _ _ Hf Hb Hlin Hp Hy).
      pose proof (fe_illegal _ _ Hf g el i lin0 Hg Hi Hlin). rewrite Hts in *. lra.
  - split_and!; [apply Qle_refl|by intros i lin ?%not_elem_of_nil|done].
Qed.

(** An element fits left of [v]. *)
Definition fits (xPos : gmap Z Q) (l : list (list Q)) (v : Q) (el : event) : Prop :=
  (exists x, xPos !! ev_Start el = Some x /\ (x + width el <= v)%Q) /\
  (forall i j lin, lins !! i = Some lin -> lin !! j = Some (ev_Gid el) -> fitted l v i j 0) /\
  (forall i lin, i ∈ illegal (ev_Gid el) -> lins !! i = Some lin -> fitted l v i (length lin - 1) EPSILON).

Lemma fits_mono xPos xPos' l l' v v' el :
  xPos ⊆ xPos' -> grows l l' -> (v <= v')%Q -> fits xPos l v el -> fits xPos' l' v' el.
Proof.
  intros Hx Hg Hv ((x & Hs & Hw) & H1 & H2). split_and!.
  - exists x. split; [by eapply lookup_weaken|lra].
  - intros i j lin Hi Hj. eapply fitted_mono; [done..|]. by eapply H1.
  - intros i lin Hi Hl. eapply fitted_mono; [done..|]. by eapply H2.
Qed.

Definition box_for (el : event) : box := mkBox (ev_Start el) (ev_End el) (width el) (ev_Gid el).

Lemma fit_box_ok xPos ts g el l v :
  points_ok xPos l -> events !! g = Some el -> ev_End el = ts ->
  (forall el', el' ∈ events -> ev_Start el' < ts -> is_Some (xPos !! ev_Start el')) ->
  ensures (fit_box events lins illegal xPos (box_for el) (l, v)) (fun s =>
    fit_post xPos ts l v s /\ fits xPos s.1 s.2 el).
Proof.
  intros Hl Hg Hts Hxs. pose proof (ld_gid Hdata g el Hg) as Hgid.
  pose proof (list_elem_of_lookup_2 _ _ _ Hg) as Hel. destruct (ld_times Hdata el Hel) as (_ & _ & Hlt).
  destruct (Hxs el Hel) as [x Hx]; [lia|].
  unfold fit_box. cbn [box_for b_start b_width b_gid]. rewrite Hx. cbn [read_prop mbind outcome_bind]. rewrite Hgid.
  set (v0 := max_pos v (x + width el)%Q).
  assert (ensures (for_each (fun index acc => lin ← read_prop (lins !! index); Ret (acc ++ [(index, Z.of_nat (length lin) - 1)])) (illegal g) [])
    (fun lens => forall i pos, (i, pos) ∈ lens <-> i ∈ illegal g /\ exists lin, lins !! i = Some lin /\ pos = Z.of_nat (length lin) - 1))
    as (lens & -> & Hlens).
  { apply (for_each_ensures _ (fun pre lens => forall i pos, (i, pos) ∈ lens <-> i ∈ pre /\ exists lin, lins !! i = Some lin /\ pos = Z.of_nat (length lin) - 1)).
    - intros pre i post acc Hsplit Hacc. assert (i ∈ illegal g) as Hi by (rewrite Hsplit; set_solver).
      destruct (ld_illegal Hdata g el i Hg Hi) as (lin & Hlin & _). rewrite Hlin. cbn [read_prop mbind outcome_bind].
      apply ensures_ret. intros i' pos. rewrite !elem_of_app, !list_elem_of_singleton, Hacc. naive_solver.
    - intros i pos. split; [by intros ?%not_elem_of_nil|]. by intros [?%not_elem_of_nil _]. }
  cbn [mbind outcome_bind].
  assert (Forall (item_ok xPos ts) (((fun y => (y.1, Z.of_nat y.2)) <$> points_of lins g) ++ lens)) as Hitems.
  { apply Forall_app. split; apply Forall_forall.
    - intros li ([i j] & -> & (lin & Hi & Hj)%elem_of_points)%list_elem_of_fmap. exists lin. cbn [fst snd].
      pose proof (lookup_lt_Some _ _ _ Hj). split_and!; [done|lia|lia| |].
      + intros k g' el' Hk Hk' Hg'. apply Hxs; [by eapply list_elem_of_lookup_2|]. rewrite <- Hts.
        eapply (ld_order Hdata i lin k j); [done|lia|done..].
      + intros y p Hf. rewrite Nat2Z.id, <- Hts. by apply (fe_point _ _ Hf i lin j g el).
    - intros [i pos] [Hi (lin & Hlin & ->)]%Hlens. destruct (ld_illegal Hdata g el i Hg Hi) as (lin' & Hlin' & Hne & Hst).
      assert (lin' = lin) as -> by congruence. destruct lin as [|g0 lin]; [done|]. exists (g0 :: lin). cbn [fst snd].
      split_and!; [done|cbn; lia|cbn; lia| |].
      + intros k g' el' Hk Hk' Hg'. apply Hxs; [by eapply list_elem_of_lookup_2|]. rewrite <- Hts.
        eapply Hst; [by eapply list_elem_of_lookup_2|done].
      + intros y p Hf. pose proof (fe_illegal _ _ Hf g el i _ Hg Hi Hlin) as Hil. rewrite Hts in Hil.
        replace (Z.to_nat (Z.of_nat (length (g0 :: lin)) - 1)) with (length (g0 :: lin) - 1)%nat by lia.
        unfold EPSILON in Hil. lra. }
  destruct (fit_points_ok xPos ts _ l v0 Hl Hitems) as ([l1 v1] & -> & (H1 & H2 & H3 & H4) & H5). cbn [fst snd mbind outcome_bind] in *.
  destruct (fit_illegals_ok xPos ts g el l1 v1 H1 Hg Hts) as (v2 & -> & G1 & G2 & G3).
  { intros i lin Hi Hlin.
    assert (fitted l1 v1 i (Z.to_nat (Z.of_nat (length lin) - 1)) 0) as Hfit.
    { apply (H5 (i, Z.of_nat (length lin) - 1)). apply elem_of_app. right. apply Hlens. eauto. }
    by replace (Z.to_nat (Z.of_nat (length lin) - 1)) with (length lin - 1)%nat in Hfit by lia. }
  cbn [mbind outcome_bind]. apply ensures_ret. cbn [fst snd].
  pose proof (max_pos_l v (x + width el)) as M1. pose proof (max_pos_r v (x + width el)) as M2. fold v0 in M1, M2.
  split; [split_and!|split_and!].
  - done.
  - done.
  - cbn. lra.
  - cbn. intros y p Hf Hb Hv. eapply G3; [done..|]. eapply H4; [done..|]. apply max_pos_lub; [done|].
    pose proof (fe_text _ _ Hf el Hel). pose proof (Hb _ _ Hx). rewrite Hts in *. lra.
  - exists x. split; [done|]. lra.
  - rewrite Hgid. intros i j lin Hi Hj. eapply fitted_mono; [reflexivity|exact G1|].
    rewrite <- (Nat2Z.id j). apply (H5 (i, Z.of_nat j)). apply elem_of_app. left.
    apply list_elem_of_fmap. exists (i, j). split; [done|]. apply elem_of_points. eauto.
  - by rewrite Hgid.
Qed.

(** ** The scan *)

Definition by_end_order : relation event := fun a b => ev_End a <= ev_End b.

Lemma fit_boxes_ok xPos ts els l v :
  points_ok xPos l -> (forall el, el ∈ els -> el ∈ events /\ ts <= ev_End el) -> StronglySorted by_end_order els ->
  (forall el', el' ∈ events -> ev_Start el' < ts -> is_Some (xPos !! ev_Start el')) ->
  ensures (fit_boxes events lins illegal xPos ts (box_for <$> els) (l, v)) (fun '(rest, s) =>
    fit_post xPos ts l v s /\ exists els1 els2, els = els1 ++ els2 /\ rest = box_for <$> els2 /\
      (forall el, el ∈ els1 -> ev_End el = ts /\ fits xPos s.1 s.2 el) /\ (forall el, el ∈ els2 -> ts < ev_End el)).
Proof.
  revert l v. induction els as [|el els IH]; intros l v Hl Hin Hs Hx; cbn [fmap list_fmap fit_boxes].
  { apply ensures_ret. split; [split_and!; try done; apply Qle_refl|]. exists [], [].
    split_and!; try done; by intros ? ?%not_elem_of_nil. }
  apply StronglySorted_cons in Hs as [Hall Hs]. destruct (Hin el) as [Hel Hend]; [by left|].
  cbn [box_for b_end]. destruct (Z.leb_spec (ev_End el) ts) as [Hle|Hgt].
  - apply list_elem_of_lookup in Hel as [g Hg]. assert (ev_End el = ts) as Hts by lia.
    destruct (fit_box_ok xPos ts g el l v Hl Hg Hts Hx) as ([l1 v1] & Hbox & (H1 & H2 & H3 & H4) & Hfit).
    change (mkBox _ _ _ _) with (box_for el). rewrite Hbox. cbn [mbind outcome_bind fst snd] in *.
    eapply ensures_mono; [apply IH; try done; intros; apply Hin; by right|].
    intros [rest [l2 v2]] ((G1 & G2 & G3 & G4) & els1 & els2 & -> & -> & K1 & K2). cbn [fst snd] in *.
    split; [split_and!|].
    + done.
    + by eapply grows_trans.
    + cbn. lra.
    + cbn. intros x p Hf Hb Hv. eauto.
    + exists (el :: els1), els2. split_and!; try done. intros el' [->|Hin']%elem_of_cons; [|by apply K1].
      split; [done|]. by eapply fits_mono.
  - apply ensures_ret. split; [split_and!; try done; apply Qle_refl|]. exists [], (el :: els).
    split_and!; try done; [by intros ? ?%not_elem_of_nil|]. intros el' [->|Hin']%elem_of_cons; [done|].
    rewrite Forall_forall in Hall. specialize (Hall el' Hin'). unfold by_end_order in Hall. lia.
Qed.

Record scan_inv (prev : Z) (els : list event) (xPos : gmap Z Q) (l : list (list Q)) : Prop := {
  si_dom : forall t, is_Some (xPos !! t) <-> t ∈ times /\ t <= prev;
  si_points : points_ok xPos l;
  si_sorted : StronglySorted by_end_order els;
  si_rest : forall el, el ∈ els <-> el ∈ events /\ prev < ev_End el;
  si_done : forall el, el ∈ events -> ev_End el <= prev -> exists v, xPos !! ev_End el = Some v /\ fits xPos l v el;
  si_gap : forall t t' v v', xPos !! t = Some v -> xPos !! t' = Some v' -> t < t' -> (v + BOX_GAP <= v')%Q;
  si_min : forall x p, feasible x p -> below x xPos;
  si_pos : forall t v, xPos !! t = Some v -> (0 <= v)%Q;
}.

(** One timestamp: the next after [prev]. *)
Lemma scan_step prev ts els xPos l :
  scan_inv prev els xPos l -> prev ∈ times -> ts ∈ times -> prev < ts -> (forall t, t ∈ times -> t <= prev \/ ts <= t) ->
  exists v0, xPos !! prev = Some v0 /\
  ensures (fit_boxes events lins illegal xPos ts (box_for <$> els) (l, v0 + BOX_GAP)%Q) (fun '(rest, (l', v)) =>
    exists els', rest = box_for <$> els' /\ scan_inv ts els' (<[ts := v]> xPos) l').
Proof.
  intros Hi Hp Hts Hlt Hnext. destruct (proj2 (si_dom _ _ _ _ Hi prev)) as [v0 Hv0]; [split; [done|lia]|].
  exists v0. split; [done|].
  assert (xPos !! ts = None) as Hnew.
  { destruct (xPos !! ts) eqn:E; [|done]. assert (is_Some (xPos !! ts)) as [_ ?]%(si_dom _ _ _ _ Hi) by (by rewrite E). lia. }
  eapply ensures_mono; [apply fit_boxes_ok|].
  - apply Hi.
  - intros el [Hel Hend]%(si_rest _ _ _ _ Hi). split; [done|]. destruct (ld_times Hdata el Hel) as (_ & Hin & _).
    destruct (Hnext _ Hin); lia.
  - apply Hi.
  - intros el Hel Hst. destruct (ld_times Hdata el Hel) as (Hin & _ & _). apply (si_dom _ _ _ _ Hi).
    split; [done|]. destruct (Hnext _ Hin); lia.
  - intros [rest [l' v]] ((H1 & H2 & H3 & H4) & els1 & els2 & Hels & -> & K1 & K2). cbn [fst snd] in *.
    exists els2. split; [done|].
    assert (xPos ⊆ <[ts := v]> xPos) as Hsub by by apply insert_subseteq.
    pose proof (si_sorted _ _ _ _ Hi) as Hs. rewrite Hels in Hs. apply StronglySorted_app in Hs as (_ & _ & Hs).
    assert (forall t y, xPos !! t = Some y -> (y + BOX_GAP <= v)%Q) as Hgap.
    { intros t y Ht. assert (is_Some (xPos !! t)) as [_ Hle]%(si_dom _ _ _ _ Hi) by (by rewrite Ht).
      destruct (decide (t = prev)) as [->|Hne]; [assert (y = v0) as -> by congruence; lra|].
      pose proof (si_gap _ _ _ _ Hi t prev y v0 Ht Hv0 ltac:(lia)) as Hg. unfold BOX_GAP in *. lra. }
    split.
    + intros t. destruct (decide (t = ts)) as [->|Hne].
      * rewrite lookup_insert_eq. split; [done|eauto].
      * rewrite lookup_insert_ne by done. rewrite (si_dom _ _ _ _ Hi t). split; [intros [? ?]; split; [done|lia]|].
        intros [Hin Hle]. split; [done|]. destruct (Hnext _ Hin); lia.
    + eapply Forall2_impl; [exact H1|]. intros. by eapply placed_mono.
    + done.
    + intros el. split.
      * intros Hin. split; [|by apply K2]. apply (si_rest _ _ _ _ Hi). rewrite Hels. apply elem_of_app. by right.
      * intros [Hel Hend]. assert (el ∈ els) as Hin by (apply (si_rest _ _ _ _ Hi); split; [done|lia]).
        rewrite Hels in Hin. apply elem_of_app in Hin as [Hin|]; [|done]. apply K1 in Hin as [? _]. lia.
    + intros el Hel Hend. destruct (decide (ev_End el <= prev)) as [Hle|Hgt].
      * destruct (si_done _ _ _ _ Hi el Hel Hle) as (y & Hy & Hf). exists y. split; [by eapply lookup_weaken|].
        by eapply fits_mono; [| |apply Qle_refl|].
      * assert (el ∈ els) as Hin by (apply (si_rest _ _ _ _ Hi); split; [done|lia]). rewrite Hels in Hin.
        apply elem_of_app in Hin as [Hin|Hin]; [|apply K2 in Hin; lia]. apply K1 in Hin as [-> Hf].
        exists v. rewrite lookup_insert_eq. split; [done|]. eapply fits_mono; [done|reflexivity|apply Qle_refl|done].
    + intros t t' y y' Ht Ht' Hltt. destruct (decide (t' = ts)) as [->|Hne'].
      * rewrite lookup_insert_eq in Ht'. injection Ht' as <-. rewrite lookup_insert_ne in Ht by lia. by eapply Hgap.
      * rewrite lookup_insert_ne in Ht' by done. destruct (decide (t = ts)) as [->|Hne].
        -- assert (is_Some (xPos !! t')) as [_ ?]%(si_dom _ _ _ _ Hi) by (by rewrite Ht'). lia.
        -- rewrite lookup_insert_ne in Ht by done. by eapply (si_gap _ _ _ _ Hi).
    + intros x p Hf t y Ht. pose proof (si_min _ _ _ _ Hi x p Hf) as Hb. destruct (decide (t = ts)) as [->|Hne].
      * rewrite lookup_insert_eq in Ht. injection Ht as <-. apply (H4 x p Hf Hb).
        pose proof (Hb _ _ Hv0). pose proof (fe_gap _ _ Hf prev ts Hp Hts Hlt). unfold BOX_GAP in *. lra.
      * rewrite lookup_insert_ne in Ht by done. by apply Hb.
    + intros t y Ht. destruct (decide (t = ts)) as [->|Hne].
      * rewrite lookup_insert_eq in Ht. injection Ht as <-. pose proof (si_pos _ _ _ _ Hi _ _ Hv0).
        unfold BOX_GAP in *. lra.
      * rewrite lookup_insert_ne in Ht by done. by eapply (si_pos _ _ _ _ Hi).
Qed.

Lemma scan_ok rest prev els xPos l :
  StronglySorted Z.lt (prev :: rest) -> prev ∈ times -> rest ⊆ times -> (forall t, t ∈ times -> t <= prev \/ t ∈ rest) ->
  scan_inv prev els xPos l ->
  ensures (scan events lins illegal prev rest (box_for <$> els) xPos l) (fun '(xPos', l') =>
    exists prev' els', (forall t, t ∈ times -> t <= prev') /\ scan_inv prev' els' xPos' l').
Proof.
  revert prev els xPos l. induction rest as [|ts rest IH]; intros prev els xPos l Hs Hp Hsub Hnext Hi; cbn [scan].
  { apply ensures_ret. exists prev, els. split; [|done]. intros t Ht. destruct (Hnext t Ht) as [?|?%not_elem_of_nil]; done. }
  apply StronglySorted_cons in Hs as [Hall Hs]. apply Forall_cons in Hall as [Hlt _].
  pose proof Hs as [Hts _]%StronglySorted_cons. rewrite Forall_forall in Hts.
  assert (ts ∈ times) as Htin by (apply Hsub; by left).
  destruct (scan_step prev ts els xPos l Hi Hp Htin Hlt) as (v0 & -> & ([rest' [l' v]] & Hfit & els' & -> & Hi')).
  { intros t Ht. destruct (Hnext t Ht) as [?|[->|Hin]%elem_of_cons]; [by left|right; lia|right]. specialize (Hts t Hin). lia. }
  cbn [read_prop mbind outcome_bind]. rewrite Hfit. cbn [mbind outcome_bind].
  apply (IH ts els'); try done.
  - intros t Ht. apply Hsub. by right.
  - intros t Ht. destruct (Hnext t Ht) as [?|[->|Hin]%elem_of_cons]; [left; lia|by left|by right].
Qed.

(** ** The result *)

Definition x_of (xPos : gmap Z Q) (t : Z) : Q := default 0%Q (xPos !! t).
Definition p_of (l : list (list Q)) (i j : nat) : Q := default 0%Q (l !! i ≫= (.!! j)).

(** The result satisfies the constraints, and nothing that does is narrower. *)
Record best_layout (xPos : gmap Z Q) (l : list (list Q)) : Prop := {
  bl_defined : forall t, t ∈ times -> is_Some (xPos !! t);
  bl_points : points_ok xPos l;
  bl_complete : forall i lin, lins !! i = Some lin -> exists ps, l !! i = Some ps /\ length ps = length lin;
  bl_feasible : feasible (x_of xPos) (p_of l);
  bl_least : forall x p, feasible x p -> (forall t, t ∈ times -> (x_of xPos t <= x t)%Q) /\
    forall i lin j, lins !! i = Some lin -> (j < length lin)%nat -> (p_of l i j <= p i j)%Q;
}.

Lemma scan_complete prev els xPos l i lin j :
  scan_inv prev els xPos l -> (forall t, t ∈ times -> t <= prev) -> lins !! i = Some lin -> (j < length lin)%nat ->
  exists ps g el v y, l !! i = Some ps /\ lin !! j = Some g /\ events !! g = Some el /\
    xPos !! ev_End el = Some v /\ ps !! j = Some y /\ (y <= v)%Q.
Proof.
  intros Hi Hall Hlin Hj. destruct (lookup_lt_is_Some_2 _ _ Hj) as [g Hg].
  destruct (ld_lins Hdata i lin g Hlin) as [el Hel]; [by eapply list_elem_of_lookup_2|].
  pose proof (list_elem_of_lookup_2 _ _ _ Hel) as Hin. destruct (ld_times Hdata el Hin) as (_ & Hend & _).
  destruct (si_done _ _ _ _ Hi el Hin (Hall _ Hend)) as (v & Hv & _ & Hfit & _).
  destruct (Hfit i j lin Hlin) as (ps & y & Hps & Hy & Hyv); [by rewrite (ld_gid Hdata g el)|].
  exists ps, g, el, v, y. split_and!; try done. lra.
Qed.

Lemma scan_best prev els xPos l :
  scan_inv prev els xPos l -> (forall t, t ∈ times -> t <= prev) -> best_layout xPos l.
Proof.
  intros Hi Hall.
  assert (forall t v, xPos !! t = Some v -> x_of xPos t = v) as Hx by (intros t v Ht; unfold x_of; by rewrite Ht).
  assert (forall i ps j y, l !! i = Some ps -> ps !! j = Some y -> p_of l i j = y) as Hpo.
  { intros i ps j y H1 H2. unfold p_of. rewrite H1. cbn. by rewrite H2. }
  assert (forall t, t ∈ times -> exists v, xPos !! t = Some v) as Hdef.
  { intros t Ht. destruct (proj2 (si_dom _ _ _ _ Hi t)) as [v Hv]; [split; [done|by apply Hall]|eauto]. }
  split.
  - intros t Ht. destruct (Hdef t Ht) as [v ->]. done.
  - apply Hi.
  - intros i lin Hlin. destruct (Forall2_lookup_l _ _ _ _ _ (si_points _ _ _ _ Hi) Hlin) as (ps & Hps & Hp).
    exists ps. split; [done|]. pose proof (placed_length _ _ _ Hp) as Hle.
    destruct (decide (length lin = 0)%nat) as [|Hne]; [lia|].
    destruct (scan_complete prev els xPos l i lin (length lin - 1) Hi Hall Hlin) as (ps' & g & el & v & y & Hps' & _ & _ & _ & Hy & _); [lia|].
    assert (ps' = ps) as -> by congruence. apply lookup_lt_Some in Hy. lia.
  - split.
    + intros t Ht. destruct (Hdef t Ht) as [v Hv]. rewrite (Hx _ _ Hv). by eapply (si_pos _ _ _ _ Hi).
    + intros t t' Ht Ht' Hlt. destruct (Hdef t Ht) as [v Hv], (Hdef t' Ht') as [v' Hv'].
      rewrite (Hx _ _ Hv), (Hx _ _ Hv'). by eapply (si_gap _ _ _ _ Hi).
    + intros el Hel. destruct (ld_times Hdata el Hel) as (_ & Hend & _).
      destruct (si_done _ _ _ _ Hi el Hel (Hall _ Hend)) as (v & Hv & (y & Hy & Hw) & _).
      by rewrite (Hx _ _ Hv), (Hx _ _ Hy).
    + intros i lin j g el Hlin Hg Hel.
      destruct (scan_complete prev els xPos l i lin j Hi Hall Hlin) as (ps & g' & el' & v & y & Hps & Hg' & Hel' & Hv & Hy & Hle);
        [by eapply lookup_lt_Some|].
      assert (g' = g) as -> by congruence. assert (el' = el) as -> by congruence.
      rewrite (Hpo _ _ _ _ Hps Hy), (Hx _ _ Hv). split; [|done].
      pose proof (Forall2_lookup_lr _ _ _ _ _ _ (si_points _ _ _ _ Hi) Hlin Hps) as Hp.
      destruct (placed_start _ _ _ _ _ Hp Hy) as (g1 & el1 & x1 & Hg1 & Hel1 & Hx1 & Hle1).
      assert (g1 = g) as -> by congruence. assert (el1 = el) as -> by congruence. by rewrite (Hx _ _ Hx1).
    + intros i lin j Hlin Hj.
      destruct (scan_complete prev els xPos l i lin j Hi Hall Hlin) as (ps & _ & _ & _ & y & Hps & _ & _ & _ & Hy & _); [lia|].
      destruct (scan_complete prev els xPos l i lin (S j) Hi Hall Hlin Hj) as (ps' & _ & _ & _ & y' & Hps' & _ & _ & _ & Hy' & _).
      assert (ps' = ps) as -> by congruence. rewrite (Hpo _ _ _ _ Hps Hy), (Hpo _ _ _ _ Hps Hy').
      pose proof (Forall2_lookup_lr _ _ _ _ _ _ (si_points _ _ _ _ Hi) Hlin Hps) as Hp. by eapply placed_spaced.
    + intros g el i lin Hel Hil Hlin. pose proof (list_elem_of_lookup_2 _ _ _ Hel) as Hin.
      destruct (ld_times Hdata el Hin) as (_ & Hend & _).
      destruct (si_done _ _ _ _ Hi el Hin (Hall _ Hend)) as (v & Hv & _ & _ & Hfit).
      destruct (Hfit i lin) as (ps & y & Hps & Hy & Hle); [by rewrite (ld_gid Hdata g el)|done|].
      by rewrite (Hpo _ _ _ _ Hps Hy), (Hx _ _ Hv).
  - intros x p Hf. pose proof (si_min _ _ _ _ Hi x p Hf) as Hb. split.
    + intros t Ht. destruct (Hdef t Ht) as [v Hv]. rewrite (Hx _ _ Hv). by apply Hb.
    + intros i lin j Hlin Hj.
      destruct (scan_complete prev els xPos l i lin j Hi Hall Hlin Hj) as (ps & _ & _ & _ & y & Hps & _ & _ & _ & Hy & _).
      rewrite (Hpo _ _ _ _ Hps Hy). pose proof (Forall2_lookup_lr _ _ _ _ _ _ (si_points _ _ _ _ Hi) Hlin Hps) as Hp.
      by eapply placed_below.
Qed.

(** The whole scan, from the first timestamp. *)
Lemma scan_from_start t0 rest els :
  times = t0 :: rest -> StronglySorted Z.lt times -> els ≡ₚ events -> StronglySorted by_end_order els ->
  ensures (scan events lins illegal t0 rest (box_for <$> els) {[t0 := 0%Q]} (replicate (length lins) []))
    (fun '(xPos, l) => best_layout xPos l).
Proof.
  intros Ht Hs Hp He. assert (forall t, t ∈ times -> t0 <= t) as Hmin.
  { intros t Hin. rewrite Ht in Hs, Hin. apply StronglySorted_cons in Hs as [Hall _]. rewrite Forall_forall in Hall.
    apply elem_of_cons in Hin as [->|Hin]; [lia|]. specialize (Hall t Hin). lia. }
  eapply ensures_mono; [apply (scan_ok rest t0 els)|].
  - by rewrite <- Ht.
  - rewrite Ht. by left.
  - rewrite Ht. intros t Hin. by right.
  - intros t Hin. rewrite Ht in Hin. apply elem_of_cons in Hin as [->|]; [by left|by right].
  - split; try done.
    + intros t. destruct (decide (t = t0)) as [->|Hne].
      * rewrite lookup_singleton_eq. split; [|done]. intros _. split; [rewrite Ht; by left|lia].
      * rewrite lookup_singleton_ne by done. split; [by intros []|]. intros [Hin Hle]. specialize (Hmin t Hin). lia.
    + unfold points_ok. apply Forall2_same_length_lookup_2; [by rewrite length_replicate|].
      intros i lin ps _ [-> _]%lookup_replicate. constructor.
    + intros el. rewrite Hp. split; [|by intros [? _]]. intros Hel. split; [done|].
      destruct (ld_times Hdata el Hel) as (Hin & _ & Hlt). specialize (Hmin _ Hin). lia.
    + intros el Hel Hle. destruct (ld_times Hdata el Hel) as (Hin & _ & Hlt). specialize (Hmin _ Hin). lia.
    + intros t t' v v' [<- <-]%lookup_singleton_Some [<- <-]%lookup_singleton_Some. lia.
    + intros x p Hf t v [<- <-]%lookup_singleton_Some. apply (fe_start _ _ Hf). rewrite Ht. by left.
    + intros t v [_ <-]%lookup_singleton_Some. apply Qle_refl.
  - intros [xPos l] (prev' & els' & Hall & Hi). by eapply scan_best.
Qed.
End layout.
