(* ===== verification/RenderData.v ===== *)
(** * The data of a check can be laid out

    The tweak of the ends makes every operation end strictly after the starts
    that its call or its place in a linearization needs, provided that the
    last timestamp is an end only.  The scan then finds the best layout. *)

From Stdlib Require Import QArith Qminmax Lqa.
From S2P Require Import Prelude PorcModel Visualize Render RenderProof.

#[local] Open Scope Z_scope.

(** ** The data of the page *)

(** What the script needs of the data it is given. *)
Record input_ok (input : list partitionVisualizationData) : Prop := {
  in_timed : forall p el, p ∈ input -> el ∈ History p -> Start el <= End el;
  in_lins : forall p lin id, p ∈ input -> lin ∈ PartialLinearizations p -> id ∈ lin ->
    0 <= Index id < Z.of_nat (length (History p));
  in_nonempty : forall p lin, p ∈ input -> lin ∈ PartialLinearizations p -> lin <> [];
  in_order : forall p lin j k id id' a b, p ∈ input -> lin ∈ PartialLinearizations p -> (j <= k)%nat ->
    lin !! j = Some id -> lin !! k = Some id' ->
    History p !! Z.to_nat (Index id) = Some a -> History p !! Z.to_nat (Index id') = Some b -> Start a <= End b;
  in_closed : forall p lin id k a b, p ∈ input -> lin ∈ PartialLinearizations p -> id ∈ lin -> included lin k = false ->
    History p !! Z.to_nat (Index id) = Some a -> History p !! k = Some b -> Start a <= End b;
  in_last : forall p el, p ∈ input -> el ∈ History p ->
    exists p' el', p' ∈ input /\ el' ∈ History p' /\ Start el < End el';
}.

(** The same of the objects, with the ends before the tweak. *)
Record parts_ok (data : list jpart) : Prop := {
  po_gid : forall g el, events_of data !! g = Some el -> ev_Gid el = g;
  po_even : forall el, el ∈ events_of data -> (2 | ev_Start el) /\ (2 | ev_End el);
  po_timed : forall el, el ∈ events_of data -> ev_Start el <= ev_End el;
  po_lins : forall p lin id, p ∈ data -> lin ∈ jp_Lins p -> id ∈ lin ->
    0 <= Index id < Z.of_nat (length (jp_History p));
  po_nonempty : forall p lin, p ∈ data -> lin ∈ jp_Lins p -> lin <> [];
  po_order : forall p lin j k id id' a b, p ∈ data -> lin ∈ jp_Lins p -> (j <= k)%nat ->
    lin !! j = Some id -> lin !! k = Some id' ->
    jp_History p !! Z.to_nat (Index id) = Some a -> jp_History p !! Z.to_nat (Index id') = Some b -> ev_Start a <= ev_End b;
  po_closed : forall p lin id k a b, p ∈ data -> lin ∈ jp_Lins p -> id ∈ lin -> included lin k = false ->
    jp_History p !! Z.to_nat (Index id) = Some a -> jp_History p !! k = Some b -> ev_Start a <= ev_End b;
  po_last : forall el, el ∈ events_of data -> exists el', el' ∈ events_of data /\ ev_Start el < ev_End el';
}.

Lemma elem_of_events data el : el ∈ events_of data <-> exists p, p ∈ data /\ el ∈ jp_History p.
Proof. unfold events_of. rewrite list_elem_of_bind. naive_solver. Qed.

Lemma number_history_lookup gid h k el :
  number_history gid h !! k = Some el <->
  exists he, h !! k = Some he /\
    el = mkEvent (he_ClientId he) (2 * Start he) (2 * End he) (2 * End he) (Description he) (gid + k).
Proof. unfold number_history. rewrite list_lookup_imap, fmap_Some. naive_solver. Qed.

Lemma length_number_history gid h : length (number_history gid h) = length h.
Proof. unfold number_history. apply length_imap. Qed.

Lemma number_parts_elem gid input jp :
  jp ∈ number_parts gid input ->
  exists p gid', p ∈ input /\ jp = mkJpart (number_history gid' (History p)) (PartialLinearizations p) (Largest p).
Proof.
  revert gid. induction input as [|p input IH]; intros gid; cbn [number_parts]; [by intros ?%not_elem_of_nil|].
  intros [->|Hin]%elem_of_cons; [exists p, gid; split; [by left|done]|].
  destruct (IH _ Hin) as (p' & gid' & ? & ->). exists p', gid'. split; [by right|done].
Qed.

Lemma elem_of_number_parts gid input p :
  p ∈ input -> exists gid', mkJpart (number_history gid' (History p)) (PartialLinearizations p) (Largest p) ∈ number_parts gid input.
Proof.
  revert gid. induction input as [|p' input IH]; intros gid; [by intros ?%not_elem_of_nil|]. cbn [number_parts].
  intros [->|Hin]%elem_of_cons; [exists gid; by left|]. destruct (IH (gid + length (History p'))%nat Hin) as [g ?].
  exists g. by right.
Qed.

Lemma number_parts_gid gid input k el :
  events_of (number_parts gid input) !! k = Some el -> ev_Gid el = (gid + k)%nat.
Proof.
  revert gid k. induction input as [|p input IH]; intros gid k; [done|]. unfold events_of. cbn [number_parts mbind list_bind jp_History].
  intros [Hk|[Hle Hk]]%lookup_app_Some.
  - apply number_history_lookup in Hk as (he & _ & ->). done.
  - rewrite length_number_history in *. apply IH in Hk. lia.
Qed.

Lemma number_parts_ok input : input_ok input -> parts_ok (number_parts 0 input).
Proof.
  intros [H1 H2 H3 H4 H5 H6].
  assert (forall el, el ∈ events_of (number_parts 0 input) -> exists p he, p ∈ input /\ he ∈ History p /\
    ev_Start el = 2 * Start he /\ ev_End el = 2 * End he) as Hel.
  { intros el (jp & (p & gid & Hp & ->)%number_parts_elem & Hin)%elem_of_events.
    apply list_elem_of_lookup in Hin as [k (he & Hk & ->)%number_history_lookup]. exists p, he.
    split_and!; try done. by eapply list_elem_of_lookup_2. }
  split.
  - intros g el Hg. by apply number_parts_gid in Hg.
  - intros el (p & he & _ & _ & -> & ->)%Hel. split; apply Z.divide_factor_l.
  - intros el (p & he & Hp & Hhe & -> & ->)%Hel. specialize (H1 p he Hp Hhe). lia.
  - intros jp lin id (p & gid & Hp & ->)%number_parts_elem. cbn. rewrite length_number_history. by apply H2.
  - intros jp lin (p & gid & Hp & ->)%number_parts_elem. cbn. by apply H3.
  - intros jp lin j k id id' a b (p & gid & Hp & ->)%number_parts_elem. cbn.
    intros Hl Hjk Hj Hk (ha & Ha & ->)%number_history_lookup (hb & Hb & ->)%number_history_lookup. cbn.
    specialize (H4 p lin j k id id' ha hb Hp Hl Hjk Hj Hk Ha Hb). lia.
  - intros jp lin id k a b (p & gid & Hp & ->)%number_parts_elem. cbn.
    intros Hl Hid Hk (ha & Ha & ->)%number_history_lookup (hb & Hb & ->)%number_history_lookup. cbn.
    specialize (H5 p lin id k ha hb Hp Hl Hid Hk Ha Hb). lia.
  - intros el (p & he & Hp & Hhe & -> & _)%Hel. destruct (H6 p he Hp Hhe) as (p' & he' & Hp' & Hhe' & Hlt).
    destruct (elem_of_number_parts 0 input p' Hp') as [gid Hin].
    apply list_elem_of_lookup in Hhe' as [k Hk].
    exists (mkEvent (he_ClientId he') (2 * Start he') (2 * End he') (2 * End he') (Description he') (gid + k)).
    split; [|cbn; lia]. apply elem_of_events. eexists. split; [exact Hin|]. cbn.
    eapply list_elem_of_lookup_2, number_history_lookup. eauto.
Qed.

(** ** Timestamps *)

Lemma elem_of_sort_times (s : gset Z) t : t ∈ sort_times s <-> t ∈ s.
Proof. unfold sort_times. by rewrite merge_sort_Permutation, elem_of_elements. Qed.

Lemma sort_times_sorted (s : gset Z) : StronglySorted Z.lt (sort_times s).
Proof.
  unfold sort_times. assert (NoDup (merge_sort Z.le (elements s))) as Hnd
    by (rewrite merge_sort_Permutation; apply NoDup_elements).
  assert (StronglySorted Z.le (merge_sort Z.le (elements s))) as Hs by (apply StronglySorted_merge_sort; apply _).
  induction Hs as [|t l _ IH Hall]; [constructor|]. apply NoDup_cons in Hnd as [Hni Hnd].
  constructor; [by apply IH|]. rewrite Forall_forall in *. intros t' Ht'. specialize (Hall t' Ht').
  assert (t <> t') by (by intros ->). lia.
Qed.

Lemma next_ts_after l t t' :
  StronglySorted Z.lt l -> t ∈ l -> t' ∈ l -> t < t' ->
  exists next, next_ts l !! t = Some next /\ t < next /\ next ∈ l /\ forall u, u ∈ l -> t < u -> next <= u.
Proof.
  unfold next_ts. induction l as [|a l IH]; intros Hs Ht Ht' Hlt; [by apply not_elem_of_nil in Ht|].
  apply StronglySorted_cons in Hs as [Hall Hs]. rewrite Forall_forall in Hall. cbn [tail].
  destruct l as [|b l].
  { apply list_elem_of_singleton in Ht, Ht'. lia. }
  cbn [zip_with list_to_map foldr].
  apply elem_of_cons in Ht as [->|Ht].
  - exists b. cbn. rewrite lookup_insert_eq. pose proof (Hall b ltac:(by left)). split_and!; try done; [right; by left|].
    intros u [->|[->|Hu]%elem_of_cons]%elem_of_cons Hlu; [lia..|].
    apply StronglySorted_cons in Hs as [Hb _]. rewrite Forall_forall in Hb. specialize (Hb u Hu). lia.
  - pose proof (Hall t Ht) as Hat. apply elem_of_cons in Ht' as [->|Ht']; [lia|].
    destruct (IH Hs Ht Ht' Hlt) as (next & Hn & H1 & H2 & H3). exists next. cbn in *. rewrite lookup_insert_ne by lia.
    split_and!; try done; [by right|]. intros u [->|Hu]%elem_of_cons; [lia|auto].
Qed.

(** ** After the tweak *)

Lemma events_map f ps :
  events_of ((fun p => mkJpart (f <$> jp_History p) (jp_Lins p) (jp_Largest p)) <$> ps) = f <$> events_of ps.
Proof.
  unfold events_of. induction ps as [|p ps IH]; [done|]. cbn [fmap list_fmap mbind list_bind jp_History].
  rewrite fmap_app. f_equal. apply IH.
Qed.

Section prepared.
Context (data0 : list jpart) (Hok : parts_ok data0).

Definition starts : gset Z := list_to_set (ev_Start <$> events_of data0).
Definition stamps : gset Z := starts ∪ list_to_set (ev_End <$> events_of data0).
Definition tw : event -> event := tweak starts (next_ts (sort_times stamps)).
Definition tw_part (p : jpart) : jpart := mkJpart (tw <$> jp_History p) (jp_Lins p) (jp_Largest p).
Definition data : list jpart := tw_part <$> data0.
Definition times : list Z := sort_times (stamps ∪ list_to_set (ev_End <$> events_of data)).

Lemma prepare_eq : prepare data0 = (data, times).
Proof. done. Qed.

Lemma events_data : events_of data = tw <$> events_of data0.
Proof. apply (events_map tw). Qed.

Lemma tw_same el : ev_Start (tw el) = ev_Start el /\ ev_Gid (tw el) = ev_Gid el /\
  ev_ClientId (tw el) = ev_ClientId el /\ ev_Description (tw el) = ev_Description el.
Proof. unfold tw, tweak. cbn zeta. case_decide; [|done]. by destruct (next_ts _ !! _). Qed.

Lemma starts_elem el : el ∈ events_of data0 -> ev_Start el ∈ starts.
Proof. intros Hel. unfold starts. apply elem_of_list_to_set. by apply list_elem_of_fmap_2. Qed.

Lemma stamps_elem el : el ∈ events_of data0 -> ev_Start el ∈ stamps /\ ev_End el ∈ stamps.
Proof.
  intros Hel. unfold stamps. split; apply elem_of_union; [left; by apply starts_elem|right].
  apply elem_of_list_to_set. by apply list_elem_of_fmap_2.
Qed.

Lemma stamps_even t : t ∈ stamps -> (2 | t).
Proof.
  unfold stamps, starts. rewrite elem_of_union, !elem_of_list_to_set, !list_elem_of_fmap.
  intros [(el & -> & Hel)|(el & -> & Hel)]; by apply (po_even _ Hok).
Qed.

(** An end moves to the right of the starts up to it, and not past a later
    timestamp. *)
Lemma tw_end el : el ∈ events_of data0 ->
  (forall s, s ∈ starts -> s <= ev_End el -> s < ev_End (tw el)) /\
  (forall t, t ∈ stamps -> ev_End el < t -> ev_End (tw el) < t).
Proof.
  intros Hel. destruct (stamps_elem el Hel) as [_ Hend]. unfold tw, tweak. case_decide as Hst.
  - assert (exists el', el' ∈ events_of data0 /\ ev_Start el' = ev_End el) as (el' & Hel' & Heq).
    { unfold starts in Hst. apply elem_of_list_to_set, list_elem_of_fmap in Hst as (? & ? & ?). eauto. }
    destruct (po_last _ Hok el' Hel') as (el2 & Hel2 & Hlt). destruct (stamps_elem el2 Hel2) as [_ Hend2].
    destruct (next_ts_after (sort_times stamps) (ev_End el) (ev_End el2)) as (next & -> & Hn & Hnin & Hnext);
      [apply sort_times_sorted|by apply elem_of_sort_times..|lia|]. cbn.
    apply elem_of_sort_times in Hnin. destruct (stamps_even _ Hend) as [a Ha], (stamps_even _ Hnin) as [b Hb].
    assert (ev_End el < (ev_End el + next) / 2 < next) as Hm.
    { rewrite Ha, Hb in *. replace (a * 2 + b * 2) with ((a + b) * 2) by lia. rewrite Z.div_mul by done. lia. }
    split; [intros; lia|]. intros t Ht Hlt'. specialize (Hnext t ltac:(by apply elem_of_sort_times) Hlt'). lia.
  - split; [|done]. intros s Hs Hle. assert (s <> ev_End el) by (by intros ->). lia.
Qed.

Lemma data_gid g el : events_of data !! g = Some el -> ev_Gid el = g.
Proof.
  rewrite events_data. intros (el0 & -> & Hg)%list_lookup_fmap_Some. destruct (tw_same el0) as (_ & -> & _).
  by apply (po_gid _ Hok).
Qed.

Lemma data_times el : el ∈ events_of data -> ev_Start el ∈ times /\ ev_End el ∈ times /\ ev_Start el < ev_End el.
Proof.
  intros Hin. assert (ev_End el ∈ times) as Hend.
  { unfold times. apply elem_of_sort_times, elem_of_union. right. apply elem_of_list_to_set. by apply list_elem_of_fmap_2. }
  rewrite events_data in Hin. apply list_elem_of_fmap in Hin as (el0 & -> & Hin).
  destruct (tw_same el0) as (Hs & _). split_and!; [|done|].
  - rewrite Hs. unfold times. apply elem_of_sort_times, elem_of_union. left. by apply stamps_elem.
  - rewrite Hs. apply tw_end; [done|by apply starts_elem|by apply (po_timed _ Hok)].
Qed.

(** The elements of a partition of the prepared data. *)
Lemma data_part p : p ∈ data -> exists p0, p0 ∈ data0 /\ p = tw_part p0.
Proof. unfold data. intros (p0 & -> & ?)%list_elem_of_fmap. eauto. Qed.

Lemma part_lookup p0 k el : p0 ∈ data0 -> jp_History (tw_part p0) !! k = Some el ->
  exists el0, jp_History p0 !! k = Some el0 /\ el0 ∈ events_of data0 /\ el = tw el0.
Proof.
  cbn. intros Hp (el0 & -> & Hk)%list_lookup_fmap_Some. exists el0. split_and!; try done.
  apply elem_of_events. exists p0. split; [done|by eapply list_elem_of_lookup_2].
Qed.

Lemma part_before a0 b0 : a0 ∈ events_of data0 -> b0 ∈ events_of data0 ->
  ev_Start a0 <= ev_End b0 -> ev_Start (tw a0) < ev_End (tw b0).
Proof.
  intros Ha Hb Hle. destruct (tw_same a0) as [-> _]. apply tw_end; [done|by apply starts_elem|done].
Qed.

(** An element of a partition is the event with its number. *)
Lemma part_event p k el : p ∈ data -> jp_History p !! k = Some el -> events_of data !! ev_Gid el = Some el.
Proof.
  intros Hp Hk. assert (el ∈ events_of data) as Hin.
  { apply elem_of_events. exists p. split; [done|by eapply list_elem_of_lookup_2]. }
  apply list_elem_of_lookup in Hin as [g Hg]. by rewrite (data_gid _ _ Hg).
Qed.

(** ** The linearizations *)

Definition globalized (l : jpart * list linearizationStep) (gs : list nat) : Prop :=
  Forall2 (fun id g => exists el, jp_History l.1 !! Z.to_nat (Index id) = Some el /\ ev_Gid el = g) l.2 gs.

Lemma globalize_ok p lin :
  (forall id, id ∈ lin -> 0 <= Index id < Z.of_nat (length (jp_History p))) ->
  ensures (globalize p lin) (globalized (p, lin)).
Proof.
  intros Hin. induction lin as [|id lin IH]; cbn [globalize]; [apply ensures_ret; constructor|].
  pose proof (Hin id ltac:(by left)) as Hid.
  destruct (lookup_lt_is_Some_2 (jp_History p) (Z.to_nat (Index id))) as [el Hel]; [lia|].
  rewrite (proj2 (idx_ret _ _ el)) by (split; [lia|done]). cbn [mbind outcome_bind].
  eapply ensures_bind; [apply IH; intros; apply Hin; by right|]. intros gs Hgs. apply ensures_ret. constructor; eauto.
Qed.

Lemma globalize_all_ok ls :
  (forall p lin id, (p, lin) ∈ ls -> id ∈ lin -> 0 <= Index id < Z.of_nat (length (jp_History p))) ->
  ensures (globalize_all ls) (Forall2 globalized ls).
Proof.
  intros Hin. induction ls as [|[p lin] ls IH]; cbn [globalize_all]; [apply ensures_ret; constructor|].
  eapply ensures_bind; [apply (globalize_ok p lin); intros id Hid; eapply Hin; [by left|done]|]. intros g Hg.
  eapply ensures_bind; [apply IH; intros p' lin' id H1; apply Hin; by right|]. intros gs Hgs. apply ensures_ret. by constructor.
Qed.

Lemma elem_of_all_lins (d : list jpart) p lin : (p, lin) ∈ all_lins d <-> p ∈ d /\ lin ∈ jp_Lins p.
Proof.
  unfold all_lins. rewrite list_elem_of_bind. setoid_rewrite list_elem_of_fmap. naive_solver.
Qed.

Lemma included_true lin k : included lin k = true <-> exists id, id ∈ lin /\ Index id = Z.of_nat k.
Proof. unfold included. rewrite bool_decide_eq_true, list_elem_of_fmap. naive_solver. Qed.

Lemma elem_of_excluded p lin k el : (k, el) ∈ excluded p lin <-> jp_History p !! k = Some el /\ included lin k = false.
Proof.
  unfold excluded. rewrite list_elem_of_filter. cbn [fst]. split.
  - intros [Hi Hin]. split; [|done]. apply list_elem_of_lookup in Hin as [i Hi']. rewrite list_lookup_imap in Hi'.
    apply fmap_Some in Hi' as (x & Hx & [= -> ->]). done.
  - intros [Hk Hi]. split; [done|]. apply list_elem_of_lookup. exists k. by rewrite list_lookup_imap, Hk.
Qed.

Lemma illegal_excluded p lin k el : (k, el) ∈ illegal_next p lin -> jp_History p !! k = Some el /\ included lin k = false.
Proof. unfold illegal_next. intros [_ Hin]%list_elem_of_filter. by apply elem_of_excluded. Qed.

Lemma elem_of_illegal ls g i : i ∈ illegal_of ls g <->
  exists p lin k el, ls !! i = Some (p, lin) /\ (k, el) ∈ illegal_next p lin /\ ev_Gid el = g.
Proof.
  unfold illegal_of. rewrite elem_of_concat_imap. split.
  - intros (i' & [p lin] & Hi & Hin). cbn [fst snd] in Hin. case_decide as Hg; [|by apply not_elem_of_nil in Hin].
    apply list_elem_of_singleton in Hin as ->. apply list_elem_of_fmap in Hg as ([k el] & -> & Hg).
    exists p, lin, k, el. done.
  - intros (p & lin & k & el & Hi & Hin & Hg). exists i, (p, lin). split; [done|]. cbn [fst snd].
    rewrite decide_True; [by left|]. apply list_elem_of_fmap. by exists (k, el).
Qed.

(** A number in a linearization is that of an element of the partition. *)
Lemma globalized_lookup p lin gs j g :
  p ∈ data -> globalized (p, lin) gs -> gs !! j = Some g ->
  exists id el, lin !! j = Some id /\ jp_History p !! Z.to_nat (Index id) = Some el /\ events_of data !! g = Some el.
Proof.
  intros Hp Hg Hj. destruct (Forall2_lookup_r _ _ _ _ _ Hg Hj) as (id & Hid & el & Hel & <-). cbn [fst] in Hel.
  exists id, el. split_and!; try done. by eapply part_event.
Qed.

(** The prepared data satisfies what the scan needs. *)
Lemma data_layout lins :
  Forall2 globalized (all_lins data) lins -> layout_data (events_of data) lins (illegal_of (all_lins data)) times.
Proof.
  intros Hg. split.
  - apply data_gid.
  - apply data_times.
  - intros i gs g Hi [j Hj]%list_elem_of_lookup.
    destruct (Forall2_lookup_r _ _ _ _ _ Hg Hi) as ([p lin] & Hpl & Hgl).
    apply list_elem_of_lookup_2, elem_of_all_lins in Hpl as [Hp _].
    destruct (globalized_lookup p lin gs j g Hp Hgl Hj) as (_ & el & _ & _ & ->). done.
  - intros i gs j k g g' el el' Hi Hjk Hj Hk He He'.
    destruct (Forall2_lookup_r _ _ _ _ _ Hg Hi) as ([p lin] & Hpl & Hgl).
    apply list_elem_of_lookup_2, elem_of_all_lins in Hpl as [Hp Hlin].
    destruct (globalized_lookup p lin gs j g Hp Hgl Hj) as (id & a & Hid & Ha & Ha').
    destruct (globalized_lookup p lin gs k g' Hp Hgl Hk) as (id' & b & Hid' & Hb & Hb').
    assert (a = el) as -> by congruence. assert (b = el') as -> by congruence.
    destruct (data_part p Hp) as (p0 & Hp0 & ->).
    destruct (part_lookup p0 _ _ Hp0 Ha) as (a0 & Ha0 & Hin & ->), (part_lookup p0 _ _ Hp0 Hb) as (b0 & Hb0 & Hin' & ->).
    apply part_before; [done..|]. by eapply (po_order _ Hok p0 lin j k id id').
  - intros g el i He (p & lin & k & el' & Hi & Hil & Hgid)%elem_of_illegal.
    destruct (Forall2_lookup_l _ _ _ _ _ Hg Hi) as (gs & Hgs & Hgl). exists gs.
    apply list_elem_of_lookup_2, elem_of_all_lins in Hi as [Hp Hlin].
    apply illegal_excluded in Hil as [Hk Hnot].
    assert (el' = el) as -> by (pose proof (part_event p k el' Hp Hk); congruence).
    destruct (data_part p Hp) as (p0 & Hp0 & ->). split_and!; [done| |].
    + intros ->. apply Forall2_nil_inv_r in Hgl. by apply (po_nonempty _ Hok p0 lin Hp0).
    + intros g' el' [j Hj]%list_elem_of_lookup He'.
      destruct (globalized_lookup _ lin gs j g' Hp Hgl Hj) as (id & a & Hid & Ha & Ha').
      assert (a = el') as -> by congruence.
      destruct (part_lookup p0 _ _ Hp0 Ha) as (a0 & Ha0 & Hin & ->), (part_lookup p0 _ _ Hp0 Hk) as (b0 & Hb0 & Hin' & ->).
      apply part_before; [done..|]. eapply (po_closed _ Hok p0 lin id k); try done. by eapply list_elem_of_lookup_2.
Qed.

(** ** The layout *)

Section widths.
Context (bbox_width : string -> Q) `{!GoSort ends_before}.

Definition text_width (el : event) : Q := (bbox_width (ev_Description el) + 2 * BOX_TEXT_PADDING)%Q.

Lemma by_end_sorted (d : list jpart) :
  exists els, by_end bbox_width d = box_for text_width <$> els /\ els ≡ₚ events_of d /\ StronglySorted by_end_order els.
Proof.
  unfold by_end. change (box_of bbox_width <$> events_of d) with (box_for text_width <$> events_of d).
  pose proof (go_sort_perm ends_before (box_for text_width <$> events_of d)) as Hp.
  apply Permutation_map_inv in Hp as (els & Heq & Hp).
  exists els. split_and!; [exact Heq|by symmetry|].
  pose proof (go_sort_sorted ends_before (box_for text_width <$> events_of d)) as Hs. rewrite Heq in Hs.
  clear Heq Hp. induction els as [|el els IH]; [constructor|]. cbn in Hs.
  apply StronglySorted_cons in Hs as [Hall Hs]. constructor; [by apply IH|].
  apply Forall_forall. intros el' Hel'. pose proof (proj1 (Forall_forall _ _) Hall (box_for text_width el')) as Hb.
  unfold ends_before, by_end_order in *. cbn in Hb. rewrite Z.ltb_ge in Hb. apply Hb.
  by apply (list_elem_of_fmap_2 (box_for text_width)).
Qed.

(** The best layout of the page. *)
Definition page_layout (lins : list (list nat)) (xPos : gmap Z Q) (l : list (list Q)) : Prop :=
  best_layout text_width (events_of data) lins (illegal_of (all_lins data)) times xPos l.

Lemma layout_ok :
  events_of data0 <> [] ->
  ensures (layout bbox_width data times) (fun '(xPos, l) =>
    exists lins, globalize_all (all_lins data) = Ret lins /\ Forall2 globalized (all_lins data) lins /\ page_layout lins xPos l).
Proof.
  intros Hne. unfold layout. destruct (globalize_all_ok (all_lins data)) as (lins & Hgl & Hl).
  - intros p lin id [Hp Hlin]%elem_of_all_lins Hid. destruct (data_part p Hp) as (p0 & Hp0 & ->). cbn in *.
    rewrite length_fmap. by eapply (po_lins _ Hok).
  - rewrite Hgl. cbn [mbind outcome_bind].
    destruct (by_end_sorted data) as (els & -> & Hperm & Hs).
    destruct times as [|t0 rest] eqn:Ht.
    { exfalso. destruct (events_of data0) as [|el els0] eqn:E; [done|].
      destruct (data_times (tw el)) as [Hin _]; [rewrite events_data, E; by left|]. rewrite Ht in Hin.
      by apply not_elem_of_nil in Hin. }
    eapply ensures_mono; [apply (scan_from_start text_width _ _ _ times)|].
    + by apply data_layout.
    + done.
    + apply sort_times_sorted.
    + done.
    + done.
    + intros [xPos l] Hb. by exists lins.
Qed.
End widths.
End prepared.
