(* ===== verification/RenderDraw.v ===== *)
(** * The drawing agrees with the layout

    The points of the linearizations are computed a second time while they
    are drawn.  They come out where the layout has put them, so they lie in
    the boxes of their elements. *)

From Stdlib Require Import QArith Qminmax Lqa.
From S2P Require Import Prelude PorcModel Visualize Render RenderProof RenderData.

#[local] Open Scope Z_scope.

(** The positions of the points of one kind among the lines of a
    linearization. *)
Definition xs_of (c : line_class) (lines : list line) : list Q := l_x1 <$> filter (fun l => l_class l = c) lines.

Definition shift (y : Q) : Q := (PADDING + XOFF + y)%Q.

Lemma shift_max a b c : (a == shift b)%Q -> (max_pos (shift c) (a + EPSILON) == shift (max_pos c (b + EPSILON)))%Q.
Proof.
  intros Ha. unfold max_pos. destruct (Qlt_le_dec c (b + EPSILON)) as [Hlt|Hle].
  - pose proof (Q.max_r c (b + EPSILON)) as H1. pose proof (Q.max_r (shift c) (a + EPSILON)) as H2.
    unfold shift, EPSILON in *. lra.
  - pose proof (Q.max_l c (b + EPSILON)) as H1. pose proof (Q.max_l (shift c) (a + EPSILON)) as H2.
    unfold shift, EPSILON in *. lra.
Qed.

(** ** What the drawing needs of the layout *)

(** The point after [ps] of an element that starts at [x]. *)
Definition next_point (x : Q) (prev : option Q) : Q :=
  match prev with None => x | Some y => max_pos x (y + EPSILON)%Q end.

Record lin_placed (xPos : gmap Z Q) (p : jpart) (lin : list linearizationStep) (ps : list Q) : Prop := {
  lp_length : length ps = length lin;
  lp_point : forall j v, ps !! j = Some v -> exists id el x e,
    lin !! j = Some id /\ 0 <= Index id /\ jp_History p !! Z.to_nat (Index id) = Some el /\
    xPos !! ev_Start el = Some x /\ xPos !! ev_End el = Some e /\
    v = next_point x (last (take j ps)) /\ (x <= v <= e)%Q;
  lp_spaced : forall j v v', ps !! j = Some v -> ps !! S j = Some v' -> (v + EPSILON <= v')%Q;
  lp_illegal : forall k el, (k, el) ∈ illegal_next p lin -> exists x e v,
    xPos !! ev_Start el = Some x /\ xPos !! ev_End el = Some e /\ (x <= e)%Q /\ last ps = Some v /\ (v + EPSILON <= e)%Q;
}.

Section placed.
Context (width : event -> Q) (events : list event) (lins : list (list nat)) (illegal : nat -> list nat) (times : list Z).

Lemma placed_step xPos lin ps j v :
  placed events xPos lin ps -> ps !! j = Some v ->
  exists g el x, lin !! j = Some g /\ events !! g = Some el /\ xPos !! ev_Start el = Some x /\
    v = next_point x (last (take j ps)).
Proof.
  induction 1 as [|ps g el x _ IH Hg He Hx]; [done|]. intros [Hj|[Hj Hv]]%lookup_app_Some.
  - destruct (IH Hj) as (g' & el' & x' & ? & ? & ? & Hv). exists g', el', x'. split_and!; try done.
    rewrite take_app_le; [done|]. apply lookup_lt_Some in Hj. lia.
  - apply list_lookup_singleton_Some in Hv as [Hv <-]. assert (j = length ps) as -> by lia.
    exists g, el, x. split_and!; try done. by rewrite take_app_length.
Qed.
End placed.

Section laid.
Context (data0 : list jpart) (Hok : parts_ok data0).
Context (bbox_width : string -> Q).

Abbreviation data := (data data0).
Abbreviation times := (times data0).

(** What the page shows of the layout. *)
Record laid_out (xPos : gmap Z Q) : Prop := {
  lo_defined : forall t, t ∈ times -> exists x, xPos !! t = Some x /\ (0 <= x)%Q;
  lo_gap : forall t t' x x', t ∈ times -> t' ∈ times -> t < t' -> xPos !! t = Some x -> xPos !! t' = Some x' ->
    (x + BOX_GAP <= x')%Q;
  lo_text : forall el x e, el ∈ events_of data -> xPos !! ev_Start el = Some x -> xPos !! ev_End el = Some e ->
    (x + text_width bbox_width el <= e)%Q;
  lo_lins : forall p lin, p ∈ data -> lin ∈ jp_Lins p -> exists ps, lin_placed xPos p lin ps;
}.

Lemma x_of_some (xPos : gmap Z Q) t x : xPos !! t = Some x -> x_of xPos t = x.
Proof. unfold x_of. by intros ->. Qed.

Lemma p_of_some l i ps j y : l !! i = Some ps -> ps !! j = Some y -> p_of l i j = y.
Proof. unfold p_of. intros ->. cbn. by intros ->. Qed.

Lemma lin_is_placed lins xPos l p lin :
  Forall2 globalized (all_lins data) lins -> page_layout data0 bbox_width lins xPos l ->
  p ∈ data -> lin ∈ jp_Lins p -> exists ps, lin_placed xPos p lin ps.
Proof.
  intros Hg Hb Hp Hlin.
  assert ((p, lin) ∈ all_lins data) as [i Hi]%list_elem_of_lookup by (by apply elem_of_all_lins).
  destruct (Forall2_lookup_l _ _ _ _ _ Hg Hi) as (gs & Hgs & Hgl).
  destruct (bl_complete _ _ _ _ _ _ _ Hb i gs Hgs) as (ps & Hps & Hlen).
  pose proof (Forall2_lookup_lr _ _ _ _ _ _ (bl_points _ _ _ _ _ _ _ Hb) Hgs Hps) as Hpl.
  pose proof (bl_feasible _ _ _ _ _ _ _ Hb) as Hf. pose proof (Forall2_length _ _ _ Hgl) as Hlg. cbn in Hlg.
  destruct (data_part _ p Hp) as (p0 & Hp0 & ->).
  assert (forall el, el ∈ events_of data -> exists x e, xPos !! ev_Start el = Some x /\ xPos !! ev_End el = Some e) as Hx.
  { intros el (H1 & H2 & _)%(data_times _ Hok).
    destruct (bl_defined _ _ _ _ _ _ _ Hb _ H1) as [x ?], (bl_defined _ _ _ _ _ _ _ Hb _ H2) as [e ?]. eauto. }
  exists ps. split.
  - congruence.
  - intros j v Hj. destruct (placed_step _ _ _ _ _ _ Hpl Hj) as (g & el & x & Hgj & Hel & Hxs & Hv).
    destruct (globalized_lookup _ Hok _ lin gs j g Hp Hgl Hgj) as (id & el' & Hid & Hel' & He').
    assert (el' = el) as -> by congruence. destruct (Hx el) as (x' & e & Hx' & He); [by eapply list_elem_of_lookup_2|].
    exists id, el, x, e. split_and!; try done.
    + apply (po_lins _ Hok p0 lin id Hp0 Hlin). by eapply list_elem_of_lookup_2.
    + destruct (fe_point _ _ _ _ _ _ _ Hf i gs j g el Hgs Hgj Hel) as [H1 H2].
      by rewrite (x_of_some _ _ _ Hxs), (p_of_some _ _ _ _ _ Hps Hj) in H1.
    + destruct (fe_point _ _ _ _ _ _ _ Hf i gs j g el Hgs Hgj Hel) as [H1 H2].
      by rewrite (x_of_some _ _ _ He), (p_of_some _ _ _ _ _ Hps Hj) in H2.
  - intros j v v' Hj Hj'. by eapply placed_spaced.
  - intros k el Hil. pose proof (illegal_excluded _ _ _ _ Hil) as [Hk _].
    pose proof (part_event _ Hok _ k el Hp Hk) as Hev.
    destruct (Hx el) as (x & e & Hxs & He); [by eapply list_elem_of_lookup_2|].
    assert (lin <> []) as Hne by (by apply (po_nonempty _ Hok p0)).
    destruct (last ps) as [v|] eqn:El.
    2: { apply last_None in El as ->. destruct lin; [done|]. cbn in *. lia. }
    exists x, e, v. split_and!; try done.
    + pose proof (data_times _ Hok el ltac:(by eapply list_elem_of_lookup_2)) as (H1 & H2 & Hlt).
      pose proof (fe_gap _ _ _ _ _ _ _ Hf _ _ H1 H2 Hlt) as Hgap.
      rewrite (x_of_some _ _ _ Hxs), (x_of_some _ _ _ He) in Hgap. unfold BOX_GAP in Hgap. lra.
    + assert (i ∈ illegal_of (all_lins data) (ev_Gid el)) as Hig by (apply elem_of_illegal; eauto 10).
      pose proof (fe_illegal _ _ _ _ _ _ _ Hf _ el i gs Hev Hig Hgs) as Hill.
      rewrite last_lookup in El. rewrite Hlen in El. replace (Init.Nat.pred (length gs)) with (length gs - 1)%nat in El by lia.
      by rewrite (x_of_some _ _ _ He), (p_of_some _ _ _ _ _ Hps El) in Hill.
Qed.

Lemma layout_laid_out `{!GoSort ends_before} :
  ensures (layout bbox_width data times) (fun s => laid_out s.1).
Proof.
  destruct (decide (events_of data0 = [])) as [He|Hne].
  - assert (times = []) as Ht.
    { unfold RenderData.times, stamps, starts. rewrite events_data, He. done. }
    assert (forall p lin, p ∈ data -> lin ∈ jp_Lins p -> False) as Hno.
    { intros p lin Hp Hlin. destruct (data_part _ p Hp) as (p0 & Hp0 & ->). destruct lin as [|id lin].
      - by apply (po_nonempty _ Hok p0 [] Hp0 Hlin).
      - pose proof (po_lins _ Hok p0 _ id Hp0 Hlin ltac:(by left)) as Hid.
        destruct (jp_History p0) as [|el h] eqn:Eh; [cbn in Hid; lia|].
        assert (el ∈ events_of data0) as Hel by (apply elem_of_events; exists p0; rewrite Eh; split; [done|by left]).
        rewrite He in Hel. by apply not_elem_of_nil in Hel. }
    unfold layout. rewrite Ht. eapply ensures_bind; [apply globalize_all_ok|].
    + intros p lin id [Hp Hlin]%elem_of_all_lins. destruct (Hno p lin Hp Hlin).
    + intros lins _. apply ensures_ret. split; cbn.
      * rewrite Ht. by intros t ?%not_elem_of_nil.
      * rewrite Ht. by intros t t' x x' ?%not_elem_of_nil.
      * rewrite events_data, He. by intros el x e ?%not_elem_of_nil.
      * intros p lin Hp Hlin. destruct (Hno p lin Hp Hlin).
  - eapply ensures_mono; [by apply layout_ok|]. intros [xPos l] (lins & _ & Hg & Hb). cbn [fst].
    pose proof (bl_feasible _ _ _ _ _ _ _ Hb) as Hf. split.
    + intros t Ht. destruct (bl_defined _ _ _ _ _ _ _ Hb t Ht) as [x Hx]. exists x. split; [done|].
      pose proof (fe_start _ _ _ _ _ _ _ Hf t Ht) as H0. by rewrite (x_of_some _ _ _ Hx) in H0.
    + intros t t' x x' Ht Ht' Hlt Hx Hx'. pose proof (fe_gap _ _ _ _ _ _ _ Hf t t' Ht Ht' Hlt) as H0.
      by rewrite (x_of_some _ _ _ Hx), (x_of_some _ _ _ Hx') in H0.
    + intros el x e Hel Hx He. pose proof (fe_text _ _ _ _ _ _ _ Hf el Hel) as H0.
      by rewrite (x_of_some _ _ _ Hx), (x_of_some _ _ _ He) in H0.
    + intros p lin Hp Hlin. by eapply lin_is_placed.
Qed.
End laid.

(** ** The lines of a linearization *)

Lemma xs_of_app c l k : xs_of c (l ++ k) = xs_of c l ++ xs_of c k.
Proof. unfold xs_of. by rewrite filter_app, fmap_app. Qed.

Lemma xs_of_connect c k prev x1 y1 el x y : c <> k -> xs_of c [connect k prev x1 y1 el x y] = [].
Proof. intros Hne. unfold xs_of. by rewrite filter_cons_False by (cbn; congruence). Qed.

Lemma xs_of_point c x y : xs_of c [point c x y] = [x].
Proof. unfold xs_of. by rewrite filter_cons_True. Qed.

Lemma xs_of_other c k x y : c <> k -> xs_of c [point k x y] = [].
Proof. intros Hne. unfold xs_of. by rewrite filter_cons_False by (cbn; congruence). Qed.

(** The lines that lead to a point are not points. *)
Lemma xs_of_from c (prev : option (event * Q * Q)) el x y : c <> LinearizationLine ->
  xs_of c match prev with Some (e, x1, y1) => [connect LinearizationLine e x1 y1 el x y] | None => [] end = [].
Proof. intros Hc. destruct prev as [[[e x1] y1]|]; [by apply xs_of_connect|done]. Qed.

(** The drawn points are the placed ones, and [prev] is the last. *)
Definition drawn_upto (ps : list Q) (k : nat) (s : list line * option (event * Q * Q)) : Prop :=
  Forall2 (fun v x => (x == shift v)%Q) (take k ps) (xs_of LinearizationPoint s.1) /\
  xs_of InvalidPoint s.1 = [] /\ ((fun q => q.1.2) <$> s.2) = last (xs_of LinearizationPoint s.1).

Lemma draw_points_ok xPos p lin ps :
  lin_placed xPos p lin ps -> ensures (for_each (draw_point xPos p) lin ([], None)) (drawn_upto ps (length lin)).
Proof.
  intros Hp. apply (for_each_ensures _ (fun pre => drawn_upto ps (length pre))).
  - intros pre id post [lines prev] Hsplit (H1 & H2 & H3). cbn [fst snd] in *.
    assert (lin !! length pre = Some id) as Hid by (rewrite Hsplit; by apply list_lookup_middle).
    pose proof (lookup_lt_Some _ _ _ Hid) as Hlt. rewrite <- (lp_length _ _ _ _ Hp) in Hlt.
    destruct (lookup_lt_is_Some_2 _ _ Hlt) as [v Hv].
    destruct (lp_point _ _ _ _ Hp _ _ Hv) as (id' & el & x & e & Hid' & H0 & Hel & Hx & He & Hn & Hle).
    assert (id' = id) as -> by congruence.
    unfold draw_point. rewrite (proj2 (idx_ret _ _ el)) by done. cbn [mbind outcome_bind].
    unfold point_x. rewrite Hx. cbn [read_prop mbind outcome_bind].
    set (px := match prev with Some (_, prevX, _) => max_pos (PADDING + XOFF + x) (prevX + EPSILON) | None => PADDING + XOFF + x end%Q).
    assert (px == shift v)%Q as Hpx.
    { rewrite Hn. unfold px. destruct prev as [[[e0 x1] y1]|]; cbn in H3.
      - apply Forall2_last in H1. rewrite <- H3 in H1. inversion H1 as [w ? Hw|]; subst. by apply shift_max.
      - apply Forall2_last in H1. rewrite <- H3 in H1. by inversion H1. }
    apply ensures_ret. rewrite length_app, Nat.add_1_r. split_and!; cbn [fst snd].
    + rewrite !xs_of_app, xs_of_from, xs_of_point by done. rewrite (take_S_r _ _ v Hv). cbn.
      apply Forall2_app; [done|]. by constructor.
    + rewrite !xs_of_app, xs_of_from, xs_of_other by done. by rewrite H2.
    + rewrite !xs_of_app, xs_of_from, xs_of_point by done. cbn. by rewrite last_snoc.
  - split_and!; cbn; [by rewrite take_0|done|done].
Qed.

(** The illegal next points, each behind the last point at [x1]. *)
Lemma draw_illegals_ok xPos pi li p lin ps e x1 y1 lines d :
  lin_placed xPos p lin ps -> lin <> [] -> xs_of InvalidPoint lines = [] ->
  ensures (for_each (draw_illegal xPos pi li lin (Some (e, x1, y1))) (illegal_next p lin) (lines, ∅, d)) (fun '(lines', ill, d') =>
    xs_of LinearizationPoint lines' = xs_of LinearizationPoint lines /\
    Forall2 (fun ke x => exists x0, xPos !! ev_Start ke.2 = Some x0 /\ x = max_pos (shift x0) (x1 + EPSILON)%Q)
      (illegal_next p lin) (xs_of InvalidPoint lines') /\
    d_lines d' = d_lines d /\
    exists errs, d_errors d' = d_errors d ++ errs /\ er_x <$> errs = xs_of InvalidPoint lines').
Proof.
  intros Hp Hne Hno.
  apply (for_each_ensures _ (fun pre '(lines', ill, d') =>
    xs_of LinearizationPoint lines' = xs_of LinearizationPoint lines /\
    Forall2 (fun ke x => exists x0, xPos !! ev_Start ke.2 = Some x0 /\ x = max_pos (shift x0) (x1 + EPSILON)%Q)
      pre (xs_of InvalidPoint lines') /\
    d_lines d' = d_lines d /\
    exists errs, d_errors d' = d_errors d ++ errs /\ er_x <$> errs = xs_of InvalidPoint lines')).
  - intros pre [k el] post [[lines' ill] d'] Hsplit (H1 & H2 & H3 & errs & H4 & H5).
    destruct (lp_illegal _ _ _ _ Hp k el) as (x0 & _ & _ & Hx0 & _); [rewrite Hsplit; set_solver|].
    destruct (last lin) as [lst|] eqn:El; [|by apply last_None in El].
    unfold draw_illegal, point_x. rewrite Hx0. cbn [read_prop mbind outcome_bind]. rewrite El. cbn [read_prop mbind outcome_bind]. apply ensures_ret.
    change (PADDING + XOFF + x0)%Q with (shift x0). set (px := max_pos (shift x0) (x1 + EPSILON)%Q).
    change [connect ?a ?b ?c ?f ?g ?h ?i; ?q] with ([connect a b c f g h i] ++ [q]).
    rewrite !xs_of_app, !xs_of_connect, xs_of_other, xs_of_point by done. cbn [app]. rewrite app_nil_r. split_and!.
    + done.
    + apply Forall2_app; [done|]. constructor; [|done]. by exists x0.
    + done.
    + exists (errs ++ [mkError px pi (Index lst) li]). cbn [d_errors]. rewrite H4, app_assoc. split; [done|].
      by rewrite fmap_app, H5.
  - rewrite Hno. split_and!; [done|constructor|done|]. exists []. by rewrite app_nil_r.
Qed.

(** A point drawn for an element, relative to the box of the element. *)
Definition inside (xPos : gmap Z Q) (el : event) (x : Q) : Prop :=
  exists a b, xPos !! ev_Start el = Some a /\ xPos !! ev_End el = Some b /\ (shift a <= x <= shift b)%Q.

(** What is drawn of a linearization. *)
Record lin_lines (xPos : gmap Z Q) (p : jpart) (lin : list linearizationStep) (lines : list line) : Prop := {
  ll_points : Forall2 (fun id x => exists el, jp_History p !! Z.to_nat (Index id) = Some el /\ inside xPos el x)
    lin (xs_of LinearizationPoint lines);
  ll_spaced : forall j x x', xs_of LinearizationPoint lines !! j = Some x -> xs_of LinearizationPoint lines !! S j = Some x' ->
    (x + EPSILON <= x')%Q;
  ll_illegal : Forall2 (fun ke x => inside xPos ke.2 x) (illegal_next p lin) (xs_of InvalidPoint lines);
  ll_after : forall x x', last (xs_of LinearizationPoint lines) = Some x -> x' ∈ xs_of InvalidPoint lines -> (x + EPSILON <= x')%Q;
}.

Lemma draw_lin_ok xPos pi p lin li d :
  lin <> [] -> (exists ps, lin_placed xPos p lin ps) ->
  ensures (draw_lin xPos pi p lin (li, d)) (fun '(li', d') => exists lines,
    d_lines d' = d_lines d ++ [lines] /\ lin_lines xPos p lin lines /\
    exists errs, d_errors d' = d_errors d ++ errs /\ er_x <$> errs = xs_of InvalidPoint lines).
Proof.
  intros Hne (ps & Hp). unfold draw_lin. eapply ensures_bind; [by apply draw_points_ok|].
  intros [lines prev] (H1 & H2 & H3). cbn [fst snd] in *.
  assert (take (length lin) ps = ps) as Htake by (apply take_ge; by rewrite (lp_length _ _ _ _ Hp)).
  rewrite Htake in H1. pose proof (Forall2_length _ _ _ H1) as Hlen. rewrite (lp_length _ _ _ _ Hp) in Hlen.
  destruct prev as [[[e x1] y1]|]; cbn in H3.
  2: { symmetry in H3. apply last_None in H3. rewrite H3 in Hlen. by destruct lin. }
  eapply ensures_bind; [by apply (draw_illegals_ok _ _ _ _ _ _ _ _ _ _ _ Hp)|].
  intros [[lines' ill] d'] (G1 & G2 & G3 & errs & G4 & G5). apply ensures_ret. exists lines'. cbn.
  split_and!; [by rewrite G3| |by exists errs].
  split; rewrite ?G1.
  - apply Forall2_same_length_lookup_2; [done|]. intros j id x Hj Hx.
    destruct (Forall2_lookup_r _ _ _ _ _ H1 Hx) as (v & Hv & Hxv).
    destruct (lp_point _ _ _ _ Hp _ _ Hv) as (id' & el & a & b & Hid' & _ & Hel & Ha & Hb & _ & Hab).
    assert (id' = id) as -> by congruence. exists el. split; [done|]. exists a, b. split_and!; try done; rewrite Hxv; unfold shift; lra.
  - intros j x x' Hj Hj'. destruct (Forall2_lookup_r _ _ _ _ _ H1 Hj) as (v & Hv & ->).
    destruct (Forall2_lookup_r _ _ _ _ _ H1 Hj') as (v' & Hv' & ->).
    pose proof (lp_spaced _ _ _ _ Hp _ _ _ Hv Hv'). unfold shift. lra.
  - apply Forall2_last in H1. rewrite <- H3 in H1. inversion H1 as [w ? Hw Hlast|]; subst.
    apply Forall2_same_length_lookup_2; [by eapply Forall2_length|]. intros j [k el] x Hj Hx.
    destruct (Forall2_lookup_lr _ _ _ _ _ _ G2 Hj Hx) as (x0 & Hx0 & ->). cbn [snd] in *.
    destruct (lp_illegal _ _ _ _ Hp k el) as (a & b & v & Ha & Hb & Hab & Hv & Hvb); [by eapply list_elem_of_lookup_2|].
    assert (a = x0) as -> by congruence. assert (v = w) as -> by congruence.
    exists x0, b. split_and!; [done..|apply max_pos_l|]. apply max_pos_lub; [|rewrite Hw]; unfold shift; lra.
  - rewrite <- H3. intros x x' [= <-] Hin. apply list_elem_of_lookup in Hin as [j Hj].
    destruct (Forall2_lookup_r _ _ _ _ _ G2 Hj) as (ke & _ & x0 & _ & ->). apply max_pos_r.
Qed.

(** What is drawn of a partition. *)
Definition part_lines (xPos : gmap Z Q) (p : jpart) (d : drawn) : Prop :=
  Forall2 (lin_lines xPos p) (jp_Lins p) (d_lines d) /\ er_x <$> d_errors d = d_lines d ≫= xs_of InvalidPoint.

Lemma draw_partition_ok xPos p pi ds :
  (forall lin, lin ∈ jp_Lins p -> lin <> [] /\ exists ps, lin_placed xPos p lin ps) ->
  ensures (draw_partition xPos p (pi, ds)) (fun '(pi', ds') => exists d, ds' = ds ++ [d] /\ part_lines xPos p d).
Proof.
  intros Hp. unfold draw_partition. eapply ensures_bind.
  - apply (for_each_ensures _ (fun pre '(_, d) =>
      Forall2 (lin_lines xPos p) pre (d_lines d) /\ er_x <$> d_errors d = d_lines d ≫= xs_of InvalidPoint)).
    + intros pre lin post [li d] Hsplit (H1 & H2).
      destruct (Hp lin) as [Hne Hpl]; [rewrite Hsplit; set_solver|].
      eapply ensures_mono; [by apply draw_lin_ok|]. intros [li' d'] (lines & -> & Hl & errs & -> & He). split.
      * apply Forall2_app; [done|]. by constructor.
      * rewrite fmap_app, H2, He, bind_app. cbn. by rewrite app_nil_r.
    + split; [constructor|done].
  - intros [li d] Hd. apply ensures_ret. by exists d.
Qed.

Lemma draw_partitions_ok xPos ps :
  (forall p lin, p ∈ ps -> lin ∈ jp_Lins p -> lin <> [] /\ exists qs, lin_placed xPos p lin qs) ->
  ensures (for_each (draw_partition xPos) ps (0%nat, [])) (fun '(_, ds) => Forall2 (part_lines xPos) ps ds).
Proof.
  intros Hp. apply (for_each_ensures _ (fun pre '(_, ds) => Forall2 (part_lines xPos) pre ds)).
  - intros pre p post [pi ds] Hsplit H1. eapply ensures_mono; [apply draw_partition_ok|].
    + intros lin. apply Hp. rewrite Hsplit. set_solver.
    + intros [pi' ds'] (d & -> & Hd). apply Forall2_app; [done|]. by constructor.
  - constructor.
Qed.

(** ** The boxes *)

(** The box of an element. *)
Definition rect_of (xPos : gmap Z Q) (el : event) (r : rect) : Prop :=
  exists a b, xPos !! ev_Start el = Some a /\ xPos !! ev_End el = Some b /\
    r = mkRect (a + XOFF + PADDING)%Q (row el) (b - a)%Q BOX_HEIGHT.

Lemma draw_boxes_ok xPos els :
  (forall el, el ∈ els -> is_Some (xPos !! ev_Start el) /\ is_Some (xPos !! ev_End el)) ->
  ensures (draw_boxes xPos els) (Forall2 (rect_of xPos) els).
Proof.
  intros Hx. induction els as [|el els IH]; cbn [draw_boxes]; [apply ensures_ret; constructor|].
  destruct (Hx el) as [[a Ha] [b Hb]]; [by left|]. unfold draw_box at 1. rewrite Ha. cbn [read_prop mbind outcome_bind].
  rewrite Hb. cbn [read_prop mbind outcome_bind]. eapply ensures_bind; [apply IH; intros; apply Hx; by right|].
  intros rs Hrs. apply ensures_ret. constructor; [|done]. exists a, b. done.
Qed.

Lemma draw_all_boxes_ok xPos ps :
  (forall el, el ∈ events_of ps -> is_Some (xPos !! ev_Start el) /\ is_Some (xPos !! ev_End el)) ->
  ensures (for_each (fun p acc => rs ← draw_boxes xPos (jp_History p); Ret (acc ++ [rs])) ps [])
    (Forall2 (fun p => Forall2 (rect_of xPos) (jp_History p)) ps).
Proof.
  intros Hx. apply (for_each_ensures _ (Forall2 (fun p => Forall2 (rect_of xPos) (jp_History p)))).
  - intros pre p post acc Hsplit H1. eapply ensures_bind; [apply draw_boxes_ok|].
    + intros el Hel. apply Hx. apply elem_of_events. exists p. split; [|done]. rewrite Hsplit. set_solver.
    + intros rs Hrs. apply ensures_ret. apply Forall2_app; [done|]. by constructor.
  - constructor.
Qed.
