(* ===== verification/RenderSpec.v ===== *)
(** * The page of a check

    The page of every check of a model shows the operations and the partial
    linearizations without overlap of texts: boxes are wide enough, in the
    order of time, and every point is in the box of its operation. *)

From Stdlib Require Import QArith Qminmax Lqa.
From S2P Require Import Prelude PorcModel Linked Checker SearchProof LinSpec CheckerCorrect ParallelCorrect KvModel PorcSpec Visualize Render RenderProof RenderData RenderDraw.

#[local] Open Scope Z_scope.

(** ** What a page shows *)

(** The box of the [k]-th element has the point [x]. *)
Definition in_box (rs : list rect) (k : nat) (x : Q) : Prop :=
  exists r, rs !! k = Some r /\ (r_x r <= x <= r_x r + r_width r)%Q.

(** An element that the linearization leaves out and that could come next: no
    other one that is left out ends before it starts. *)
Definition could_be_next (h : list historyElement) (lin : list linearizationStep) (k : nat) : Prop :=
  included lin k = false /\ exists el, h !! k = Some el /\
    forall k' el', h !! k' = Some el' -> included lin k' = false -> Start el <= End el'.

(** A linearization: its points in order, each in the box of its element, and
    behind them one illegal point in the box of each element that could be
    next. *)
Record shows_lin (h : list historyElement) (rs : list rect) (lin : list linearizationStep) (lines : list line) : Prop := {
  sl_points : Forall2 (fun id x => in_box rs (Z.to_nat (Index id)) x) lin (xs_of LinearizationPoint lines);
  sl_spaced : forall j x x', xs_of LinearizationPoint lines !! j = Some x -> xs_of LinearizationPoint lines !! S j = Some x' ->
    (x + EPSILON <= x')%Q;
  sl_next : exists ks, NoDup ks /\ (forall k, k ∈ ks <-> could_be_next h lin k) /\
    Forall2 (in_box rs) ks (xs_of InvalidPoint lines);
  sl_after : forall x x', last (xs_of LinearizationPoint lines) = Some x -> x' ∈ xs_of InvalidPoint lines -> (x + EPSILON <= x')%Q;
}.

Section page.
Context (bbox_width : string -> Q).

(** The box of an element: it is in its client's row and has room for the
    text. *)
Record shows_element (pg : page) (el : historyElement) (r : rect) : Prop := {
  se_row : r_y r = (PADDING + inject_Z (he_ClientId el) * (BOX_HEIGHT + BOX_SPACE))%Q;
  se_text : (bbox_width (Description el) + 2 * BOX_TEXT_PADDING <= r_width r)%Q;
  se_left : (PADDING + XOFF <= r_x r)%Q;
  se_right : (r_x r + r_width r <= pg_width pg - PADDING)%Q;
}.

(** The box of an element of the input. *)
Definition box_at (input : list partitionVisualizationData) (pg : page) (el : historyElement) (r : rect) : Prop :=
  exists pi k p rs, input !! pi = Some p /\ History p !! k = Some el /\ pg_boxes pg !! pi = Some rs /\ rs !! k = Some r.

Record shows_page (input : list partitionVisualizationData) (pg : page) : Prop := {
  sp_boxes : Forall2 (fun p rs => Forall2 (shows_element pg) (History p) rs) input (pg_boxes pg);
  sp_lins : forall pi p rs, input !! pi = Some p -> pg_boxes pg !! pi = Some rs -> exists d, pg_drawn pg !! pi = Some d /\
    Forall2 (shows_lin (History p) rs) (PartialLinearizations p) (d_lines d);
  sp_order : forall a b ra rb, box_at input pg a ra -> box_at input pg b rb ->
    (Start a < Start b -> (r_x ra + BOX_GAP <= r_x rb)%Q) /\
    (End a < Start b -> (r_x ra + r_width ra + BOX_GAP <= r_x rb)%Q);
  sp_errors : StronglySorted (fun a b => (er_x a <= er_x b)%Q) (pg_errors pg) /\
    er_x <$> pg_errors pg ≡ₚ pg_drawn pg ≫= fun d => d_lines d ≫= xs_of InvalidPoint;
}.

(** ** The candidates *)

Lemma before_min_true els s : before_min (min_end els) s = true <-> forall x, x ∈ els -> s < ev_End x.2.
Proof.
  assert (forall m, before_min (foldl (fun m x => Some (match m with Some m => Z.min m (ev_End x.2) | None => ev_End x.2 end)) m els) s = true
    <-> before_min m s = true /\ forall x : nat * event, x ∈ els -> s < ev_End x.2) as H.
  { induction els as [|x els IH]; intros m; cbn [foldl].
    - split; [intros ?; split; [done|by intros x ?%not_elem_of_nil]|by intros [? _]].
    - rewrite IH. setoid_rewrite elem_of_cons. destruct m as [m|]; cbn; rewrite ?Z.ltb_lt; split.
      + intros [H1 H2]. split; [lia|]. intros y [->|Hy]; [lia|auto].
      + intros [H1 H2]. split; [|auto]. specialize (H2 x (or_introl eq_refl)). lia.
      + intros [H1 H2]. split; [done|]. intros y [->|Hy]; [lia|auto].
      + intros [_ H2]. split; [|auto]. by apply H2; left. }
  unfold min_end. rewrite H. cbn. tauto.
Qed.

Section parts.
Context (input : list partitionVisualizationData).

Abbreviation data0 := (number_parts 0 input).
Abbreviation data := (data data0).
Abbreviation times := (times data0).
Abbreviation tw := (tw data0).

(** The partition of the prepared data for one of the input. *)
Definition part_of (p : partitionVisualizationData) (jp : jpart) : Prop :=
  exists gid, jp = tw_part data0 (mkJpart (number_history gid (History p)) (PartialLinearizations p) (Largest p)) /\
    mkJpart (number_history gid (History p)) (PartialLinearizations p) (Largest p) ∈ data0.

Lemma parts_match : Forall2 part_of input data.
Proof.
  unfold data. assert (forall gid l l', l' = number_parts gid l -> l' ⊆ data0 -> Forall2 part_of l (tw_part data0 <$> l')) as H.
  { intros gid l. revert gid. induction l as [|p l IH]; intros gid l' -> Hsub; cbn; [constructor|].
    constructor.
    - exists gid. split; [done|]. apply Hsub. by left.
    - eapply IH; [done|]. intros x Hx. apply Hsub. by right. }
  by eapply H.
Qed.

Hypothesis Hin : input_ok input.

Lemma data0_ok : parts_ok data0.
Proof. by apply number_parts_ok. Qed.

Lemma element_match p jp k he : part_of p jp -> History p !! k = Some he ->
  exists el0, el0 ∈ events_of data0 /\ jp_History jp !! k = Some (tw el0) /\
    ev_Start el0 = 2 * Start he /\ ev_End el0 = 2 * End he /\ ev_ClientId el0 = he_ClientId he /\ ev_Description el0 = Description he.
Proof.
  intros (gid & -> & Hp) Hk. cbn.
  set (el0 := mkEvent (he_ClientId he) (2 * Start he) (2 * End he) (2 * End he) (Description he) (gid + k)).
  assert (number_history gid (History p) !! k = Some el0) as Hel by (apply number_history_lookup; eauto).
  exists el0. split_and!; try done.
  - apply elem_of_events. eexists. split; [exact Hp|]. by eapply list_elem_of_lookup_2.
  - by rewrite list_lookup_fmap, Hel.
Qed.

Lemma element_back p jp k el : part_of p jp -> jp_History jp !! k = Some el ->
  exists he, History p !! k = Some he.
Proof.
  intros (gid & -> & Hp). cbn. intros (el0 & -> & (he & Hk & ->)%number_history_lookup)%list_lookup_fmap_Some. eauto.
Qed.

Lemma part_length p jp : part_of p jp -> length (jp_History jp) = length (History p) /\ jp_Lins jp = PartialLinearizations p.
Proof. intros (gid & -> & _). cbn. by rewrite length_fmap, length_number_history. Qed.

Lemma illegal_next_elem p jp lin k : part_of p jp ->
  k ∈ (illegal_next jp lin).*1 <-> could_be_next (History p) lin k.
Proof.
  intros Hp. unfold illegal_next. rewrite list_elem_of_fmap. setoid_rewrite list_elem_of_filter. split.
  - intros ([k' el] & -> & Hb & Hex). cbn [fst snd] in *. apply elem_of_excluded in Hex as [Hk Hi].
    split; [done|]. destruct (element_back _ _ _ _ Hp Hk) as (he & Hhe). exists he. split; [done|].
    intros k2 he2 Hk2 Hi2. destruct (element_match _ _ _ _ Hp Hhe) as (a & Ha & Hak & Sa & Ea & _).
    destruct (element_match _ _ _ _ Hp Hk2) as (b & Hb' & Hbk & Sb & Eb & _).
    assert (el = tw a) as -> by congruence. rewrite before_min_true in Hb.
    specialize (Hb (k2, tw b) (proj2 (elem_of_excluded _ _ _ _) (conj Hbk Hi2))). cbn in Hb.
    destruct (tw_same data0 a) as [Hs _]. rewrite Hs in Hb. apply Z.nlt_ge. intros Hlt.
    pose proof (proj2 (tw_end data0 data0_ok b Hb') (ev_Start a)) as Hlast.
    specialize (Hlast (proj1 (stamps_elem data0 a Ha)) ltac:(lia)). lia.
  - intros (Hi & he & Hk & Hall). destruct (element_match _ _ _ _ Hp Hk) as (a & Ha & Hak & Sa & Ea & _).
    exists (k, tw a). cbn. split_and!; [done| |by apply elem_of_excluded].
    apply before_min_true. intros [k2 el2] [Hk2 Hi2]%elem_of_excluded. cbn.
    destruct (element_back _ _ _ _ Hp Hk2) as (he2 & Hhe2).
    destruct (element_match _ _ _ _ Hp Hhe2) as (b & Hb' & Hbk & Sb & Eb & _).
    assert (el2 = tw b) as -> by congruence. specialize (Hall k2 he2 Hhe2 Hi2).
    apply part_before; [exact data0_ok|done..|lia].
Qed.

Lemma illegal_next_NoDup jp lin : NoDup (illegal_next jp lin).*1.
Proof.
  unfold illegal_next, excluded.
  assert (NoDup (imap (fun k el => (k, el)) (jp_History jp)).*1) as Hnd.
  { apply NoDup_alt. intros i j k Hi Hj. rewrite list_lookup_fmap, list_lookup_imap in Hi, Hj.
    destruct (jp_History jp !! i), (jp_History jp !! j); by simplify_eq/=. }
  eapply sublist_NoDup; [exact Hnd|]. apply fmap_sublist. etrans; [apply sublist_filter|apply sublist_filter].
Qed.

(** ** The page *)

Lemma rect_inside xPos el r x : rect_of xPos el r -> inside xPos el x -> (r_x r <= x <= r_x r + r_width r)%Q.
Proof.
  intros (a & b & Ha & Hb & ->) (a' & b' & Ha' & Hb' & Hx). cbn. unfold shift in Hx.
  assert (a' = a) as -> by congruence. assert (b' = b) as -> by congruence. lra.
Qed.

Lemma lin_shown p jp xPos rs lin lines :
  part_of p jp -> Forall2 (rect_of xPos) (jp_History jp) rs -> lin_lines xPos jp lin lines -> shows_lin (History p) rs lin lines.
Proof.
  intros Hp Hrs [H1 H2 H3 H4]. split; [|done| |done].
  - eapply Forall2_impl; [exact H1|]. intros id x (el & Hel & Hx).
    destruct (Forall2_lookup_l _ _ _ _ _ Hrs Hel) as (r & Hr & Hrect). exists r. split; [done|]. by eapply rect_inside.
  - exists (illegal_next jp lin).*1. split_and!; [apply illegal_next_NoDup|intros k; by apply illegal_next_elem|].
    apply Forall2_fmap_l. apply Forall2_same_length_lookup_2; [by eapply Forall2_length|].
    intros j [k el] x Hj Hx. pose proof (Forall2_lookup_lr _ _ _ _ _ _ H3 Hj Hx) as Hi. cbn in *.
    apply list_elem_of_lookup_2, illegal_excluded in Hj as [Hk _].
    destruct (Forall2_lookup_l _ _ _ _ _ Hrs Hk) as (r & Hr & Hrect). exists r. split; [done|]. by eapply rect_inside.
Qed.

Lemma stamp_times t : t ∈ stamps data0 -> t ∈ times.
Proof. intros Ht. unfold RenderData.times. apply elem_of_sort_times, elem_of_union. by left. Qed.

(** The last timestamp is at the right end. *)
Lemma last_time xPos t x : laid_out data0 bbox_width xPos -> t ∈ times -> xPos !! t = Some x ->
  exists t' x', last times = Some t' /\ xPos !! t' = Some x' /\ (x <= x')%Q.
Proof.
  intros Hl Ht Hx. pose proof (sort_times_sorted (stamps data0 ∪ list_to_set (ev_End <$> events_of data))) as Hs.
  fold times in Hs. destruct (last times) as [t'|] eqn:El.
  2: { apply last_None in El. rewrite El in Ht. by apply not_elem_of_nil in Ht. }
  assert (t' ∈ times) as Ht' by (apply last_Some_elem_of; exact El).
  destruct (lo_defined _ _ _ Hl t' Ht') as (x' & Hx' & _). exists t', x'. split_and!; try done.
  apply last_Some in El as [l El]. rewrite El in Hs, Ht. apply elem_of_app in Ht as [Hmem|Hmem].
  - apply StronglySorted_app in Hs as (Hlt & _). specialize (Hlt t t' Hmem ltac:(by left)).
    pose proof (lo_gap _ _ _ Hl t t' x x') as Hg. rewrite El in Hg. unfold BOX_GAP in Hg.
    specialize (Hg ltac:(apply elem_of_app; by left) ltac:(apply elem_of_app; right; by left) Hlt Hx Hx'). lra.
  - apply list_elem_of_singleton in Hmem as ->. assert (x' = x) as -> by congruence. apply Qle_refl.
Qed.

(** The box of an element, from the prepared element. *)
Lemma element_shown pg xPos p jp k he r w :
  laid_out data0 bbox_width xPos -> (forall t x, t ∈ times -> xPos !! t = Some x -> (x <= w)%Q) ->
  pg_width pg = (2 * PADDING + XOFF + w)%Q ->
  part_of p jp -> History p !! k = Some he ->
  (forall el, jp_History jp !! k = Some el -> rect_of xPos el r) -> shows_element pg he r.
Proof.
  intros Hl Hw Hpg Hp Hk Hr. destruct (element_match _ _ _ _ Hp Hk) as (a & Ha & Hak & Sa & Ea & Ca & Da).
  destruct (Hr _ Hak) as (s & e & Hs & He & ->).
  assert (tw a ∈ events_of data) as Hin' by (rewrite events_data; by apply list_elem_of_fmap_2).
  destruct (data_times data0 data0_ok (tw a) Hin') as (Ts & Te & _). destruct (tw_same data0 a) as (_ & _ & Hc & Hd).
  pose proof (lo_text _ _ _ Hl (tw a) s e Hin' Hs He) as Htext. unfold text_width in Htext. rewrite Hd, Da in Htext.
  destruct (lo_defined _ _ _ Hl _ Ts) as (s' & Hs' & Hpos). assert (s' = s) as -> by congruence.
  pose proof (Hw _ _ Te He) as Hle. split; cbn.
  - unfold row. by rewrite Hc, Ca.
  - lra.
  - lra.
  - rewrite Hpg. lra.
Qed.

Lemma boxes_order xPos a b ra rb :
  laid_out data0 bbox_width xPos -> a ∈ events_of data0 -> b ∈ events_of data0 ->
  rect_of xPos (tw a) ra -> rect_of xPos (tw b) rb ->
  (ev_Start a < ev_Start b -> (r_x ra + BOX_GAP <= r_x rb)%Q) /\
  (ev_End a < ev_Start b -> (r_x ra + r_width ra + BOX_GAP <= r_x rb)%Q).
Proof.
  intros Hl Ha Hb (sa & ea & Hsa & Hea & ->) (sb & eb & Hsb & Heb & ->).
  assert (forall c, c ∈ events_of data0 -> ev_Start (tw c) ∈ times /\ ev_End (tw c) ∈ times) as Ht.
  { intros c Hc. destruct (data_times data0 data0_ok (tw c)) as (? & ? & _); [|done].
    rewrite events_data. by apply list_elem_of_fmap_2. }
  destruct (Ht a Ha) as [T1 T2], (Ht b Hb) as [T3 _].
  destruct (tw_same data0 a) as [Ea _], (tw_same data0 b) as [Eb _]. cbn. split; intros Hlt.
  - pose proof (lo_gap _ _ _ Hl _ _ _ _ T1 T3 ltac:(lia) Hsa Hsb). lra.
  - assert (ev_End (tw a) < ev_Start (tw b)) as Hlt'.
    { rewrite Eb. apply (tw_end data0 data0_ok a Ha); [|done]. by apply stamps_elem. }
    pose proof (lo_gap _ _ _ Hl _ _ _ _ T2 T3 Hlt' Hea Hsb). lra.
Qed.

Lemma errors_shown `{!GoSort left_of} xPos jps ds :
  Forall2 (part_lines xPos) jps ds ->
  StronglySorted (fun a b => (er_x a <= er_x b)%Q) (go_sort left_of (ds ≫= d_errors)) /\
  er_x <$> go_sort left_of (ds ≫= d_errors) ≡ₚ ds ≫= fun d => d_lines d ≫= xs_of InvalidPoint.
Proof.
  intros Hd. split.
  - pose proof (go_sort_sorted left_of (ds ≫= d_errors)) as Hs. induction Hs as [|x l _ IH Hall]; constructor; [done|].
    eapply Forall_impl; [exact Hall|]. intros y Hy. by apply left_of_false.
  - rewrite (go_sort_perm left_of). clear -Hd. induction Hd as [|jp d jps ds [_ He] _ IH]; [done|].
    cbn. by rewrite fmap_app, He, IH.
Qed.

Lemma render_shows `{!GoSort ends_before} `{!GoSort left_of} : ensures (render bbox_width input) (shows_page input).
Proof.
  unfold render. rewrite prepare_eq. eapply ensures_bind; [apply layout_laid_out; exact data0_ok|].
  intros [xPos l] Hl. cbn [fst] in Hl.
  assert (forall el, el ∈ events_of data -> is_Some (xPos !! ev_Start el) /\ is_Some (xPos !! ev_End el)) as Hdef.
  { intros el (T1 & T2 & _)%(data_times data0 data0_ok).
    destruct (lo_defined _ _ _ Hl _ T1) as (? & -> & _), (lo_defined _ _ _ Hl _ T2) as (? & -> & _). eauto. }
  assert (ensures match last times with Some t => read_prop (xPos !! t) | None => Ret 0%Q end
    (fun w => forall t x, t ∈ times -> xPos !! t = Some x -> (x <= w)%Q)) as Hw.
  { destruct (last times) as [t'|] eqn:El.
    - destruct (lo_defined _ _ _ Hl t' (last_Some_elem_of _ _ El)) as (w & Hw & _). rewrite Hw. apply ensures_ret.
      intros t x Ht Hx. destruct (last_time xPos t x Hl Ht Hx) as (t2 & x2 & E2 & Hx2 & Hle).
      assert (t2 = t') as -> by congruence. assert (x2 = w) as -> by congruence. done.
    - apply ensures_ret. apply last_None in El. rewrite El. by intros t x ?%not_elem_of_nil. }
  eapply ensures_bind; [exact Hw|]. intros w Hright.
  eapply ensures_bind; [by apply draw_all_boxes_ok|]. intros boxes Hboxes.
  eapply ensures_bind; [apply draw_partitions_ok|].
  { intros p lin Hp Hlin. split; [|by apply (lo_lins _ _ _ Hl)]. destruct (data_part data0 p Hp) as (p0 & Hp0 & ->).
    by apply (po_nonempty _ data0_ok p0). }
  intros [n ds] Hds. apply ensures_ret. cbn beta.
  assert (forall pi p rs, input !! pi = Some p -> boxes !! pi = Some rs -> exists jp, data !! pi = Some jp /\ part_of p jp /\
    Forall2 (rect_of xPos) (jp_History jp) rs) as Hmatch.
  { intros pi p rs Hp Hrs. destruct (Forall2_lookup_l _ _ _ _ _ parts_match Hp) as (jp & Hjp & Hpart).
    exists jp. split_and!; try done. by eapply (Forall2_lookup_lr _ _ _ _ _ _ Hboxes). }
  split; cbn [pg_boxes pg_drawn pg_errors].
  - apply Forall2_same_length_lookup_2.
    { rewrite (Forall2_length _ _ _ parts_match). by eapply Forall2_length. }
    intros pi p rs Hp Hrs. destruct (Hmatch pi p rs Hp Hrs) as (jp & Hjp & Hpart & Hrects).
    apply Forall2_same_length_lookup_2.
    { rewrite <- (proj1 (part_length _ _ Hpart)). by eapply Forall2_length. }
    intros k he r Hk Hr. eapply (element_shown _ xPos p jp k he r w); try done.
    intros el Hel. by eapply (Forall2_lookup_lr _ _ _ _ _ _ Hrects).
  - intros pi p rs Hp Hrs. destruct (Hmatch pi p rs Hp Hrs) as (jp & Hjp & Hpart & Hrects).
    destruct (Forall2_lookup_l _ _ _ _ _ Hds Hjp) as (d & Hd & Hlins & _). exists d. split; [done|].
    rewrite (proj2 (part_length _ _ Hpart)) in Hlins. eapply Forall2_impl; [exact Hlins|].
    intros lin lines. by apply (lin_shown p jp xPos).
  - intros a b ra rb (pi & k & p & rs & Hp & Hk & Hrs & Hr) (pi' & k' & p' & rs' & Hp' & Hk' & Hrs' & Hr'). cbn in Hrs, Hrs'.
    destruct (Hmatch pi p rs Hp Hrs) as (jp & _ & Hpart & Hrects), (Hmatch pi' p' rs' Hp' Hrs') as (jp' & _ & Hpart' & Hrects').
    destruct (element_match _ _ _ _ Hpart Hk) as (ea & Hea & Eak & Sa & Ea & _).
    destruct (element_match _ _ _ _ Hpart' Hk') as (eb & Heb & Ebk & Sb & Eb & _).
    pose proof (Forall2_lookup_lr _ _ _ _ _ _ Hrects Eak Hr) as Ra. pose proof (Forall2_lookup_lr _ _ _ _ _ _ Hrects' Ebk Hr') as Rb.
    destruct (boxes_order xPos ea eb ra rb Hl Hea Heb Ra Rb) as [O1 O2].
    split; intros Hlt; [apply O1|apply O2]; lia.
  - by eapply errors_shown.
Qed.
End parts.
End page.

(** ** The data of a check *)

Section check.
Context {I O St : Type} `{!EqDecision St} `{!Format I, !Format O, !Format St}.
Context `{!RangeOrder seq_ptr} `{!GoSort (@Less I O)} `{!GoSort longer}.
Implicit Types (model : Model I O St) (ops : list (Operation I O)).

Lemma sorted_order_lookup {A} (R : A -> A -> Prop) l j k a b :
  StronglySorted R l -> (j < k)%nat -> l !! j = Some a -> l !! k = Some b -> R a b.
Proof.
  intros Hs. revert j k. induction Hs as [|x l _ IH Hall]; [done|]. intros [|j] [|k] Hlt; try lia; cbn.
  - intros [= ->] Hk. by eapply Forall_lookup_1 in Hall.
  - apply IH. lia.
Qed.

Lemma element_times describe ops d h : element_of describe (makeEntries ops) (Z.of_nat d) h ->
  exists op, ops !! d = Some op /\ Start h = Call op /\ End h = Return op.
Proof.
  intros (c & r & i & o & Hc & Hkc & Hidc & _ & Hr & Hkr & Hidr & _ & ->). cbn.
  apply list_elem_of_lookup in Hc as [ic Hc], Hr as [ir Hr].
  destruct (makeEntries_lookup _ _ _ Hc) as (k & op & Hk & [->| ->]); [|done].
  destruct (makeEntries_lookup _ _ _ Hr) as (k' & op' & Hk' & [->| ->]); [done|]. cbn in *.
  apply Nat2Z.inj in Hidc as ->, Hidr as ->. exists op. split_and!; try done. congruence.
Qed.

Lemma traced_indices (m : Model I O St) ds es st order lin : traced m ds es st order lin -> Index <$> lin = order.
Proof. induction 1 as [|st d i o st' ds' ss _ _ _ IH]; [done|]. cbn. by rewrite IH. Qed.

(** What the page needs of one partition. *)
Record partition_fits ops (d : partitionVisualizationData) : Prop := {
  pf_history : forall k h, History d !! k = Some h -> exists op, ops !! k = Some op /\ Start h = Call op /\ End h = Return op;
  pf_count : length (History d) = length ops;
  pf_lins : forall lin, lin ∈ PartialLinearizations d -> exists order, Index <$> lin = order /\ order <> [] /\
    (forall a, a ∈ order -> exists k, a = Z.of_nat k /\ (k < length ops)%nat) /\
    StronglySorted (fun a b => ~ precedes (makeEntries ops) b a) order /\
    forall a b, a ∈ order -> b ∉ order -> ~ precedes (makeEntries ops) b a;
  pf_largest : forall k i, Largest d !! k = Some i -> exists lin, 0 <= i /\ PartialLinearizations d !! Z.to_nat i = Some lin /\
    k ∈ Index <$> lin /\ forall lin', lin' ∈ PartialLinearizations d -> k ∈ Index <$> lin' -> (length lin' <= length lin)%nat;
  pf_no_largest : forall k lin, Largest d !! k = None -> lin ∈ PartialLinearizations d -> k ∉ Index <$> lin;
}.

Lemma legal_indices (m : Model I O St) ops st order a : legal m (makeEntries ops) st order -> a ∈ order ->
  exists k, a = Z.of_nat k /\ (k < length ops)%nat.
Proof.
  induction 1 as [|st d i o st' ds Hop _ _ IH]; [by intros ?%not_elem_of_nil|]. intros [->|Hin]%elem_of_cons; [|by apply IH].
  apply op_of_lookup in Hop as (k & op & -> & Hk & _). exists k. split; [done|]. by eapply lookup_lt_Some.
Qed.

Lemma shown_fits model ops partials ps d :
  ops_ok ops -> shown model (makeEntries ops) partials ps d ->
  Forall (partial_linearization (fillDefault model) (makeEntries ops)) partials -> partition_fits ops d.
Proof.
  intros [Hw _] (n & Hwf & Hs) Hp. split.
  - intros k h Hk. by eapply element_times, (ps_history _ _ _ _ _ _ _ _ Hs).
  - rewrite (ps_count _ _ _ _ _ _ _ _ Hs). pose proof (wf_length _ _ Hwf) as H1.
    pose proof (wf_length _ _ (makeEntries_wf ops Hw)) as H2. lia.
  - intros lin [i Hi]%list_elem_of_lookup.
    destruct (Forall2_lookup_r _ _ _ _ _ (ps_states _ _ _ _ _ _ _ _ Hs) Hi) as (order & Ho & Ht).
    exists order. apply traced_indices in Ht. split; [done|].
    assert (order ∈ partials) as Hin by (rewrite <- (ps_perm _ _ _ _ _ _ _ _ Hs); by eapply list_elem_of_lookup_2).
    rewrite Forall_forall in Hp. destruct (Hp order Hin) as (H1 & _ & H2 & H3 & H4). split_and!; try done.
    intros a Ha. by eapply legal_indices.
  - intros k i Hk. rewrite (ps_largest _ _ _ _ _ _ _ _ Hs) in Hk. apply fmap_Some in Hk as ([j order] & Hf & ->). cbn.
    unfold first_with in Hf. apply list_find_Some in Hf as (Hj & Hin & Hfirst).
    destruct (Forall2_lookup_l _ _ _ _ _ (ps_states _ _ _ _ _ _ _ _ Hs) Hj) as (lin & Hlin & Ht).
    exists lin. rewrite Nat2Z.id. pose proof (traced_indices _ _ _ _ _ _ Ht) as Hidx. split_and!; [lia|done|by rewrite Hidx|].
    intros lin' [j' Hj']%list_elem_of_lookup Hk'.
    destruct (Forall2_lookup_r _ _ _ _ _ (ps_states _ _ _ _ _ _ _ _ Hs) Hj') as (order' & Ho' & Ht').
    pose proof (traced_indices _ _ _ _ _ _ Ht') as Hidx'. rewrite Hidx' in Hk'.
    assert (j <= j')%nat as Hle by (destruct (decide (j' < j)%nat) as [Hlt|]; [by destruct (Hfirst j' order' Ho' Hlt)|lia]).
    rewrite <- (length_fmap Index lin), <- (length_fmap Index lin'), Hidx, Hidx'.
    destruct (decide (j = j')) as [->|Hne]; [by assert (order' = order) as -> by congruence|].
    apply (sorted_order_lookup _ ps j j' order order' (ps_sorted _ _ _ _ _ _ _ _ Hs)); [lia|done..].
  - intros k lin Hk [j Hj]%list_elem_of_lookup Hin. rewrite (ps_largest _ _ _ _ _ _ _ _ Hs) in Hk. apply fmap_None in Hk.
    unfold first_with in Hk. apply list_find_None in Hk.
    destruct (Forall2_lookup_r _ _ _ _ _ (ps_states _ _ _ _ _ _ _ _ Hs) Hj) as (order & Ho & Ht).
    rewrite (traced_indices _ _ _ _ _ _ Ht) in Hin. rewrite Forall_forall in Hk. eapply Hk; [by eapply list_elem_of_lookup_2|done].
Qed.

Lemma not_preceded ops a b opa opb : ops !! a = Some opa -> ops !! b = Some opb ->
  ~ precedes (makeEntries ops) (Z.of_nat b) (Z.of_nat a) -> Call opa <= Return opb.
Proof. intros Ha Hb. rewrite (precedes_times ops b a opb opa) by done. lia. Qed.

Lemma fits_order ops d lin j k id id' a b :
  ops_ok ops -> partition_fits ops d -> lin ∈ PartialLinearizations d -> (j <= k)%nat ->
  lin !! j = Some id -> lin !! k = Some id' ->
  History d !! Z.to_nat (Index id) = Some a -> History d !! Z.to_nat (Index id') = Some b -> Start a <= End b.
Proof.
  intros [Hw _] Hf Hlin Hjk Hj Hk Ha Hb.
  destruct (pf_lins _ _ Hf lin Hlin) as (order & Hord & _ & Hidx & Hsort & _).
  destruct (pf_history _ _ Hf _ _ Ha) as (opa & Hopa & -> & _), (pf_history _ _ Hf _ _ Hb) as (opb & Hopb & _ & ->).
  destruct (decide (j = k)) as [->|Hne].
  - assert (id' = id) as -> by congruence. assert (opb = opa) as -> by congruence.
    by eapply Forall_lookup_1 in Hw.
  - assert (order !! j = Some (Index id) /\ order !! k = Some (Index id')) as [Hoj Hok]
      by (by rewrite <- Hord, !list_lookup_fmap, Hj, Hk).
    destruct (Hidx (Index id)) as (ka & Eka & _); [by eapply list_elem_of_lookup_2|].
    destruct (Hidx (Index id')) as (kb & Ekb & _); [by eapply list_elem_of_lookup_2|].
    rewrite Eka, Nat2Z.id in Hopa. rewrite Ekb, Nat2Z.id in Hopb.
    eapply (not_preceded ops ka kb); [done..|]. rewrite <- Eka, <- Ekb.
    exact (sorted_order_lookup _ order j k _ _ Hsort ltac:(lia) Hoj Hok).
Qed.

Lemma fits_closed ops d lin id k a b :
  partition_fits ops d -> lin ∈ PartialLinearizations d -> id ∈ lin -> included lin k = false ->
  History d !! Z.to_nat (Index id) = Some a -> History d !! k = Some b -> Start a <= End b.
Proof.
  intros Hf Hlin Hid Hk Ha Hb.
  destruct (pf_lins _ _ Hf lin Hlin) as (order & Hord & _ & Hidx & _ & Hcl).
  destruct (pf_history _ _ Hf _ _ Ha) as (opa & Hopa & -> & _), (pf_history _ _ Hf _ _ Hb) as (opb & Hopb & _ & ->).
  assert (Index id ∈ order) as Hin by (rewrite <- Hord; by apply list_elem_of_fmap_2).
  destruct (Hidx _ Hin) as (ka & Eka & _). rewrite Eka, Nat2Z.id in Hopa.
  eapply (not_preceded ops ka k); [done..|]. rewrite <- Eka. apply Hcl; [done|].
  unfold included in Hk. apply bool_decide_eq_false in Hk. by rewrite Hord in Hk.
Qed.

(** An operation returns after every call, so the last timestamp is an end. *)
Definition ends_last (parts : list (list (Operation I O))) : Prop :=
  forall op, op ∈ concat parts -> exists op', op' ∈ concat parts /\ Call op < Return op'.

Lemma fits_input parts data :
  Forall ops_ok parts -> Forall2 partition_fits parts data -> ends_last parts -> input_ok data.
Proof.
  intros Hok Hf Hlast.
  assert (forall d, d ∈ data -> exists ops, ops_ok ops /\ ops ∈ parts /\ partition_fits ops d) as Hd.
  { intros d [i Hi]%list_elem_of_lookup. destruct (Forall2_lookup_r _ _ _ _ _ Hf Hi) as (ops & Hops & Hfit).
    exists ops. split_and!; try done; [|by eapply list_elem_of_lookup_2]. by eapply Forall_lookup_1 in Hok. }
  split.
  - intros d h (ops & [Hw _] & _ & Hfit)%Hd [k Hk]%list_elem_of_lookup.
    destruct (pf_history _ _ Hfit k h Hk) as (op & Hop & -> & ->). by eapply Forall_lookup_1 in Hw.
  - intros d lin id (ops & _ & _ & Hfit)%Hd Hlin Hid. destruct (pf_lins _ _ Hfit lin Hlin) as (order & <- & _ & Hidx & _).
    destruct (Hidx (Index id)) as (k & -> & Hk); [by apply list_elem_of_fmap_2|]. rewrite (pf_count _ _ Hfit). lia.
  - intros d lin (ops & _ & _ & Hfit)%Hd Hlin ->. by destruct (pf_lins _ _ Hfit [] Hlin) as (order & <- & Hne & _).
  - intros d lin j k id id' a b (ops & Ho & _ & Hfit)%Hd. by apply (fits_order ops).
  - intros d lin id k a b (ops & Ho & _ & Hfit)%Hd. by apply (fits_closed ops).
  - intros d h (ops & _ & Hin & Hfit)%Hd [k Hk]%list_elem_of_lookup.
    destruct (pf_history _ _ Hfit k h Hk) as (op & Hop & -> & _).
    destruct (Hlast op) as (op' & Hin' & Hlt).
    { apply list_elem_of_In, in_concat. exists ops. split; [by apply list_elem_of_In|]. apply list_elem_of_In. by eapply list_elem_of_lookup_2. }
    apply list_elem_of_In, in_concat in Hin' as (ops' & Hops' & Hin'). apply list_elem_of_In, list_elem_of_lookup in Hops' as [i Hi].
    apply list_elem_of_In, list_elem_of_lookup in Hin' as [k' Hk'].
    destruct (Forall2_lookup_l _ _ _ _ _ Hf Hi) as (d' & Hd' & Hfit').
    destruct (lookup_lt_is_Some_2 (History d') k') as [h' Hh'].
    { rewrite (pf_count _ _ Hfit'). by eapply lookup_lt_Some. }
    destruct (pf_history _ _ Hfit' k' h' Hh') as (op2 & Hop2 & _ & He). assert (op2 = op') as -> by congruence.
    exists d', h'. split_and!; [by eapply list_elem_of_lookup_2..|lia].
Qed.

(** The data of a verbose check is fit for the page. *)
Lemma check_input_ok model history timeout evs kill res info :
  equal_ok model -> Forall ops_ok (partitions_of model history) ->
  arrivals_ok (length (partitions_of model history)) evs ->
  CheckOperationsVerbose model history timeout evs kill = Ret (Some (res, info)) ->
  ends_last (partitions_of model history) ->
  exists data info', computeVisualizationData model info = Ret (data, info') /\
    Forall2 partition_fits (partitions_of model history) data /\ input_ok data.
Proof.
  intros Heq Hok Harr Hc Hlast.
  destruct (check_visualized model history timeout evs kill res info Heq Hok Harr Hc) as (data & info' & Hd & Hl & Hall).
  exists data, info'.
  assert (Forall2 partition_fits (partitions_of model history) data) as Hf.
  { apply Forall2_same_length_lookup_2; [done|]. intros p ops d Hops Hp.
    destruct (Hall p ops Hops) as (partials & ps & d' & _ & _ & Hd' & Hs & Hpl). assert (d' = d) as -> by congruence.
    eapply shown_fits; [|done..]. by eapply Forall_lookup_1 in Hok. }
  split_and!; [done..|]. by eapply fits_input.
Qed.
End check.

(** ** Theorems *)

Section theorems.
Context (bbox_width : string -> Q) `{!GoSort ends_before} `{!GoSort left_of}.

(** C11: the greedy left-to-right scan solves the linear program that the
    comments of the script state.  For the data of a check in which the last
    timestamp is an end only, the layout is defined, satisfies the constraints
    (gaps between timestamps, boxes as wide as their texts, points and illegal
    next points in their boxes and [EPSILON] apart), and no solution of the
    constraints has any timestamp or any point further to the left. *)
Theorem layout_optimal input :
  input_ok input -> Exists (fun p => History p <> []) input ->
  let '(data, times) := prepare (number_parts 0 input) in
  exists xPos l lins, globalize_all (all_lins data) = Ret lins /\ layout bbox_width data times = Ret (xPos, l) /\
    best_layout (text_width bbox_width) (events_of data) lins (illegal_of (all_lins data)) times xPos l.
Proof.
  intros Hin Hex. rewrite prepare_eq. pose proof (number_parts_ok input Hin) as Hok.
  destruct (layout_ok (number_parts 0 input) Hok bbox_width) as ([xPos l] & Hlay & lins & Hg & _ & Hb).
  { apply Exists_exists in Hex as (p & Hp & Hne). destruct (elem_of_number_parts 0 input p Hp) as [gid Hgid].
    destruct (History p) as [|h hs] eqn:Eh; [done|]. intros Hnil.
    assert (forall el, el ∉ events_of (number_parts 0 input)) as Hno by (intros el; rewrite Hnil; apply not_elem_of_nil).
    eapply (Hno _), elem_of_events. eexists. split; [exact Hgid|]. cbn. left. }
  by exists xPos, l, lins.
Qed.

(** C12: the page of a check.  For every model and history, whatever the
    order in which the results arrive and also when the timer fires, the script
    draws the data of a verbose check if an operation returns after every
    call: every operation has a box in its client's row that has room for its
    description, boxes are in the order of time, the points of every partial
    linearization are in the boxes of their operations and apart from each
    other, the operations marked as illegal next ones are exactly those that
    could be next, and the error points are sorted from left to right. *)
Theorem check_page {I O St : Type} `{!EqDecision St} `{!Format I, !Format O, !Format St}
    `{!RangeOrder seq_ptr} `{!GoSort (@Less I O)} `{!GoSort longer} (model : Model I O St) history timeout evs kill res info :
  equal_ok model -> Forall ops_ok (partitions_of model history) ->
  arrivals_ok (length (partitions_of model history)) evs ->
  CheckOperationsVerbose model history timeout evs kill = Ret (Some (res, info)) ->
  ends_last (partitions_of model history) ->
  exists data info' pg, computeVisualizationData model info = Ret (data, info') /\ render bbox_width data = Ret pg /\
    Forall2 partition_fits (partitions_of model history) data /\ shows_page bbox_width data pg.
Proof.
  intros Heq Hok Harr Hc Hlast.
  destruct (check_input_ok model history timeout evs kill res info Heq Hok Harr Hc Hlast) as (data & info' & Hd & Hf & Hin).
  destruct (render_shows bbox_width data Hin) as (pg & Hpg & Hs). by exists data, info', pg.
Qed.
End theorems.

(** Texts of eight positions per character. *)
Definition char_width (s : string) : Q := inject_Z (8 * Z.of_nat (String.length s)).

Lemma stale_info_check : CheckOperationsVerbose KvModel stale_demo 0 [Result 0] (fun _ _ => false) = Ret (Some (Illegal, stale_info)).
Proof. by vm_compute. Qed.

Lemma stale_ops_ok : Forall ops_ok (partitions_of KvModel stale_demo).
Proof.
  assert (partitions_of KvModel stale_demo = [stale_demo]) as -> by (by vm_compute).
  constructor; [|constructor]. split; [repeat constructor|]; cbn; lia.
Qed.

Lemma stale_ends_last : ends_last (partitions_of KvModel stale_demo).
Proof.
  assert (concat (partitions_of KvModel stale_demo) = stale_demo) as Hc by (by vm_compute).
  intros op. rewrite Hc. intros Hop. exists (mkOperation 1 (mkKvInput 0 "x" "") 4 (mkKvOutput "") 5). split.
  - right. right. by left.
  - cbn. unfold stale_demo in Hop. rewrite !elem_of_cons, elem_of_nil in Hop. destruct Hop as [->|[->|[->|[]]]]; cbn; lia.
Qed.

Lemma stale_equal_ok : equal_ok KvModel.
Proof. by apply equal_ok_default. Qed.

Lemma stale_arrivals : arrivals_ok (length (partitions_of KvModel stale_demo)) [Result 0].
Proof. split; eapply bool_decide_unpack; by vm_compute. Qed.

Lemma check_page_witness :
  exists data info' pg, computeVisualizationData KvModel stale_info = Ret (data, info') /\ render char_width data = Ret pg /\
    Forall2 partition_fits (partitions_of KvModel stale_demo) data /\ shows_page char_width data pg.
Proof.
  exact (check_page char_width KvModel stale_demo 0 [Result 0] (fun _ _ => false) Illegal stale_info stale_equal_ok
    stale_ops_ok stale_arrivals stale_info_check stale_ends_last).
Defined.

(** The data of the check of the stale read. *)
Definition stale_data : list partitionVisualizationData :=
  match computeVisualizationData KvModel stale_info with Ret (d, _) => d | _ => [] end.

Lemma stale_data_ok : input_ok stale_data.
Proof.
  destruct (check_input_ok KvModel stale_demo 0 [Result 0] (fun _ _ => false) Illegal stale_info stale_equal_ok
    stale_ops_ok stale_arrivals stale_info_check stale_ends_last) as (data & info' & Hd & _ & Hin).
  unfold stale_data. by rewrite Hd.
Qed.

Lemma layout_optimal_witness :
  exists xPos l, layout char_width (prepare (number_parts 0 stale_data)).1 (prepare (number_parts 0 stale_data)).2 = Ret (xPos, l).
Proof.
  assert (Exists (fun p => History p <> []) stale_data) as Hex by (eapply bool_decide_unpack; by vm_compute).
  pose proof (layout_optimal char_width stale_data stale_data_ok Hex) as Hl.
  destruct (prepare (number_parts 0 stale_data)) as [data times].
  destruct Hl as (xPos & l & lins & _ & Hl & _). exists xPos, l. exact Hl.
Defined.

(** An operation that is called and returns at the last timestamp. *)
Definition instant_demo : list KvOp :=
  [ mkOperation 0 (mkKvInput 1 "x" "a") 0 (mkKvOutput "") 5;
    mkOperation 1 (mkKvInput 0 "x" "") 5 (mkKvOutput "a") 5 ].

Definition instant_info : linearizationInfo :=
  match CheckOperationsVerbose KvModel instant_demo 0 [Result 0] (fun _ _ => false) with
  | Ret (Some (_, info)) => info
  | _ => mkInfo [] []
  end.

Definition instant_data : list partitionVisualizationData :=
  match computeVisualizationData KvModel instant_info with Ret (d, _) => d | _ => [] end.

(** Without an operation that returns after the last call the page fails: the
    end cannot be moved, so the scan places the end of the operation before its
    start has a position, which it reads as undefined. *)
Theorem instant_operation_undefined :
  CheckOperationsVerbose KvModel instant_demo 0 [Result 0] (fun _ _ => false) = Ret (Some (Ok, instant_info)) /\
  computeVisualizationData KvModel instant_info = Ret (instant_data, instant_info) /\
  render char_width instant_data = Panic NilDeref.
Proof. split_and!; by vm_compute. Qed.
