(* ===== verification/RenderUI.v ===== *)
(** * The handlers of the page (the script in src/src/porcupine/visualization.go)

    The page reacts to the mouse: hovering over an operation shows only its
    partition and the linearization that explains it, a click keeps that view
    until the next click, a tooltip describes the operation, and a link jumps
    to the first error that is visible.  The state is what the handlers assign:
    the two variables, the classes of the elements, the handler of the link and
    the tooltip.  Reading an element that does not exist is a failure. *)

From Stdlib Require Import QArith.
From stdpp Require Import pretty.
From S2P Require Import Prelude PorcModel Visualize Render RenderProof RenderData RenderDraw RenderSpec.

#[local] Open Scope Z_scope.

(** ** State *)

(** What a tooltip was computed for; [None] is the array of nulls. *)
Abbreviation tip_key := (Z * Z * bool * Z * Z)%type.

Record ui := mkUi {
  u_selected : bool;
  u_index : Z * Z;
  u_layers : list bool;          (* history layers: hidden *)
  u_partials : list (list bool); (* partial layers: hidden *)
  u_marked : list (list bool);   (* history rectangles: selected *)
  u_inactive : bool;             (* the class of the link *)
  u_jump : option error_point;   (* what the handler of the link goes to *)
  u_opacity : bool;
  u_tip : string;
  u_last : option tip_key;
  u_at : Q * Q;
}.

Definition set_select (sel : bool) (i : Z * Z) (u : ui) : ui :=
  mkUi sel i (u_layers u) (u_partials u) (u_marked u) (u_inactive u) (u_jump u) (u_opacity u) (u_tip u) (u_last u) (u_at u).
Definition set_classes (layers : list bool) (partials : list (list bool)) (u : ui) : ui :=
  mkUi (u_selected u) (u_index u) layers partials (u_marked u) (u_inactive u) (u_jump u) (u_opacity u) (u_tip u) (u_last u) (u_at u).
Definition set_marked (marked : list (list bool)) (u : ui) : ui :=
  mkUi (u_selected u) (u_index u) (u_layers u) (u_partials u) marked (u_inactive u) (u_jump u) (u_opacity u) (u_tip u) (u_last u) (u_at u).
Definition set_jump (inactive : bool) (j : option error_point) (u : ui) : ui :=
  mkUi (u_selected u) (u_index u) (u_layers u) (u_partials u) (u_marked u) inactive j (u_opacity u) (u_tip u) (u_last u) (u_at u).
Definition set_opacity (o : bool) (u : ui) : ui :=
  mkUi (u_selected u) (u_index u) (u_layers u) (u_partials u) (u_marked u) (u_inactive u) (u_jump u) o (u_tip u) (u_last u) (u_at u).
Definition set_tip (tip : string) (key : option tip_key) (u : ui) : ui :=
  mkUi (u_selected u) (u_index u) (u_layers u) (u_partials u) (u_marked u) (u_inactive u) (u_jump u) (u_opacity u) tip key (u_at u).
Definition set_at (at_ : Q * Q) (u : ui) : ui :=
  mkUi (u_selected u) (u_index u) (u_layers u) (u_partials u) (u_marked u) (u_inactive u) (u_jump u) (u_opacity u) (u_tip u) (u_last u) at_.

(** [a[i][j] = x]. *)
Definition idx2_set {A} (a : list (list A)) (i j : Z) (x : A) : outcome (list (list A)) :=
  row ← idx a i;
  row ← idx_set row j x;
  idx_set a i row.

Section handlers.
Context (pg : page).

(** ** Views *)

(** The class [hidden] of the layer that an error point is in. *)
Definition hidden_at (partials : list (list bool)) (pt : error_point) : bool :=
  default true (partials !! er_partition pt ≫= (.!! er_lin pt)).

Definition first_error (partials : list (list bool)) : option error_point :=
  snd <$> list_find (fun pt => hidden_at partials pt = false) (pg_errors pg).

(** The handler of the link stays when the link becomes inactive. *)
Definition updateJump (u : ui) : ui :=
  match first_error (u_partials u) with
  | Some pt => set_jump false (Some pt) u
  | None => set_jump true (u_jump u) u
  end.

Definition linearizationIndex (partition index : Z) : outcome (option Z) :=
  p ← idx (pg_data pg) partition;
  match jp_Largest p !! index with
  | Some i => Ret (Some i)
  | None =>
      d ← idx (pg_drawn pg) partition;
      Ret (Z.of_nat <$> d_largest d !! Z.to_nat index)
  end.

Definition highlight (partition index : Z) (u : ui) : outcome ui :=
  let layers := imap (fun i _ => negb (Z.of_nat i =? partition)) (u_layers u) in
  let partials := (fun row : list bool => (fun _ => true) <$> row) <$> u_partials u in
  maxIndex ← linearizationIndex partition index;
  partials ← match maxIndex with
             | Some m => idx2_set partials partition m false
             | None => Ret partials
             end;
  Ret (updateJump (set_classes layers partials u)).

Definition resetHighlight (u : ui) : ui :=
  let layers := (fun _ => false) <$> u_layers u in
  let partials := (fun row : list bool => imap (fun i _ => negb (i =? 0)%nat) row) <$> u_partials u in
  updateJump (set_classes layers partials u).

(** ** Selection *)

Definition select (partition index : Z) (u : ui) : outcome ui :=
  let u := set_select true (partition, index) u in
  u ← highlight partition index u;
  marked ← idx2_set (u_marked u) partition index true;
  Ret (set_marked marked u).

Definition deselect (u : ui) : outcome ui :=
  if u_selected u then
    let u := resetHighlight (set_select false (u_index u) u) in
    marked ← idx2_set (u_marked u) (u_index u).1 (u_index u).2 false;
    Ret (set_marked marked u)
  else Ret u.

(** ** The tooltip *)

(** The loop that looks for the element: the step before it and its own. *)
Fixpoint find_step (lin : list linearizationStep) (index : Z) (curr : option linearizationStep) :
    option (option linearizationStep * linearizationStep) :=
  match lin with
  | [] => None
  | s :: lin => if Index s =? index then Some (curr, s) else find_step lin index (Some s)
  end.

#[local] Open Scope string_scope.

Definition times_text (el : event) : string :=
  "<br><br>Call: " +:+ pretty (ev_Start el / 2)%Z +:+ "<br><br>Return: " +:+ pretty (ev_OriginalEnd el / 2)%Z.

Definition tip_text (partition index : Z) (sel : bool) (sPartition sIndex : Z) : outcome string :=
  maxIndex ← (if sel then linearizationIndex sPartition sIndex else linearizationIndex partition index);
  if sel && negb (sPartition =? partition)%Z then Ret "Not part of selected partition."
  else match maxIndex with
  | None => Ret (if sel then "Selected element is not part of any partial linearization."
                 else "Not part of any partial linearization.")
  | Some m =>
      p ← idx (pg_data pg) partition;
      lin ← idx (jp_Lins p) m;
      el ← idx (jp_History p) index;
      match find_step lin index None with
      | Some (prev, curr) =>
          Ret (match prev with
               | Some s => "<strong>Previous state:</strong><br>" +:+ StateDescription s +:+ "<br><br>"
               | None => ""
               end +:+ "<strong>New state:</strong><br>" +:+ StateDescription curr +:+ times_text el)
      | None =>
          d ← idx (pg_drawn pg) partition;
          ill ← idx (d_illegal d) m;
          if bool_decide (Z.to_nat index ∈ ill) then
            lst ← read_prop (last lin);
            Ret ("<strong>Previous state:</strong><br>" +:+ StateDescription lst +:+
                 "<br><br><strong>New state:</strong><br>&langle;invalid op&rangle;" +:+ times_text el)
          else Ret "Not part of selected element's partial linearization."
      end
  end.

(** [at_] is where the mouse is. *)
Definition handleMouseMove (partition index : Z) (at_ : Q * Q) (u : ui) : outcome ui :=
  let '(sPartition, sIndex) := u_index u in
  let thisTooltip := (partition, index, u_selected u, sPartition, sIndex) in
  u ← (if decide (u_last u = Some thisTooltip) then Ret u
       else text ← tip_text partition index (u_selected u) sPartition sIndex;
            Ret (set_tip text (Some thisTooltip) u));
  Ret (set_at (at_.1 + 20, at_.2 + 20)%Q u).

(** ** The other handlers *)

Definition handleMouseOver (partition index : Z) (u : ui) : outcome ui :=
  u ← (if u_selected u then Ret u else highlight partition index u);
  Ret (set_opacity true u).

Definition handleMouseOut (u : ui) : ui :=
  let u := if u_selected u then u else resetHighlight u in
  set_tip (u_tip u) None (set_opacity false u).

Definition handleClick (partition index : Z) (u : ui) : outcome ui :=
  if u_selected u then
    let '(sPartition, sIndex) := u_index u in
    if (partition =? sPartition)%Z && (index =? sIndex)%Z then deselect u
    else marked ← idx2_set (u_marked u) sPartition sIndex false;
         select partition index (set_marked marked u)
  else select partition index u.

Definition handleBgClick (u : ui) : outcome ui := deselect u.

(** The handler of the link; an inactive link is not displayed. *)
Definition handleJump (u : ui) : outcome ui :=
  match u_jump u with
  | Some pt => if u_selected u then Ret u else select (Z.of_nat (er_partition pt)) (er_index pt) u
  | None => Ret u
  end.

(** ** Runs *)

(** The elements as they are drawn, before [handleMouseOut] initializes. *)
Definition ui_start : ui :=
  mkUi false (-1, -1)%Z ((fun _ => false) <$> pg_data pg) ((fun p => (fun _ => false) <$> jp_Lins p) <$> pg_data pg)
    ((fun p => (fun _ => false) <$> jp_History p) <$> pg_data pg) false None false "" None (0, 0)%Q.

Inductive ui_event :=
  | MouseOver (partition index : Z)
  | MouseMove (partition index : Z) (at_ : Q * Q)
  | MouseOut
  | Click (partition index : Z)
  | BgClick
  | JumpClick.

Definition ui_step (ev : ui_event) (u : ui) : outcome ui :=
  match ev with
  | MouseOver p i => handleMouseOver p i u
  | MouseMove p i at_ => handleMouseMove p i at_ u
  | MouseOut => Ret (handleMouseOut u)
  | Click p i => handleClick p i u
  | BgClick => handleBgClick u
  | JumpClick => if u_inactive u then Ret u else handleJump u
  end.

Definition ui_run (evs : list ui_event) : outcome ui := for_each ui_step evs (handleMouseOut ui_start).
End handlers.
