(* ===== verification/RenderUIProof.v ===== *)
(** * The handlers refine the screen a user sees

    The screen is the abstract state of the page: the operation that is
    selected, what is shown, and the tooltip.  Whatever the user does, the
    classes of the elements, the marks, the link and the tooltip are those of
    the screen that the events lead to.  No handler fails. *)

From Stdlib Require Import QArith.
From S2P Require Import Prelude PorcModel Visualize Render RenderProof RenderData RenderDraw RenderSpec RenderUI.

#[local] Open Scope Z_scope.

(** What the handlers need of the page. *)
Record page_wf (pg : page) : Prop := {
  pw_drawn : Forall2 (fun p d => length (d_illegal d) = length (jp_Lins p) /\
    forall k li, d_largest d !! k = Some li -> exists ill, d_illegal d !! li = Some ill /\ k ∈ ill) (pg_data pg) (pg_drawn pg);
  pw_largest : forall p k i, p ∈ pg_data pg -> jp_Largest p !! k = Some i -> 0 <= i < Z.of_nat (length (jp_Lins p));
  pw_lins : forall p lin, p ∈ pg_data pg -> lin ∈ jp_Lins p -> lin <> [];
  pw_errors : forall e, e ∈ pg_errors pg -> exists p, pg_data pg !! er_partition e = Some p /\
    0 <= er_index e < Z.of_nat (length (jp_History p));
}.

Section handlers.
Context (pg : page) (Hpg : page_wf pg).

(** An operation of the page. *)
Definition on_page (t : Z * Z) : Prop :=
  exists p, 0 <= t.1 /\ pg_data pg !! Z.to_nat t.1 = Some p /\ 0 <= t.2 < Z.of_nat (length (jp_History p)).

Lemma linearizationIndex_ok partition index : on_page (partition, index) ->
  ensures (linearizationIndex pg partition index) (fun o => forall m, o = Some m ->
    exists p, pg_data pg !! Z.to_nat partition = Some p /\ 0 <= m < Z.of_nat (length (jp_Lins p))).
Proof.
  intros (p & H0 & Hp & Hi). cbn in *. unfold linearizationIndex. rewrite (proj2 (idx_ret _ _ p)) by done.
  cbn [mbind outcome_bind]. destruct (jp_Largest p !! index) as [i|] eqn:El.
  - apply ensures_ret. intros m [= <-]. exists p. split; [done|]. eapply (pw_largest pg Hpg); [|done]. by eapply list_elem_of_lookup_2.
  - destruct (Forall2_lookup_l _ _ _ _ _ (pw_drawn pg Hpg) Hp) as (d & Hd & Hlen & Hlg).
    rewrite (proj2 (idx_ret _ _ d)) by done. cbn [mbind outcome_bind]. apply ensures_ret. intros m Hm.
    apply fmap_Some in Hm as (li & Hli & ->). exists p. split; [done|].
    destruct (Hlg _ _ Hli) as (ill & Hill & _). apply lookup_lt_Some in Hill. lia.
Qed.

(** ** What is shown *)

Inductive view := Everything | Only (partition index : Z).

Definition shown_lin (partition index : Z) : option Z :=
  match linearizationIndex pg partition index with Ret o => o | _ => None end.

(** Everything with the longest linearization of each partition, or one
    partition with the linearization that explains an operation. *)
Definition layers_of (v : view) : list bool :=
  match v with
  | Everything => imap (fun _ _ => false) (pg_data pg)
  | Only p _ => imap (fun pi _ => negb (Z.of_nat pi =? p)) (pg_data pg)
  end.

(** A table with a row for each partition, computed from the positions. *)
Definition table {C} (size : jpart -> nat) (f : nat -> nat -> C) : list (list C) :=
  imap (fun pi p => f pi <$> seq 0 (size p)) (pg_data pg).

Abbreviation n_lins := (fun p => length (jp_Lins p)).
Abbreviation n_els := (fun p => length (jp_History p)).

Definition view_lins (v : view) : list (list bool) :=
  match v with
  | Everything => table n_lins (fun _ li => negb (li =? 0)%nat)
  | Only p i => table n_lins (fun pi li => negb (bool_decide (Z.of_nat pi = p /\ shown_lin p i = Some (Z.of_nat li))))
  end.

Definition marks_of (o : option (Z * Z)) : list (list bool) :=
  table n_els (fun pi k => bool_decide (o = Some (Z.of_nat pi, Z.of_nat k))).

(** The link goes to the first error that is visible. *)
Definition jump_ok (u : ui) : Prop :=
  match first_error pg (u_partials u) with
  | Some pt => u_inactive u = false /\ u_jump u = Some pt
  | None => u_inactive u = true
  end.

Record showing (v : view) (u : ui) : Prop := {
  sw_layers : u_layers u = layers_of v;
  sw_partials : u_partials u = view_lins v;
  sw_jump : jump_ok u;
}.

(** The layers as the handlers see them: only their number matters. *)
Definition shaped (u : ui) : Prop :=
  length (u_layers u) = length (pg_data pg) /\
  Forall2 (fun row p => length row = length (jp_Lins p)) (u_partials u) (pg_data pg).

Lemma table_shape {C} size (f : nat -> nat -> C) : Forall2 (fun row p => length row = size p) (table size f) (pg_data pg).
Proof.
  unfold table. apply Forall2_same_length_lookup_2; [by rewrite length_imap|].
  intros i row p Hr Hp. rewrite list_lookup_imap, Hp in Hr. cbn in Hr. injection Hr as <-. by rewrite length_fmap, length_seq.
Qed.

Lemma showing_shaped v u : showing v u -> shaped u.
Proof.
  intros [H1 H2 _]. unfold shaped. rewrite H1, H2. destruct v; (split; [by cbn; rewrite length_imap|apply table_shape]).
Qed.

(** A loop over a list that only uses positions. *)
Lemma imap_seq {A C} (f : nat -> C) (l : list A) : imap (fun i _ => f i) l = f <$> seq 0 (length l).
Proof.
  apply list_eq. intros i. rewrite list_lookup_imap, list_lookup_fmap. destruct (l !! i) as [x|] eqn:E.
  - apply lookup_lt_Some in E. by rewrite lookup_seq_lt.
  - apply lookup_ge_None in E. by rewrite lookup_seq_ge.
Qed.

Lemma imap_same {A B C} (f : nat -> C) (l : list A) (k : list B) :
  length l = length k -> imap (fun i _ => f i) l = imap (fun i _ => f i) k.
Proof. intros Hl. by rewrite !imap_seq, Hl. Qed.

(** Loops over the rows of a table. *)
Lemma rows_table {A C} size (f : nat -> C) (g : list A -> list C) rows :
  (forall row, g row = f <$> seq 0 (length row)) ->
  Forall2 (fun row p => length row = size p) rows (pg_data pg) -> g <$> rows = table size (fun _ => f).
Proof.
  intros Hg. unfold table. induction 1 as [|row p rows ps Hl _ IH]; [done|]. cbn. rewrite Hg, Hl. f_equal. apply IH.
Qed.

(** Everything but the classes and the link stays. *)
Definition same_rest (u u' : ui) : Prop :=
  u_selected u' = u_selected u /\ u_index u' = u_index u /\ u_marked u' = u_marked u /\
  u_opacity u' = u_opacity u /\ u_tip u' = u_tip u /\ u_last u' = u_last u /\ u_at u' = u_at u.

Lemma updateJump_ok u : jump_ok (updateJump pg u) /\ u_layers (updateJump pg u) = u_layers u /\
  u_partials (updateJump pg u) = u_partials u /\ same_rest u (updateJump pg u).
Proof.
  unfold updateJump, jump_ok. destruct (first_error pg (u_partials u)) as [pt|] eqn:E; cbn; rewrite E; done.
Qed.

Lemma resetHighlight_ok u : shaped u -> showing Everything (resetHighlight pg u) /\ same_rest u (resetHighlight pg u).
Proof.
  intros [H1 H2]. unfold resetHighlight. set (u' := set_classes _ _ u).
  destruct (updateJump_ok u') as (J1 & J2 & J3 & J4). split; [split|].
  - rewrite J2. cbn. rewrite imap_seq, <- H1. clear. induction (u_layers u) as [|x l IH]; [done|]. cbn. rewrite IH.
    f_equal. rewrite <- fmap_S_seq, <- list_fmap_compose. done.
  - rewrite J3. cbn. apply (rows_table n_lins (fun li => negb (li =? 0)%nat)); [|done]. intros row. apply imap_seq.
  - done.
  - done.
Qed.

(** ** Updates of one element *)

Lemma idx2_set_ok {A} (a : list (list A)) (i j : Z) row x :
  0 <= i -> a !! Z.to_nat i = Some row -> 0 <= j < Z.of_nat (length row) ->
  idx2_set a i j x = Ret (<[Z.to_nat i := <[Z.to_nat j := x]> row]> a).
Proof.
  intros Hi Hr Hj. unfold idx2_set. rewrite (proj2 (idx_ret _ _ row)) by done. cbn [mbind outcome_bind].
  rewrite idx_set_ok by lia. cbn [mbind outcome_bind]. apply lookup_lt_Some in Hr. by rewrite idx_set_ok by lia.
Qed.

Lemma table_lookup {C} size (f : nat -> nat -> C) pi p : pg_data pg !! pi = Some p ->
  table size f !! pi = Some (f pi <$> seq 0 (size p)).
Proof. intros Hp. unfold table. by rewrite list_lookup_imap, Hp. Qed.

Lemma table_set {C} size (f g : nat -> nat -> C) (i j : Z) p x :
  0 <= i -> pg_data pg !! Z.to_nat i = Some p -> 0 <= j < Z.of_nat (size p) ->
  (forall pi k, g pi k = if decide (Z.of_nat pi = i /\ Z.of_nat k = j) then x else f pi k) ->
  idx2_set (table size f) i j x = Ret (table size g).
Proof.
  intros Hi Hp Hj Hg.
  rewrite (idx2_set_ok _ i j _ x Hi (table_lookup size f _ p Hp)) by (by rewrite length_fmap, length_seq).
  f_equal. apply list_eq. intros pi. destruct (decide (pi = Z.to_nat i)) as [->|Hne].
  - rewrite (table_lookup size g _ p Hp). rewrite list_lookup_insert_eq.
    2: { unfold table. rewrite length_imap. by eapply lookup_lt_Some. }
    f_equal. apply list_eq. intros k. rewrite list_lookup_fmap. destruct (decide (k = Z.to_nat j)) as [->|Hk].
    + rewrite list_lookup_insert_eq by (rewrite length_fmap, length_seq; lia). rewrite lookup_seq_lt by lia. cbn.
      by rewrite Hg, decide_True by lia.
    + rewrite list_lookup_insert_ne, list_lookup_fmap by done. destruct (seq 0 (size p) !! k) as [k'|] eqn:Ek; [|done].
      apply lookup_seq in Ek as [-> _]. cbn. by rewrite Hg, decide_False by lia.
  - rewrite list_lookup_insert_ne by done. unfold table. rewrite !list_lookup_imap.
    destruct (pg_data pg !! pi) as [q|]; [|done]. cbn. f_equal. apply list_fmap_ext. intros _ k _.
    by rewrite Hg, decide_False by lia.
Qed.

Lemma highlight_ok partition index u : shaped u -> on_page (partition, index) ->
  ensures (highlight pg partition index u) (fun u' => showing (Only partition index) u' /\ same_rest u u').
Proof.
  intros [H1 H2] Ht. destruct (linearizationIndex_ok partition index Ht) as (o & Ho & Hm).
  destruct Ht as (p & H0 & Hp & _). cbn in *. unfold highlight. rewrite Ho. cbn [mbind outcome_bind].
  assert ((fun row : list bool => (fun _ => true) <$> row) <$> u_partials u = table n_lins (fun _ _ => true)) as ->.
  { apply (rows_table n_lins (fun _ => true)); [|done]. intros row. rewrite <- imap_seq.
    clear. induction row as [|b row IH]; [done|]. cbn. by rewrite IH. }
  assert (shown_lin partition index = o) as Hs by (unfold shown_lin; by rewrite Ho).
  assert ((match o with Some m => idx2_set (table n_lins (fun _ _ => true)) partition m false
           | None => Ret (table n_lins (fun _ _ => true)) end) = Ret (view_lins (Only partition index))) as ->.
  { cbn. rewrite Hs. destruct o as [m|].
    - destruct (Hm m eq_refl) as (p' & Hp' & Hlt). assert (p' = p) as -> by congruence.
      eapply table_set; [done..|]. intros pi li. case_decide as Hd.
      + rewrite bool_decide_eq_true_2; [done|]. destruct Hd as [-> ->]. done.
      + rewrite bool_decide_eq_false_2; [done|]. intros [? [= ?]]. apply Hd. done.
    - f_equal. unfold table. apply imap_ext. intros pi q _. apply list_fmap_ext. intros _ li _.
      rewrite bool_decide_eq_false_2; [done|]. by intros [_ ?]. }
  cbn [mbind outcome_bind]. set (u' := set_classes _ _ u). destruct (updateJump_ok u') as (J1 & J2 & J3 & J4).
  apply ensures_ret. split; [split|].
  - rewrite J2. cbn. by apply (imap_same (fun i => negb (Z.of_nat i =? partition))).
  - by rewrite J3.
  - done.
  - done.
Qed.

(** ** What the page promises *)

(** What a user of the page has to know: the operation that is selected, what
    is shown, whether the tooltip is visible, for which operation and under
    which selection its text was made, and where it is. *)
Record screen := mkScreen {
  sc_selected : option (Z * Z);
  sc_view : view;
  sc_visible : bool;
  sc_tip : option ((Z * Z) * option (Z * Z));
  sc_at : Q * Q;
}.

Definition screen_start : screen := mkScreen None Everything false None (0, 0)%Q.

(** The mouse enters or leaves an operation: the view changes unless an
    operation is selected. *)
Definition screen_hover (v : view) (visible : bool) (s : screen) : screen :=
  mkScreen (sc_selected s) (if sc_selected s is Some _ then sc_view s else v) visible (sc_tip s) (sc_at s).

Definition screen_select (t : Z * Z) (s : screen) : screen :=
  mkScreen (Some t) (Only t.1 t.2) (sc_visible s) (sc_tip s) (sc_at s).

Definition screen_deselect (s : screen) : screen :=
  match sc_selected s with
  | Some _ => mkScreen None Everything (sc_visible s) (sc_tip s) (sc_at s)
  | None => s
  end.

Definition error_target (pt : error_point) : Z * Z := (Z.of_nat (er_partition pt), er_index pt).

(** The error that the link goes to: the first one in what is shown. *)
Definition link_of (v : view) : option error_point := first_error pg (view_lins v).

Definition screen_step (s : screen) (ev : ui_event) : screen :=
  match ev with
  | MouseOver p i => screen_hover (Only p i) true s
  | MouseOut => screen_hover Everything false s
  | MouseMove p i at_ =>
      mkScreen (sc_selected s) (sc_view s) (sc_visible s) (Some ((p, i), sc_selected s)) (at_.1 + 20, at_.2 + 20)%Q
  | Click p i => if decide (sc_selected s = Some (p, i)) then screen_deselect s else screen_select (p, i) s
  | BgClick => screen_deselect s
  | JumpClick =>
      match sc_selected s, link_of (sc_view s) with
      | None, Some pt => screen_select (error_target pt) s
      | _, _ => s
      end
  end.

Definition screen_run (evs : list ui_event) : screen := foldl screen_step screen_start evs.

(** ** The page shows a screen *)

Definition selection (u : ui) : option (Z * Z) := if u_selected u then Some (u_index u) else None.

(** The text for an operation under a selection. *)
Definition tip_of (k : (Z * Z) * option (Z * Z)) : outcome string :=
  tip_text pg k.1.1 k.1.2 (bool_decide (is_Some k.2)) (default (-1, -1) k.2).1 (default (-1, -1) k.2).2.

Record shows (s : screen) (u : ui) : Prop := {
  sh_selected : selection u = sc_selected s;
  sh_target : forall t, sc_selected s = Some t -> on_page t /\ sc_view s = Only t.1 t.2;
  sh_view : showing (sc_view s) u;
  sh_marks : u_marked u = marks_of (sc_selected s);
  sh_visible : u_opacity u = sc_visible s;
  sh_tip : match sc_tip s with Some k => tip_of k = Ret (u_tip u) | None => u_tip u = EmptyString end;
  sh_at : u_at u = sc_at s;
}.

(** The cached tooltip is what would be computed for its key. *)
Definition tip_ok (u : ui) : Prop :=
  forall p i s sp si, u_last u = Some (p, i, s, sp, si) -> tip_text pg p i s sp si = Ret (u_tip u).

Definition ui_inv (s : screen) (u : ui) : Prop := shows s u /\ tip_ok u.

Lemma tip_of_selection t u : tip_of (t, selection u) = tip_text pg t.1 t.2 (u_selected u) (u_index u).1 (u_index u).2.
Proof. unfold tip_of, selection. by destruct (u_selected u). Qed.

(** Only the selection, the view and the marks change. *)
Lemma shows_update s u o v u' :
  ui_inv s u -> selection u' = o -> (forall t, o = Some t -> on_page t /\ v = Only t.1 t.2) -> showing v u' ->
  u_marked u' = marks_of o -> u_opacity u' = u_opacity u -> u_tip u' = u_tip u -> u_last u' = u_last u -> u_at u' = u_at u ->
  ui_inv (mkScreen o v (sc_visible s) (sc_tip s) (sc_at s)) u'.
Proof.
  intros [[H1 H2 H3 H4 H5 H6 H7] Htip] Hs Ht Hv Hm Ho Hti Hl Ha. split.
  - split; cbn; [done..|by rewrite Ho|by rewrite Hti|by rewrite Ha].
  - unfold tip_ok. by rewrite Hti, Hl.
Qed.

Lemma marks_set o o' (t : Z * Z) (b : bool) :
  on_page t -> (forall t', (o' = Some t') <-> if b then t' = t else o = Some t' /\ t' <> t) -> (b = true -> o = None) ->
  idx2_set (marks_of o) t.1 t.2 b = Ret (marks_of o').
Proof.
  intros (p & H0 & Hp & Hi) Ho Hb. unfold marks_of. eapply table_set; [done..|]. intros pi k.
  destruct t as [tp ti]. cbn in *. case_decide as Hd.
  - destruct Hd as [-> ->]. destruct b; [by apply bool_decide_eq_true_2, Ho|]. apply bool_decide_eq_false_2. rewrite Ho. tauto.
  - apply bool_decide_ext. rewrite Ho. destruct b.
    + rewrite Hb by done. split; [intros [= ? ?]; destruct Hd; lia|done].
    + split; [by intros [? _]|]. intros ?. split; [done|]. intros [= ? ?]. destruct Hd. lia.
Qed.

Lemma marks_clear t : on_page t -> idx2_set (marks_of (Some t)) t.1 t.2 false = Ret (marks_of None).
Proof. intros Ht. apply (marks_set _ None t false Ht); [|done]. intros t'. split; [done|]. by intros [[= ->] ?]. Qed.

(** Selecting [t] on a page without marks; [u0] differs from it in the marks. *)
Lemma select_ok s t u0 marked : ui_inv s u0 -> on_page t -> marked = marks_of None ->
  ensures (select pg t.1 t.2 (set_marked marked u0)) (ui_inv (screen_select t s)).
Proof.
  intros Hi Ht ->. pose proof (showing_shaped _ _ (sh_view _ _ (proj1 Hi))) as Hsh.
  unfold select. set (u1 := set_select _ _ _).
  destruct (highlight_ok t.1 t.2 u1) as (u2 & -> & Hsw & S1 & S2 & S3 & S4 & S5 & S6 & S7); [done|by destruct t|].
  cbn [mbind outcome_bind]. cbn in S1, S2, S3, S4, S5, S6, S7. rewrite <- surjective_pairing in S2. rewrite S3.
  rewrite (marks_set None (Some t) t true Ht); [|intros t'; split; [by intros [= ->]|by intros ->]|done].
  cbn [mbind outcome_bind]. apply ensures_ret. apply (shows_update s u0); [done| | |by destruct Hsw; split|done..].
  - unfold selection. cbn. by rewrite S1, S2.
  - by intros t' [= <-].
Qed.

Lemma set_marked_same u : set_marked (u_marked u) u = u.
Proof. by destruct u. Qed.

Lemma deselect_ok s u : ui_inv s u -> ensures (deselect pg u) (ui_inv (screen_deselect s)).
Proof.
  intros Hi. pose proof (proj1 Hi) as [H1 H2 H3 H4 _ _ _]. unfold deselect, screen_deselect. rewrite <- H1 in *.
  unfold selection in *. destruct (u_selected u) eqn:Es; [|by apply ensures_ret].
  pose proof (showing_shaped _ _ H3) as Hsh. set (u0 := set_select false (u_index u) u).
  destruct (resetHighlight_ok u0) as (Hall & S1 & S2 & S3 & S4 & S5 & S6 & S7); [done|].
  cbn in S1, S2, S3, S4, S5, S6, S7. rewrite S2, S3, H4, marks_clear by (by apply (H2 (u_index u))).
  cbn [mbind outcome_bind]. apply ensures_ret. apply (shows_update s u); [done| |done|by destruct Hall; split|done..].
  unfold selection. cbn. by rewrite S1.
Qed.

Lemma tip_text_ok t sel st : on_page t -> (sel = true -> on_page st) ->
  exists text, tip_text pg t.1 t.2 sel st.1 st.2 = Ret text.
Proof.
  intros Ht Hst. unfold tip_text. set (q := if sel then st else t).
  assert (on_page q) as Hq by (unfold q; destruct sel; auto).
  assert ((if sel then linearizationIndex pg st.1 st.2 else linearizationIndex pg t.1 t.2) = linearizationIndex pg q.1 q.2) as ->
    by (unfold q; by destruct sel).
  destruct (linearizationIndex_ok q.1 q.2) as (o & -> & Hm); [by destruct q|]. cbn [mbind outcome_bind].
  destruct (sel && negb (st.1 =? t.1)) eqn:Eother; [by eexists|]. destruct o as [m|]; [|by eexists].
  assert (q.1 = t.1) as Hqt.
  { unfold q. destruct sel; [|done]. cbn in Eother. apply negb_false_iff, Z.eqb_eq in Eother. done. }
  destruct (Hm m eq_refl) as (p & Hp & Hlt). rewrite Hqt in Hp. destruct Ht as (p' & H0 & Hp' & Hi). cbn in *.
  assert (p' = p) as -> by congruence.
  rewrite (proj2 (idx_ret _ _ p)) by done. cbn [mbind outcome_bind].
  destruct (lookup_lt_is_Some_2 (jp_Lins p) (Z.to_nat m)) as [lin Hlin]; [lia|].
  rewrite (proj2 (idx_ret _ _ lin)) by (split; [lia|done]). cbn [mbind outcome_bind].
  destruct (lookup_lt_is_Some_2 (jp_History p) (Z.to_nat t.2)) as [el Hel]; [lia|].
  rewrite (proj2 (idx_ret _ _ el)) by (split; [lia|done]). cbn [mbind outcome_bind].
  destruct (find_step lin t.2 None) as [[prev curr]|]; [by eexists|].
  destruct (Forall2_lookup_l _ _ _ _ _ (pw_drawn pg Hpg) Hp) as (d & Hd & Hlen & _).
  rewrite (proj2 (idx_ret _ _ d)) by done. cbn [mbind outcome_bind].
  destruct (lookup_lt_is_Some_2 (d_illegal d) (Z.to_nat m)) as [ill Hill]; [lia|].
  rewrite (proj2 (idx_ret _ _ ill)) by (split; [lia|done]). cbn [mbind outcome_bind].
  case_bool_decide; [|by eexists]. destruct (last lin) as [lst|] eqn:El; [by eexists|].
  apply last_None in El. subst lin. destruct (pw_lins pg Hpg p []); [by eapply list_elem_of_lookup_2..|done].
Qed.

(** ** The handlers *)

(** The events that a user can cause: the targets are drawn operations. *)
Definition possible (ev : ui_event) : Prop :=
  match ev with
  | MouseOver p i | MouseMove p i _ | Click p i => on_page (p, i)
  | MouseOut | BgClick | JumpClick => True
  end.

Lemma handleMouseMove_ok s t at_ u : on_page t -> ui_inv s u ->
  ensures (handleMouseMove pg t.1 t.2 at_ u) (ui_inv (screen_step s (MouseMove t.1 t.2 at_))).
Proof.
  intros Ht Hi. destruct Hi as [[H1 H2 H3 H4 H5 H6 H7] Htip]. unfold handleMouseMove.
  pose proof (tip_of_selection t u) as Hof. rewrite H1 in Hof.
  destruct (u_index u) as [sp si] eqn:Ei. cbn [fst snd] in Hof.
  assert (exists text, tip_text pg t.1 t.2 (u_selected u) sp si = Ret text) as (text & Htext).
  { apply (tip_text_ok t (u_selected u) (sp, si) Ht). intros Es. apply H2. rewrite <- H1. unfold selection. by rewrite Es, Ei. }
  assert (forall u', u_selected u' = u_selected u -> u_index u' = u_index u -> u_layers u' = u_layers u -> u_partials u' = u_partials u ->
    u_marked u' = u_marked u -> u_inactive u' = u_inactive u -> u_jump u' = u_jump u -> u_opacity u' = u_opacity u ->
    u_tip u' = text -> tip_ok u' -> u_at u' = (at_.1 + 20, at_.2 + 20)%Q ->
    ui_inv (screen_step s (MouseMove t.1 t.2 at_)) u') as Hfin.
  { intros u' E1 E2 E3 E4 E5 E6 E7 E8 E9 E10 E11. split; [|done]. split; cbn; [|done| |congruence|congruence| |done].
    - unfold selection in *. by rewrite E1, E2.
    - destruct H3 as [V1 V2 V3]. split; [congruence..|]. unfold jump_ok in *. by rewrite E4, E6, E7.
    - rewrite <- surjective_pairing, Hof. by rewrite E9. }
  destruct (decide _) as [Hl|Hl].
  - apply ensures_ret. apply Hfin; try done. cbn. apply Htip in Hl. rewrite Htext in Hl. by injection Hl.
  - rewrite Htext. cbn [mbind outcome_bind]. apply ensures_ret. apply Hfin; try done.
    intros p i x sp' si'. cbn. by intros [= <- <- <- <- <-].
Qed.

Lemma handleMouseOver_ok s p i u : on_page (p, i) -> ui_inv s u ->
  ensures (handleMouseOver pg p i u) (ui_inv (screen_hover (Only p i) true s)).
Proof.
  intros Ht [[H1 H2 H3 H4 H5 H6 H7] Htip]. unfold handleMouseOver, screen_hover. rewrite <- H1 in *. unfold selection in *.
  destruct (u_selected u) eqn:Es.
  - apply ensures_ret. split; [|done]. split; cbn; [unfold selection; cbn; by rewrite Es|done|by destruct H3; split|done..].
  - destruct (highlight_ok p i u (showing_shaped _ _ H3) Ht) as (u1 & -> & Hsw & S1 & S2 & S3 & S4 & S5 & S6 & S7).
    cbn [mbind outcome_bind]. apply ensures_ret. split.
    + split; cbn; [unfold selection; cbn; by rewrite S1, Es|done|by destruct Hsw; split|by rewrite S3|done|by rewrite S5|by rewrite S7].
    + unfold tip_ok. cbn. by rewrite S5, S6.
Qed.

Lemma handleMouseOut_ok s u : ui_inv s u -> ui_inv (screen_hover Everything false s) (handleMouseOut pg u).
Proof.
  intros [[H1 H2 H3 H4 H5 H6 H7] _]. unfold handleMouseOut, screen_hover. rewrite <- H1 in *. unfold selection in *.
  destruct (u_selected u) eqn:Es; (split; [|done]).
  - split; cbn; [unfold selection; cbn; by rewrite Es|done|by destruct H3; split|done..].
  - destruct (resetHighlight_ok u (showing_shaped _ _ H3)) as (Hall & S1 & S2 & S3 & S4 & S5 & S6 & S7).
    split; cbn; [unfold selection; cbn; by rewrite S1, Es|done|by destruct Hall; split|by rewrite S3|done|by rewrite S5|by rewrite S7].
Qed.

Lemma handleClick_ok s p i u : on_page (p, i) -> ui_inv s u ->
  ensures (handleClick pg p i u) (ui_inv (screen_step s (Click p i))).
Proof.
  intros Ht Hi. pose proof (proj1 Hi) as [H1 H2 _ H4 _ _ _]. unfold handleClick. cbn [screen_step].
  rewrite <- H1 in H2, H4 |- *. unfold selection in H2, H4 |- *. destruct (u_selected u) eqn:Es.
  - destruct (u_index u) as [sp si] eqn:Ei. destruct ((p =? sp) && (i =? si)) eqn:Eq.
    + rewrite decide_True; [by apply deselect_ok|]. apply andb_true_iff in Eq as [->%Z.eqb_eq ->%Z.eqb_eq]. done.
    + rewrite decide_False by (intros [= -> ->]; by rewrite !Z.eqb_refl in Eq).
      pose proof (marks_clear (sp, si)) as Hc. cbn in Hc. rewrite H4, Hc by (by apply (H2 (sp, si))). cbn [mbind outcome_bind]. by apply (select_ok s (p, i)).
  - rewrite decide_False by done. rewrite <- (set_marked_same u). by apply (select_ok s (p, i)).
Qed.

Lemma jump_step_ok s u : ui_inv s u -> ensures (ui_step pg JumpClick u) (ui_inv (screen_step s JumpClick)).
Proof.
  intros Hi. pose proof (proj1 Hi) as [H1 _ [_ V2 Hj] H4 _ _ _]. unfold jump_ok in Hj. rewrite V2 in Hj.
  cbn [ui_step screen_step]. unfold link_of. rewrite <- H1 in H4 |- *. unfold selection in *.
  destruct (first_error pg (view_lins (sc_view s))) as [pt|] eqn:Ef; [|rewrite Hj; apply ensures_ret; by destruct (u_selected u)].
  destruct Hj as [-> Hj]. unfold handleJump. rewrite Hj. destruct (u_selected u); [by apply ensures_ret|].
  rewrite <- (set_marked_same u). apply (select_ok s (error_target pt)); [done| |done].
  unfold first_error in Ef. apply fmap_Some in Ef as ([k e] & Hf & ->). apply list_find_Some in Hf as (Hk & _).
  destruct (pw_errors pg Hpg e) as (jp & Hjp & Hidx); [by eapply list_elem_of_lookup_2|].
  exists jp. cbn. rewrite Nat2Z.id. split_and!; [lia|done|lia..].
Qed.

Lemma ui_step_ok s ev u : possible ev -> ui_inv s u -> ensures (ui_step pg ev u) (ui_inv (screen_step s ev)).
Proof.
  intros Hev Hi. destruct ev as [p i|p i at_| |p i| |].
  - by apply handleMouseOver_ok.
  - by apply (handleMouseMove_ok s (p, i)).
  - apply ensures_ret. by apply handleMouseOut_ok.
  - by apply handleClick_ok.
  - by apply deselect_ok.
  - by apply jump_step_ok.
Qed.

Lemma start_marks : (fun p => (fun _ => false) <$> jp_History p) <$> pg_data pg = marks_of None.
Proof.
  unfold marks_of, table. apply list_eq. intros pi. rewrite list_lookup_fmap, list_lookup_imap.
  destruct (pg_data pg !! pi) as [p|]; [|done]. cbn. f_equal. generalize (jp_History p), 0%nat. intros l.
  induction l as [|x l IH]; intros k; [done|]. cbn. f_equal. apply IH.
Qed.

Lemma ui_start_ok : ui_inv screen_start (handleMouseOut pg (ui_start pg)).
Proof.
  assert (shaped (ui_start pg)) as Hsh.
  { split; cbn; [by rewrite length_fmap|]. apply Forall2_fmap_l. apply Forall_Forall2_diag, Forall_forall.
    intros p _. cbn. by rewrite length_map. }
  destruct (resetHighlight_ok _ Hsh) as (Hall & S1 & S2 & S3 & S4 & S5 & S6 & S7). unfold handleMouseOut. cbn [ui_start u_selected].
  cbn in S1, S2, S3, S5, S7. split; [|done].
  split; cbn; [unfold selection; cbn; by rewrite S1|done|by destruct Hall; split|by rewrite S3, start_marks|done|by rewrite S5|by rewrite S7].
Qed.

Lemma ui_run_ok evs : Forall possible evs -> ensures (ui_run pg evs) (shows (screen_run evs)).
Proof.
  intros Hev. unfold ui_run. eapply ensures_mono; [apply (for_each_ensures _ (fun pre => ui_inv (screen_run pre)))|by intros u [? _]].
  - intros pre ev post u Hsplit Hi. unfold screen_run. rewrite foldl_app. cbn. apply ui_step_ok; [|done].
    rewrite Forall_forall in Hev. apply Hev. rewrite Hsplit. set_solver.
  - apply ui_start_ok.
Qed.
End handlers.
