(* ===== verification/RenderUISpec.v ===== *)
(** * Using the page of a check

    The tables that the drawing leaves for the handlers are right, so every
    sequence of events on the page of a check keeps the page consistent, and an
    operation is explained by a longest linearization that has it or that it
    may not continue. *)

From Stdlib Require Import QArith.
From S2P Require Import Prelude PorcModel Linked Checker SearchProof LinSpec CheckerCorrect ParallelCorrect KvModel PorcSpec Visualize Render RenderProof RenderData RenderDraw RenderSpec RenderUI RenderUIProof.

#[local] Open Scope Z_scope.

(** ** The tables of the drawing *)

(** The elements that may not continue a linearization. *)
Definition illegal_keys (p : jpart) (lin : list linearizationStep) : list nat := (illegal_next p lin).*1.

(** [o] is a longest of the linearizations [lins] that [k] may not continue,
    and [n] is its length. *)
Definition longest_illegal (p : jpart) (lins : list (list linearizationStep)) (k : nat) (o n : option nat) : Prop :=
  match o, n with
  | Some li, Some n => exists lin, lins !! li = Some lin /\ length lin = n /\ k ∈ illegal_keys p lin /\
      forall lin', lin' ∈ lins -> k ∈ illegal_keys p lin' -> (length lin' <= n)%nat
  | None, None => forall lin', lin' ∈ lins -> k ∉ illegal_keys p lin'
  | _, _ => False
  end.

Definition error_ok (pi : nat) (p : jpart) (e : error_point) : Prop :=
  er_partition e = pi /\ exists lin id, lin ∈ jp_Lins p /\ last lin = Some id /\ Index id = er_index e.

(** After the linearizations [lins] of partition [pi]. *)
Record tables_ok (pi : nat) (p : jpart) (lins : list (list linearizationStep)) (d : drawn) : Prop := {
  tb_illegal : d_illegal d = (fun lin => list_to_set (illegal_keys p lin)) <$> lins;
  tb_largest : forall k, longest_illegal p lins k (d_largest d !! k) (d_largestLen d !! k);
  tb_errors : Forall (error_ok pi p) (d_errors d);
}.

Lemma longest_illegal_other p lins lin k o n :
  longest_illegal p lins k o n -> k ∉ illegal_keys p lin -> longest_illegal p (lins ++ [lin]) k o n.
Proof.
  unfold longest_illegal. intros H Hk. destruct o as [li|], n as [n|]; try done.
  - destruct H as (lin0 & H1 & H2 & H3 & H4). exists lin0. split_and!; [by apply lookup_app_l_Some|done..|].
    intros lin' [Hin|Hin]%elem_of_app; [auto|]. apply list_elem_of_singleton in Hin as ->. done.
  - intros lin' [Hin|Hin]%elem_of_app; [auto|]. by apply list_elem_of_singleton in Hin as ->.
Qed.

(** The update of [largestIllegal] for an element of the next linearization. *)
Lemma longest_illegal_update p lins lin k o n :
  longest_illegal p lins k o n -> k ∈ illegal_keys p lin ->
  let fresh := match n with None => true | Some m => (m <? length lin)%nat end in
  longest_illegal p (lins ++ [lin]) k (if fresh then Some (length lins) else o) (if fresh then Some (length lin) else n).
Proof.
  unfold longest_illegal. intros H Hk. destruct o as [li|], n as [n|]; try done; cbn zeta.
  - destruct H as (lin0 & H1 & H2 & H3 & H4). destruct (Nat.ltb_spec n (length lin)) as [Hlt|Hge].
    + exists lin. split_and!; [by apply list_lookup_middle|done..|].
      intros lin' [Hin|Hin]%elem_of_app Hk'; [specialize (H4 lin' Hin Hk'); lia|]. by apply list_elem_of_singleton in Hin as ->.
    + exists lin0. split_and!; [by apply lookup_app_l_Some|done..|].
      intros lin' [Hin|Hin]%elem_of_app Hk'; [auto|]. by apply list_elem_of_singleton in Hin as ->.
  - exists lin. split_and!; [by apply list_lookup_middle|done..|].
    intros lin' [Hin|Hin]%elem_of_app Hk'; [by destruct (H lin' Hin)|]. by apply list_elem_of_singleton in Hin as ->.
Qed.

(** The loop over the illegal next elements of [lin], the one after [lins]. *)
Lemma draw_illegals_tables xPos pi p lins lin prev lines d s' :
  lin ∈ jp_Lins p -> tables_ok pi p lins d ->
  for_each (draw_illegal xPos pi (length lins) lin prev) (illegal_next p lin) (lines, ∅, d) = Ret s' ->
  let '(_, ill, d') := s' in
  ill = list_to_set (illegal_keys p lin) /\ d_illegal d' = d_illegal d /\ Forall (error_ok pi p) (d_errors d') /\
  forall k, longest_illegal p (lins ++ [lin]) k (d_largest d' !! k) (d_largestLen d' !! k).
Proof.
  intros Hlin [T1 T2 T3] Hrun.
  eapply (for_each_preserves _ (fun pre '(_, ill, d') =>
    ill = list_to_set pre.*1 /\ d_illegal d' = d_illegal d /\ Forall (error_ok pi p) (d_errors d') /\
    forall k, longest_illegal p (if decide (k ∈ pre.*1) then lins ++ [lin] else lins) k (d_largest d' !! k) (d_largestLen d' !! k)))
    in Hrun; [destruct s' as [[lines' ill] d']; destruct Hrun as (H1 & H2 & H3 & H4)| |].
  - split_and!; try done. intros k. specialize (H4 k). case_decide; [done|]. by apply longest_illegal_other.
  - intros pre [k el] post [[lines1 ill] d1] s2 Hsplit (H1 & H2 & H3 & H4) Hstep. unfold draw_illegal in Hstep.
    apply bind_ret_inv in Hstep as (px & _ & Hstep). apply bind_ret_inv in Hstep as ([[e x1] y1] & _ & Hstep).
    apply bind_ret_inv in Hstep as (lst & Hlst & [= <-]). rewrite fmap_app. cbn [fmap list_fmap fst]. split_and!.
    + rewrite H1, list_to_set_app_L. cbn. set_solver.
    + done.
    + cbn. apply Forall_app. split; [done|]. constructor; [|done]. split; [done|]. exists lin, lst. split_and!; try done.
      by destruct (last lin); [injection Hlst as ->|].
    + pose proof (illegal_next_NoDup p lin) as Hnd. rewrite Hsplit, fmap_app in Hnd. cbn in Hnd.
      apply NoDup_app in Hnd as (_ & Hnd & _).
      assert (k ∉ pre.*1) as Hfresh by (intros Hk; apply (Hnd k Hk); by left).
      assert (k ∈ illegal_keys p lin) as Hkey by (unfold illegal_keys; rewrite Hsplit, fmap_app; apply elem_of_app; right; by left).
      intros k'. specialize (H4 k'). destruct (decide (k' = k)) as [->|Hne].
      * rewrite decide_False in H4 by done. rewrite decide_True by (apply elem_of_app; right; by left). cbn.
        pose proof (longest_illegal_update p lins lin k _ _ H4 Hkey) as Hu. cbn zeta in Hu.
        destruct (match d_largestLen d1 !! k with Some m => _ | None => _ end); [by rewrite !lookup_insert_eq|done].
      * assert (k' ∈ pre.*1 ++ [k] <-> k' ∈ pre.*1) as Hiff by (rewrite elem_of_app, list_elem_of_singleton; tauto).
        rewrite (decide_ext _ _ _ _ Hiff). cbn.
        destruct (match d_largestLen d1 !! k with Some m => _ | None => _ end); [by rewrite !lookup_insert_ne by done|done].
  - split_and!; [done..|]. intros k. by rewrite decide_False by (apply not_elem_of_nil).
Qed.

Lemma draw_lins_tables xPos pi p s' :
  for_each (draw_lin xPos pi p) (jp_Lins p) (0%nat, mkDrawn [] [] ∅ ∅ []) = Ret s' -> tables_ok pi p (jp_Lins p) s'.2.
Proof.
  intros Hrun. eapply (for_each_preserves _ (fun pre s => s.1 = length pre /\ tables_ok pi p pre s.2)) in Hrun as [_ H]; [done| |].
  - intros pre lin post [li d] [li' d'] Hsplit [Hli Ht] Hstep. cbn [fst snd] in *. subst li. unfold draw_lin in Hstep.
    apply bind_ret_inv in Hstep as ([lines prev] & _ & Hstep). apply bind_ret_inv in Hstep as (s1 & Hill & Hstep).
    assert (lin ∈ jp_Lins p) as Hlin by (rewrite Hsplit; apply elem_of_app; right; by left).
    pose proof (draw_illegals_tables _ _ _ _ _ _ _ _ _ Hlin Ht Hill) as Hd. destruct s1 as [[lines1 ill] d1].
    destruct Hd as (H1 & H2 & H3 & H4). injection Hstep as <- <-. rewrite length_app, Nat.add_1_r. split; [done|]. split; cbn.
    + rewrite H2, (tb_illegal _ _ _ _ Ht), fmap_app, H1. done.
    + done.
    + done.
  - split; [done|]. split; cbn; [done| |done]. intros k. rewrite !lookup_empty. by intros lin' ?%not_elem_of_nil.
Qed.

Lemma draw_partitions_tables xPos ps s' :
  for_each (draw_partition xPos) ps (0%nat, []) = Ret s' ->
  length s'.2 = length ps /\
  forall pi p d, ps !! pi = Some p -> s'.2 !! pi = Some d -> tables_ok pi p (jp_Lins p) d.
Proof.
  intros Hrun. eapply (for_each_preserves _ (fun pre s => s.1 = length pre /\ length s.2 = length pre /\
    forall pi p d, pre !! pi = Some p -> s.2 !! pi = Some d -> tables_ok pi p (jp_Lins p) d)) in Hrun as (_ & H1 & H2); [done| |].
  - intros pre p post [n ds] [n' ds'] Hsplit (Hn & Hl & Hall) Hstep. cbn [fst snd] in *. subst n. unfold draw_partition in Hstep.
    apply bind_ret_inv in Hstep as (s1 & Hrun1 & Hstep). pose proof (draw_lins_tables _ _ _ _ Hrun1) as Ht.
    destruct s1 as [li d]. injection Hstep as <- <-. rewrite !length_app, Nat.add_1_r. cbn. split_and!; [done|lia|].
    intros pi p' d' [Hp|[Hge Hp]]%lookup_app_Some Hd'.
    + rewrite lookup_app_l in Hd' by (apply lookup_lt_Some in Hp; lia). by eapply Hall.
    + apply list_lookup_singleton_Some in Hp as [Hz <-]. assert (pi = length pre) as -> by lia.
      rewrite lookup_app_r, Hl, Nat.sub_diag in Hd' by lia. cbn in Hd'. injection Hd' as <-. done.
  - split_and!; [done..|]. by intros pi p d ?.
Qed.

(** ** The page of a check *)

Section page.
Context (bbox_width : string -> Q) `{!GoSort ends_before} `{!GoSort left_of}.

Lemma render_tables input pg : render bbox_width input = Ret pg ->
  pg_data pg = data (number_parts 0 input) /\ length (pg_drawn pg) = length (pg_data pg) /\
  (forall pi p d, pg_data pg !! pi = Some p -> pg_drawn pg !! pi = Some d -> tables_ok pi p (jp_Lins p) d) /\
  pg_errors pg ≡ₚ pg_drawn pg ≫= d_errors.
Proof.
  unfold render. rewrite prepare_eq. intros ([xPos l] & _ & Hr)%bind_ret_inv. apply bind_ret_inv in Hr as (right & _ & Hr).
  apply bind_ret_inv in Hr as (boxes & _ & Hr). apply bind_ret_inv in Hr as (s & Hds & Hr).
  apply draw_partitions_tables in Hds as [Hl Ht]. destruct s as [n ds]. injection Hr as <-. cbn in *.
  split_and!; [done..|apply go_sort_perm].
Qed.

Lemma render_wf input pg :
  input_ok input -> (forall p k i, p ∈ input -> Largest p !! k = Some i -> 0 <= i < Z.of_nat (length (PartialLinearizations p))) ->
  render bbox_width input = Ret pg -> page_wf pg.
Proof.
  intros Hin Hlg Hr. destruct (render_tables input pg Hr) as (Hdata & Hlen & Ht & Herr).
  pose proof (number_parts_ok input Hin) as Hok.
  assert (forall jp, jp ∈ pg_data pg -> exists p, p ∈ input /\ part_of input p jp) as Hpart.
  { intros jp [i Hi]%list_elem_of_lookup. rewrite Hdata in Hi.
    destruct (Forall2_lookup_r _ _ _ _ _ (parts_match input) Hi) as (p & Hp & ?). exists p. split; [by eapply list_elem_of_lookup_2|done]. }
  split.
  - apply Forall2_same_length_lookup_2; [done|]. intros i p d Hp Hd. destruct (Ht i p d Hp Hd) as [T1 T2 _].
    rewrite T1, length_fmap. split; [done|]. intros k li Hk. specialize (T2 k). rewrite Hk in T2.
    destruct (d_largestLen d !! k); [|done]. destruct T2 as (lin & Hli & _ & Hkey & _).
    exists (list_to_set (illegal_keys p lin)). rewrite list_lookup_fmap, Hli. split; [done|]. by apply elem_of_list_to_set.
  - intros jp k i (p & Hp & gid & -> & _)%Hpart. cbn. by apply Hlg.
  - intros jp lin (p & Hp & gid & -> & _)%Hpart. cbn. by apply (in_nonempty _ Hin).
  - intros e He. rewrite Herr in He. apply list_elem_of_bind in He as (d & He & Hd). apply list_elem_of_lookup in Hd as [i Hi].
    destruct (lookup_lt_is_Some_2 (pg_data pg) i) as [jp Hjp]; [rewrite <- Hlen; by eapply lookup_lt_Some|].
    pose proof (tb_errors _ _ _ _ (Ht i jp d Hjp Hi)) as Hall. rewrite Forall_forall in Hall.
    destruct (Hall e He) as (-> & lin & id & Hlin & Hlast & <-). exists jp. split; [done|].
    assert (id ∈ lin) as Hid by (by apply last_Some_elem_of).
    destruct (Hpart jp ltac:(by eapply list_elem_of_lookup_2)) as (p & Hp & Hpo).
    destruct (part_length _ _ _ Hpo) as [-> Hlins]. rewrite Hlins in Hlin. by apply (in_lins _ Hin p lin).
Qed.

(** The linearization that explains operation [k] of a partition. *)
Definition explains (d : partitionVisualizationData) (k : nat) (o : option Z) : Prop :=
  let has lin := Z.of_nat k ∈ Index <$> lin in
  let next lin := could_be_next (History d) lin k in
  match o with
  | Some i => exists lin, 0 <= i /\ PartialLinearizations d !! Z.to_nat i = Some lin /\
      ((has lin /\ forall lin', lin' ∈ PartialLinearizations d -> has lin' -> (length lin' <= length lin)%nat) \/
       (next lin /\ forall lin', lin' ∈ PartialLinearizations d ->
          ~ has lin' /\ (next lin' -> (length lin' <= length lin)%nat)))
  | None => forall lin, lin ∈ PartialLinearizations d -> ~ has lin /\ ~ next lin
  end.

Context {I O : Type}.

Lemma linearization_explains (parts : list (list (Operation I O))) `{!GoSort (@Less I O)} input pg pi d k :
  Forall2 partition_fits parts input -> input_ok input -> render bbox_width input = Ret pg ->
  input !! pi = Some d -> (k < length (History d))%nat ->
  ensures (linearizationIndex pg (Z.of_nat pi) (Z.of_nat k)) (explains d k).
Proof.
  intros Hf Hin Hr Hd Hk. destruct (render_tables input pg Hr) as (Hdata & Hlen & Ht & _).
  destruct (Forall2_lookup_r _ _ _ _ _ Hf Hd) as (ops & _ & Hfit).
  destruct (Forall2_lookup_l _ _ _ _ _ (parts_match input) Hd) as (jp & Hjp & Hpo). rewrite <- Hdata in Hjp.
  destruct (lookup_lt_is_Some_2 (pg_drawn pg) pi) as [dr Hdr]; [rewrite Hlen; by eapply lookup_lt_Some|].
  unfold linearizationIndex. rewrite (idx_lookup _ _ jp Hjp). cbn [mbind outcome_bind].
  destruct (part_length _ _ _ Hpo) as [_ Hlins]. assert (jp_Largest jp = Largest d) as -> by (by destruct Hpo as (gid & -> & _)).
  destruct (Largest d !! Z.of_nat k) as [i|] eqn:El.
  - apply ensures_ret. destruct (pf_largest _ _ Hfit _ _ El) as (lin & H0 & H1 & H2 & H3). exists lin. split_and!; [done..|]. by left.
  - rewrite (idx_lookup _ _ dr Hdr). cbn [mbind outcome_bind]. apply ensures_ret. rewrite Nat2Z.id.
    pose proof (tb_largest _ _ _ _ (Ht pi jp dr Hjp Hdr) k) as Hlg. rewrite Hlins in Hlg.
    assert (forall lin, k ∈ illegal_keys jp lin <-> could_be_next (History d) lin k) as Hkey
      by (intros lin; by apply (illegal_next_elem input)).
    destruct (d_largest dr !! k) as [li|], (d_largestLen dr !! k) as [n|]; try done; cbn in *.
    + destruct Hlg as (lin & H1 & <- & H3 & H4). exists lin. rewrite Nat2Z.id. split_and!; [lia|done|]. right.
      split; [by apply Hkey|]. intros lin' Hl'. split; [by apply (pf_no_largest _ _ Hfit _ _ El)|].
      intros Hn. apply H4; [done|by apply Hkey].
    + intros lin Hl'. split; [by apply (pf_no_largest _ _ Hfit _ _ El)|]. intros Hn. by apply (Hlg lin Hl'), Hkey.
Qed.
End page.

(** C13: the page of a check can be used.  For a check whose calls all start
    before the last return, whatever the user does with the mouse on the drawn
    operations, no handler fails and the page shows exactly the screen that the
    events lead to.  Hovering shows only the operation's partition with the
    linearization that explains the operation, leaving shows everything again,
    neither while an operation is selected; a click selects, a click on the
    selected operation or the background deselects; the link goes to the first
    error in what is shown and following it selects the operation linearized
    last before the error; exactly the selected operation is marked; the tooltip is visible while the mouse is over
    an operation, and its text is the one for the operation the mouse last moved
    on, under the selection there was at that moment.  The linearization that is
    shown for an operation is a longest one that has it, or else a longest one
    that it could have continued but may not; if none is shown there is none of
    either kind. *)
Theorem page_interaction (bbox_width : string -> Q) `{!GoSort ends_before} `{!GoSort left_of}
    {I O St : Type} `{!EqDecision St} `{!Format I, !Format O, !Format St} `{!RangeOrder seq_ptr} `{!GoSort (@Less I O)} `{!GoSort longer}
    (model : Model I O St) history timeout evs kill res info data info' pg :
  equal_ok model -> Forall ops_ok (partitions_of model history) ->
  arrivals_ok (length (partitions_of model history)) evs ->
  CheckOperationsVerbose model history timeout evs kill = Ret (Some (res, info)) ->
  ends_last (partitions_of model history) ->
  computeVisualizationData model info = Ret (data, info') -> render bbox_width data = Ret pg ->
  (forall us, Forall (possible pg) us -> ensures (ui_run pg us) (shows pg (screen_run pg us))) /\
  (forall pi d k, data !! pi = Some d -> (k < length (History d))%nat ->
     ensures (linearizationIndex pg (Z.of_nat pi) (Z.of_nat k)) (explains d k)).
Proof.
  intros Heq Hok Harr Hc Hlast Hd Hr.
  destruct (check_input_ok model history timeout evs kill res info Heq Hok Harr Hc Hlast) as (data' & info2 & Hd' & Hf & Hin).
  rewrite Hd in Hd'. injection Hd' as <- <-. split.
  - intros us Hus. apply ui_run_ok; [|done]. eapply render_wf; [done| |done].
    intros p k i [pi Hp]%list_elem_of_lookup Hl. destruct (Forall2_lookup_r _ _ _ _ _ Hf Hp) as (ops & _ & Hfit).
    destruct (pf_largest _ _ Hfit _ _ Hl) as (lin & ? & Hi & _). apply lookup_lt_Some in Hi. lia.
  - intros pi d k. by eapply linearization_explains.
Qed.

(** The page of the stale read, and a user who hovers over the read that is
    not linearizable, follows the link and clicks. *)
Definition stale_page : page :=
  match render char_width stale_data with Ret pg => pg | _ => mkPage 0 0 [] [] [] [] end.

Definition stale_events : list ui_event :=
  [MouseOver 0 2; MouseMove 0 2 (7, 9)%Q; MouseOut; JumpClick; MouseMove 0 1 (1, 1)%Q; Click 0 0; BgClick].

Lemma stale_events_possible : Forall (possible stale_page) stale_events.
Proof.
  assert (forall k, 0 <= k < 3 -> on_page stale_page (0, k)) as Hon.
  { intros k Hk. destruct (pg_data stale_page) as [|jp l] eqn:E; [by vm_compute in E|].
    exists jp. cbn. rewrite E. split_and!; [lia|done|lia|].
    assert (option_map (fun p => length (jp_History p)) (head (pg_data stale_page)) = Some 3%nat) as Hl by (by vm_compute).
    rewrite E in Hl. cbn in Hl. injection Hl as ->. lia. }
  repeat constructor; apply Hon; lia.
Qed.

(** The link selects the operation before the error, a click moves the selection
    and the background takes it away; the tooltip still has the text of the last
    move. *)
Lemma page_interaction_witness :
  screen_run stale_page stale_events = mkScreen None Everything false (Some ((0, 1), Some (0, 1))) (21, 21)%Q /\
  ensures (ui_run stale_page stale_events) (shows stale_page (screen_run stale_page stale_events)).
Proof.
  split; [vm_compute; reflexivity|].
  destruct (page_interaction char_width KvModel stale_demo 0 [Result 0] (fun _ _ => false) Illegal stale_info stale_data stale_info
    stale_page) as [H _].
  - exact stale_equal_ok.
  - exact stale_ops_ok.
  - exact stale_arrivals.
  - exact stale_info_check.
  - exact stale_ends_last.
  - vm_compute. reflexivity.
  - vm_compute. reflexivity.
  - apply H. exact stale_events_possible.
Defined.
