(* ===== verification/Coordinator.v ===== *)
(** * The MapReduce coordinator (src/src/mr/coordinator.go, utils.go, rpc.go)

    The coordinator keeps the map tasks, the reduce tasks and the machines
    that registered.  Each handler that holds the mutex once is a function on
    the state; [AssignTask] takes the mutex up to three times, so a call in
    progress is an [assign_call] and each critical section is a step of it.
    A panic in a handler ends the process. *)

From S2P Require Import Prelude.

(** [timeoutDuration], in nanoseconds. *)
Definition timeoutDuration : Z := 200 * 1000000.

Record Task := mkTask {
  t_id : Z;
  t_key : string;
  t_class : string;
  t_status : string;
  t_AssignedWorker : Z;
}.

Record ReduceTask := mkReduceTask {
  r_id : Z;
  r_key : string;
  r_class : string;
  r_status : string;
  r_AssignedWorker : Z;
}.

(** Times are nanoseconds since some origin. *)
Record Machine := mkMachine {
  m_id : Z;
  m_class : string;
  m_status : string;
  m_Lastime : Z;
  m_IsAlive : bool;
  m_CompleteTasks : list Task;
}.

(** [MachinesNumber] is a package variable that only [Register] uses. *)
Record Coordinator := mkCoordinator {
  tasks : list Task;
  rtasks : list ReduceTask;
  machines : list Machine;
  nReduce : Z;
  MachinesNumber : Z;
}.

(** ** Messages *)

Record Reply := mkReply { Res : Z; Status : string; NReduce : Z }.

Record HeartbeatMessage := mkHeartbeat { hb_WorkerID : Z; Timestamp : Z }.

Record WorkerInfo := mkWorkerInfo { wi_WorkerID : Z }.

Record WorkerCompleteTask := mkComplete { wc_WorkerID : Z; wc_TaskID : Z; wc_Class : string }.

(** [Workers] holds the JSON text of a list of machine numbers. *)
Record TaskInfo := mkTaskInfo { TaskID : Z; Class_ : string; Key : string; Workers : string }.

Definition no_task : TaskInfo := mkTaskInfo 0 EmptyString EmptyString EmptyString.

(** What the code uses of encoding/json: [Marshal] of an [[]int], and
    [Unmarshal] of such a text into a [[]byte] that held [prev].  Numbers that
    are bytes are stored; what becomes of a number that overflows its target is
    not documented beyond the error, and nothing is assumed of it.  A text that
    is not JSON is refused before anything is stored. *)
Class JsonInts := {
  json_marshal : list Z -> string;
  json_unmarshal_bytes : string -> list Z -> list Z;
  json_ints_law : forall l prev,
    Forall (fun x => 0 <= x < 256) l -> json_unmarshal_bytes (json_marshal l) prev = l;
  json_empty_law : forall prev, json_unmarshal_bytes EmptyString prev = prev;
}.

Definition set_tasks (c : Coordinator) ts : Coordinator :=
  mkCoordinator ts (rtasks c) (machines c) (nReduce c) (MachinesNumber c).
Definition set_rtasks (c : Coordinator) ts : Coordinator :=
  mkCoordinator (tasks c) ts (machines c) (nReduce c) (MachinesNumber c).
Definition set_machines (c : Coordinator) ms : Coordinator :=
  mkCoordinator (tasks c) (rtasks c) ms (nReduce c) (MachinesNumber c).

(** ** Handlers *)

Definition Register (now : Z) (c : Coordinator) : Coordinator * Reply :=
  let NewMachine := mkMachine (MachinesNumber c) EmptyString "busy" now true [] in
  let c := mkCoordinator (tasks c) (rtasks c) (machines c ++ [NewMachine]) (nReduce c)
             (MachinesNumber c + 1) in
  (c, mkReply (m_id NewMachine) (m_status NewMachine) (nReduce c)).

Definition ReceiveHeartbeat (args : HeartbeatMessage) (c : Coordinator) : outcome Coordinator :=
  m ← idx (machines c) (hb_WorkerID args);
  ms ← idx_set (machines c) (hb_WorkerID args)
         (mkMachine (m_id m) (m_class m) (m_status m) (Timestamp args) (m_IsAlive m) (m_CompleteTasks m));
  Ret (set_machines c ms).

(** [c.machines[w].IsAlive]. *)
Definition is_alive (ms : list Machine) (w : Z) : outcome bool := m_IsAlive <$> idx ms w.

Fixpoint MapDone_loop (ms : list Machine) (ts : list Task) (mp : gset Z) : outcome (option (gset Z)) :=
  match ts with
  | [] => Ret (Some mp)
  | task :: ts =>
      ok ← if String.eqb (t_status task) "completed" then is_alive ms (t_AssignedWorker task) else Ret false;
      if ok : bool then MapDone_loop ms ts ({[t_AssignedWorker task]} ∪ mp) else Ret None
  end.

Definition MapDone `{!RangeOrder Z} (c : Coordinator) (workers : list Z) : outcome (bool * list Z) :=
  r ← MapDone_loop (machines c) (tasks c) ∅;
  Ret (match r with
       | None => (false, workers)
       | Some mp => (true, workers ++ range_order (elements mp))
       end).

Definition ReduceDone (c : Coordinator) : bool :=
  forallb (fun rtask => String.eqb (r_status rtask) "completed") (rtasks c).

(** The two conditions that skip a map task. *)
Definition skip_map (ms : list Machine) (t : Task) : outcome bool :=
  p ← if String.eqb (t_status t) "processing" then is_alive ms (t_AssignedWorker t) else Ret false;
  if p : bool then Ret true else
  if String.eqb (t_status t) "completed" then is_alive ms (t_AssignedWorker t) else Ret false.

Definition skip_reduce (ms : list Machine) (t : ReduceTask) : outcome bool :=
  if String.eqb (r_status t) "completed" then Ret true else
  if String.eqb (r_status t) "processing" then is_alive ms (r_AssignedWorker t) else Ret false.

(** The first index that is not skipped. *)
Fixpoint first_not_skipped {A} (skip : A -> outcome bool) (ts : list A) (i : Z) : outcome (option Z) :=
  match ts with
  | [] => Ret None
  | t :: ts => s ← skip t; if s : bool then first_not_skipped skip ts (i + 1) else Ret (Some i)
  end.

(** The critical section that hands out a map task. *)
Definition assign_map (w : Z) (c : Coordinator) (reply : TaskInfo) : outcome (Coordinator * TaskInfo) :=
  r ← first_not_skipped (skip_map (machines c)) (tasks c) 0;
  match r with
  | None => Ret (c, reply)
  | Some i =>
      t ← idx (tasks c) i;
      ts ← idx_set (tasks c) i (mkTask (t_id t) (t_key t) (t_class t) "processing" w);
      Ret (set_tasks c ts, mkTaskInfo (t_id t) (t_class t) (t_key t) (Workers reply))
  end.

(** The critical section that hands out a reduce task. *)
Definition assign_reduce `{!JsonInts} (w : Z) (workers : list Z) (c : Coordinator) (reply : TaskInfo) :
    outcome (Coordinator * TaskInfo) :=
  r ← first_not_skipped (skip_reduce (machines c)) (rtasks c) 0;
  match r with
  | None => Ret (c, reply)
  | Some i =>
      t ← idx (rtasks c) i;
      ts ← idx_set (rtasks c) i (mkReduceTask (r_id t) (r_key t) (r_class t) "processing" w);
      Ret (set_rtasks c ts, mkTaskInfo (r_id t) "reduce" (Key reply) (json_marshal workers))
  end.

(** Where a call of [AssignTask] stands. *)
Inductive assign_pc :=
  | AtMapDone
  | AtMapLoop
  | AtReduceDone (workers : list Z)
  | AtReduceLoop (workers : list Z)
  | Returned.

Record assign_call := mkAssign { ac_worker : Z; ac_pc : assign_pc; ac_reply : TaskInfo }.

(** One critical section of a call. *)
Definition assign_step `{!JsonInts, !RangeOrder Z} (c : Coordinator) (a : assign_call) :
    outcome (Coordinator * assign_call) :=
  let w := ac_worker a in
  match ac_pc a with
  | AtMapDone =>
      '(done, workers) ← MapDone c [];
      Ret (c, mkAssign w (if done : bool then AtReduceDone workers else AtMapLoop) (ac_reply a))
  | AtMapLoop =>
      '(c, reply) ← assign_map w c (ac_reply a);
      Ret (c, mkAssign w Returned reply)
  | AtReduceDone workers =>
      Ret (c, mkAssign w (if ReduceDone c then Returned else AtReduceLoop workers) (ac_reply a))
  | AtReduceLoop workers =>
      '(c, reply) ← assign_reduce w workers c (ac_reply a);
      Ret (c, mkAssign w Returned reply)
  | Returned => Ret (c, a)
  end.

(** A call that no other handler interleaves with. *)
Definition AssignTask `{!JsonInts, !RangeOrder Z} (args : WorkerInfo) (c : Coordinator) :
    outcome (Coordinator * TaskInfo) :=
  '(c, a) ← assign_step c (mkAssign (wi_WorkerID args) AtMapDone no_task);
  '(c, a) ← assign_step c a;
  '(c, a) ← assign_step c a;
  Ret (c, ac_reply a).

Definition CompleteTask (args : WorkerCompleteTask) (c : Coordinator) : outcome Coordinator :=
  let taskID := wc_TaskID args in
  let workerID := wc_WorkerID args in
  if String.eqb (wc_Class args) "map" then
    t ← idx (tasks c) taskID;
    ts ← idx_set (tasks c) taskID (mkTask (t_id t) (t_key t) (t_class t) "completed" workerID);
    Ret (set_tasks c ts)
  else if String.eqb (wc_Class args) "reduce" then
    t ← idx (rtasks c) taskID;
    ts ← idx_set (rtasks c) taskID (mkReduceTask (r_id t) (r_key t) (r_class t) "completed" workerID);
    Ret (set_rtasks c ts)
  else Ret c.

Definition Done (c : Coordinator) : bool := if ReduceDone c then true else false.

(** One pass of the loop of [CheckAliveMachine]. *)
Definition CheckAliveMachine (CurrentTimestamp : Z) (c : Coordinator) : Coordinator :=
  set_machines c ((fun m =>
    if bool_decide (timeoutDuration < CurrentTimestamp - m_Lastime m) && m_IsAlive m
    then mkMachine (m_id m) (m_class m) (m_status m) (m_Lastime m) false (m_CompleteTasks m)
    else m) <$> machines c).

(** [args] is [os.Args[1:]], which the code reads instead of [files]. *)
Definition MakeCoordinator (args files : list string) (nReduce : Z) : Coordinator :=
  mkCoordinator
    (imap (fun cnt filename => mkTask (Z.of_nat cnt) filename "map" "idle" 0) args)
    ((fun i => mkReduceTask (Z.of_nat i) EmptyString "reduce" "idle" 0) <$> seq 0 (Z.to_nat nReduce))
    [] nReduce 0.

(** ** The process: handlers that interleave *)

Record process := mkProcess { p_coord : Coordinator; p_calls : list assign_call }.

Inductive event :=
  | EvRegister (now : Z)
  | EvHeartbeat (args : HeartbeatMessage)
  | EvAssign (args : WorkerInfo)
  | EvAssignStep (k : nat)
  | EvComplete (args : WorkerCompleteTask)
  | EvCheckAlive (now : Z).

Definition step `{!JsonInts, !RangeOrder Z} (p : process) (e : event) : outcome process :=
  let c := p_coord p in
  match e with
  | EvRegister now => Ret (mkProcess (Register now c).1 (p_calls p))
  | EvHeartbeat args => c ← ReceiveHeartbeat args c; Ret (mkProcess c (p_calls p))
  | EvAssign args =>
      Ret (mkProcess c (p_calls p ++ [mkAssign (wi_WorkerID args) AtMapDone no_task]))
  | EvAssignStep k =>
      match p_calls p !! k with
      | None => Ret p
      | Some a => '(c, a) ← assign_step c a; Ret (mkProcess c (<[k := a]> (p_calls p)))
      end
  | EvComplete args => c ← CompleteTask args c; Ret (mkProcess c (p_calls p))
  | EvCheckAlive now => Ret (mkProcess (CheckAliveMachine now c) (p_calls p))
  end.
