(* ===== verification/CoordinatorProof.v ===== *)
(** * What the coordinator guarantees

    The well-formedness invariant of the coordinator and the behaviour of its
    handlers, for every interleaving of registrations, heartbeats, task
    requests, completions and liveness checks. *)

From S2P Require Import Prelude Coordinator.

(** ** The invariant *)

Definition registered (c : Coordinator) (w : Z) : Prop := 0 <= w < Z.of_nat (length (machines c)).

(** An idle task has no owner; any other task belongs to a machine. *)
Definition status_ok (c : Coordinator) (status : string) (w : Z) : Prop :=
  status = "idle" \/ (status = "processing" \/ status = "completed") /\ registered c w.

Record wf (c : Coordinator) : Prop := {
  wf_number : MachinesNumber c = Z.of_nat (length (machines c));
  wf_machine : forall i m, machines c !! i = Some m -> m_id m = Z.of_nat i;
  wf_task : forall i t, tasks c !! i = Some t ->
    t_id t = Z.of_nat i /\ t_class t = "map" /\ status_ok c (t_status t) (t_AssignedWorker t);
  wf_rtask : forall i t, rtasks c !! i = Some t ->
    r_id t = Z.of_nat i /\ r_class t = "reduce" /\ status_ok c (r_status t) (r_AssignedWorker t);
}.

Definition wf_call (c : Coordinator) (a : assign_call) : Prop := registered c (ac_worker a).

Record wf_process (p : process) : Prop := {
  wf_coord : wf (p_coord p);
  wf_calls : Forall (wf_call (p_coord p)) (p_calls p);
}.

(** Requests come from registered machines and name tasks that exist. *)
Definition allowed (p : process) (e : event) : Prop :=
  let c := p_coord p in
  match e with
  | EvRegister _ | EvCheckAlive _ | EvAssignStep _ => True
  | EvHeartbeat args => registered c (hb_WorkerID args)
  | EvAssign args => registered c (wi_WorkerID args)
  | EvComplete args =>
      registered c (wc_WorkerID args) /\
      (wc_Class args = "map" -> 0 <= wc_TaskID args < Z.of_nat (length (tasks c))) /\
      (wc_Class args = "reduce" -> 0 <= wc_TaskID args < Z.of_nat (length (rtasks c)))
  end.

(** A coordinator with at least the machines of another. *)
Definition more_machines (c c' : Coordinator) : Prop :=
  (length (machines c) <= length (machines c'))%nat.

Lemma registered_mono c c' w : more_machines c c' -> registered c w -> registered c' w.
Proof. unfold registered, more_machines. lia. Qed.

Lemma status_ok_mono c c' s w : more_machines c c' -> status_ok c s w -> status_ok c' s w.
Proof. intros Hm [?|[? ?]]; [by left|right]. split; [done|]. by eapply registered_mono. Qed.

Lemma status_ok_new c w : registered c w -> status_ok c "processing" w /\ status_ok c "completed" w.
Proof. intros Hw. split; right; auto. Qed.

#[export] Hint Resolve status_ok_mono registered_mono : golib.

(** Replacing the machines keeps the invariant when their numbering is kept. *)
Lemma wf_set_machines c ms :
  wf c -> length ms = length (machines c) ->
  (forall i m, ms !! i = Some m -> m_id m = Z.of_nat i) -> wf (set_machines c ms).
Proof.
  intros Hwf Hlen Hid. assert (more_machines c (set_machines c ms)) as Hm
    by (unfold more_machines; cbn; lia).
  split; cbn.
  - rewrite (wf_number c Hwf). lia.
  - done.
  - intros i t Ht. destruct (wf_task c Hwf i t Ht) as (? & ? & ?). eauto with golib.
  - intros i t Ht. destruct (wf_rtask c Hwf i t Ht) as (? & ? & ?). eauto with golib.
Qed.

(** Rewriting the status and owner of one task keeps the invariant. *)
Lemma wf_update_task c i t s w :
  wf c -> tasks c !! i = Some t -> status_ok c s w ->
  wf (set_tasks c (<[i := mkTask (t_id t) (t_key t) (t_class t) s w]> (tasks c))).
Proof.
  intros Hwf Ht Hs. split; cbn; [apply (wf_number c Hwf)|apply (wf_machine c Hwf)| |apply (wf_rtask c Hwf)].
  intros j t' [[<- ->]|Hj]%lookup_insert_cases; [|by apply (wf_task c Hwf)].
  destruct (wf_task c Hwf _ _ Ht) as (? & ? & _). done.
Qed.

Lemma wf_update_rtask c i t s w :
  wf c -> rtasks c !! i = Some t -> status_ok c s w ->
  wf (set_rtasks c (<[i := mkReduceTask (r_id t) (r_key t) (r_class t) s w]> (rtasks c))).
Proof.
  intros Hwf Ht Hs. split; cbn; [apply (wf_number c Hwf)|apply (wf_machine c Hwf)|apply (wf_task c Hwf)|].
  intros j t' [[<- ->]|Hj]%lookup_insert_cases; [|by apply (wf_rtask c Hwf)].
  destruct (wf_rtask c Hwf _ _ Ht) as (? & ? & _). done.
Qed.

(** ** Reading the machines *)

(** Whether a machine is alive; machines that do not exist are not. *)
Definition alive (c : Coordinator) (w : Z) : bool :=
  bool_decide (0 <= w) && default false (m_IsAlive <$> machines c !! Z.to_nat w).

Lemma idx_lookup_Z {A} (l : list A) (i : Z) :
  0 <= i < Z.of_nat (length l) -> exists x, l !! Z.to_nat i = Some x /\ idx l i = Ret x.
Proof.
  intros Hi. destruct (lookup_lt_is_Some_2 l (Z.to_nat i)) as [x Hx]; [lia|].
  exists x. split; [done|]. apply idx_ret. split; [lia|done].
Qed.

Lemma is_alive_registered c w : registered c w -> is_alive (machines c) w = Ret (alive c w).
Proof.
  intros Hw. destruct (idx_lookup_Z (machines c) w Hw) as (m & Hm & Hi).
  unfold is_alive, alive. rewrite Hi, Hm, bool_decide_eq_true_2 by (destruct Hw; lia). done.
Qed.

(** A map task that counts as done. *)
Definition map_complete (c : Coordinator) (t : Task) : bool :=
  String.eqb (t_status t) "completed" && alive c (t_AssignedWorker t).

(** A map task that is not handed out: a living machine works on it or has
    completed it. *)
Definition map_held (c : Coordinator) (t : Task) : bool :=
  (String.eqb (t_status t) "processing" || String.eqb (t_status t) "completed") &&
  alive c (t_AssignedWorker t).

Definition reduce_held (c : Coordinator) (t : ReduceTask) : bool :=
  String.eqb (r_status t) "completed" ||
  String.eqb (r_status t) "processing" && alive c (r_AssignedWorker t).

Lemma status_registered c s w :
  status_ok c s w -> s = "processing" \/ s = "completed" -> registered c w.
Proof. intros [->|[_ ?]]; [|done]. by intros [[=]|[=]]. Qed.

Lemma skip_map_ok c t :
  status_ok c (t_status t) (t_AssignedWorker t) -> skip_map (machines c) t = Ret (map_held c t).
Proof.
  intros Hs. unfold skip_map, map_held.
  destruct (String.eqb_spec (t_status t) "processing") as [Hp|_].
  - rewrite is_alive_registered by eauto using status_registered. cbn. rewrite Hp. cbn.
    by destruct (alive _ _).
  - cbn. destruct (String.eqb_spec (t_status t) "completed") as [Hc|_]; [|done].
    by rewrite is_alive_registered by eauto using status_registered.
Qed.

Lemma skip_reduce_ok c t :
  status_ok c (r_status t) (r_AssignedWorker t) -> skip_reduce (machines c) t = Ret (reduce_held c t).
Proof.
  intros Hs. unfold skip_reduce, reduce_held.
  destruct (String.eqb_spec (r_status t) "completed") as [Hc|_]; [done|]. cbn.
  destruct (String.eqb_spec (r_status t) "processing") as [Hp|_]; [|done].
  by rewrite is_alive_registered by eauto using status_registered.
Qed.

Lemma first_not_skipped_ok {A} (skip : A -> outcome bool) (held : A -> bool) ts i :
  (forall t, t ∈ ts -> skip t = Ret (held t)) ->
  first_not_skipped skip ts i =
  Ret ((fun p => i + Z.of_nat p.1) <$> list_find (fun t => held t = false) ts).
Proof.
  revert i. induction ts as [|t ts IH]; intros i Hs; [done|]. cbn [first_not_skipped list_find].
  rewrite Hs by left. cbn. destruct (held t) eqn:E; cbn.
  - rewrite decide_False by done. rewrite IH by (intros; apply Hs; by right).
    destruct (list_find _ ts) as [[j y]|]; cbn; do 2 f_equal; lia.
  - rewrite decide_True by done. cbn. do 2 f_equal. lia.
Qed.

Lemma MapDone_loop_ok c ts mp :
  (forall t, t ∈ ts -> status_ok c (t_status t) (t_AssignedWorker t)) ->
  MapDone_loop (machines c) ts mp =
  Ret (if forallb (map_complete c) ts
       then Some (list_to_set (t_AssignedWorker <$> ts) ∪ mp) else None).
Proof.
  revert mp. induction ts as [|t ts IH]; intros mp Hs; cbn [MapDone_loop forallb].
  { cbn. do 2 f_equal. set_solver. }
  unfold map_complete at 1. pose proof (Hs t ltac:(left)) as Ht.
  destruct (String.eqb_spec (t_status t) "completed") as [Hc|_]; [|done].
  rewrite is_alive_registered by eauto using status_registered. cbn [mbind outcome_bind andb].
  destruct (alive c _); [|done]. cbn. rewrite IH by (intros; apply Hs; by right).
  destruct (forallb _ _); [|done]. do 2 f_equal. set_solver.
Qed.

(** All map tasks are completed on living machines, and [workers] lists those
    machines, each once. *)
Definition map_snapshot (c : Coordinator) (workers : list Z) : Prop :=
  Forall (fun t => t_status t = "completed" /\ alive c (t_AssignedWorker t) = true) (tasks c) /\
  NoDup workers /\ (forall w, w ∈ workers <-> w ∈ t_AssignedWorker <$> tasks c).

Lemma wf_statuses c t : wf c -> t ∈ tasks c -> status_ok c (t_status t) (t_AssignedWorker t).
Proof. intros Hwf [i Hi]%list_elem_of_lookup. by apply (wf_task c Hwf i t). Qed.

Lemma wf_rstatuses c t : wf c -> t ∈ rtasks c -> status_ok c (r_status t) (r_AssignedWorker t).
Proof. intros Hwf [i Hi]%list_elem_of_lookup. by apply (wf_rtask c Hwf i t). Qed.

Lemma MapDone_ok `{!RangeOrder Z} c :
  wf c ->
  ensures (MapDone c []) (fun '(done, workers) =>
    done = forallb (map_complete c) (tasks c) /\ (done = true -> map_snapshot c workers)).
Proof.
  intros Hwf. unfold MapDone. rewrite MapDone_loop_ok by eauto using wf_statuses.
  destruct (forallb _ _) eqn:Hall; cbn; apply ensures_ret; (split; [done|]); [|done]. intros _.
  rewrite forallb_forall in Hall. split_and!.
  - apply Forall_forall. intros t Ht. specialize (Hall t (proj1 (list_elem_of_In _ _) Ht)).
    unfold map_complete in Hall. apply andb_true_iff in Hall as [?%String.eqb_eq ?]. done.
  - rewrite range_order_perm. apply NoDup_elements.
  - intros w. rewrite range_order_perm, elem_of_elements. set_solver.
Qed.

(** ** The critical sections *)

(** What handing out a map task does: nothing when every task is held,
    otherwise the first task that is not held goes to the caller. *)
Lemma assign_map_ok w c reply :
  wf c ->
  assign_map w c reply = Ret
    match list_find (fun t => map_held c t = false) (tasks c) with
    | None => (c, reply)
    | Some (i, t) =>
        (set_tasks c (<[i := mkTask (t_id t) (t_key t) (t_class t) "processing" w]> (tasks c)),
         mkTaskInfo (t_id t) (t_class t) (t_key t) (Workers reply))
    end.
Proof.
  intros Hwf. unfold assign_map.
  rewrite (first_not_skipped_ok _ (map_held c)) by (intros; apply skip_map_ok; by apply wf_statuses).
  destruct (list_find _ (tasks c)) as [[i t]|] eqn:E; cbn [mbind outcome_bind fmap option_fmap option_map]; [|done].
  apply list_find_Some in E as (Hi & _ & _). cbn [fst]. rewrite Z.add_0_l, (idx_lookup _ _ _ Hi).
  cbn [mbind outcome_bind]. rewrite idx_set_ok by (apply lookup_lt_Some in Hi; lia). cbn. by rewrite Nat2Z.id.
Qed.

Lemma assign_reduce_ok `{!JsonInts} w workers c reply :
  wf c ->
  assign_reduce w workers c reply = Ret
    match list_find (fun t => reduce_held c t = false) (rtasks c) with
    | None => (c, reply)
    | Some (i, t) =>
        (set_rtasks c (<[i := mkReduceTask (r_id t) (r_key t) (r_class t) "processing" w]> (rtasks c)),
         mkTaskInfo (r_id t) "reduce" (Key reply) (json_marshal workers))
    end.
Proof.
  intros Hwf. unfold assign_reduce.
  rewrite (first_not_skipped_ok _ (reduce_held c)) by (intros; apply skip_reduce_ok; by apply wf_rstatuses).
  destruct (list_find _ (rtasks c)) as [[i t]|] eqn:E; cbn [mbind outcome_bind fmap option_fmap option_map]; [|done].
  apply list_find_Some in E as (Hi & _ & _). cbn [fst]. rewrite Z.add_0_l, (idx_lookup _ _ _ Hi).
  cbn [mbind outcome_bind]. rewrite idx_set_ok by (apply lookup_lt_Some in Hi; lia). cbn. by rewrite Nat2Z.id.
Qed.

(** How the coordinator may change in one step. *)
Record evolves (c c' : Coordinator) : Prop := {
  ev_machines : more_machines c c';
  ev_dead : forall w, registered c w -> alive c w = false -> alive c' w = false;
  ev_tasks : length (tasks c') = length (tasks c);
  ev_rtasks : length (rtasks c') = length (rtasks c);
  ev_reduced : forall i t, rtasks c !! i = Some t -> r_status t = "completed" ->
    exists t', rtasks c' !! i = Some t' /\ r_status t' = "completed";
  ev_nReduce : nReduce c' = nReduce c;
}.

#[export] Instance evolves_refl : Reflexive evolves.
Proof. intros c. split; eauto. by unfold more_machines. Qed.

#[export] Instance evolves_trans : Transitive evolves.
Proof.
  intros c1 c2 c3 H1 H2. split.
  - pose proof (ev_machines _ _ H1). pose proof (ev_machines _ _ H2). unfold more_machines in *. lia.
  - intros w Hw Hd. apply (ev_dead _ _ H2); [eapply registered_mono; [apply H1|done]|].
    by apply (ev_dead _ _ H1).
  - rewrite (ev_tasks _ _ H2). apply H1.
  - rewrite (ev_rtasks _ _ H2). apply H1.
  - intros i t Ht Hs. destruct (ev_reduced _ _ H1 i t Ht Hs) as (t' & Ht' & Hs').
    by apply (ev_reduced _ _ H2 i t').
  - rewrite (ev_nReduce _ _ H2). apply H1.
Qed.

Lemma evolves_set_tasks c i t : evolves c (set_tasks c (<[i := t]> (tasks c))).
Proof. split; cbn; eauto; [by unfold more_machines|by rewrite length_insert]. Qed.

Lemma evolves_set_rtasks c i t t' :
  rtasks c !! i = Some t -> (r_status t = "completed" -> r_status t' = "completed") ->
  evolves c (set_rtasks c (<[i := t']> (rtasks c))).
Proof.
  intros Ht Hs. split; cbn; eauto; [by unfold more_machines|by rewrite length_insert|].
  intros j u Hj Hu. destruct (decide (i = j)) as [->|Hne].
  - exists t'. rewrite list_lookup_insert_eq by (by eapply lookup_lt_Some).
    split; [done|]. apply Hs. congruence.
  - exists u. by rewrite list_lookup_insert_ne.
Qed.

Lemma evolves_set_machines c ms :
  (forall i m, machines c !! i = Some m -> exists m', ms !! i = Some m' /\
    (m_IsAlive m = false -> m_IsAlive m' = false)) ->
  (length (machines c) <= length ms)%nat -> evolves c (set_machines c ms).
Proof.
  intros Hm Hlen. split; cbn; eauto.
  intros w Hw. unfold alive. cbn. destruct (idx_lookup_Z (machines c) w Hw) as (m & Hi & _).
  destruct (Hm _ _ Hi) as (m' & -> & Hd). rewrite Hi, bool_decide_eq_true_2 by (destruct Hw; lia). cbn. auto.
Qed.

Lemma reduce_held_completed c t : reduce_held c t = false -> r_status t <> "completed".
Proof.
  unfold reduce_held. intros [H _]%orb_false_iff Hs. rewrite Hs in H. done.
Qed.

(** Every critical section of [AssignTask] keeps the invariant. *)
Lemma assign_step_ok `{!JsonInts, !RangeOrder Z} c a :
  wf c -> wf_call c a ->
  ensures (assign_step c a) (fun '(c', a') => wf c' /\ evolves c c' /\ ac_worker a' = ac_worker a).
Proof.
  intros Hwf Ha. unfold assign_step. destruct (ac_pc a) as [| |ws|ws|].
  - eapply ensures_bind; [by apply MapDone_ok|]. intros [done ws] _. by apply ensures_ret.
  - rewrite assign_map_ok by done. destruct (list_find _ _) as [[i t]|] eqn:E; cbn; apply ensures_ret; [|done].
    apply list_find_Some in E as (Hi & _ & _).
    split_and!; [|apply evolves_set_tasks|done]. apply wf_update_task; [done..|]. by apply status_ok_new.
  - by apply ensures_ret.
  - rewrite assign_reduce_ok by done. destruct (list_find _ _) as [[i t]|] eqn:E; cbn; apply ensures_ret; [|done].
    apply list_find_Some in E as (Hi & Hh & _). split_and!; [| |done].
    + apply wf_update_rtask; [done..|]. by apply status_ok_new.
    + eapply evolves_set_rtasks; [done|]. intros Hs. by apply reduce_held_completed in Hh.
  - by apply ensures_ret.
Qed.

(** ** Steps of the process *)

Lemma Register_ok now c : wf c -> wf (Register now c).1 /\ evolves c (Register now c).1.
Proof.
  intros Hwf. assert (more_machines c (Register now c).1) as Hm
    by (unfold more_machines; cbn; rewrite length_app; lia).
  split; split; cbn; eauto.
  - rewrite length_app, (wf_number c Hwf). cbn. lia.
  - intros i m [Hi|[Hlen Hi]]%lookup_app_Some; [by apply (wf_machine c Hwf)|].
    apply list_lookup_singleton_Some in Hi as [Hi <-]. cbn. rewrite (wf_number c Hwf). lia.
  - intros i t Ht. destruct (wf_task c Hwf i t Ht) as (? & ? & ?). eauto with golib.
  - intros i t Ht. destruct (wf_rtask c Hwf i t Ht) as (? & ? & ?). eauto with golib.
  - intros w Hw. unfold alive. cbn. rewrite lookup_app_l; [done|]. unfold registered in Hw. lia.
Qed.

Lemma ReceiveHeartbeat_ok args c :
  wf c -> registered c (hb_WorkerID args) ->
  ensures (ReceiveHeartbeat args c) (fun c' => wf c' /\ evolves c c').
Proof.
  intros Hwf Hw. unfold ReceiveHeartbeat. destruct (idx_lookup_Z _ _ Hw) as (m & Hm & ->). cbn.
  rewrite idx_set_ok by done. cbn. apply ensures_ret. split.
  - apply wf_set_machines; [done|by rewrite length_insert|].
    intros i m' [[<- ->]|Hi]%lookup_insert_cases; [|by apply (wf_machine c Hwf)].
    cbn. by apply (wf_machine c Hwf).
  - apply evolves_set_machines; [|by rewrite length_insert]. intros i m' Hi.
    destruct (decide (Z.to_nat (hb_WorkerID args) = i)) as [<-|Hne].
    + rewrite list_lookup_insert_eq by (by eapply lookup_lt_Some). eexists. split; [done|]. cbn.
      congruence.
    + rewrite list_lookup_insert_ne by done. eauto.
Qed.

Lemma CheckAliveMachine_ok now c :
  wf c -> wf (CheckAliveMachine now c) /\ evolves c (CheckAliveMachine now c).
Proof.
  intros Hwf. split.
  - apply wf_set_machines; [done|by rewrite length_fmap|].
    intros i m' Hi. rewrite list_lookup_fmap in Hi. apply fmap_Some in Hi as (m & Hi & ->).
    destruct (_ && _); cbn; by apply (wf_machine c Hwf).
  - apply evolves_set_machines; [|by rewrite length_fmap]. intros i m Hi.
    rewrite list_lookup_fmap, Hi. eexists. split; [done|]. cbn. by destruct (_ && _).
Qed.

Lemma CompleteTask_ok args c :
  wf c -> registered c (wc_WorkerID args) ->
  (wc_Class args = "map" -> 0 <= wc_TaskID args < Z.of_nat (length (tasks c))) ->
  (wc_Class args = "reduce" -> 0 <= wc_TaskID args < Z.of_nat (length (rtasks c))) ->
  ensures (CompleteTask args c) (fun c' => wf c' /\ evolves c c').
Proof.
  intros Hwf Hw Hm Hr. unfold CompleteTask.
  destruct (String.eqb_spec (wc_Class args) "map") as [E|_].
  { destruct (idx_lookup_Z _ _ (Hm E)) as (t & Ht & ->). cbn. rewrite idx_set_ok by auto. cbn.
    apply ensures_ret. split; [|apply evolves_set_tasks].
    apply wf_update_task; [done..|]. by apply status_ok_new. }
  destruct (String.eqb_spec (wc_Class args) "reduce") as [E|_]; [|by apply ensures_ret].
  destruct (idx_lookup_Z _ _ (Hr E)) as (t & Ht & ->). cbn. rewrite idx_set_ok by auto. cbn.
  apply ensures_ret. split; [|by eapply evolves_set_rtasks].
  apply wf_update_rtask; [done..|]. by apply status_ok_new.
Qed.

Lemma wf_process_coord p c' :
  wf_process p -> wf c' -> evolves (p_coord p) c' -> wf_process (mkProcess c' (p_calls p)).
Proof.
  intros Hp Hc He. split; [done|]. eapply Forall_impl; [apply (wf_calls p Hp)|].
  intros a. eapply registered_mono. apply He.
Qed.

(** A step that is allowed does not panic and keeps the invariant. *)
Lemma step_ok `{!JsonInts, !RangeOrder Z} p e :
  wf_process p -> allowed p e ->
  ensures (step p e) (fun p' => wf_process p' /\ evolves (p_coord p) (p_coord p')).
Proof.
  intros Hp Hal. pose proof (wf_coord p Hp) as Hc. destruct e as [now|args|args|k|args|now]; cbn in Hal |- *.
  - destruct (Register_ok now (p_coord p) Hc). apply ensures_ret. split; [by apply wf_process_coord|done].
  - eapply ensures_bind; [by apply ReceiveHeartbeat_ok|]. intros c' [? ?]. apply ensures_ret.
    split; [by apply wf_process_coord|done].
  - apply ensures_ret. split; [|done]. split; [done|]. cbn. apply Forall_app.
    split; [apply Hp|]. by apply Forall_singleton.
  - destruct (p_calls p !! k) as [a|] eqn:Ea; [|by apply ensures_ret].
    pose proof (wf_calls p Hp) as Hcalls.
    eapply ensures_bind; [apply assign_step_ok; [done|by eapply Forall_lookup_1]|].
    intros [c' a'] (Hc' & He & Hw). apply ensures_ret. split; [|done]. split; [done|]. cbn.
    apply Forall_insert.
    + eapply Forall_impl; [exact Hcalls|]. intros b. eapply registered_mono. apply He.
    + unfold wf_call. rewrite Hw. eapply registered_mono; [apply He|]. by eapply (Forall_lookup_1 _ _ k a) in Hcalls.
  - destruct Hal as (? & ? & ?). eapply ensures_bind; [by apply CompleteTask_ok|]. intros c' [? ?].
    apply ensures_ret. split; [by apply wf_process_coord|done].
  - destruct (CheckAliveMachine_ok now (p_coord p) Hc). apply ensures_ret.
    split; [by apply wf_process_coord|done].
Qed.

(** ** Runs *)

Section runs.
Context `{!JsonInts, !RangeOrder Z}.
Implicit Types (p : process) (hist : list Coordinator).

(** The processes that allowed events lead to, with the coordinator states
    on the way, the last one first. *)
Inductive runs (c0 : Coordinator) : list Coordinator -> process -> Prop :=
  | runs_init : runs c0 [c0] (mkProcess c0 [])
  | runs_step hist p e p' :
      runs c0 hist p -> allowed p e -> step p e = Ret p' -> runs c0 (p_coord p' :: hist) p'.

Lemma MakeCoordinator_wf args files n : wf (MakeCoordinator args files n).
Proof.
  split; cbn.
  - done.
  - intros i m Hi. done.
  - intros i t Hi. rewrite list_lookup_imap in Hi. apply fmap_Some in Hi as (f & _ & ->). cbn.
    split_and!; [done..|]. by left.
  - intros i t Hi. rewrite list_lookup_fmap in Hi. apply fmap_Some in Hi as (k & Hk & ->). cbn.
    apply lookup_seq in Hk as [-> _]. split_and!; [done..|]. by left.
Qed.

Lemma runs_wf c0 hist p : wf c0 -> runs c0 hist p -> wf_process p.
Proof.
  intros Hc0. induction 1 as [|hist p e p' _ IH Hal Hs]; [by split|].
  destruct (step_ok p e IH Hal) as (p'' & Hs' & ? & _). congruence.
Qed.

Lemma runs_evolves c0 hist p c : wf c0 -> runs c0 hist p -> c ∈ hist -> evolves c (p_coord p).
Proof.
  intros Hc0 Hr. induction Hr as [|hist p e p' Hr IH Hal Hs].
  - by intros ->%list_elem_of_singleton.
  - destruct (step_ok p e (runs_wf _ _ _ Hc0 Hr) Hal) as (p'' & Hs' & _ & He).
    assert (p'' = p') as -> by congruence.
    intros [->|Hc]%elem_of_cons; [done|]. etrans; [by apply IH|done].
Qed.

Lemma runs_head c0 hist p : runs c0 hist p -> p_coord p ∈ hist.
Proof. destruct 1; left. Qed.

End runs.

(** ** Runs as lists of events *)

#[export] Instance registered_dec c w : Decision (registered c w).
Proof. unfold registered. apply _. Defined.

#[export] Instance allowed_dec p e : Decision (allowed p e).
Proof. destruct e; cbn; apply _. Defined.

Fixpoint run_events `{!JsonInts, !RangeOrder Z} (p : process) (evs : list event) : outcome process :=
  match evs with
  | [] => Ret p
  | e :: evs => if decide (allowed p e) then p ← step p e; run_events p evs else NoFuel
  end.

Section calls.
Context `{!JsonInts, !RangeOrder Z}.
Implicit Types (p : process) (c : Coordinator) (a : assign_call).

Lemma run_events_snoc p evs e p' :
  run_events p (evs ++ [e]) = Ret p' <->
  exists p1, run_events p evs = Ret p1 /\ allowed p1 e /\ step p1 e = Ret p'.
Proof.
  revert p. induction evs as [|e0 evs IH]; intros p; cbn.
  - split.
    + case_decide; [|done]. intros (p1 & Hs & [= <-])%bind_ret_inv. by exists p.
    + intros (p1 & [= <-] & Hal & Hs). by rewrite decide_True, Hs by done.
  - case_decide; [|split; [done|by intros (? & ? & _)]]. split.
    + intros (p1 & Hs & Hr)%bind_ret_inv. rewrite Hs. by apply IH.
    + intros (p1 & Hr & Hx). apply bind_ret_inv in Hr as (p2 & -> & Hr). apply IH. by exists p1.
Qed.

Lemma run_events_wf p evs p' : wf_process p -> run_events p evs = Ret p' -> wf_process p'.
Proof.
  intros Hp. revert p'. induction evs as [|e evs IH] using rev_ind; intros p'; [by intros [= <-]|].
  intros (p1 & Hr & Hal & Hs)%run_events_snoc. destruct (step_ok p1 e (IH p1 Hr) Hal) as (p2 & Hs2 & ? & _). congruence.
Qed.

(** ** The replies of [AssignTask] *)

(** The moment at which call [k] of the run [evs] found all map tasks done. *)
Definition map_phase_over p evs (k : nat) (ws : list Z) : Prop :=
  exists pre post p0 a0, evs = pre ++ EvAssignStep k :: post /\ run_events p pre = Ret p0 /\
    p_calls p0 !! k = Some a0 /\ ac_pc a0 = AtMapDone /\ map_snapshot (p_coord p0) ws.

Lemma map_phase_over_app p evs e k ws : map_phase_over p evs k ws -> map_phase_over p (evs ++ [e]) k ws.
Proof.
  intros (pre & post & p0 & a0 & -> & Hr). exists pre, (post ++ [e]), p0, a0. by rewrite <- app_assoc.
Qed.

(** What is known of a call that has not returned. *)
Definition call_ok p evs (k : nat) a : Prop :=
  match ac_pc a with
  | AtMapDone | AtMapLoop => ac_reply a = no_task
  | AtReduceDone ws | AtReduceLoop ws => ac_reply a = no_task /\ map_phase_over p evs k ws
  | Returned => True
  end.

Lemma call_ok_app p evs e k a : call_ok p evs k a -> call_ok p (evs ++ [e]) k a.
Proof. unfold call_ok. destruct (ac_pc a); try done; intros [? ?]; split; auto using map_phase_over_app. Qed.

Lemma assign_step_call_ok p evs p1 k a c' a' :
  run_events p evs = Ret p1 -> wf (p_coord p1) -> p_calls p1 !! k = Some a -> call_ok p evs k a ->
  assign_step (p_coord p1) a = Ret (c', a') -> call_ok p (evs ++ [EvAssignStep k]) k a'.
Proof.
  intros Hr Hwf Hk Ha. unfold assign_step, call_ok in *. destruct (ac_pc a) as [| |ws|ws|] eqn:Hpc.
  - destruct (MapDone_ok _ Hwf) as ([done ws] & -> & _ & Hd). cbn. intros [= <- <-]. cbn.
    destruct done; [|done]. split; [done|]. exists evs, [], p1, a. split_and!; auto.
  - intros ([c2 r] & _ & [= <- <-])%bind_ret_inv. done.
  - intros [= <- <-]. cbn. destruct (ReduceDone _); [done|]. destruct Ha. split; [done|]. by apply map_phase_over_app.
  - intros ([c2 r] & _ & [= <- <-])%bind_ret_inv. done.
  - intros [= <- <-]. by rewrite Hpc.
Qed.

Lemma run_events_calls p evs p' k a :
  wf_process p -> p_calls p = [] -> run_events p evs = Ret p' -> p_calls p' !! k = Some a -> call_ok p evs k a.
Proof.
  intros Hp H0. revert p' k a. induction evs as [|e evs IH] using rev_ind; intros p' k a.
  { intros [= <-]. by rewrite H0. }
  intros (p1 & Hr & Hal & Hs)%run_events_snoc Hk. pose proof (run_events_wf _ _ _ Hp Hr) as Hp1.
  assert (p_calls p1 !! k = Some a -> call_ok p (evs ++ [e]) k a) as Hold by (intros; by eapply call_ok_app, IH).
  destruct e as [now|args|args|j|args|now]; cbn in Hs.
  - injection Hs as <-. auto.
  - apply bind_ret_inv in Hs as (c & _ & [= <-]). auto.
  - injection Hs as <-. cbn in Hk. apply lookup_app_Some in Hk as [Hk|[_ Hk]]; [auto|].
    apply list_lookup_singleton_Some in Hk as [_ <-]. done.
  - destruct (p_calls p1 !! j) as [b|] eqn:Ej; [|injection Hs as <-; auto].
    apply bind_ret_inv in Hs as ([c b'] & Hstep & [= <-]). cbn in Hk.
    apply lookup_insert_cases in Hk as [[-> ->]|Hk]; [|auto].
    eapply assign_step_call_ok; [done|apply Hp1|done|by eapply IH|done].
  - apply bind_ret_inv in Hs as (c & _ & [= <-]). auto.
  - injection Hs as <-. auto.
Qed.

(** What call [k], made by machine [w], does when it returns: the state before
    and after, and the reply. *)
Inductive answered p0 evs (k : nat) (w : Z) c : Coordinator -> TaskInfo -> Prop :=
  | answered_map i t :
      tasks c !! i = Some t -> map_held c t = false -> (forall j u, (j < i)%nat -> tasks c !! j = Some u -> map_held c u = true) ->
      answered p0 evs k w c (set_tasks c (<[i := mkTask (t_id t) (t_key t) (t_class t) "processing" w]> (tasks c)))
        (mkTaskInfo (Z.of_nat i) "map" (t_key t) EmptyString)
  | answered_reduce ws i t :
      map_phase_over p0 evs k ws ->
      rtasks c !! i = Some t -> reduce_held c t = false -> (forall j u, (j < i)%nat -> rtasks c !! j = Some u -> reduce_held c u = true) ->
      answered p0 evs k w c (set_rtasks c (<[i := mkReduceTask (r_id t) (r_key t) (r_class t) "processing" w]> (rtasks c)))
        (mkTaskInfo (Z.of_nat i) "reduce" EmptyString (json_marshal ws))
  | answered_nothing :
      Forall (fun t => map_held c t = true) (tasks c) \/
      (exists ws, map_phase_over p0 evs k ws) /\ Forall (fun t => reduce_held c t = true) (rtasks c) ->
      answered p0 evs k w c c no_task.

Lemma list_find_first {A} (f : A -> bool) l i x :
  list_find (fun t => f t = false) l = Some (i, x) ->
  l !! i = Some x /\ f x = false /\ forall j u, (j < i)%nat -> l !! j = Some u -> f u = true.
Proof.
  intros (Hi & Hx & Hj)%list_find_Some. split_and!; [done..|]. intros j u Hlt Hu.
  specialize (Hj j u Hu Hlt). by destruct (f u).
Qed.

Lemma list_find_all {A} (f : A -> bool) l : list_find (fun t => f t = false) l = None -> Forall (fun t => f t = true) l.
Proof. intros Hn%list_find_None. eapply Forall_impl; [exact Hn|]. intros x. cbn. by destruct (f x). Qed.

Lemma assign_step_answered p0 evs k c a c' a' :
  wf c -> call_ok p0 evs k a -> ac_pc a <> Returned -> assign_step c a = Ret (c', a') -> ac_pc a' = Returned ->
  answered p0 evs k (ac_worker a) c c' (ac_reply a').
Proof.
  intros Hwf Ha Hpc. unfold assign_step, call_ok in *. destruct (ac_pc a) as [| |ws|ws|]; [| | | |done].
  - destruct (MapDone_ok _ Hwf) as ([done ws] & -> & _). cbn. intros [= <- <-]. cbn. by destruct done.
  - rewrite assign_map_ok by done. rewrite Ha. destruct (list_find _ _) as [[i t]|] eqn:E; cbn; intros [= <- <-] _; cbn.
    + apply list_find_first in E as (Hi & Hh & Hj). destruct (wf_task c Hwf i t Hi) as (Hid & Hcl & _).
      rewrite Hcl at 2. rewrite Hid at 2. by eapply answered_map.
    + constructor. left. by apply list_find_all.
  - destruct Ha as [-> Hm]. intros [= <- <-]. cbn. destruct (ReduceDone c) eqn:Ed; [|done]. intros _. constructor. right.
    split; [by eexists|]. unfold ReduceDone in Ed. rewrite forallb_forall in Ed. apply Forall_forall. intros t Ht.
    unfold reduce_held. by rewrite (Ed t (proj1 (list_elem_of_In _ _) Ht)).
  - destruct Ha as [Hreply Hm]. rewrite assign_reduce_ok by done. rewrite Hreply.
    destruct (list_find _ _) as [[i t]|] eqn:E; cbn; intros [= <- <-] _; cbn.
    + apply list_find_first in E as (Hi & Hh & Hj). destruct (wf_rtask c Hwf i t Hi) as (Hid & _).
      rewrite Hid at 2. by eapply answered_reduce.
    + constructor. right. split; [by eexists|]. by apply list_find_all.
Qed.
End calls.
