(* ===== verification/CoordinatorSpec.v ===== *)
(** * Properties of the coordinator

    Safety of every interleaving, the justification of every reply, the
    stability of completion, and two behaviours in which the coordinator
    fails: machines that are declared dead by mistake stay dead, and a late
    completion lets two living machines contribute the same map task. *)

From S2P Require Import Prelude Codec Coordinator CoordinatorProof.

(** ** A codec for the machine lists *)

(** A number that does not fit is cut to its last byte. *)
Definition bits_unmarshal (s : string) (prev : list Z) : list Z :=
  match get_bits s with
  | Some l => (fun x => x mod 256) <$> l
  | None => prev
  end.

Lemma bits_unmarshal_law (l prev : list Z) :
  Forall (fun x => 0 <= x < 256) l -> bits_unmarshal (put l) prev = l.
Proof.
  intros Hl. unfold bits_unmarshal. rewrite get_put. induction Hl as [|x l Hx _ IH]; [done|].
  rewrite fmap_cons, IH. by rewrite Z.mod_small.
Qed.

#[export] Instance bits_json : JsonInts := {|
  json_marshal l := put l;
  json_unmarshal_bytes := bits_unmarshal;
  json_ints_law := bits_unmarshal_law;
  json_empty_law prev := eq_refl |}.

(** ** Running a list of events *)

Lemma run_events_runs `{!JsonInts, !RangeOrder Z} c0 hist p evs p' :
  runs c0 hist p -> run_events p evs = Ret p' -> exists hist', runs c0 hist' p'.
Proof.
  revert hist p. induction evs as [|e evs IH]; intros hist p Hr; cbn; [intros [= ->]; eauto|].
  case_decide as Hal; [|done]. intros (p1 & Hs & Hrun)%bind_ret_inv.
  eapply (IH (p_coord p1 :: hist) p1); [|done]. by econstructor.
Qed.

(** Two input files and three machines. *)
Definition demo_start : list event := [EvRegister 0; EvRegister 0; EvRegister 0].

Definition demo_coord : Coordinator := MakeCoordinator ["a.txt"; "b.txt"] ["a.txt"; "b.txt"] 1.

(** The whole of a request by machine [w], the [k]-th of the run. *)
Definition request (w : Z) (k : nat) : list event :=
  [EvAssign (mkWorkerInfo w); EvAssignStep k; EvAssignStep k; EvAssignStep k].

Definition demo_run : outcome process :=
  run_events (mkProcess demo_coord []) (demo_start ++ request 0 0 ++ request 1 1).

Definition demo_process : process :=
  match demo_run with Ret p => p | _ => mkProcess demo_coord [] end.

Lemma demo_process_runs : exists hist, runs demo_coord hist demo_process.
Proof.
  apply (run_events_runs demo_coord [demo_coord] (mkProcess demo_coord [])
    (demo_start ++ request 0 0 ++ request 1 1)); [constructor|]. by vm_compute.
Qed.

(** C38: from a new coordinator, in every interleaving of requests by
    registered machines about tasks that exist, no handler panics: every index
    into the tasks, the reduce tasks and the machines is in range. *)
Theorem coordinator_never_panics `{!JsonInts, !RangeOrder Z} args files n hist p e :
  runs (MakeCoordinator args files n) hist p -> allowed p e ->
  ensures (step p e) wf_process.
Proof.
  intros Hr Hal. eapply ensures_mono; [apply step_ok; [|done]|by intros p' [? _]].
  eapply runs_wf; [|done]. apply MakeCoordinator_wf.
Qed.

Lemma coordinator_never_panics_witness :
  ensures (step demo_process (EvComplete (mkComplete 1 1 "map"))) wf_process.
Proof.
  destruct demo_process_runs as [hist Hr].
  apply (coordinator_never_panics ["a.txt"; "b.txt"] ["a.txt"; "b.txt"] 1 hist); [exact Hr|].
  eapply bool_decide_unpack. vm_compute. exact I.
Defined.

(** C7: every reply of [AssignTask] is justified at the moment it is made,
    however the handlers interleave.  When a call returns, it has handed out
    the first map task that at this moment no machine counting as alive is
    recorded to process or to have completed, and recorded it as processed by
    the caller; or, after a moment of the same call at which every map task
    was recorded as completed by a machine counting as alive, the first reduce
    task that is neither completed nor processed by such a machine, with
    exactly the machines of that moment; or nothing, when there is no such
    task.  Nothing else of the state changes. *)
Theorem assignment_justified `{!JsonInts, !RangeOrder Z} args files n evs p k a p' a' :
  let p0 := mkProcess (MakeCoordinator args files n) [] in
  run_events p0 evs = Ret p -> p_calls p !! k = Some a -> ac_pc a <> Returned ->
  step p (EvAssignStep k) = Ret p' -> p_calls p' !! k = Some a' -> ac_pc a' = Returned ->
  answered p0 evs k (ac_worker a) (p_coord p) (p_coord p') (ac_reply a').
Proof.
  intros p0 Hr Hk Hpc Hs Hk' Hpc'. assert (wf_process p0) as H0 by (split; [apply MakeCoordinator_wf|constructor]).
  pose proof (run_events_wf _ _ _ H0 Hr) as Hp. pose proof (run_events_calls _ _ _ _ _ H0 eq_refl Hr Hk) as Ha.
  cbn in Hs. rewrite Hk in Hs. apply bind_ret_inv in Hs as ([c b] & Hstep & [= <-]). cbn in Hk'.
  rewrite list_lookup_insert_eq in Hk' by (by eapply lookup_lt_Some). injection Hk' as ->.
  by eapply assign_step_answered; [apply Hp|..].
Qed.

(** The first two map tasks are taken and completed; machine 2 asks for work,
    finds the map phase over and is about to get the reduce task. *)
Definition reduce_events : list event :=
  demo_start ++ request 0 0 ++ request 1 1 ++ [EvComplete (mkComplete 0 0 "map"); EvComplete (mkComplete 1 1 "map")] ++
  [EvAssign (mkWorkerInfo 2); EvAssignStep 2; EvAssignStep 2].

Lemma assignment_justified_witness :
  exists p p', run_events (mkProcess demo_coord []) reduce_events = Ret p /\ step p (EvAssignStep 2) = Ret p' /\
    answered (mkProcess demo_coord []) reduce_events 2 2 (p_coord p) (p_coord p')
      (mkTaskInfo 0 "reduce" EmptyString (json_marshal [1; 0])).
Proof.
  destruct (run_events (mkProcess demo_coord []) reduce_events) as [p| |] eqn:E; [|vm_compute in E; discriminate..].
  destruct (step p (EvAssignStep 2)) as [p'| |] eqn:E';
    [|vm_compute in E; injection E as <-; vm_compute in E'; discriminate..].
  exists p, p'. split; [reflexivity|]. split; [exact E'|].
  apply (assignment_justified ["a.txt"; "b.txt"] ["a.txt"; "b.txt"] 1 reduce_events p 2
    (mkAssign 2 (AtReduceLoop [1; 0]) no_task) p' (mkAssign 2 Returned (mkTaskInfo 0 "reduce" EmptyString (json_marshal [1; 0])))).
  - exact E.
  - vm_compute in E. injection E as <-. reflexivity.
  - discriminate.
  - exact E'.
  - vm_compute in E. injection E as <-. vm_compute in E'. injection E' as <-. reflexivity.
  - reflexivity.
Defined.

(** Once [Done] has reported that the job is finished it keeps doing so:
    a completed reduce task is never handed out again. *)
Theorem done_stable `{!JsonInts, !RangeOrder Z} args files n hist p c :
  runs (MakeCoordinator args files n) hist p -> c ∈ hist -> Done c = true -> Done (p_coord p) = true.
Proof.
  intros Hr Hc Hd. pose proof (runs_evolves _ _ _ _ (MakeCoordinator_wf args files n) Hr Hc) as He.
  unfold Done, ReduceDone in *. destruct (forallb _ (rtasks c)) eqn:Hall; [|done].
  rewrite forallb_forall in Hall. replace (forallb _ (rtasks (p_coord p))) with true; [done|].
  symmetry. apply forallb_forall. intros t Ht. apply list_elem_of_In, list_elem_of_lookup in Ht as [i Hi].
  destruct (lookup_lt_is_Some_2 (rtasks c) i) as [u Hu].
  { rewrite <- (ev_rtasks _ _ He). by eapply lookup_lt_Some. }
  destruct (ev_reduced _ _ He i u Hu) as (t' & Ht' & Hs).
  { apply String.eqb_eq, Hall. apply list_elem_of_In. by eapply list_elem_of_lookup_2. }
  apply String.eqb_eq. congruence.
Qed.

Lemma done_stable_witness :
  Done (MakeCoordinator ["a.txt"] ["a.txt"] 0) = true /\
  exists hist p, runs (MakeCoordinator ["a.txt"] ["a.txt"] 0) hist p /\ Done (p_coord p) = true.
Proof.
  assert (runs (MakeCoordinator ["a.txt"] ["a.txt"] 0)
    [(Register 5 (MakeCoordinator ["a.txt"] ["a.txt"] 0)).1; MakeCoordinator ["a.txt"] ["a.txt"] 0]
    (mkProcess (Register 5 (MakeCoordinator ["a.txt"] ["a.txt"] 0)).1 [])) as Hr.
  { apply (runs_step _ _ _ (EvRegister 5)
      (mkProcess (Register 5 (MakeCoordinator ["a.txt"] ["a.txt"] 0)).1 []) (runs_init _));
      [exact I|reflexivity]. }
  split; [reflexivity|]. eexists _, _. split; [exact Hr|].
  apply (done_stable _ _ _ _ _ (MakeCoordinator ["a.txt"] ["a.txt"] 0) Hr); [|reflexivity].
  right. left.
Defined.

(** ** Machines that are declared dead *)

Definition all_dead (c : Coordinator) : Prop := forall w, alive c w = false.

Definition registers (e : event) : bool := match e with EvRegister _ => true | _ => false end.

Lemma alive_machines c c' : machines c' = machines c -> all_dead c -> all_dead c'.
Proof. unfold all_dead, alive. by intros ->. Qed.

Lemma alive_map c ms :
  (forall i m', ms !! i = Some m' -> exists m, machines c !! i = Some m /\
     (m_IsAlive m = false -> m_IsAlive m' = false)) ->
  all_dead c -> all_dead (set_machines c ms).
Proof.
  intros Hm Hd w. specialize (Hd w). unfold alive in *. cbn.
  destruct (ms !! Z.to_nat w) as [m'|] eqn:E; [|by rewrite andb_false_r].
  destruct (Hm _ _ E) as (m & Hi & Hdead). rewrite Hi in Hd. cbn in *.
  destruct (bool_decide (0 <= w)); [|done]. cbn in *. auto.
Qed.

Lemma assign_step_machines `{!JsonInts, !RangeOrder Z} c a c' a' :
  wf c -> assign_step c a = Ret (c', a') -> machines c' = machines c.
Proof.
  intros Hwf. unfold assign_step. destruct (ac_pc a).
  - by intros ([??] & _ & [= <- _])%bind_ret_inv.
  - rewrite assign_map_ok by done. by destruct (list_find _ _) as [[]|]; intros [= <- _].
  - by intros [= <- _].
  - rewrite assign_reduce_ok by done. by destruct (list_find _ _) as [[]|]; intros [= <- _].
  - by intros [= <- _].
Qed.

Lemma CompleteTask_machines args c c' : CompleteTask args c = Ret c' -> machines c' = machines c.
Proof.
  unfold CompleteTask. intros Hs. repeat (destruct (String.eqb _ _)); by inv_ret.
Qed.

Lemma ReceiveHeartbeat_all_dead args c c' :
  ReceiveHeartbeat args c = Ret c' -> all_dead c -> all_dead c'.
Proof.
  unfold ReceiveHeartbeat. intros (m & [_ Hm]%idx_ret & Hs)%bind_ret_inv.
  apply bind_ret_inv in Hs as (ms & [_ ->]%idx_set_ret & [= <-]).
  apply alive_map. intros i m' [[<- ->]|Hi]%lookup_insert_cases; eauto.
Qed.

Lemma step_all_dead `{!JsonInts, !RangeOrder Z} p e p' :
  wf_process p -> registers e = false -> step p e = Ret p' -> all_dead (p_coord p) -> all_dead (p_coord p').
Proof.
  intros Hp He Hs Hd. pose proof (wf_coord p Hp) as Hwf.
  destruct e as [now|args|args|k|args|now]; cbn in Hs; [done|..].
  - apply bind_ret_inv in Hs as (c & Hc & [= <-]). by eapply ReceiveHeartbeat_all_dead.
  - by injection Hs as <-.
  - destruct (p_calls p !! k) as [a|]; [|by injection Hs as <-].
    apply bind_ret_inv in Hs as ([c a'] & Hc & [= <-]). eapply alive_machines; [|exact Hd].
    by eapply assign_step_machines.
  - apply bind_ret_inv in Hs as (c & Hc & [= <-]). eapply alive_machines; [|exact Hd].
    by eapply CompleteTask_machines.
  - injection Hs as <-. apply (alive_map (p_coord p)); [|done]. intros i m' Hi.
    rewrite list_lookup_fmap in Hi. apply fmap_Some in Hi as (m & Hi & ->). exists m.
    split; [done|]. by destruct (_ && _).
Qed.

Lemma run_events_all_dead `{!JsonInts, !RangeOrder Z} p evs p' :
  wf_process p -> Forall (fun e => registers e = false) evs -> run_events p evs = Ret p' ->
  all_dead (p_coord p) -> wf_process p' /\ all_dead (p_coord p') /\
    length (tasks (p_coord p')) = length (tasks (p_coord p)).
Proof.
  intros Hp Hev. revert p Hp. induction Hev as [|e evs He _ IH]; intros p Hp; cbn.
  { intros [= <-]. done. }
  case_decide as Hal; [|done]. intros (p1 & Hs & Hr)%bind_ret_inv Hd.
  destruct (step_ok p e Hp Hal) as (p2 & Hs2 & Hp2 & Hev2). assert (p2 = p1) as -> by congruence.
  destruct (IH p1 Hp2 Hr) as (? & ? & Hlen); [exact (step_all_dead p e p1 Hp He Hs Hd)|].
  split_and!; [done..|]. rewrite Hlen. apply (ev_tasks _ _ Hev2).
Qed.

(** A machine that missed its deadline is never revived, not even by its
    heartbeats.  So when every registered machine has been declared dead and
    none registers again, [MapDone] stays false and no reduce task is ever
    handed out, although the machines may go on requesting and completing
    tasks. *)
Theorem all_dead_never_done `{!JsonInts, !RangeOrder Z} p evs p' :
  wf_process p -> all_dead (p_coord p) -> tasks (p_coord p) <> [] ->
  Forall (fun e => registers e = false) evs -> run_events p evs = Ret p' ->
  MapDone (p_coord p') [] = Ret (false, []).
Proof.
  intros Hp Hd Ht Hev Hr. destruct (run_events_all_dead p evs p' Hp Hev Hr Hd) as (Hp' & Hd' & Hlen).
  unfold MapDone. rewrite MapDone_loop_ok by (intros; apply wf_statuses; [apply Hp'|done]).
  destruct (tasks (p_coord p')) as [|t ts]; [by destruct Ht; apply nil_length_inv|]. cbn [forallb].
  unfold map_complete at 1. rewrite (Hd' _), andb_false_r. done.
Qed.

(** Machine 0 registers, takes both tasks, misses its deadline, and then sends
    heartbeats and completes its tasks. *)
Definition dead_demo : process :=
  match run_events (mkProcess demo_coord []) ([EvRegister 0] ++ request 0 0 ++ [EvCheckAlive 300000000]) with
  | Ret p => p
  | _ => mkProcess demo_coord []
  end.

Definition dead_demo_events : list event :=
  [EvHeartbeat (mkHeartbeat 0 310000000); EvComplete (mkComplete 0 0 "map");
   EvComplete (mkComplete 0 1 "map"); EvCheckAlive 320000000].

Lemma dead_demo_wf : wf_process dead_demo.
Proof.
  assert (exists hist, runs demo_coord hist dead_demo) as [hist Hr].
  { apply (run_events_runs demo_coord [demo_coord] (mkProcess demo_coord [])
      ([EvRegister 0] ++ request 0 0 ++ [EvCheckAlive 300000000])); [constructor|by vm_compute]. }
  exact (runs_wf demo_coord hist dead_demo (MakeCoordinator_wf _ _ _) Hr).
Qed.

Lemma all_dead_never_done_witness :
  exists p', run_events dead_demo dead_demo_events = Ret p' /\
    Forall (fun t => t_status t = "completed") (tasks (p_coord p')) /\
    MapDone (p_coord p') [] = Ret (false, []).
Proof.
  destruct (run_events dead_demo dead_demo_events) as [p'| |] eqn:E; [|vm_compute in E; discriminate..].
  exists p'. split; [reflexivity|]. split.
  - vm_compute in E. injection E as <-. repeat constructor.
  - apply (all_dead_never_done dead_demo dead_demo_events p'); [apply dead_demo_wf| |discriminate| |exact E].
    + intros w. destruct (decide (w = 0)) as [->|Hw]; [reflexivity|]. unfold alive.
      case_bool_decide; [|reflexivity]. destruct (Z.to_nat w) eqn:Ew; [lia|reflexivity].
    + repeat constructor.
Defined.

(** ** A late completion *)

(** Machine 0 takes the first task and is declared dead; machine 1 takes the
    task over; machine 0 completes it late, so that it is handed out a third
    time, to machine 2; then machine 1 completes it, takes and completes the
    second task, and machine 2 completes the first one again. *)
Definition late_events : list event :=
  demo_start ++ request 0 0 ++
  [EvHeartbeat (mkHeartbeat 1 300000000); EvHeartbeat (mkHeartbeat 2 300000000); EvCheckAlive 301000000] ++
  request 1 1 ++ [EvComplete (mkComplete 0 0 "map")] ++
  request 2 2 ++ [EvComplete (mkComplete 1 0 "map")] ++
  request 1 3 ++ [EvComplete (mkComplete 1 1 "map"); EvComplete (mkComplete 2 0 "map")] ++
  request 2 4.

(** A completion that arrives after the task was given to another machine
    puts the task up again while it is being worked on.  There is a run in
    which machines 1 and 2, both alive, complete the first map task, and the
    list of machines whose output the reduce task reads contains both. *)
Theorem late_completion_duplicates :
  exists hist p reply, runs demo_coord hist p /\
    run_events (mkProcess demo_coord []) late_events = Ret p /\
    EvComplete (mkComplete 1 0 "map") ∈ late_events /\ EvComplete (mkComplete 2 0 "map") ∈ late_events /\
    alive (p_coord p) 1 = true /\ alive (p_coord p) 2 = true /\
    ac_reply <$> p_calls p !! 4%nat = Some reply /\ Class_ reply = "reduce" /\
    1 ∈ json_unmarshal_bytes (Workers reply) [] /\ 2 ∈ json_unmarshal_bytes (Workers reply) [].
Proof.
  destruct (run_events (mkProcess demo_coord []) late_events) as [p| |] eqn:E; [|vm_compute in E; discriminate..].
  destruct (run_events_runs demo_coord [demo_coord] _ _ _ (runs_init _) E) as [hist Hr].
  destruct (p_calls p !! 4%nat) as [a|] eqn:Ea; [|vm_compute in E; injection E as <-; discriminate].
  exists hist, p, (ac_reply a). split; [done|]. split; [done|].
  split; [by apply (list_elem_of_lookup_2 _ 19)|]. split; [by apply (list_elem_of_lookup_2 _ 25)|].
  vm_compute in E. injection E as <-. injection Ea as <-.
  split_and!; try reflexivity; eapply bool_decide_unpack; vm_compute; exact I.
Qed.
