(* ===== verification/Worker.v ===== *)
(** * The MapReduce worker and the sequential reference
      (src/src/mr/worker.go, src/src/main/mrsequential.go)

    A worker runs map tasks, which append key-value pairs to one file per
    reduce partition, and reduce tasks, which read those files, sort and
    group the pairs and write an output file.  The files are a map from
    names to contents. *)

From S2P Require Import Prelude Coordinator.

Record KeyValue := mkKeyValue { kv_Key : string; kv_Value : string }.

Abbreviation files := (gmap string string).

(** ** [ihash] *)

(** 32-bit FNV-1a of hash/fnv: [New32a], [Write] and [Sum32]. *)
Fixpoint fnv32a (h : Z) (s : string) : Z :=
  match s with
  | EmptyString => h
  | String c s => fnv32a ((Z.lxor h (Z.of_N (Ascii.N_of_ascii c)) * 16777619) mod 2 ^ 32) s
  end.

Definition ihash (key : string) : Z := Z.land (fnv32a 2166136261 key) 0x7fffffff.

(** [ByKey.Less]. *)
Definition ByKey_Less (a b : KeyValue) : bool := str_less (kv_Key a) (kv_Key b).

#[export] Instance ByKey_weak_order : WeakOrder ByKey_Less.
Proof.
  split; unfold ByKey_Less; intros; [apply weak_order_total|by eapply weak_order_trans].
Qed.

(** [utf8.ValidString]: [need] continuation bytes are missing, the next one
    between [lo] and [hi]. *)
Fixpoint utf8_ok (need : nat) (lo hi : N) (s : string) : bool :=
  match s, need with
  | EmptyString, 0%nat => true
  | EmptyString, S _ => false
  | String c s, S need =>
      let b := Ascii.N_of_ascii c in
      (lo <=? b)%N && (b <=? hi)%N && utf8_ok need 128 191 s
  | String c s, 0%nat =>
      let b := Ascii.N_of_ascii c in
      if (b <? 128)%N then utf8_ok 0 128 191 s
      else if (b <? 194)%N then false
      else if (b <? 224)%N then utf8_ok 1 128 191 s
      else if (b =? 224)%N then utf8_ok 2 160 191 s
      else if (b =? 237)%N then utf8_ok 2 128 159 s
      else if (b <? 240)%N then utf8_ok 2 128 191 s
      else if (b =? 240)%N then utf8_ok 3 144 191 s
      else if (b <? 244)%N then utf8_ok 3 128 191 s
      else if (b =? 244)%N then utf8_ok 3 128 143 s
      else false
  end.

Definition valid_utf8 (s : string) : bool := utf8_ok 0 128 191 s.

Definition valid_kv (kv : KeyValue) : Prop :=
  valid_utf8 (kv_Key kv) = true /\ valid_utf8 (kv_Value kv) = true.

(** What the code uses of encoding/json for the intermediate files: an
    [Encoder] appends one value to the file, and a [Decoder] reads the values
    back until the end.  The text keeps strings that are valid UTF-8. *)
Class JsonStream := {
  json_encode : KeyValue -> string;
  json_decode_all : string -> list KeyValue;
  json_stream_law : forall kvs,
    Forall valid_kv kvs ->
    json_decode_all (foldr (fun kv s => json_encode kv +:+ s)%string EmptyString kvs) = kvs;
}.

(** ** The worker's state: [info], [WorkerTask] and [nReduce] *)

Record worker := mkWorker {
  info_id : Z;
  info_status : string;
  wt_TaskID : Z;
  wt_Class : string;
  wt_Key : string;
  wt_Workers : list Z;
  w_nReduce : Z;
}.

Definition worker_start : worker := mkWorker (-1) EmptyString 0 EmptyString EmptyString [] 0.

(** [fmt.Sprintf("mr-%d-%d", i, j)] and [fmt.Sprintf("mr-out-%d", i)]. *)
Definition mr_name (i j : Z) : string := "mr-" +:+ pretty i +:+ "-" +:+ pretty j.
Definition out_name (i : Z) : string := "mr-out-" +:+ pretty i.

(** ** Map tasks *)

(** [a % b] on [int]. *)
Definition go_rem (a b : Z) : outcome Z := if decide (b = 0) then Panic DivByZero else Ret (Z.rem a b).

(** The loop that distributes the pairs over the partitions. *)
Fixpoint partition_loop (nReduce : Z) (kvs : list KeyValue) (partitions : list (list KeyValue)) :
    outcome (list (list KeyValue)) :=
  match kvs with
  | [] => Ret partitions
  | kv :: kvs =>
      i ← go_rem (ihash (kv_Key kv)) nReduce;
      p ← idx partitions i;
      partitions ← idx_set partitions i (p ++ [kv]);
      partition_loop nReduce kvs partitions
  end.

Section worker.
Context `{!JsonStream}.

Definition encode_all (kvs : list KeyValue) : string :=
  foldr (fun kv s => json_encode kv +:+ s)%string EmptyString kvs.

(** Opening with [O_CREATE | O_APPEND] and writing. *)
Definition append_file (fs : files) (name text : string) : files :=
  <[name := (default EmptyString (fs !! name) +:+ text)%string]> fs.

Fixpoint write_loop (id i : Z) (partitions : list (list KeyValue)) (fs : files) : files :=
  match partitions with
  | [] => fs
  | partition :: partitions =>
      write_loop id (i + 1) partitions (append_file fs (mr_name id i) (encode_all partition))
  end.

(** [make] with a negative length panics. *)
Definition saveIntermediate (w : worker) (intermediate : list KeyValue) (fs : files) : outcome files :=
  if decide (w_nReduce w < 0) then Panic IndexOutOfRange else
  partitions ← partition_loop (w_nReduce w) intermediate (replicate (Z.to_nat (w_nReduce w)) []);
  Ret (write_loop (info_id w) 0 partitions fs).

(** [os.Open] and [ioutil.ReadAll]; a missing file is fatal. *)
Definition read_file (fs : files) (name : string) : outcome string :=
  match fs !! name with Some content => Ret content | None => Panic Fatal end.

Definition processMTask (mapf : string -> string -> list KeyValue) (w : worker) (fs : files) : outcome files :=
  if String.eqb (wt_Class w) "map" then
    content ← read_file fs (wt_Key w);
    saveIntermediate w (mapf (wt_Key w) content) fs
  else Ret fs.

(** ** Reduce tasks *)

(** How many pairs at the front have the key: [j - (i + 1)] when the inner
    loop ends. *)
Fixpoint run_length (key : string) (l : list KeyValue) : nat :=
  match l with
  | [] => 0
  | kv :: l => if String.eqb (kv_Key kv) key then S (run_length key l) else 0%nat
  end.

(** The grouping loop on the pairs from index [i] on: the key and output of
    each group. *)
Fixpoint reduce_loop (reducef : string -> list string -> string) (fuel : nat) (l : list KeyValue) :
    outcome (list (string * string)) :=
  match fuel with
  | 0%nat => NoFuel
  | S fuel =>
      match l with
      | [] => Ret []
      | kv :: rest =>
          let n := run_length (kv_Key kv) rest in
          let values := kv_Value kv :: (kv_Value <$> take n rest) in
          let output := reducef (kv_Key kv) values in
          out ← reduce_loop reducef fuel (drop n rest);
          Ret ((kv_Key kv, output) :: out)
      end
  end.

(** [fmt.Fprintf(ofile, "%v %v\n", key, output)]. *)
Definition newline : string := String (Ascii.ascii_of_nat 10) EmptyString.
Definition out_line (r : string * string) : string := r.1 +:+ " " +:+ r.2 +:+ newline.
Definition out_text (out : list (string * string)) : string :=
  foldr (fun r s => out_line r +:+ s)%string EmptyString out.

Fixpoint read_loop (fs : files) (filenames : list string) : outcome (list KeyValue) :=
  match filenames with
  | [] => Ret []
  | filename :: filenames =>
      content ← read_file fs filename;
      rest ← read_loop fs filenames;
      Ret (json_decode_all content ++ rest)
  end.

Definition processRTask `{!GoSort ByKey_Less} (reducef : string -> list string -> string)
    (w : worker) (fs : files) : outcome files :=
  let filenames := (fun i => mr_name i (wt_TaskID w)) <$> wt_Workers w in
  intermediate ← read_loop fs filenames;
  let intermediate := go_sort ByKey_Less intermediate in
  out ← reduce_loop reducef (S (length intermediate)) intermediate;
  Ret (<[out_name (wt_TaskID w) := out_text out]> fs).

(** ** The sequential reference: [main] of mrsequential.go on the input files *)

Fixpoint map_files (mapf : string -> string -> list KeyValue) (fs : files) (names : list string) :
    outcome (list KeyValue) :=
  match names with
  | [] => Ret []
  | filename :: names =>
      content ← read_file fs filename;
      rest ← map_files mapf fs names;
      Ret (mapf filename content ++ rest)
  end.

Definition mrsequential `{!GoSort ByKey_Less} (mapf : string -> string -> list KeyValue)
    (reducef : string -> list string -> string) (names : list string) (fs : files) : outcome files :=
  intermediate ← map_files mapf fs names;
  let intermediate := go_sort ByKey_Less intermediate in
  out ← reduce_loop reducef (S (length intermediate)) intermediate;
  Ret (<["mr-out-0" := out_text out]> fs).

(** ** The worker's loop *)

Definition CallRegister (reply : Reply) (w : worker) : worker :=
  mkWorker (Res reply) "idle" (wt_TaskID w) (wt_Class w) (wt_Key w) (wt_Workers w) (NReduce reply).

Definition CallAssignTask `{!JsonInts} (reply : TaskInfo) (w : worker) : worker :=
  if String.eqb (Class_ reply) EmptyString then w
  else mkWorker (info_id w) "busy" (TaskID reply) (Class_ reply) (Key reply)
         (json_unmarshal_bytes (Workers reply) (wt_Workers w)) (w_nReduce w).

Definition CallCompleteTask (w : worker) : WorkerCompleteTask :=
  mkComplete (info_id w) (wt_TaskID w) (wt_Class w).

(** One pass of the loop of [Worker].  The replies are what the coordinator
    answers to a registration or a request for a task; the result is the
    completion message, if one is sent. *)
Definition worker_pass `{!GoSort ByKey_Less, !JsonInts} (mapf : string -> string -> list KeyValue)
    (reducef : string -> list string -> string) (registration : Reply) (assignment : TaskInfo)
    (w : worker) (fs : files) : outcome (worker * files * option WorkerCompleteTask) :=
  if bool_decide (info_id w = -1) then Ret (CallRegister registration w, fs, None)
  else if String.eqb (info_status w) "idle" then Ret (CallAssignTask assignment w, fs, None)
  else if String.eqb (info_status w) "busy" then
    let idle := mkWorker (info_id w) "idle" (wt_TaskID w) (wt_Class w) (wt_Key w) (wt_Workers w) (w_nReduce w) in
    if String.eqb (wt_Class w) "map" then
      fs ← processMTask mapf w fs;
      Ret (idle, fs, Some (CallCompleteTask w))
    else if String.eqb (wt_Class w) "reduce" then
      fs ← processRTask reducef w fs;
      Ret (idle, fs, Some (CallCompleteTask w))
    else Ret (idle, fs, None)
  else Ret (w, fs, None).
End worker.
