(* ===== verification/WorkerProof.v ===== *)
(** * Map and reduce tasks are correct

    The grouping loop computes one line per key, in key order; the
    intermediate files of a worker hold the pairs of its map tasks, split by
    hash; and the reduce outputs together are the output of the sequential
    program, split by hash. *)

From S2P Require Import Prelude Coordinator Worker.

(** ** File names *)

Definition is_digit (c : Ascii.ascii) : bool :=
  let n := Ascii.N_of_ascii c in (48 <=? n)%N && (n <=? 57)%N.

Fixpoint all_digits (s : string) : bool :=
  match s with EmptyString => true | String c s => is_digit c && all_digits s end.

Lemma pretty_N_go_digits x s : all_digits s = true -> all_digits (pretty_N_go x s) = true.
Proof.
  revert s. induction (N.lt_wf_0 x) as [x _ IH]; intros s Hs.
  assert (x = 0 \/ 0 < x)%N as [->|Hx] by lia; [by rewrite pretty_N_go_0|].
  rewrite pretty_N_go_step by done. apply IH; [by apply N.div_lt|]. cbn [all_digits].
  rewrite Hs, andb_true_r. unfold pretty_N_char. by repeat case_match.
Qed.

Lemma pretty_Z_digits z : 0 <= z -> all_digits (pretty z) = true.
Proof.
  intros Hz. destruct z as [|p|p]; [done| |lia].
  unfold pretty, pretty_Z, pretty, pretty_positive, pretty, pretty_N.
  case_decide; [done|]. by apply pretty_N_go_digits.
Qed.

Lemma digits_split a a' b b' :
  all_digits a = true -> all_digits a' = true ->
  (a +:+ "-" +:+ b = a' +:+ "-" +:+ b')%string -> a = a' /\ b = b'.
Proof.
  revert a'. induction a as [|c a IH]; intros [|c' a'] Ha Ha' Heq; cbn in *.
  - by injection Heq.
  - injection Heq as <- Heq. done.
  - injection Heq as -> Heq. done.
  - injection Heq as -> Heq. apply andb_true_iff in Ha as [_ Ha], Ha' as [_ Ha'].
    by destruct (IH a' Ha Ha' Heq) as [-> ->].
Qed.

Lemma mr_name_inj i j i' j' :
  0 <= i -> 0 <= i' -> mr_name i j = mr_name i' j' -> i = i' /\ j = j'.
Proof.
  intros Hi Hi' Heq. unfold mr_name in Heq. cbn in Heq. injection Heq as Heq.
  apply digits_split in Heq as [H1%(inj _) H2%(inj _)]; [done|by apply pretty_Z_digits..].
Qed.

Lemma mr_name_out i j k : 0 <= i -> mr_name i j <> out_name k.
Proof.
  intros Hi Heq. unfold mr_name, out_name in Heq. cbn in Heq. injection Heq as Heq.
  pose proof (pretty_Z_digits i Hi) as Hd. destruct (pretty i) as [|c s]; [done|]. cbn in Heq, Hd.
  injection Heq as -> _. done.
Qed.

(** ** [ihash] *)

Lemma ihash_range key : 0 <= ihash key < 2 ^ 31.
Proof.
  unfold ihash. change 0x7fffffff with (Z.ones 31). rewrite Z.land_ones by lia.
  apply Z.mod_pos_bound. lia.
Qed.

(** The partition of a key. *)
Definition part_of (n : Z) (key : string) : Z := Z.rem (ihash key) n.

Lemma part_of_range n key : 0 < n -> 0 <= part_of n key < n.
Proof. intros Hn. pose proof (ihash_range key). apply Z.rem_bound_pos; lia. Qed.

Definition in_part (n r : Z) (kv : KeyValue) : Prop := part_of n (kv_Key kv) = r.

#[export] Instance in_part_dec n r kv : Decision (in_part n r kv).
Proof. unfold in_part. apply _. Defined.

(** ** Map tasks *)

Lemma partition_loop_spec n kvs ps :
  0 < n -> length ps = Z.to_nat n ->
  partition_loop n kvs ps =
  Ret (imap (fun r p => p ++ filter (in_part n (Z.of_nat r)) kvs) ps).
Proof.
  intros Hn. revert ps. induction kvs as [|kv kvs IH]; intros ps Hlen; cbn [partition_loop].
  - f_equal. apply list_eq. intros i. rewrite list_lookup_imap. destruct (ps !! i); cbn; [|done].
    by rewrite app_nil_r.
  - unfold go_rem. rewrite decide_False by lia. cbn [mbind outcome_bind].
    change (Z.rem (ihash (kv_Key kv)) n) with (part_of n (kv_Key kv)).
    pose proof (part_of_range n (kv_Key kv) Hn) as Hr.
    destruct (lookup_lt_is_Some_2 ps (Z.to_nat (part_of n (kv_Key kv)))) as [p Hp]; [lia|].
    assert (idx ps (part_of n (kv_Key kv)) = Ret p) as -> by (apply idx_ret; split; [lia|done]).
    cbn [mbind outcome_bind]. rewrite idx_set_ok by lia. cbn [mbind outcome_bind].
    rewrite IH by (by rewrite length_insert). f_equal. apply list_eq. intros i.
    rewrite !list_lookup_imap, filter_cons.
    destruct (decide (i = Z.to_nat (part_of n (kv_Key kv)))) as [->|Hne].
    + rewrite list_lookup_insert_eq, Hp by lia. cbn. rewrite decide_True by (unfold in_part; lia).
      by rewrite <- app_assoc.
    + rewrite list_lookup_insert_ne by done. rewrite decide_False by (unfold in_part; lia). done.
Qed.

Section worker.
Context `{!JsonStream}.

Lemma str_app_assoc (a b c : string) : ((a +:+ b) +:+ c = a +:+ (b +:+ c))%string.
Proof.
  induction a as [|x a IH]; [done|].
  change (String x ((a +:+ b) +:+ c) = String x (a +:+ (b +:+ c)))%string. by rewrite IH.
Qed.

Lemma str_app_nil_r (a : string) : (a +:+ EmptyString)%string = a.
Proof.
  induction a as [|x a IH]; [done|].
  change (String x (a +:+ EmptyString) = String x a)%string. by rewrite IH.
Qed.

Lemma encode_all_app l1 l2 : encode_all (l1 ++ l2) = (encode_all l1 +:+ encode_all l2)%string.
Proof.
  induction l1 as [|kv l1 IH]; [done|].
  change (json_encode kv +:+ encode_all (l1 ++ l2) = (json_encode kv +:+ encode_all l1) +:+ encode_all l2)%string.
  by rewrite IH, str_app_assoc.
Qed.

Lemma write_loop_other id i ps fs name :
  (forall r, (r < length ps)%nat -> name <> mr_name id (i + Z.of_nat r)) ->
  write_loop id i ps fs !! name = fs !! name.
Proof.
  revert i fs. induction ps as [|p ps IH]; intros i fs Hne; [done|]. cbn [write_loop]. rewrite IH.
  - unfold append_file. rewrite lookup_insert_ne; [done|]. intros <-.
    apply (Hne 0%nat); [cbn; lia|]. f_equal. lia.
  - intros r Hr. replace (i + 1 + Z.of_nat r) with (i + Z.of_nat (S r)) by lia. apply Hne. cbn. lia.
Qed.

Lemma write_loop_at id i ps fs r p :
  0 <= id -> ps !! r = Some p ->
  write_loop id i ps fs !! mr_name id (i + Z.of_nat r) =
  Some (default EmptyString (fs !! mr_name id (i + Z.of_nat r)) +:+ encode_all p)%string.
Proof.
  intros Hid. revert i fs r. induction ps as [|q ps IH]; intros i fs [|r] Hr; [done..| |]; cbn [write_loop].
  - injection Hr as ->. replace (i + Z.of_nat 0) with i by lia. rewrite write_loop_other.
    + unfold append_file. by rewrite lookup_insert_eq.
    + intros r _ [_ ?]%mr_name_inj; [lia|done..].
  - replace (i + Z.of_nat (S r)) with (i + 1 + Z.of_nat r) by lia. rewrite IH by done.
    unfold append_file. rewrite lookup_insert_ne; [done|]. intros [_ ?]%mr_name_inj; [lia|done..].
Qed.

(** A map task appends, to the file of each partition, its pairs with that
    hash, in order, and touches no other file. *)
Lemma saveIntermediate_spec w kvs fs :
  0 <= info_id w -> 0 < w_nReduce w ->
  ensures (saveIntermediate w kvs fs) (fun fs' =>
    (forall r, 0 <= r < w_nReduce w -> fs' !! mr_name (info_id w) r =
       Some (default EmptyString (fs !! mr_name (info_id w) r) +:+
             encode_all (filter (in_part (w_nReduce w) r) kvs))%string) /\
    (forall name, (forall r, 0 <= r < w_nReduce w -> name <> mr_name (info_id w) r) ->
       fs' !! name = fs !! name)).
Proof.
  intros Hid Hn. unfold saveIntermediate. rewrite decide_False by lia.
  rewrite partition_loop_spec by (rewrite ?length_replicate; lia). cbn [mbind outcome_bind].
  apply ensures_ret. set (ps := imap _ _).
  assert (length ps = Z.to_nat (w_nReduce w)) as Hlen by (unfold ps; by rewrite length_imap, length_replicate).
  split.
  - intros r Hr. replace r with (0 + Z.of_nat (Z.to_nat r)) at 1 2 by lia.
    apply write_loop_at; [done|]. unfold ps. rewrite list_lookup_imap, lookup_replicate_2 by lia. cbn.
    by rewrite Z2Nat.id by lia.
  - intros name Hname. apply write_loop_other. intros r Hr. apply Hname. lia.
Qed.
End worker.

(** ** Grouping *)

Definition str_lt (a b : string) : Prop := str_less a b = true.

(** The values of a key, in order. *)
Definition values_of (k : string) (l : list KeyValue) : list string :=
  kv_Value <$> filter (fun kv => kv_Key kv = k) l.

(** One output per key that occurs, in increasing order of the keys, computed
    from all the values of the key. *)
Record grouped (reducef : string -> list string -> string) (l : list KeyValue)
    (out : list (string * string)) : Prop := {
  gr_sorted : StronglySorted str_lt out.*1;
  gr_keys : forall k, k ∈ out.*1 <-> k ∈ kv_Key <$> l;
  gr_values : Forall (fun r => r.2 = reducef r.1 (values_of r.1 l)) out;
}.

Definition by_key (a b : KeyValue) : Prop := ByKey_Less b a = false.

Lemma run_length_take k l : Forall (fun kv => kv_Key kv = k) (take (run_length k l) l).
Proof.
  induction l as [|kv l IH]; cbn; [constructor|].
  destruct (String.eqb_spec (kv_Key kv) k); cbn; by constructor.
Qed.

Lemma run_length_drop k l kv rest : drop (run_length k l) l = kv :: rest -> kv_Key kv <> k.
Proof.
  induction l as [|kv' l IH]; cbn; [done|].
  destruct (String.eqb_spec (kv_Key kv') k); cbn; [done|]. by intros [= -> _].
Qed.

(** After the run of a key only greater keys are left. *)
Lemma run_length_greater kv l :
  StronglySorted by_key (kv :: l) ->
  Forall (fun kv' => str_lt (kv_Key kv) (kv_Key kv')) (drop (run_length (kv_Key kv) l) l).
Proof.
  intros [Hkv Hl]%StronglySorted_cons.
  destruct (drop _ l) as [|h rest] eqn:E; [constructor|].
  pose proof (run_length_drop _ _ _ _ E) as Hh.
  assert (StronglySorted by_key (h :: rest)) as [Hhr _]%StronglySorted_cons.
  { rewrite <- (take_drop (run_length (kv_Key kv) l) l), E in Hl. by apply StronglySorted_app in Hl as (_ & _ & ?). }
  assert (Forall (by_key kv) (h :: rest)) as Hge by (rewrite <- E; by apply Forall_drop).
  rewrite Forall_forall in Hge, Hhr. apply Forall_forall. intros y Hy. unfold str_lt.
  destruct (str_less (kv_Key kv) (kv_Key y)) eqn:Ey; [done|]. exfalso. apply Hh.
  apply str_less_antisym; [apply (Hge h); left|].
  assert (kv_Key y = kv_Key kv) as Hyk by (apply str_less_antisym; [apply (Hge y Hy)|done]).
  apply elem_of_cons in Hy as [->|Hy]; [by rewrite Hyk, str_less_irrefl|].
  specialize (Hhr y Hy). unfold by_key, ByKey_Less in Hhr. by rewrite Hyk in Hhr.
Qed.

Lemma values_of_other k l : Forall (fun kv => kv_Key kv <> k) l -> values_of k l = [].
Proof. intros H. unfold values_of. by rewrite list_filter_none. Qed.

Lemma values_of_app k l1 l2 : values_of k (l1 ++ l2) = values_of k l1 ++ values_of k l2.
Proof. unfold values_of. by rewrite filter_app, fmap_app. Qed.

Lemma str_lt_ne a b : str_lt a b -> a <> b.
Proof. unfold str_lt. intros H ->. by rewrite str_less_irrefl in H. Qed.

(** The grouping loop on sorted pairs. *)
Lemma reduce_loop_grouped reducef fuel l :
  (length l < fuel)%nat -> StronglySorted by_key l ->
  ensures (reduce_loop reducef fuel l) (grouped reducef l).
Proof.
  revert l. induction fuel as [|fuel IH]; intros [|kv rest] Hf Hs; cbn in Hf; [lia..| |].
  { apply ensures_ret. split; constructor; set_solver. }
  cbn [reduce_loop]. set (k := kv_Key kv). set (n := run_length k rest).
  pose proof (run_length_take k rest) as Htake. pose proof (run_length_greater kv rest Hs) as Hgt.
  fold k n in Htake, Hgt.
  assert (Forall (fun kv' => kv_Key kv' <> k) (drop n rest)) as Hne.
  { eapply Forall_impl; [exact Hgt|]. cbn. intros y ?%str_lt_ne. congruence. }
  eapply ensures_bind; [apply IH|].
  { rewrite length_drop. lia. }
  { apply StronglySorted_cons in Hs as [_ Hs]. rewrite <- (take_drop n rest) in Hs.
    by apply StronglySorted_app in Hs as (_ & _ & ?). }
  intros out [Hsort Hkeys Hvals]. apply ensures_ret.
  assert (forall k', k' ∈ out.*1 -> str_lt k k') as Hlt.
  { intros k'. rewrite Hkeys. intros (y & -> & Hy)%list_elem_of_fmap.
    rewrite Forall_forall in Hgt. by apply Hgt. }
  split.
  - cbn. apply StronglySorted_cons. split; [|done]. by apply Forall_forall.
  - intros k'. cbn. rewrite !elem_of_cons, Hkeys. fold k.
    rewrite <- (take_drop n rest) at 2. rewrite fmap_app, elem_of_app. split; [tauto|].
    intros [?|[(y & -> & Hy)%list_elem_of_fmap|?]]; [tauto| |tauto]. left.
    rewrite Forall_forall in Htake. by apply Htake.
  - constructor; cbn [fst snd].
    + f_equal. unfold values_of. rewrite filter_cons, decide_True by done. cbn [fmap list_fmap]. f_equal.
      rewrite <- (take_drop n rest) at 2. rewrite filter_app, list_filter_all by done.
      rewrite list_filter_none by done. by rewrite app_nil_r.
    + rewrite Forall_forall in Hvals. rewrite Forall_forall in Htake. apply Forall_forall. intros r Hr. rewrite (Hvals r Hr). f_equal.
      assert (str_lt k r.1) as Hkr by (apply Hlt, list_elem_of_fmap; eauto).
      change (kv :: rest) with ([kv] ++ rest). rewrite <- (take_drop n rest) at 2. rewrite !values_of_app.
      rewrite (values_of_other _ [kv]) by (apply Forall_singleton; by apply str_lt_ne).
      rewrite (values_of_other _ (take n rest)); [done|]. apply Forall_forall. intros y Hy.
      rewrite (Htake y Hy). by apply str_lt_ne.
Qed.

(** *** What determines the groups *)

Definition order_free (reducef : string -> list string -> string) : Prop :=
  forall k vs vs', vs ≡ₚ vs' -> reducef k vs = reducef k vs'.

Lemma grouped_perm reducef l l' out :
  order_free reducef -> l ≡ₚ l' -> grouped reducef l out -> grouped reducef l' out.
Proof.
  intros Hf Hp [Hs Hk Hv]. split; [done| |].
  - intros k. by rewrite Hk, Hp.
  - eapply Forall_impl; [exact Hv|]. cbn. intros r ->. apply Hf. unfold values_of. by rewrite Hp.
Qed.

#[local] Instance str_lt_asymm_total : AntiSymm (=) str_lt.
Proof. intros a b Ha Hb. exfalso. unfold str_lt in *.
  destruct (weak_order_total (less := str_less) a b); congruence. Qed.

Lemma grouped_unique reducef l out out' :
  grouped reducef l out -> grouped reducef l out' -> out = out'.
Proof.
  intros [Hs Hk Hv] [Hs' Hk' Hv'].
  assert (forall ks, StronglySorted str_lt ks -> NoDup ks) as Hnd.
  { induction 1 as [|k ks _ IH Hlt]; constructor; [|done]. intros Hin.
    rewrite Forall_forall in Hlt. by apply (str_lt_ne k k (Hlt k Hin)). }
  assert (out.*1 = out'.*1) as Heq.
  { apply (StronglySorted_unique str_lt); [done..|]. apply NoDup_Permutation; [by apply Hnd..|].
    intros k. by rewrite Hk, Hk'. }
  assert (forall o, Forall (fun r : string * string => r.2 = reducef r.1 (values_of r.1 l)) o ->
    o = (fun k => (k, reducef k (values_of k l))) <$> o.*1) as Hrec.
  { induction 1 as [|[k v] o Hr _ IH]; cbn in *; [done|]. by rewrite <- IH, Hr. }
  by rewrite (Hrec out Hv), (Hrec out' Hv'), Heq.
Qed.

Lemma grouped_filter reducef (P : string -> Prop) (HP : forall k, Decision (P k)) l out :
  grouped reducef l out ->
  grouped reducef (filter (fun kv => P (kv_Key kv)) l) (filter (fun r => P r.1) out).
Proof.
  intros [Hs Hk Hv]. split.
  - rewrite <- list_filter_fmap. clear -Hs. induction Hs as [|k ks _ IH Hlt]; [constructor|].
    rewrite filter_cons. case_decide; [|done]. constructor; [done|].
    rewrite Forall_forall in *. intros k' [_ ?]%list_elem_of_filter. auto.
  - intros k. rewrite <- (list_filter_fmap fst), <- (list_filter_fmap kv_Key), !list_elem_of_filter.
    by rewrite Hk.
  - apply Forall_forall. intros r [HPr Hr]%list_elem_of_filter. rewrite Forall_forall in Hv.
    rewrite (Hv r Hr). f_equal. unfold values_of. f_equal. rewrite list_filter_filter.
    apply list_filter_ext. intros kv _. split; [|tauto]. intros Heq. by rewrite Heq.
Qed.

(** ** The distributed job *)

Lemma filter_bind {A B} (P : B -> Prop) (HP : forall y, Decision (P y)) (f : A -> list B) (l : list A) :
  filter P (l ≫= f) = l ≫= (fun x => filter P (f x)).
Proof. induction l as [|x l IH]; cbn; [done|]. by rewrite filter_app, IH. Qed.

Lemma bind_bind {A B C} (l : list A) (f : A -> list B) (g : B -> list C) :
  (l ≫= f) ≫= g = l ≫= (fun x => f x ≫= g).
Proof. induction l as [|x l IH]; cbn; [done|]. by rewrite bind_app, IH. Qed.

(** Collecting the jobs worker by worker. *)
Lemma bind_by_worker {A} (jobs : list (Z * A)) (workers : list Z) :
  NoDup workers -> (forall j, j ∈ jobs -> j.1 ∈ workers) ->
  (workers ≫= fun w => filter (fun j => j.1 = w) jobs) ≡ₚ jobs.
Proof.
  intros Hnd Hin. apply (perm_by_key fst). intros k. rewrite filter_bind.
  assert (forall w, filter (fun x : Z * A => x.1 = k) (filter (fun j => j.1 = w) jobs) =
    if decide (w = k) then filter (fun x => x.1 = k) jobs else []) as Hw.
  { intros w. rewrite list_filter_filter. case_decide as E.
    - apply list_filter_ext. intros x _. subst; tauto.
    - apply list_filter_none, Forall_forall. intros x _. cbn. naive_solver. }
  assert ((workers ≫= fun w => filter (fun x : Z * A => x.1 = k) (filter (fun j => j.1 = w) jobs)) =
    if decide (k ∈ workers) then filter (fun x => x.1 = k) jobs else []) as ->.
  { clear Hin. induction Hnd as [|w ws Hnw _ IH]; cbn.
    - by rewrite decide_False by apply not_elem_of_nil.
    - rewrite IH, Hw. repeat case_decide; try set_solver. by rewrite app_nil_r. }
  case_decide as Hk; [done|]. rewrite list_filter_none; [done|]. apply Forall_forall. intros x Hx <-. by apply Hk, Hin.
Qed.

Section job.
Context `{!JsonStream, !GoSort ByKey_Less}.
Context (mapf : string -> string -> list KeyValue) (n : Z) (input : string -> string).

(** A worker that runs a map task for a file, and one that runs a reduce task. *)
Definition map_worker (job : Z * string) : worker := mkWorker job.1 "busy" 0 "map" job.2 [] n.
Definition reduce_worker (id r : Z) (workers : list Z) : worker :=
  mkWorker id "busy" r "reduce" EmptyString workers n.

Fixpoint run_maps (jobs : list (Z * string)) (fs : files) : outcome files :=
  match jobs with
  | [] => Ret fs
  | job :: jobs => fs ← processMTask mapf (map_worker job) fs; run_maps jobs fs
  end.

(** The pairs of a file. *)
Definition pairs (f : string) : list KeyValue := mapf f (input f).

(** The pairs that the jobs of a worker contribute to a partition. *)
Definition contribution (jobs : list (Z * string)) (w r : Z) : list KeyValue :=
  filter (fun j : Z * string => j.1 = w) jobs ≫= fun j => filter (in_part n r) (pairs j.2).

Definition has_inputs (fs : files) (names : list string) : Prop :=
  Forall (fun f => fs !! f = Some (input f) /\ forall i j, f <> mr_name i j) names.

Lemma run_maps_spec jobs fs :
  0 < n -> Forall (fun j => 0 <= j.1) jobs -> has_inputs fs jobs.*2 ->
  ensures (run_maps jobs fs) (fun fs' =>
    forall w r, 0 <= w -> 0 <= r < n -> fs' !! mr_name w r =
      if decide (w ∈ jobs.*1)
      then Some (default EmptyString (fs !! mr_name w r) +:+ encode_all (contribution jobs w r))%string
      else fs !! mr_name w r).
Proof.
  intros Hn. revert fs. induction jobs as [|[v f] jobs IH]; intros fs Hid Hin; cbn [run_maps].
  { apply ensures_ret. intros w r _ _. by rewrite decide_False by apply not_elem_of_nil. }
  apply Forall_cons in Hid as [Hv Hid]. cbn in Hv. apply Forall_cons in Hin as [[Hf Hname] Hin].
  eapply ensures_bind; [|intros fs1 Hfs1].
  { unfold processMTask, map_worker. cbn [wt_Class wt_Key]. rewrite String.eqb_refl.
    unfold read_file. cbn [fst snd] in Hf |- *. rewrite Hf. cbn [mbind outcome_bind].
    apply saveIntermediate_spec; [exact Hv|exact Hn]. }
  destruct Hfs1 as [Hat Hother]. cbn [info_id w_nReduce map_worker fst] in Hat, Hother.
  eapply ensures_mono; [apply IH; [done|]|].
  { eapply Forall_impl; [exact Hin|]. intros g [Hg Hgn]. split; [|done]. rewrite Hother; auto. }
  cbn beta. intros fs2 Hfs2 w r Hw Hr. rewrite (Hfs2 w r Hw Hr). clear Hfs2.
  unfold contribution. rewrite filter_cons. cbn [fst snd fmap list_fmap].
  destruct (decide (v = w)) as [->|Hne].
  - rewrite (decide_True (P := w ∈ w :: jobs.*1)) by left. rewrite Hat by done. cbn [from_option].
    fold (pairs f). cbn [mbind list_bind]. rewrite encode_all_app, <- str_app_assoc.
    case_decide as Hj; [done|].
    assert (filter (fun j : Z * string => j.1 = w) jobs = []) as ->.
    { apply list_filter_none, Forall_forall. intros j Hjj <-. apply Hj, list_elem_of_fmap. eauto. }
    cbn. by rewrite str_app_nil_r.
  - rewrite Hother by (intros q _ [? _]%mr_name_inj; done).
    destruct (decide (w ∈ jobs.*1)), (decide (w ∈ v :: jobs.*1)); set_solver.
Qed.

(** The valid pairs of a partition survive the intermediate file. *)
Lemma contribution_valid jobs w r :
  Forall (fun f => Forall valid_kv (pairs f)) jobs.*2 -> Forall valid_kv (contribution jobs w r).
Proof.
  intros Hv. apply Forall_forall. intros kv (j & Hkv & Hj)%list_elem_of_bind.
  apply list_elem_of_filter in Hj as [_ Hj], Hkv as [_ Hkv].
  rewrite Forall_fmap, Forall_forall in Hv. specialize (Hv j Hj). cbn in Hv.
  rewrite Forall_forall in Hv. by apply Hv.
Qed.

Lemma read_loop_spec jobs fs workers r :
  Forall (fun f => Forall valid_kv (pairs f)) jobs.*2 ->
  (forall w, w ∈ workers -> fs !! mr_name w r = Some (encode_all (contribution jobs w r))) ->
  read_loop fs ((fun i => mr_name i r) <$> workers) = Ret (workers ≫= fun w => contribution jobs w r).
Proof.
  intros Hv. induction workers as [|w ws IH]; intros Hw; [done|].
  cbn [fmap list_fmap read_loop]. unfold read_file. rewrite (Hw w) by left. cbn [mbind outcome_bind].
  change ((list_fmap _ _ (fun i => mr_name i r) ws)) with ((fun i => mr_name i r) <$> ws).
  rewrite IH by (intros; apply Hw; by right). cbn [mbind outcome_bind].
  unfold encode_all. rewrite json_stream_law by by apply contribution_valid. done.
Qed.

(** What the reduce task of partition [r] reads is what the sequential
    program maps, restricted to the partition, up to the order. *)
Lemma contributions_perm jobs names workers r :
  jobs.*2 ≡ₚ names -> NoDup workers -> (forall j, j ∈ jobs -> j.1 ∈ workers) ->
  (workers ≫= fun w => contribution jobs w r) ≡ₚ filter (in_part n r) (names ≫= pairs).
Proof.
  intros Hp Hnd Hin. unfold contribution.
  rewrite <- (bind_bind workers (fun w => filter (fun j : Z * string => j.1 = w) jobs)).
  rewrite (bind_by_worker jobs workers Hnd Hin), filter_bind, <- Hp.
  by rewrite list_fmap_bind.
Qed.

Lemma map_files_spec fs names :
  Forall (fun f => fs !! f = Some (input f)) names ->
  map_files mapf fs names = Ret (names ≫= pairs).
Proof.
  induction 1 as [|f names Hf _ IH]; [done|]. cbn [map_files]. unfold read_file. rewrite Hf.
  cbn [mbind outcome_bind]. rewrite IH. done.
Qed.

Lemma sorted_grouped (reducef : string -> list string -> string) l :
  ensures (reduce_loop reducef (S (length (go_sort ByKey_Less l))) (go_sort ByKey_Less l))
    (grouped reducef (go_sort ByKey_Less l)).
Proof. apply reduce_loop_grouped; [lia|]. apply go_sort_sorted. Qed.
End job.
