(* ===== verification/MRApps.v ===== *)
(** * Applications of MapReduce (src/src/mrapps: wc, indexer, nocrash, early_exit)

    The map and reduce functions of the plugins that compute a value of their
    arguments.  [strings.FieldsFunc] splits a text, decoded into runes, at the
    runes that are not letters; which runes are letters is a table of package
    unicode, of which the ASCII part is stated. *)

From Stdlib Require Import Ascii.
From S2P Require Import Prelude Coordinator Worker WorkerProof.

Class Unicode := {
  IsLetter : Z -> bool;
  IsLetter_ascii : forall r, 0 <= r < 128 ->
    IsLetter r = (65 <=? r) && (r <=? 90) || (97 <=? r) && (r <=? 122);
}.

#[export] Program Instance ascii_letters : Unicode := {|
  IsLetter r := (65 <=? r) && (r <=? 90) || (97 <=? r) && (r <=? 122) |}.
Next Obligation. done. Qed.

(** ** Runes *)

Definition byte_at (s : string) (i : nat) : Z :=
  match String.get i s with Some c => Z.of_N (N_of_ascii c) | None => -1 end.

Definition between (lo x hi : Z) : bool := (lo <=? x) && (x <=? hi).

(** [utf8.DecodeRuneInString]: the rune at the front and its width; bytes that
    are not UTF-8 give U+FFFD and width 1. *)
Definition decode_rune (s : string) : Z * nat :=
  let b0 := byte_at s 0 in let b1 := byte_at s 1 in
  let b2 := byte_at s 2 in let b3 := byte_at s 3 in
  if b0 <? 128 then (b0, 1%nat)
  else if between 0xC2 b0 0xDF then
    if between 0x80 b1 0xBF then ((b0 - 0xC0) * 64 + (b1 - 0x80), 2%nat) else (0xFFFD, 1%nat)
  else if between 0xE0 b0 0xEF then
    let lo := if b0 =? 0xE0 then 0xA0 else 0x80 in
    let hi := if b0 =? 0xED then 0x9F else 0xBF in
    if between lo b1 hi && between 0x80 b2 0xBF
    then ((b0 - 0xE0) * 4096 + (b1 - 0x80) * 64 + (b2 - 0x80), 3%nat) else (0xFFFD, 1%nat)
  else if between 0xF0 b0 0xF4 then
    let lo := if b0 =? 0xF0 then 0x90 else 0x80 in
    let hi := if b0 =? 0xF4 then 0x8F else 0xBF in
    if between lo b1 hi && between 0x80 b2 0xBF && between 0x80 b3 0xBF
    then ((b0 - 0xF0) * 262144 + (b1 - 0x80) * 4096 + (b2 - 0x80) * 64 + (b3 - 0x80), 4%nat)
    else (0xFFFD, 1%nat)
  else (0xFFFD, 1%nat).

(** The runes of a text, each with its bytes. *)
Fixpoint runes (fuel : nat) (s : string) : list (Z * string) :=
  match fuel, s with
  | S fuel, String _ _ =>
      let '(r, w) := decode_rune s in
      (r, String.substring 0 w s) :: runes fuel (String.substring w (String.length s - w) s)
  | _, _ => []
  end.

(** The fields between runes that satisfy [f]; [cur] is the field begun. *)
Fixpoint fields_loop (f : Z -> bool) (rs : list (Z * string)) (cur : option string) : list string :=
  match rs with
  | [] => match cur with Some w => [w] | None => [] end
  | (r, b) :: rs =>
      if f r then match cur with Some w => w :: fields_loop f rs None | None => fields_loop f rs None end
      else fields_loop f rs (Some (default EmptyString cur +:+ b)%string)
  end.

Definition FieldsFunc (s : string) (f : Z -> bool) : list string :=
  fields_loop f (runes (String.length s) s) None.

Section apps.
Context `{!Unicode}.

Definition words (contents : string) : list string := FieldsFunc contents (fun r => negb (IsLetter r)).

(** [strconv.Itoa(len(l))]. *)
Definition itoa_len {A} (l : list A) : string := pretty (Z.of_nat (length l)).

(** ** wc.go *)

Definition wc_Map (filename contents : string) : list KeyValue :=
  (fun w => mkKeyValue w "1") <$> words contents.

Definition wc_Reduce (key : string) (values : list string) : string := itoa_len values.

(** ** indexer.go *)

Definition indexer_Map `{!RangeOrder string} (document value : string) : list KeyValue :=
  let m := list_to_set (words value) : gset string in
  (fun w => mkKeyValue w document) <$> range_order (elements m).

Definition indexer_Reduce `{!GoSort str_less} (key : string) (values : list string) : string :=
  let values := go_sort str_less values in
  (itoa_len values +:+ " " +:+ String.concat "," values)%string.

(** ** nocrash.go *)

(** The condition starts with [false], so the process never exits; the two
    functions below leave the call out. *)
Definition nocrash_maybeCrash (rr : Z) : outcome unit := if false && (rr <? 500) then Panic Fatal else Ret tt.

Lemma nocrash_never_exits rr : nocrash_maybeCrash rr = Ret tt.
Proof. done. Qed.

Definition nocrash_Map (filename contents : string) : list KeyValue :=
  [ mkKeyValue "a" filename;
    mkKeyValue "b" (pretty (Z.of_nat (String.length filename)));
    mkKeyValue "c" (pretty (Z.of_nat (String.length contents)));
    mkKeyValue "d" "xyzzy" ].

Definition nocrash_Reduce `{!GoSort str_less} (key : string) (values : list string) : string :=
  let vv := go_sort str_less values in
  String.concat " " vv.

(** ** crash.go

    [rr] is the random number; the process exits for a third of them.  The
    delay for another third does not change the result. *)

Definition crash_maybeCrash (rr : Z) : outcome unit := if rr <? 330 then Panic Fatal else Ret tt.

Definition crash_Map (rr : Z) (filename contents : string) : outcome (list KeyValue) :=
  _ ← crash_maybeCrash rr;
  Ret [ mkKeyValue "a" filename;
        mkKeyValue "b" (pretty (Z.of_nat (String.length filename)));
        mkKeyValue "c" (pretty (Z.of_nat (String.length contents)));
        mkKeyValue "d" "xyzzy" ].

Definition crash_Reduce `{!GoSort str_less} (rr : Z) (key : string) (values : list string) : outcome string :=
  _ ← crash_maybeCrash rr;
  Ret (String.concat " " (go_sort str_less values)).

(** When it does not crash it is nocrash.go. *)
Lemma crash_Map_nocrash rr filename contents kvs :
  crash_Map rr filename contents = Ret kvs -> 330 <= rr /\ kvs = nocrash_Map filename contents.
Proof.
  unfold crash_Map, crash_maybeCrash. destruct (Z.ltb_spec rr 330) as [|Hge]; [done|]. intros [= <-]. done.
Qed.

(** ** early_exit.go *)

Definition early_exit_Map (filename contents : string) : list KeyValue := [mkKeyValue filename "1"].

Definition early_exit_Reduce (key : string) (values : list string) : string := itoa_len values.

(** ** The order of the values *)

Lemma go_sort_str_perm `{!GoSort str_less} (l l' : list string) :
  l ≡ₚ l' -> go_sort str_less l = go_sort str_less l'.
Proof.
  intros Hp. apply (StronglySorted_unique_strong (fun x y => str_less y x = false)).
  - intros a b _ _ H1 H2. by apply str_less_antisym.
  - apply go_sort_sorted.
  - apply go_sort_sorted.
  - by rewrite !go_sort_perm.
Qed.

Lemma wc_order_free : order_free wc_Reduce.
Proof. intros k vs vs' Hp. unfold wc_Reduce, itoa_len. by rewrite Hp. Qed.

Lemma indexer_order_free `{!GoSort str_less} : order_free indexer_Reduce.
Proof. intros k vs vs' Hp. unfold indexer_Reduce. by rewrite (go_sort_str_perm _ _ Hp). Qed.

Lemma nocrash_order_free `{!GoSort str_less} : order_free nocrash_Reduce.
Proof. intros k vs vs' Hp. unfold nocrash_Reduce. by rewrite (go_sort_str_perm _ _ Hp). Qed.

(** The occurrences of a word. *)
Lemma wc_values k names (input : string -> string) :
  values_of k (names ≫= pairs wc_Map input) =
  replicate (length (filter (eq k) (names ≫= fun f => words (input f)))) "1".
Proof.
  induction names as [|f names IH]; [done|]. rewrite !bind_cons.
  rewrite values_of_app, filter_app, length_app, replicate_add. f_equal; [|exact IH].
  unfold pairs, wc_Map. generalize (words (input f)) as ws. intros ws. unfold values_of.
  rewrite list_filter_fmap. cbn [kv_Key]. rewrite <- list_fmap_compose. cbn.
  induction ws as [|w ws IHw]; [done|]. rewrite !filter_cons.
  destruct (decide (w = k)) as [Heq|Hne], (decide (k = w)); try congruence; cbn; by f_equal.
Qed.

Lemma wc_keys names (input : string -> string) :
  kv_Key <$> (names ≫= pairs wc_Map input) = names ≫= fun f => words (input f).
Proof.
  induction names as [|f names IH]; [done|]. rewrite !bind_cons, fmap_app, IH. f_equal.
  unfold pairs, wc_Map. rewrite <- list_fmap_compose. cbn. apply list_fmap_id.
Qed.
End apps.
