(* ===== verification/MapReduceSpec.v ===== *)
(** * Properties of the MapReduce job

    The distributed job computes what the sequential program computes, split
    by the hash of the key; and the behaviours in which it does not. *)

From Stdlib Require Import Ascii.
From S2P Require Import Prelude Codec Coordinator CoordinatorProof CoordinatorSpec Worker WorkerProof MRApps.

Fixpoint run_reduces `{!JsonStream, !GoSort ByKey_Less} (reducef : string -> list string -> string)
    (n : Z) (workers : list Z) (rjobs : list (Z * Z)) (fs : files) : outcome files :=
  match rjobs with
  | [] => Ret fs
  | (id, r) :: rjobs =>
      fs ← processRTask reducef (reduce_worker n id r workers) fs;
      run_reduces reducef n workers rjobs fs
  end.

Section job.
Context `{!JsonStream, !GoSort ByKey_Less}.
Context (mapf : string -> string -> list KeyValue) (reducef : string -> list string -> string).
Context (n : Z) (input : string -> string) (jobs : list (Z * string)) (names : list string).
Context (workers : list Z).

(** A job in which every input file is mapped once, by some worker, and
    [workers] lists the workers that mapped; the workers' intermediate files
    do not exist before. *)
Record job_ok (fs : files) : Prop := {
  jo_n : 0 < n;
  jo_reduce : order_free reducef;
  jo_jobs : jobs.*2 ≡ₚ names;
  jo_ids : Forall (fun j => 0 <= j.1) jobs;
  jo_nodup : NoDup workers;
  jo_workers : forall w, w ∈ workers <-> w ∈ jobs.*1;
  jo_inputs : has_inputs input fs names;
  jo_valid : Forall (fun f => Forall valid_kv (pairs mapf input f)) names;
  jo_fresh : forall w r, w ∈ workers -> fs !! mr_name w r = None;
}.

(** The intermediate files after the map phase. *)
Definition mapped (fs : files) : Prop :=
  forall w r, w ∈ workers -> 0 <= r < n ->
    fs !! mr_name w r = Some (encode_all (contribution mapf n input jobs w r)).

Lemma jo_worker_ge fs w : job_ok fs -> w ∈ workers -> 0 <= w.
Proof.
  intros Hok. rewrite (jo_workers _ Hok), list_elem_of_fmap. intros (j & -> & Hj).
  pose proof (jo_ids _ Hok) as Hids. rewrite Forall_forall in Hids. by apply Hids.
Qed.

Lemma run_maps_mapped fs : job_ok fs -> ensures (run_maps mapf n jobs fs) mapped.
Proof.
  intros Hok. eapply ensures_mono.
  - apply (run_maps_spec mapf n input); [apply Hok|apply Hok|].
    pose proof (jo_inputs _ Hok) as Hin. unfold has_inputs in *. by rewrite (jo_jobs _ Hok).
  - cbn beta. intros fs' Hfs w r Hw Hr. rewrite (Hfs w r (jo_worker_ge _ _ Hok Hw) Hr).
    rewrite decide_True by by apply (jo_workers _ Hok). by rewrite (jo_fresh _ Hok) by done.
Qed.

(** The output of one reduce task. *)
Lemma processRTask_mapped fs0 fs id r lines :
  job_ok fs0 -> mapped fs -> 0 <= r < n -> grouped reducef (names ≫= pairs mapf input) lines ->
  processRTask reducef (reduce_worker n id r workers) fs =
  Ret (<[out_name r := out_text (filter (fun l => part_of n l.1 = r) lines)]> fs).
Proof.
  intros Hok Hm Hr Hg. unfold processRTask. cbn [wt_Workers wt_TaskID reduce_worker].
  rewrite (read_loop_spec mapf n input jobs);
    [|rewrite (jo_jobs _ Hok); apply Hok|intros w Hw; by apply Hm].
  cbn [mbind outcome_bind]. set (l := workers ≫= _).
  destruct (sorted_grouped reducef l) as (out & -> & Hout). cbn [mbind outcome_bind].
  do 3 f_equal. apply (grouped_unique reducef l).
  - eapply grouped_perm; [apply Hok|apply go_sort_perm|done].
  - eapply grouped_perm; [apply Hok| |by apply (grouped_filter reducef (fun k => part_of n k = r) (fun k => decide_rel eq (part_of n k) r))].
    symmetry. apply (contributions_perm mapf n input); [apply Hok|apply Hok|].
    intros j Hj. apply (jo_workers _ Hok), list_elem_of_fmap. eauto.
Qed.

Lemma mapped_out fs0 fs r text : job_ok fs0 -> mapped fs -> mapped (<[out_name r := text]> fs).
Proof.
  intros Hok Hm w r' Hw Hr. rewrite lookup_insert_ne; [by apply Hm|].
  intros Heq. by apply (mr_name_out w r' r (jo_worker_ge _ _ Hok Hw)).
Qed.

Lemma out_name_inj r r' : out_name r = out_name r' -> r = r'.
Proof. unfold out_name. intros Heq. injection Heq as Heq. exact (inj (pretty (A := Z)) r r' Heq). Qed.

Lemma run_reduces_mapped fs0 fs rjobs lines :
  job_ok fs0 -> mapped fs -> Forall (fun j => 0 <= j.2 < n) rjobs ->
  grouped reducef (names ≫= pairs mapf input) lines ->
  ensures (run_reduces reducef n workers rjobs fs) (fun fs' =>
    forall r, fs' !! out_name r =
      if decide (r ∈ rjobs.*2) then Some (out_text (filter (fun l => part_of n l.1 = r) lines))
      else fs !! out_name r).
Proof.
  intros Hok Hm Hr Hg. revert fs Hm. induction Hr as [|[id q] rjobs Hq _ IH]; intros fs Hm; cbn [run_reduces].
  { apply ensures_ret. intros r. by rewrite decide_False by apply not_elem_of_nil. }
  rewrite (processRTask_mapped fs0 fs id q lines) by done. cbn [mbind outcome_bind].
  eapply ensures_mono; [apply IH, (mapped_out fs0); done|]. cbn beta. intros fs' Hfs r. rewrite Hfs.
  cbn [fmap list_fmap snd].
  destruct (decide (r = q)) as [->|Hne].
  - rewrite lookup_insert_eq, (decide_True (P := q ∈ q :: rjobs.*2)) by left. by case_decide.
  - rewrite lookup_insert_ne by (intros ?%out_name_inj; congruence).
    destruct (decide (r ∈ rjobs.*2)), (decide (r ∈ q :: rjobs.*2)); set_solver.
Qed.

(** When every input file is mapped once, in any order and by any
    distribution over the workers, and the reduce tasks are run in any order
    by any workers, the output file of each partition holds exactly the lines
    of the sequential program's output whose key hashes to the partition, in
    the same order.  The reduce function may not depend on the order of the
    values. *)
Theorem distributed_equals_sequential fs rjobs :
  job_ok fs -> Forall (fun j => 0 <= j.2 < n) rjobs ->
  exists lines fsq fs1 fs2,
    mrsequential mapf reducef names fs = Ret fsq /\ fsq !! "mr-out-0" = Some (out_text lines) /\
    run_maps mapf n jobs fs = Ret fs1 /\ run_reduces reducef n workers rjobs fs1 = Ret fs2 /\
    forall r, r ∈ rjobs.*2 ->
      fs2 !! out_name r = Some (out_text (filter (fun l => part_of n l.1 = r) lines)).
Proof.
  intros Hok Hr. unfold mrsequential. rewrite (map_files_spec mapf input).
  2:{ eapply Forall_impl; [apply (jo_inputs _ Hok)|]. by intros f [? _]. }
  cbn [mbind outcome_bind]. destruct (sorted_grouped reducef (names ≫= pairs mapf input)) as (lines & Hl & Hg).
  rewrite Hl. cbn [mbind outcome_bind].
  apply (grouped_perm reducef _ (names ≫= pairs mapf input)) in Hg; [|apply Hok|apply go_sort_perm].
  destruct (run_maps_mapped fs Hok) as (fs1 & Hmaps & Hm).
  destruct (run_reduces_mapped fs fs1 rjobs lines Hok Hm Hr Hg) as (fs2 & Hred & Hout).
  exists lines, (<["mr-out-0" := out_text lines]> fs), fs1, fs2.
  split_and!; [done|by rewrite lookup_insert_eq|done|done|].
  intros r Hin. rewrite Hout. by rewrite decide_True.
Qed.
End job.

(** ** A codec for the intermediate files *)

Fixpoint take_pos (s : string) : option (positive * string) :=
  match s with
  | EmptyString => None
  | String c s =>
      if Ascii.eqb c ";"%char then Some (xH, s)
      else match take_pos s with
           | Some (p, r) => Some (if Ascii.eqb c "1"%char then xI p else xO p, r)
           | None => None
           end
  end.

Lemma take_pos_str p s : take_pos (pos_str p +:+ String ";"%char s)%string = Some (p, s).
Proof.
  induction p as [p IH|p IH|]; [..|done].
  - change (take_pos (String "1" (pos_str p +:+ String ";" s))%char%string = Some (xI p, s)). cbn. by rewrite IH.
  - change (take_pos (String "0" (pos_str p +:+ String ";" s))%char%string = Some (xO p, s)). cbn. by rewrite IH.
Qed.

Fixpoint decode_stream (fuel : nat) (s : string) : list KeyValue :=
  match fuel with
  | 0%nat => []
  | S fuel =>
      match take_pos s with
      | Some (p, r) =>
          match decode p with
          | Some (k, v) => mkKeyValue k v :: decode_stream fuel r
          | None => []
          end
      | None => []
      end
  end.

Definition bits_encode (kv : KeyValue) : string := (pos_str (encode (kv_Key kv, kv_Value kv)) +:+ ";")%string.

Lemma decode_stream_law kvs fuel :
  (length kvs <= fuel)%nat ->
  decode_stream fuel (foldr (fun kv s => bits_encode kv +:+ s)%string EmptyString kvs) = kvs.
Proof.
  revert fuel. induction kvs as [|[k v] kvs IH]; intros [|fuel] Hf; cbn in Hf; [done..|lia|].
  cbn [foldr decode_stream]. unfold bits_encode at 1. rewrite str_app_assoc.
  match goal with |- context [(";" +:+ ?s)%string] => change (";" +:+ s)%string with (String ";"%char s) end.
  rewrite take_pos_str, decode_encode. cbn [kv_Key kv_Value]. by rewrite IH by lia.
Qed.

Lemma bits_encode_length kvs :
  (length kvs <= String.length (foldr (fun kv s => bits_encode kv +:+ s)%string EmptyString kvs))%nat.
Proof.
  assert (forall a b, String.length (a +:+ b) = String.length a + String.length b)%nat as Happ.
  { intros a b. induction a as [|c a IH]; [done|].
    change (S (String.length (a +:+ b)) = S (String.length a + String.length b))%nat. by rewrite IH. }
  induction kvs as [|kv kvs IH]; [done|]. cbn [foldr length]. unfold bits_encode at 1.
  rewrite !Happ. cbn [String.length]. lia.
Qed.

#[export] Program Instance bits_stream : JsonStream :=
  {| json_encode := bits_encode; json_decode_all s := decode_stream (String.length s) s |}.
Next Obligation. intros kvs _. apply decode_stream_law, bits_encode_length. Qed.

(** ** Word count on two files *)

Definition wc_fs : files := {["a.txt" := "the cat. the dog"; "b.txt" := "a cat!"]}.
Definition wc_input (f : string) : string := default EmptyString (wc_fs !! f).
Definition wc_jobs : list (Z * string) := [(1, "b.txt"); (0, "a.txt")].

#[export] Instance valid_kv_dec kv : Decision (valid_kv kv).
Proof. unfold valid_kv. apply _. Defined.

Lemma wc_fs_ok :
  job_ok wc_Map wc_Reduce 2 wc_input wc_jobs ["a.txt"; "b.txt"] [0; 1] wc_fs.
Proof.
  split.
  - lia.
  - apply wc_order_free.
  - cbn. constructor.
  - repeat constructor; cbn; lia.
  - eapply bool_decide_unpack. by vm_compute.
  - cbn. set_solver.
  - repeat constructor; try reflexivity; intros i j Heq; discriminate Heq.
  - eapply bool_decide_unpack. by vm_compute.
  - intros w r _. unfold wc_fs. rewrite !lookup_insert_ne by (intros Heq; discriminate Heq).
    apply lookup_singleton_ne. intros Heq. discriminate Heq.
Qed.

Lemma distributed_equals_sequential_witness :
  exists lines fsq fs1 fs2,
    mrsequential wc_Map wc_Reduce ["a.txt"; "b.txt"] wc_fs = Ret fsq /\
    fsq !! "mr-out-0" = Some (out_text lines) /\
    run_maps wc_Map 2 wc_jobs wc_fs = Ret fs1 /\
    run_reduces wc_Reduce 2 [0; 1] [(1, 0); (0, 1)] fs1 = Ret fs2 /\
    forall r, r ∈ [0; 1] -> fs2 !! out_name r = Some (out_text (filter (fun l => part_of 2 l.1 = r) lines)).
Proof.
  apply (distributed_equals_sequential wc_Map wc_Reduce 2 wc_input wc_jobs ["a.txt"; "b.txt"] [0; 1]).
  - apply wc_fs_ok.
  - repeat constructor; cbn; lia.
Defined.

(** The word count of the sequential program prints, in increasing order
    of the words, one line per word that occurs in the inputs, with the
    number of its occurrences. *)
Theorem wc_sequential `{!GoSort ByKey_Less, !Unicode} (input : string -> string) names fs :
  Forall (fun f => fs !! f = Some (input f)) names ->
  exists lines, mrsequential wc_Map wc_Reduce names fs = Ret (<["mr-out-0" := out_text lines]> fs) /\
    StronglySorted str_lt lines.*1 /\
    forall k v, (k, v) ∈ lines <->
      k ∈ (names ≫= fun f => words (input f)) /\
      v = itoa_len (filter (eq k) (names ≫= fun f => words (input f))).
Proof.
  intros Hin. unfold mrsequential. rewrite (map_files_spec wc_Map input) by done. cbn [mbind outcome_bind].
  destruct (sorted_grouped wc_Reduce (names ≫= pairs wc_Map input)) as (lines & -> & Hg).
  apply (grouped_perm wc_Reduce _ (names ≫= pairs wc_Map input)) in Hg as [Hs Hk Hv];
    [|apply wc_order_free|apply go_sort_perm].
  assert (forall r, r ∈ lines -> r.2 = itoa_len (filter (eq r.1) (names ≫= fun f => words (input f)))) as Hval.
  { intros r Hr. rewrite Forall_forall in Hv. rewrite (Hv r Hr), wc_values.
    unfold wc_Reduce, itoa_len. by rewrite length_replicate. }
  exists lines. split; [done|]. split; [done|]. intros k v. rewrite <- (wc_keys names input) in Hval |- *. rewrite <- Hk. split.
  - intros Hr. split; [apply list_elem_of_fmap; by exists (k, v)|by apply (Hval (k, v))].
  - intros [([k' v'] & -> & Hr)%list_elem_of_fmap ->].
    specialize (Hval _ Hr). cbn [fst snd] in *. by rewrite <- Hval.
Qed.

Lemma wc_sequential_witness :
  exists lines, mrsequential wc_Map wc_Reduce ["a.txt"; "b.txt"] wc_fs =
      Ret (<["mr-out-0" := out_text lines]> wc_fs) /\
    StronglySorted str_lt lines.*1 /\
    forall k v, (k, v) ∈ lines <->
      k ∈ (["a.txt"; "b.txt"] ≫= fun f => words (wc_input f)) /\
      v = itoa_len (filter (eq k) (["a.txt"; "b.txt"] ≫= fun f => words (wc_input f))).
Proof. apply (wc_sequential wc_input). repeat constructor. Defined.

(** [saveIntermediate] appends to the file of each partition the pairs
    whose key hashes to it, in order, creates the files of empty partitions,
    and leaves every other file as it was. *)
Theorem saveIntermediate_appends `{!JsonStream} w kvs fs :
  0 <= info_id w -> 0 < w_nReduce w ->
  ensures (saveIntermediate w kvs fs) (fun fs' =>
    (forall r, 0 <= r < w_nReduce w -> fs' !! mr_name (info_id w) r =
       Some (default EmptyString (fs !! mr_name (info_id w) r) +:+
             encode_all (filter (in_part (w_nReduce w) r) kvs))%string) /\
    (forall name, (forall r, 0 <= r < w_nReduce w -> name <> mr_name (info_id w) r) ->
       fs' !! name = fs !! name)).
Proof. intros. by apply saveIntermediate_spec. Qed.

Lemma saveIntermediate_appends_witness :
  ensures (saveIntermediate (map_worker 2 (1, "b.txt")) [mkKeyValue "a" "1"; mkKeyValue "cat" "1"] ∅) (fun fs' =>
    forall r, 0 <= r < 2 -> fs' !! mr_name 1 r =
      Some (encode_all (filter (in_part 2 r) [mkKeyValue "a" "1"; mkKeyValue "cat" "1"]))).
Proof.
  eapply ensures_mono.
  - apply (saveIntermediate_appends (map_worker 2 (1, "b.txt"))); cbn; lia.
  - intros fs' [Hat _] r Hr. exact (Hat r Hr).
Defined.

(** ** The late completion of the coordinator, seen in the output *)

(** In the run of [late_completion_duplicates] machines 1 and 2 both map
    the first file and the reduce task reads the files of both.  On word
    count the words of that file are counted twice: the job's output is not
    the output of the sequential program. *)
Theorem late_completion_wrong_output :
  (fs ← run_maps wc_Map 1 [(1, "a.txt"); (1, "b.txt"); (2, "a.txt")] wc_fs;
   fs ← run_reduces wc_Reduce 1 [1; 2] [(2, 0)] fs;
   Ret (fs !! out_name 0)) = Ret (Some (out_text [("a", "1"); ("cat", "3"); ("dog", "2"); ("the", "4")])) /\
  (fs ← mrsequential wc_Map wc_Reduce ["a.txt"; "b.txt"] wc_fs;
   Ret (fs !! "mr-out-0")) = Ret (Some (out_text [("a", "1"); ("cat", "2"); ("dog", "1"); ("the", "2")])).
Proof. split; vm_compute; reflexivity. Qed.
