(* ===== verification/MRTests.v ===== *)
(** * The test applications of MapReduce (src/src/mrapps: jobcount, mtiming, rtiming)

    These applications observe how the workers run: every run of a map
    function leaves a file, and every running map or reduce function has a
    file with the number of its process, which the others count.  A host is
    the working directory and the processes that share it; [nparallel] is cut
    where other processes can act, between its system calls.  Delays only
    separate the steps.  What [kill] does with a number that is not a process
    number is a parameter. *)

From Stdlib Require Import Ascii.
From stdpp Require Import pretty.
From S2P Require Import Prelude Coordinator Worker WorkerProof MRApps.

(** ** Scanning [mr-worker-%s-%d] *)

Inductive phase := PMap | PReduce.

#[export] Instance phase_eq_dec : EqDecision phase.
Proof. solve_decision. Defined.

Definition phase_name (ph : phase) : string := match ph with PMap => "map" | PReduce => "reduce" end.

Definition pattern (ph : phase) : string := "mr-worker-" +:+ phase_name ph +:+ "-".

(** [fmt.Sprintf("mr-worker-%s-%d", phase, pid)] *)
Definition myfilename (ph : phase) (pid : Z) : string := pattern ph +:+ pretty pid.

(** The rest of [s] behind [p]. *)
Fixpoint strip (p s : string) : option string :=
  match p, s with
  | EmptyString, _ => Some s
  | String c p, String c' s => if Ascii.eqb c c' then strip p s else None
  | String _ _, EmptyString => None
  end.

Definition is_blank (c : ascii) : bool :=
  let n := N_of_ascii c in (n =? 32)%N || (n =? 9)%N || (n =? 11)%N || (n =? 12)%N || (n =? 13)%N.

Fixpoint skip_blanks (s : string) : string :=
  match s with
  | String c s' => if is_blank c then skip_blanks s' else s
  | EmptyString => EmptyString
  end.

Definition digit_value (c : ascii) : Z := Z.of_N (N_of_ascii c) - 48.

(** The digits at the front as a number, after a value read so far. *)
Fixpoint digits (s : string) (acc : Z) : Z :=
  match s with
  | String c s' => if is_digit c then digits s' (10 * acc + digit_value c) else acc
  | EmptyString => acc
  end.

Definition starts_with_digit (s : string) : bool :=
  match s with String c _ => is_digit c | EmptyString => false end.

(** An integer for %d: a sign, then digits, in the range of int; what follows
    does not matter. *)
Definition scan_int (s : string) : option Z :=
  let s := skip_blanks s in
  let '(sign, s) := match s with
                    | String "-"%char s' => (-1, s')
                    | String "+"%char s' => (1, s')
                    | _ => (1, s)
                    end in
  if starts_with_digit s then
    let v := sign * digits s 0 in
    if (- 2 ^ 63 <=? v) && (v <? 2 ^ 63) then Some v else None
  else None.

(** [fmt.Sscanf(name, pat, &xpid)] with [n == 1 && err == nil]. *)
Definition Sscanf_pid (ph : phase) (name : string) : option Z := strip (pattern ph) name ≫= scan_int.

(** ** [nparallel] *)

Section nparallel.
(** [syscall.Kill(xpid, 0)] for numbers that are not positive. *)
Context (kill_group : Z -> bool) `{!RangeOrder string}.

Definition syscall_Kill (alive : gset Z) (xpid : Z) : bool :=
  if 0 <? xpid then bool_decide (xpid ∈ alive) else kill_group xpid.

Definition np_write (ph : phase) (pid : Z) (dir : files) : files := <[myfilename ph pid := "x"%string]> dir.

(** [dd.Readdirnames(1000000)] and the loop over the names. *)
Definition np_count (ph : phase) (alive : gset Z) (dir : files) : Z :=
  let names := take (Z.to_nat 1000000) (range_order (elements (dom dir))) in
  foldl (fun ret name =>
    match Sscanf_pid ph name with
    | Some xpid => if syscall_Kill alive xpid then ret + 1 else ret
    | None => ret
    end) 0 names.

Definition np_remove (ph : phase) (pid : Z) (dir : files) : outcome files :=
  match dir !! myfilename ph pid with
  | Some _ => Ret (delete (myfilename ph pid) dir)
  | None => Panic Explicit
  end.

(** The whole function when no other process acts in between. *)
Definition nparallel (ph : phase) (pid : Z) (alive : gset Z) (dir : files) : outcome (Z * files) :=
  let dir := np_write ph pid dir in
  let ret := np_count ph alive dir in
  dir ← np_remove ph pid dir;
  Ret (ret, dir).

(** It leaves the directory as it was. *)
Lemma nparallel_restores ph pid alive dir : dir !! myfilename ph pid = None ->
  exists ret, nparallel ph pid alive dir = Ret (ret, dir).
Proof.
  intros Hn. unfold nparallel, np_remove, np_write. rewrite lookup_insert_eq. cbn [mbind outcome_bind].
  rewrite delete_insert_id by done. eauto.
Qed.
End nparallel.

(** ** The applications *)

(** mtiming.go: [ts] is the time, printed. *)
Definition mtiming_Map (pid : Z) (ts : string) (n : Z) (filename contents : string) : list KeyValue :=
  [ mkKeyValue ("times-" +:+ pretty pid) ts; mkKeyValue ("parallel-" +:+ pretty pid) (pretty n) ].

Definition mtiming_Reduce `{!GoSort str_less} (key : string) (values : list string) : string :=
  let vv := go_sort str_less values in
  String.concat " " vv.

(** rtiming.go *)
Definition rtiming_Map (filename contents : string) : list KeyValue :=
  (fun k => mkKeyValue k "1"%string) <$> ["a"; "b"; "c"; "d"; "e"; "f"; "g"; "h"; "i"; "j"]%string.

Definition rtiming_Reduce (n : Z) (key : string) (values : list string) : string := pretty n.

(** jobcount.go: the file of the run and the new value of [count]. *)
Definition job_file (me count : Z) : string := "mr-worker-jobcount-" +:+ pretty me +:+ "-" +:+ pretty count.

Definition jobcount_Map (me count : Z) (dir : files) : files * Z * list KeyValue :=
  (<[job_file me count := "x"%string]> dir, count + 1, [mkKeyValue "a" "x"]).

Definition HasPrefix (s p : string) : bool := match strip p s with Some _ => true | None => false end.

Definition is_job (name : string) : bool := HasPrefix name "mr-worker-jobcount".

(** [ioutil.ReadDir] sorts the names. *)
Definition jobcount_Reduce `{!GoSort str_less} (dir : files) (key : string) (values : list string) : string :=
  pretty (foldl (fun n name => if is_job name then n + 1 else n) 0 (go_sort str_less (elements (dom dir)))).

(** ** Processes on one host *)

Inductive np_pc := Wrote | Counted (n : Z).

Record host := mkHost {
  nd_dir : files;
  nd_used : gset Z;
  nd_alive : gset Z;
  nd_np : gmap Z (phase * np_pc);
  nd_count : gmap Z Z;
}.

Inductive host_event :=
  | NSpawn (pid : Z)                 (* a process starts *)
  | NEnd (pid : Z)                   (* it exits or crashes *)
  | NWrite (ph : phase) (pid : Z)    (* it begins [nparallel] *)
  | NCount (pid : Z)
  | NRemove (pid : Z)
  | NJobMap (pid : Z)                (* it runs [Map] of jobcount *)
  | NTouch (name text : string)      (* another file is written *)
  | NUnlink (name : string).

(** Files that the applications do not make. *)
Definition foreign (name : string) : Prop := strip "mr-worker-" name = None.

Section host.
Context (kill_group : Z -> bool) `{!RangeOrder string}.

(** A process runs one task at a time; the number of a process is not used
    again while the test runs. *)
Inductive host_step (s : host) : host_event -> host -> Prop :=
  | step_spawn pid :
      0 < pid < 2 ^ 22 -> pid ∉ nd_used s ->
      host_step s (NSpawn pid) (mkHost (nd_dir s) ({[pid]} ∪ nd_used s) ({[pid]} ∪ nd_alive s) (nd_np s) (nd_count s))
  | step_end pid :
      host_step s (NEnd pid) (mkHost (nd_dir s) (nd_used s) (nd_alive s ∖ {[pid]}) (delete pid (nd_np s)) (nd_count s))
  | step_write ph pid :
      pid ∈ nd_alive s -> nd_np s !! pid = None ->
      host_step s (NWrite ph pid)
        (mkHost (np_write ph pid (nd_dir s)) (nd_used s) (nd_alive s) (<[pid := (ph, Wrote)]> (nd_np s)) (nd_count s))
  | step_count ph pid :
      nd_np s !! pid = Some (ph, Wrote) ->
      host_step s (NCount pid) (mkHost (nd_dir s) (nd_used s) (nd_alive s)
        (<[pid := (ph, Counted (np_count kill_group ph (nd_alive s) (nd_dir s)))]> (nd_np s)) (nd_count s))
  | step_remove ph pid n dir :
      nd_np s !! pid = Some (ph, Counted n) -> np_remove ph pid (nd_dir s) = Ret dir ->
      host_step s (NRemove pid) (mkHost dir (nd_used s) (nd_alive s) (delete pid (nd_np s)) (nd_count s))
  | step_job pid dir count kva :
      pid ∈ nd_alive s -> nd_np s !! pid = None ->
      jobcount_Map pid (default 0 (nd_count s !! pid)) (nd_dir s) = (dir, count, kva) ->
      host_step s (NJobMap pid) (mkHost dir (nd_used s) (nd_alive s) (nd_np s) (<[pid := count]> (nd_count s)))
  | step_touch name text :
      foreign name ->
      host_step s (NTouch name text) (mkHost (<[name := text]> (nd_dir s)) (nd_used s) (nd_alive s) (nd_np s) (nd_count s))
  | step_unlink name :
      foreign name ->
      host_step s (NUnlink name) (mkHost (delete name (nd_dir s)) (nd_used s) (nd_alive s) (nd_np s) (nd_count s)).

(** A run of the host. *)
Inductive host_run (s : host) : list host_event -> host -> Prop :=
  | run_nil : host_run s [] s
  | run_snoc es s1 e s2 : host_run s es s1 -> host_step s1 e s2 -> host_run s (es ++ [e]) s2.

(** Before the test: no process, and only other files. *)
Definition fresh_host (s : host) : Prop :=
  nd_used s = ∅ /\ nd_alive s = ∅ /\ nd_np s = ∅ /\ nd_count s = ∅ /\ forall name, name ∈ dom (nd_dir s) -> foreign name.
End host.
