(* ===== verification/MRTestsSpec.v ===== *)
(** * The test applications count what they mean to count *)

From Stdlib Require Import Ascii.
From stdpp Require Import pretty.
From S2P Require Import Prelude Coordinator Worker WorkerProof MRApps MRTests.

(** ** Names *)

Lemma strip_app p s : strip p (p +:+ s) = Some s.
Proof. induction p as [|c p IH]; [done|]. change (String c p +:+ s) with (String c (p +:+ s)). cbn [strip]. by rewrite Ascii.eqb_refl. Qed.

Lemma strip_some p s r : strip p s = Some r -> s = p +:+ r.
Proof.
  revert s. induction p as [|c p IH]; intros [|c' s]; cbn [strip]; try done; [by intros [= <-]..|].
  destruct (Ascii.eqb_spec c c') as [<-|]; [|done]. by intros ->%IH.
Qed.

Lemma digits_go x s acc : all_digits s = true -> 0 <= acc ->
  digits (pretty_N_go x s) 0 = digits s (Z.of_N x).
Proof.
  revert s. induction (N.lt_wf_0 x) as [x _ IH]; intros s Hs Hacc.
  assert (x = 0 \/ 0 < x)%N as [->|Hx] by lia; [by rewrite pretty_N_go_0|].
  rewrite pretty_N_go_step by done.
  assert (is_digit (pretty_N_char (x `mod` 10)) = true) as Hd by (unfold pretty_N_char; by repeat case_match).
  rewrite IH; [|by apply N.div_lt|by cbn [all_digits]; rewrite Hd|done]. cbn [digits]. rewrite Hd. f_equal.
  assert (digit_value (pretty_N_char (x `mod` 10)) = Z.of_N (x `mod` 10)) as ->.
  { assert (x `mod` 10 < 10)%N as Hm by (by apply N.mod_lt). revert Hm. generalize (x `mod` 10)%N. intros m Hm.
    assert (m = 0 \/ m = 1 \/ m = 2 \/ m = 3 \/ m = 4 \/ m = 5 \/ m = 6 \/ m = 7 \/ m = 8 \/ m = 9)%N as Hc by lia.
    by repeat destruct Hc as [->|Hc]; [..|rewrite Hc]. }
  rewrite N2Z.inj_div, N2Z.inj_mod. pose proof (Z.div_mod (Z.of_N x) (Z.of_N 10)). lia.
Qed.

Lemma digits_pretty z : 0 <= z -> digits (pretty z) 0 = z.
Proof.
  intros Hz. destruct z as [|p|p]; [done| |lia].
  unfold pretty, pretty_Z, pretty, pretty_positive, pretty, pretty_N. case_decide; [done|].
  by rewrite (digits_go _ _ 0).
Qed.

Lemma pretty_starts z : 0 <= z -> starts_with_digit (pretty z) = true.
Proof.
  intros Hz. pose proof (pretty_Z_digits z Hz) as Hd. destruct (pretty z) as [|c s] eqn:E; cbn in *.
  - destruct z as [|p|p]; [done| |lia]. pose proof (digits_pretty (Z.pos p) Hz) as H. by rewrite E in H.
  - by apply andb_true_iff in Hd as [? _].
Qed.

Lemma scan_int_pretty z : 0 <= z < 2 ^ 63 -> scan_int (pretty z) = Some z.
Proof.
  intros Hz. pose proof (pretty_starts z ltac:(lia)) as Hs. unfold scan_int.
  assert (skip_blanks (pretty z) = pretty z /\
    (match pretty z with String "-"%char s' => (-1, s') | String "+"%char s' => (1, s') | _ => (1, pretty z) end) = (1, pretty z)) as [-> ->].
  { destruct (pretty z) as [|c s]; [done|]. cbn in Hs. destruct c as [[] [] [] [] [] [] [] []]; by vm_compute in Hs |- *. }
  rewrite Hs, digits_pretty by lia. rewrite Z.mul_1_l.
  rewrite (proj2 (Z.leb_le _ _)), (proj2 (Z.ltb_lt _ _)) by lia. done.
Qed.

Lemma Sscanf_own ph pid : 0 <= pid < 2 ^ 63 -> Sscanf_pid ph (myfilename ph pid) = Some pid.
Proof. intros Hp. unfold Sscanf_pid, myfilename. rewrite strip_app. cbn. by apply scan_int_pretty. Qed.

Lemma Sscanf_other ph ph' s : ph <> ph' -> Sscanf_pid ph (pattern ph' +:+ s) = None.
Proof. by destruct ph, ph'. Qed.


Lemma strip_mono p q s : strip p s = None -> strip (p +:+ q) s = None.
Proof.
  revert s. induction p as [|c p IH]; intros [|c' s]; cbn [strip]; try done; change (String c p +:+ q) with (String c (p +:+ q)); cbn [strip]; try done. destruct (Ascii.eqb c c'); auto.
Qed.


Lemma is_job_foreign name : foreign name -> is_job name = false.
Proof.
  intros Hf. unfold is_job, HasPrefix. change "mr-worker-jobcount"%string with ("mr-worker-" +:+ "jobcount")%string.
  by rewrite (strip_mono _ _ _ Hf).
Qed.

Lemma is_job_file me count : is_job (job_file me count) = true.
Proof. done. Qed.

Lemma is_job_own ph pid : is_job (myfilename ph pid) = false.
Proof. by destruct ph. Qed.

Lemma job_file_inj p c p' c' : 0 <= p -> 0 <= p' -> job_file p c = job_file p' c' -> p = p' /\ c = c'.
Proof.
  intros Hp Hp' Heq. unfold job_file in Heq. cbn in Heq. injection Heq as Heq.
  apply digits_split in Heq as [H1%(inj _) H2%(inj _)]; [done|by apply pretty_Z_digits..].
Qed.

Lemma myfilename_inj ph pid ph' pid' : 0 <= pid < 2 ^ 63 -> 0 <= pid' < 2 ^ 63 ->
  myfilename ph pid = myfilename ph' pid' -> ph = ph' /\ pid = pid'.
Proof.
  intros Hp Hp' Heq. assert (ph = ph') as <-.
  { destruct (decide (ph = ph')) as [|Hne]; [done|]. pose proof (Sscanf_own ph pid Hp) as H. rewrite Heq in H.
    unfold myfilename in H. by rewrite Sscanf_other in H. }
  split; [done|]. pose proof (Sscanf_own ph pid Hp) as H. rewrite Heq, Sscanf_own in H by done. congruence.
Qed.

(** ** The invariant *)

Record host_inv (s : host) (runs : nat) : Prop := {
  ni_used : forall pid, pid ∈ nd_used s -> 0 < pid < 2 ^ 63;
  ni_alive : nd_alive s ⊆ nd_used s;
  ni_names : forall name, name ∈ dom (nd_dir s) ->
    foreign name \/ (exists ph pid, name = myfilename ph pid /\ pid ∈ nd_used s) \/
    (exists pid c, name = job_file pid c /\ pid ∈ nd_used s /\ 0 <= c < default 0 (nd_count s !! pid));
  ni_np : forall pid ph, pid ∈ nd_alive s ->
    myfilename ph pid ∈ dom (nd_dir s) <-> exists pc, nd_np s !! pid = Some (ph, pc);
  ni_np_alive : forall pid x, nd_np s !! pid = Some x -> pid ∈ nd_alive s;
  ni_jobs : size (filter (fun name => is_job name = true) (dom (nd_dir s))) = runs;
  ni_count : forall pid c, nd_count s !! pid = Some c -> 0 <= c;
}.

#[export] Instance job_run_dec e : Decision (match e with NJobMap _ => True | _ => False end).
Proof. destruct e; apply _. Defined.

Definition job_runs (es : list host_event) : nat :=
  length (filter (fun e => match e with NJobMap _ => True | _ => False end) es).

Lemma foreign_own ph pid : ~ foreign (myfilename ph pid).
Proof. by destruct ph. Qed.

Lemma foreign_job pid c : ~ foreign (job_file pid c).
Proof. done. Qed.


(** The names of jobs among the names of a directory. *)
Definition job_names (dir : files) : gset string := filter (fun name => is_job name = true) (dom dir).

Lemma job_names_insert dir name text : is_job name = false -> job_names (<[name := text]> dir) = job_names dir.
Proof.
  intros Hn. unfold job_names. apply set_eq. intros x. rewrite !elem_of_filter, dom_insert, elem_of_union, elem_of_singleton.
  split; [|tauto]. intros [Hx [->|]]; [congruence|done].
Qed.

Lemma job_names_delete dir name : is_job name = false -> job_names (delete name dir) = job_names dir.
Proof.
  intros Hn. unfold job_names. apply set_eq. intros x. rewrite !elem_of_filter, dom_delete, elem_of_difference, elem_of_singleton.
  split; [tauto|]. intros [Hx Hin]. split_and!; [done..|]. by intros ->; congruence.
Qed.

Lemma job_names_add dir name text :
  is_job name = true -> name ∉ dom dir -> size (job_names (<[name := text]> dir)) = S (size (job_names dir)).
Proof.
  intros Hn Hnot. unfold job_names.
  assert (filter (fun name => is_job name = true) (dom (<[name := text]> dir)) =
    {[name]} ∪ filter (fun name => is_job name = true) (dom dir)) as ->.
  { apply set_eq. intros x. rewrite elem_of_union, !elem_of_filter, dom_insert, elem_of_union, !elem_of_singleton.
    naive_solver. }
  rewrite size_union, size_singleton; [done|]. intros x ->%elem_of_singleton [_ Hin]%elem_of_filter. done.
Qed.

Section host.
Context (kill_group : Z -> bool) `{!RangeOrder string}.

Lemma job_runs_snoc es e : job_runs (es ++ [e]) = (job_runs es + match e with NJobMap _ => 1 | _ => 0 end)%nat.
Proof. unfold job_runs. rewrite filter_app, length_app. f_equal. by destruct e. Qed.

Lemma names_used s runs ph pid : host_inv s runs -> 0 < pid < 2 ^ 63 -> myfilename ph pid ∈ dom (nd_dir s) -> pid ∈ nd_used s.
Proof.
  intros Hi Hp Hin. destruct (ni_names _ _ Hi _ Hin) as [Hf|[(ph' & pid' & Heq & Hu)|(pid' & c & Heq & _)]].
  - by apply foreign_own in Hf.
  - apply myfilename_inj in Heq as [_ ->]; [done|lia|]. pose proof (ni_used _ _ Hi _ Hu). lia.
  - exfalso. pose proof (is_job_own ph pid) as H. by rewrite Heq in H.
Qed.

Lemma own_lt s runs pid : host_inv s runs -> pid ∈ nd_alive s -> 0 <= pid < 2 ^ 63.
Proof. intros Hi Ha. pose proof (ni_used _ _ Hi _ (ni_alive _ _ Hi _ Ha)). lia. Qed.

Lemma host_step_inv s runs e s' : host_inv s runs -> host_step kill_group s e s' ->
  host_inv s' (runs + match e with NJobMap _ => 1 | _ => 0 end).
Proof.
  intros Hi Hs. pose proof Hi as [H1 H2 H3 H4 H5 H6 H7].
  destruct Hs as [pid Hp Hu|pid|ph pid Ha Hn|ph pid Hn|ph pid n dir Hn Hr|pid dir count kva Ha Hn Hj|name text Hf|name Hf];
    rewrite ?Nat.add_0_r.
  - split; cbn; try done.
    + intros q [->%elem_of_singleton|Hq]%elem_of_union; [lia|auto].
    + set_solver.
    + intros name Hn. destruct (H3 name Hn) as [?|[(ph & q & -> & ?)|(q & c & -> & ? & ?)]]; [by left| |].
      * right. left. exists ph, q. set_solver.
      * right. right. exists q, c. set_solver.
    + intros q ph [->%elem_of_singleton|Hq]%elem_of_union; [|by apply H4]. split.
      * intros Hin. destruct Hu. eapply names_used; [done|lia|done].
      * intros [pc Hpc]. destruct Hu. by eapply H2, H5.
    + intros q x Hq. apply elem_of_union. right. by eapply H5.
  - split; cbn; try done.
    + set_solver.
    + intros q ph [Hq Hne]%elem_of_difference. rewrite lookup_delete_ne by set_solver. by apply H4.
    + intros q x [Hne Hq]%lookup_delete_Some. apply elem_of_difference. split; [by eapply H5|set_solver].
  - assert (0 <= pid < 2 ^ 63) as Hlt by (by eapply own_lt). split; cbn; try done.
    + unfold np_write. intros name. rewrite dom_insert, elem_of_union, elem_of_singleton. intros [->|Hin]; [|auto].
      right. left. exists ph, pid. auto.
    + intros q ph' Hq. assert (0 <= q < 2 ^ 63) as Hlq by (by eapply own_lt). unfold np_write.
      rewrite dom_insert, elem_of_union, elem_of_singleton. destruct (decide (q = pid)) as [->|Hne].
      * rewrite lookup_insert_eq. split; [|intros (pc & [= -> _]); by left]. intros [Heq|Hin].
        -- apply myfilename_inj in Heq as [-> _]; [eauto|done..].
        -- apply H4 in Hin as [pc Hpc]; [congruence|done].
      * rewrite lookup_insert_ne by done. rewrite <- H4 by done. split; [|by right].
        intros [Heq|Hin]; [|done]. by apply myfilename_inj in Heq as [_ ?].
    + intros q x. destruct (decide (q = pid)) as [->|Hne]; [done|]. rewrite lookup_insert_ne by done. apply H5.
    + fold (job_names (np_write ph pid (nd_dir s))). unfold np_write. rewrite job_names_insert by apply is_job_own. done.
  - split; cbn; try done.
    + intros q ph' Hq. rewrite H4 by done. destruct (decide (q = pid)) as [->|Hne].
      * rewrite lookup_insert_eq, Hn. split; intros (pc & [= -> _]); eauto.
      * by rewrite lookup_insert_ne.
    + intros q x. destruct (decide (q = pid)) as [->|Hne]; [intros _; by eapply H5|]. rewrite lookup_insert_ne by done. apply H5.
  - unfold np_remove in Hr. destruct (nd_dir s !! myfilename ph pid); [|done]. injection Hr as <-.
    assert (pid ∈ nd_alive s) as Ha by (by eapply H5). assert (0 <= pid < 2 ^ 63) as Hlt by (by eapply own_lt).
    split; cbn; try done.
    + intros name. rewrite dom_delete, elem_of_difference. intros [Hin _]. auto.
    + intros q ph' Hq. assert (0 <= q < 2 ^ 63) as Hlq by (by eapply own_lt).
      rewrite dom_delete, elem_of_difference, elem_of_singleton, H4 by done. destruct (decide (q = pid)) as [->|Hne].
      * rewrite lookup_delete_eq, Hn. split; [|by intros (? & ?)]. intros [(pc & [= -> _]) Hneq]. done.
      * rewrite lookup_delete_ne by done. split; [tauto|]. intros ?. split; [done|]. intros Heq.
        by apply myfilename_inj in Heq as [_ ?].
    + intros q x [Hne Hq]%lookup_delete_Some. by eapply H5.
    + fold (job_names (delete (myfilename ph pid) (nd_dir s))). rewrite job_names_delete by apply is_job_own. done.
  - unfold jobcount_Map in Hj. injection Hj as <- <- <-. set (c := default 0 (nd_count s !! pid)) in *.
    assert (0 <= c) as Hc by (unfold c; destruct (nd_count s !! pid) eqn:E; [by eapply H7|done]).
    assert (0 <= pid < 2 ^ 63) as Hlt by (by eapply own_lt).
    assert (job_file pid c ∉ dom (nd_dir s)) as Hfresh.
    { intros Hin. destruct (H3 _ Hin) as [Hf|[(ph & q & Heq & _)|(q & c' & Heq & Hu & Hc')]].
      - by apply foreign_job in Hf.
      - pose proof (is_job_own ph q) as H. by rewrite <- Heq in H.
      - apply job_file_inj in Heq as [<- <-]; [unfold c in *; lia|lia|]. pose proof (H1 q Hu). lia. }
    split; cbn; try done.
    + intros name. rewrite dom_insert, elem_of_union, elem_of_singleton. intros [->|Hin].
      * right. right. exists pid, c. rewrite lookup_insert_eq. cbn. split_and!; [done|set_solver|lia..].
      * destruct (H3 name Hin) as [?|[?|(q & c' & -> & Hq & Hc')]]; [auto..|]. right. right. exists q, c'.
        split_and!; [done..|lia|]. destruct (decide (q = pid)) as [->|Hne];
          [rewrite lookup_insert_eq; cbn; unfold c; lia|rewrite lookup_insert_ne by done; lia].
    + intros q ph Hq. rewrite dom_insert, elem_of_union, elem_of_singleton, <- H4 by done. split; [|by right].
      intros [Heq|]; [|done]. exfalso. pose proof (is_job_own ph q) as H. by rewrite Heq in H.
    + rewrite Nat.add_1_r. rewrite <- H6. by apply job_names_add.
    + intros q c'. destruct (decide (q = pid)) as [->|Hne]; [rewrite lookup_insert_eq; intros [= <-]; lia|].
      rewrite lookup_insert_ne by done. apply H7.
  - split; cbn; try done.
    + intros n. rewrite dom_insert, elem_of_union, elem_of_singleton. intros [->|Hin]; [by left|auto].
    + intros q ph Hq. rewrite dom_insert, elem_of_union, elem_of_singleton, <- H4 by done. split; [|by right].
      intros [<-|]; [by apply foreign_own in Hf|done].
    + fold (job_names (<[name := text]> (nd_dir s))). rewrite job_names_insert by by apply is_job_foreign. done.
  - split; cbn; try done.
    + intros n. rewrite dom_delete, elem_of_difference. intros [Hin _]. auto.
    + intros q ph Hq. rewrite dom_delete, elem_of_difference, elem_of_singleton, <- H4 by done. split; [tauto|].
      intros ?. split; [done|]. intros <-. by apply foreign_own in Hf.
    + fold (job_names (delete name (nd_dir s))). rewrite job_names_delete by by apply is_job_foreign. done.
Qed.

Lemma host_run_inv s es s' : fresh_host s -> host_run kill_group s es s' -> host_inv s' (job_runs es).
Proof.
  intros (H1 & H2 & H3 & H4 & H5). induction 1 as [|es s1 e s2 _ IH Hs].
  - split.
    + rewrite H1. set_solver.
    + rewrite H2. set_solver.
    + intros name Hn. left. auto.
    + rewrite H2. set_solver.
    + rewrite H3. done.
    + unfold job_runs. cbn. apply size_empty_iff. intros name. rewrite elem_of_filter. split; [|set_solver].
      intros [Hj Hn%H5%is_job_foreign]. congruence.
    + rewrite H4. done.
  - rewrite job_runs_snoc. by eapply host_step_inv.
Qed.

(** ** [nparallel] *)









(** ** jobcount *)

Lemma job_loop names n :
  foldl (fun n name => if is_job name then n + 1 else n) n names =
  n + Z.of_nat (length (filter (fun name => is_job name = true) names)).
Proof.
  revert n. induction names as [|name names IH]; intros n; [cbn; lia|]. cbn [foldl]. rewrite IH, filter_cons.
  destruct (is_job name) eqn:E; [rewrite decide_True by done; cbn; lia|by rewrite decide_False].
Qed.

(** The reduce function of jobcount returns the number of times that a
    map function was run, on whatever process and whatever else happened. *)
Theorem jobcount_exact `{!GoSort str_less} s0 es s key values :
  fresh_host s0 -> host_run kill_group s0 es s -> jobcount_Reduce (nd_dir s) key values = pretty (Z.of_nat (job_runs es)).
Proof.
  intros Hf Hr. pose proof (host_run_inv _ _ _ Hf Hr) as Hi. unfold jobcount_Reduce. f_equal.
  rewrite job_loop, Z.add_0_l. f_equal. rewrite <- (ni_jobs _ _ Hi).
  rewrite (go_sort_perm str_less). unfold size, set_size. cbn. apply Permutation_length.
  apply NoDup_Permutation; [apply NoDup_filter, NoDup_elements|apply NoDup_elements|].
  intros name. rewrite list_elem_of_filter, !elem_of_elements, elem_of_filter. done.
Qed.
End host.

(** Two processes that overlap. *)
Definition empty_host : host := mkHost ∅ ∅ ∅ ∅ ∅.
Definition two_started : host := mkHost ∅ ({[8]} ∪ {[7]}) ({[8]} ∪ {[7]}) ∅ ∅.

Lemma empty_host_fresh : fresh_host empty_host.
Proof. split_and!; done. Qed.

Lemma two_started_run : host_run (fun _ => false) empty_host [NSpawn 7; NSpawn 8] two_started.
Proof.
  assert (host_run (fun _ => false) empty_host [NSpawn 7] (mkHost ∅ {[7]} {[7]} ∅ ∅)) as H1.
  { eapply (run_snoc _ _ []); [constructor|]. replace ({[7]} : gset Z) with ({[7]} ∪ nd_used empty_host) at 1 by set_solver.
    replace ({[7]} : gset Z) with ({[7]} ∪ nd_alive empty_host) by set_solver. constructor; [lia|set_solver]. }
  eapply (run_snoc _ _ [NSpawn 7]); [exact H1|]. refine (step_spawn _ (mkHost ∅ {[7]} {[7]} ∅ ∅) 8 _ _); [lia|]. cbn. set_solver.
Qed.



Lemma jobcount_exact_witness :
  jobcount_Reduce (nd_dir (mkHost (<[job_file 7 0 := "x"%string]> ∅) ({[8]} ∪ {[7]}) ({[8]} ∪ {[7]}) ∅ (<[7 := 1]> ∅))) "a" ["x"%string] = "1"%string.
Proof.
  apply (jobcount_exact (fun _ => false) empty_host [NSpawn 7; NSpawn 8; NJobMap 7]).
  - exact empty_host_fresh.
  - eapply (run_snoc _ _ [NSpawn 7; NSpawn 8]); [exact two_started_run|].
    refine (step_job _ two_started 7 _ _ _ _ _ _); [cbn; set_solver|reflexivity|reflexivity].
Defined.
