(* ===== verification/Programs.v ===== *)
(** * The command-line programs (src/src/main)

    What the programs do with their arguments.  The services that lockc,
    lockd, pbc, pbd, viewd and diskvd start or call are packages that the
    repository does not have, so a run of such a program is the list of the
    calls it makes; replies are parameters.  [os.Exit] ends the list.  A plugin
    is what [plugin.Open] and [Lookup] find in a file. *)

From Stdlib Require Import Ascii.
From stdpp Require Import pretty.
From S2P Require Import Prelude Coordinator Worker WorkerProof MRTests MRTestsSpec.

(** ** package strconv *)

(** A number in base 10: [None] for a syntax error. *)
Definition parse_digits (s : string) : option Z :=
  if starts_with_digit s && all_digits s then Some (digits s 0) else None.

(** [ParseInt(s, 10, 64)] with the error dropped: 0 for a syntax error, the
    nearest number for one out of range. *)
Definition ParseInt (s : string) : Z :=
  let '(sign, s) := match s with
                    | String "-"%char s' => (-1, s')
                    | String "+"%char s' => (1, s')
                    | _ => (1, s)
                    end in
  match parse_digits s with
  | Some v => Z.max (- 2 ^ 63) (Z.min (2 ^ 63 - 1) (sign * v))
  | None => 0
  end.

(** On a 64-bit machine [Atoi] is [ParseInt] with the width of int. *)
Definition Atoi (s : string) : Z := ParseInt s.

Definition ParseBool (s : string) : bool :=
  bool_decide (s ∈ ["1"; "t"; "T"; "TRUE"; "true"; "True"]%string).

(** ** Calls of the services *)

Record diskv_config := mkDiskv {
  gid : Z;
  masters : list string;
  replicas : list string;
  me : Z;
  unreliable : bool;
  dir : string;
  restart : bool;
}.

Inductive service_call :=
  | lock_StartServer (primary backup : string) (am_primary : bool)
  | lock_MakeClerk (primary backup : string)
  | ck_Lock (name : string)
  | ck_Unlock (name : string)
  | pb_StartServer (viewport me : string)
  | pb_MakeClerk (viewport me : string)
  | ck_Get (key : string)
  | ck_Put (key value : string)
  | view_StartServer (port : string)
  | diskv_StartServer (cfg : diskv_config)
  | srv_Setunreliable (b : bool)
  | Printf (text : string)
  | Usage.                                    (* prints how it is used and exits *)

(** ** lockd, lockc, pbd, pbc, viewd *)

Definition lockd_main (args : list string) : list service_call :=
  match args with
  | [_; o; p; b] =>
      if String.eqb o "-p" then [lock_StartServer p b true]
      else if String.eqb o "-b" then [lock_StartServer p b false] else [Usage]
  | _ => [Usage]
  end.

Definition print_bool (b : bool) : string := if b then "true" else "false".

(** The reply of the server is [ok]. *)
Definition lockc_main (ok : bool) (args : list string) : list service_call :=
  match args with
  | [_; o; p; b; name] =>
      lock_MakeClerk p b ::
      (if String.eqb o "-l" then [ck_Lock name; Printf ("reply: " +:+ print_bool ok +:+ newline)]
       else if String.eqb o "-u" then [ck_Unlock name; Printf ("reply: " +:+ print_bool ok +:+ newline)] else [Usage])
  | _ => [Usage]
  end.

Definition pbd_main (args : list string) : list service_call :=
  match args with [_; viewport; myport] => [pb_StartServer viewport myport] | _ => [Usage] end.

Definition pbc_main (v : string) (args : list string) : list service_call :=
  match args with
  | [_; viewport; key] => [pb_MakeClerk viewport EmptyString; ck_Get key; Printf (v +:+ newline)]
  | [_; viewport; key; value] => [pb_MakeClerk viewport EmptyString; ck_Put key value]
  | _ => [Usage]
  end.

Definition viewd_main (args : list string) : list service_call :=
  match args with [_; port] => [view_StartServer port] | _ => [Usage] end.

(** ** diskvd *)

Definition diskvd_start : diskv_config := mkDiskv (-1) [] [] (-1) false EmptyString false.

(** One option with its value; [None] is [usage()]. *)
Definition diskvd_option (a0 a1 : string) (c : diskv_config) : option diskv_config :=
  if String.eqb a0 "-g" then Some (mkDiskv (ParseInt a1) (masters c) (replicas c) (me c) (unreliable c) (dir c) (restart c))
  else if String.eqb a0 "-m" then Some (mkDiskv (gid c) (masters c ++ [a1]) (replicas c) (me c) (unreliable c) (dir c) (restart c))
  else if String.eqb a0 "-s" then Some (mkDiskv (gid c) (masters c) (replicas c ++ [a1]) (me c) (unreliable c) (dir c) (restart c))
  else if String.eqb a0 "-i" then Some (mkDiskv (gid c) (masters c) (replicas c) (Atoi a1) (unreliable c) (dir c) (restart c))
  else if String.eqb a0 "-u" then Some (mkDiskv (gid c) (masters c) (replicas c) (me c) (ParseBool a1) (dir c) (restart c))
  else if String.eqb a0 "-d" then Some (mkDiskv (gid c) (masters c) (replicas c) (me c) (unreliable c) a1 (restart c))
  else if String.eqb a0 "-r" then Some (mkDiskv (gid c) (masters c) (replicas c) (me c) (unreliable c) (dir c) (ParseBool a1))
  else None.

(** The loop over the arguments, two at a time; one that is left over is
    ignored. *)
Fixpoint diskvd_loop (args : list string) (c : diskv_config) : option diskv_config :=
  match args with
  | a0 :: a1 :: args =>
      match diskvd_option a0 a1 c with Some c => diskvd_loop args c | None => None end
  | _ => Some c
  end.

Definition diskvd_bad (c : diskv_config) : bool :=
  (gid c <? 0) || (me c <? 0) || (Z.of_nat (length (masters c)) <? 1) ||
  (Z.of_nat (length (replicas c)) <=? me c) || String.eqb (dir c) EmptyString.

Definition diskvd_main (args : list string) : list service_call :=
  match diskvd_loop (tail args) diskvd_start with
  | None => [Usage]
  | Some c => if diskvd_bad c then [Usage] else [diskv_StartServer c; srv_Setunreliable (unreliable c)]
  end.

(** ** mrworker and mrsequential *)

Inductive symbol :=
  | MapSymbol (f : string -> string -> list KeyValue)
  | ReduceSymbol (f : string -> list string -> string)
  | OtherSymbol.

Section plugins.
(** The symbols of a plugin file, if it can be opened. *)
Context (plugin_Open : string -> option (string -> option symbol)).

Definition loadPlugin (filename : string) : outcome ((string -> string -> list KeyValue) * (string -> list string -> string)) :=
  match plugin_Open filename with
  | None => Panic Fatal
  | Some lookup =>
      xmapf ← match lookup "Map"%string with Some x => Ret x | None => Panic Fatal end;
      mapf ← match xmapf with MapSymbol f => Ret f | _ => Panic TypeAssertion end;
      xreducef ← match lookup "Reduce"%string with Some x => Ret x | None => Panic Fatal end;
      reducef ← match xreducef with ReduceSymbol f => Ret f | _ => Panic TypeAssertion end;
      Ret (mapf, reducef)
  end.

(** The functions that [mr.Worker] is called with. *)
Definition mrworker_main (args : list string) : outcome ((string -> string -> list KeyValue) * (string -> list string -> string)) :=
  match args with [_; file] => loadPlugin file | _ => Panic Fatal end.

Definition mrsequential_main `{!GoSort ByKey_Less} (args : list string) (fs : files) : outcome files :=
  match args with
  | _ :: file :: names =>
      if decide (names = []) then Panic Fatal else
      '(mapf, reducef) ← loadPlugin file;
      mrsequential mapf reducef names fs
  | _ => Panic Fatal
  end.
End plugins.

(** [coordinatorSock] of mr/rpc.go: the address at which the workers of a user
    find the coordinator. *)
Definition coordinatorSock (uid : Z) : string := "/var/tmp/824-mr-" +:+ pretty uid.

(** ** The arguments of diskvd *)

(** A configuration that diskvd accepts. *)
Record diskv_ok (c : diskv_config) : Prop := {
  dk_gid : 0 <= gid c < 2 ^ 63;
  dk_me : 0 <= me c < Z.of_nat (length (replicas c));
  dk_masters : masters c <> [];
  dk_dir : dir c <> EmptyString;
  dk_replicas : Z.of_nat (length (replicas c)) < 2 ^ 63;
}.

(** The arguments as the tests write them. *)
Definition diskvd_args (c : diskv_config) : list string :=
  ["-g"%string; pretty (gid c)] ++
  (masters c ≫= fun m => ["-m"%string; m]) ++
  (replicas c ≫= fun s => ["-s"%string; s]) ++
  ["-i"%string; pretty (me c); "-u"%string; print_bool (unreliable c); "-d"%string; dir c; "-r"%string; print_bool (restart c)].

Lemma ParseInt_pretty z : 0 <= z < 2 ^ 63 -> ParseInt (pretty z) = z.
Proof.
  intros Hz. pose proof (pretty_starts z ltac:(lia)) as Hs. unfold ParseInt.
  assert ((match pretty z with String "-"%char s' => (-1, s') | String "+"%char s' => (1, s') | _ => (1, pretty z) end) = (1, pretty z)) as ->.
  { destruct (pretty z) as [|c s]; [done|]. cbn in Hs. destruct c as [[] [] [] [] [] [] [] []]; by vm_compute in Hs |- *. }
  unfold parse_digits. rewrite Hs, pretty_Z_digits, digits_pretty by lia. cbn [andb]. lia.
Qed.

Lemma ParseBool_print b : ParseBool (print_bool b) = b.
Proof. by destruct b. Qed.

Lemma diskvd_loop_masters ms args c :
  diskvd_loop ((ms ≫= fun m => ["-m"%string; m]) ++ args) c =
  diskvd_loop args (mkDiskv (gid c) (masters c ++ ms) (replicas c) (me c) (unreliable c) (dir c) (restart c)).
Proof.
  revert c. induction ms as [|m ms IH]; intros c; cbn; [rewrite app_nil_r; by destruct c|]. rewrite IH. cbn. by rewrite <- app_assoc.
Qed.

Lemma diskvd_loop_replicas rs args c :
  diskvd_loop ((rs ≫= fun s => ["-s"%string; s]) ++ args) c =
  diskvd_loop args (mkDiskv (gid c) (masters c) (replicas c ++ rs) (me c) (unreliable c) (dir c) (restart c)).
Proof.
  revert c. induction rs as [|r rs IH]; intros c; cbn; [rewrite app_nil_r; by destruct c|]. rewrite IH. cbn. by rewrite <- app_assoc.
Qed.

Lemma diskvd_good c : diskv_ok c -> diskvd_bad c = false.
Proof.
  intros [H1 H2 H3 H4 _]. unfold diskvd_bad. rewrite !orb_false_iff, !Z.ltb_ge, Z.leb_gt. split_and!; try lia.
  - destruct (masters c); [done|cbn; lia].
  - by apply String.eqb_neq.
Qed.

(** Starting diskvd with the arguments for a configuration starts a server with
    this configuration, and a server is only started with an acceptable one. *)
Theorem diskvd_roundtrip c name : diskv_ok c ->
  diskvd_main (name :: diskvd_args c) = [diskv_StartServer c; srv_Setunreliable (unreliable c)].
Proof.
  intros Hok. pose proof (diskvd_good c Hok) as Hg. destruct Hok as [H1 H2 H3 H4 H5].
  unfold diskvd_main, diskvd_args. cbn [tail app].
  change (diskvd_loop ("-g"%string :: pretty (gid c) :: ?l) ?s) with (diskvd_loop l (mkDiskv (ParseInt (pretty (gid c))) [] [] (-1) false EmptyString false)).
  rewrite ParseInt_pretty by lia. rewrite diskvd_loop_masters, diskvd_loop_replicas. cbn -[ParseInt ParseBool pretty print_bool].
  unfold Atoi. rewrite ParseInt_pretty, !ParseBool_print by lia. destruct c. cbn in *. by rewrite Hg.
Qed.

Theorem diskvd_checks args c : diskv_StartServer c ∈ diskvd_main args ->
  0 <= gid c /\ 0 <= me c < Z.of_nat (length (replicas c)) /\ masters c <> [] /\ dir c <> EmptyString.
Proof.
  unfold diskvd_main. destruct (diskvd_loop (tail args) diskvd_start) as [c'|]; [|set_solver].
  destruct (diskvd_bad c') eqn:E; [set_solver|]. intros [[= ->]|Hin]%elem_of_cons; [|set_solver].
  unfold diskvd_bad in E. rewrite !orb_false_iff, !Z.ltb_ge, Z.leb_gt in E. destruct E as ((((? & ?) & Hm) & ?) & Hd).
  split_and!; try lia; [by destruct (masters c')|by apply String.eqb_neq].
Qed.
