(* ===== verification/MRSystem.v ===== *)
(** * The MapReduce programs running together
      (src/src/mr/worker.go, coordinator.go, main/mrcoordinator.go, main/mrworker.go)

    One coordinator process, any number of worker processes and the files they
    share.  A worker is cut wherever another process can act in between: at
    every remote call, at every file that it reads and at every file that it
    appends to.  The coordinator serves a call in the critical sections of its
    handler.  Workers may crash at any point, in the middle of a write too;
    the coordinator exits when its main function sees that the job is done,
    and the calls of the workers fail from then on. *)

From S2P Require Import Prelude Coordinator Worker.

(** Where the main goroutine of a worker stands. *)
Inductive wpc :=
  | AtLoop                                                  (* at the head of the loop *)
  | InRegister                                              (* in [CallRegister] *)
  | InAssign (a : assign_call)                              (* in [CallAssignTask] *)
  | MapRead                                                 (* in [processMTask] *)
  | MapWrite (i : Z) (partitions : list (list KeyValue))    (* at partition [i] of [saveIntermediate] *)
  | ReduceRead (names : list string) (intermediate : list KeyValue)
  | ReduceWrite (intermediate : list KeyValue)              (* in [processRTask] *)
  | InComplete.                                             (* in [CallCompleteTask] *)

Record wproc := mkWproc { wp_worker : worker; wp_pc : wpc; wp_crashed : bool }.

Record system := mkSystem {
  s_coord : Coordinator;
  s_procs : list wproc;
  s_files : files;
  s_exited : bool;
}.

Definition set_pc (p : wproc) (pc : wpc) : wproc := mkWproc (wp_worker p) pc (wp_crashed p).

Definition set_crashed (p : wproc) : wproc := mkWproc (wp_worker p) (wp_pc p) true.

(** [info.status = "idle"]. *)
Definition set_idle (w : worker) : worker :=
  mkWorker (info_id w) "idle" (wt_TaskID w) (wt_Class w) (wt_Key w) (wt_Workers w) (w_nReduce w).

(** [call] when the coordinator is gone: [rpc.DialHTTP] fails and
    [log.Fatal] ends the process, or the connection was made before and
    [c.Call] returns an error, so that the reply keeps its zero values. *)
Definition call_failed {A} (dialed : bool) (zero : A) : outcome A :=
  if dialed then Ret zero else Panic Fatal.

(** [sendHeartbeat]: the message of one turn of its loop. *)
Definition sendHeartbeat (w : worker) (now : Z) : HeartbeatMessage := mkHeartbeat (info_id w) now.

Section system.
Context `{!JsonStream, !JsonInts, !GoSort ByKey_Less, !RangeOrder Z}.
Context (mapf : string -> string -> list KeyValue) (reducef : string -> list string -> string).

(** A step of the main goroutine of a worker up to the next point at which
    another process can act; nothing happens while it waits for a reply. *)
Definition local_step (p : wproc) (fs : files) : outcome (wproc * files) :=
  let w := wp_worker p in
  match wp_pc p with
  | AtLoop =>
      if bool_decide (info_id w = -1) then Ret (set_pc p InRegister, fs)
      else if String.eqb (info_status w) "idle" then
        Ret (set_pc p (InAssign (mkAssign (info_id w) AtMapDone no_task)), fs)
      else if String.eqb (info_status w) "busy" then
        if String.eqb (wt_Class w) "map" then Ret (set_pc p MapRead, fs)
        else if String.eqb (wt_Class w) "reduce" then
          Ret (set_pc p (ReduceRead ((fun i => mr_name i (wt_TaskID w)) <$> wt_Workers w) []), fs)
        else Ret (mkWproc (set_idle w) AtLoop (wp_crashed p), fs)
      else Ret (p, fs)
  | MapRead =>
      content ← read_file fs (wt_Key w);
      if decide (w_nReduce w < 0) then Panic IndexOutOfRange else
      partitions ← partition_loop (w_nReduce w) (mapf (wt_Key w) content) (replicate (Z.to_nat (w_nReduce w)) []);
      Ret (set_pc p (MapWrite 0 partitions), fs)
  | MapWrite i [] => Ret (set_pc p InComplete, fs)
  | MapWrite i (partition :: partitions) =>
      Ret (set_pc p (MapWrite (i + 1) partitions),
           append_file fs (mr_name (info_id w) i) (encode_all partition))
  | ReduceRead [] intermediate => Ret (set_pc p (ReduceWrite intermediate), fs)
  | ReduceRead (filename :: filenames) intermediate =>
      content ← read_file fs filename;
      Ret (set_pc p (ReduceRead filenames (intermediate ++ json_decode_all content)), fs)
  | ReduceWrite intermediate =>
      let intermediate := go_sort ByKey_Less intermediate in
      out ← reduce_loop reducef (S (length intermediate)) intermediate;
      Ret (set_pc p InComplete, <[out_name (wt_TaskID w) := out_text out]> fs)
  | InRegister | InAssign _ | InComplete => Ret (p, fs)
  end.

(** The coordinator runs the next critical section of the call that a worker
    waits for; with the last one the worker gets the reply and goes on. *)
Definition serve_call (now : Z) (c : Coordinator) (p : wproc) : outcome (Coordinator * wproc) :=
  let w := wp_worker p in
  match wp_pc p with
  | InRegister =>
      let '(c, reply) := Register now c in
      Ret (c, mkWproc (CallRegister reply w) AtLoop (wp_crashed p))
  | InAssign a =>
      '(c, a) ← assign_step c a;
      match ac_pc a with
      | Returned => Ret (c, mkWproc (CallAssignTask (ac_reply a) w) AtLoop (wp_crashed p))
      | _ => Ret (c, set_pc p (InAssign a))
      end
  | InComplete =>
      c ← CompleteTask (CallCompleteTask w) c;
      Ret (c, mkWproc (set_idle w) AtLoop (wp_crashed p))
  | _ => Ret (c, p)
  end.

(** A call fails after the coordinator has exited. *)
Definition fail_call (dialed : bool) (p : wproc) : outcome wproc :=
  let w := wp_worker p in
  match wp_pc p with
  | InRegister =>
      reply ← call_failed dialed (mkReply 0 EmptyString 0);
      Ret (mkWproc (CallRegister reply w) AtLoop (wp_crashed p))
  | InAssign _ =>
      reply ← call_failed dialed no_task;
      Ret (mkWproc (CallAssignTask reply w) AtLoop (wp_crashed p))
  | InComplete =>
      _ ← call_failed dialed no_task;
      Ret (mkWproc (set_idle w) AtLoop (wp_crashed p))
  | _ => Ret p
  end.

(** What a crash leaves of the file that was being written: an appended
    fragment of a partition, or a fragment of the output. *)
Definition torn_write (p : wproc) (torn : option string) (fs : files) : files :=
  match torn, wp_pc p with
  | Some t, MapWrite i _ => append_file fs (mr_name (info_id (wp_worker p)) i) t
  | Some t, ReduceWrite _ => <[out_name (wt_TaskID (wp_worker p)) := t]> fs
  | _, _ => fs
  end.

Inductive sys_event :=
  | SvStart                                     (* a worker process is started *)
  | SvLocal (k : nat)                           (* worker [k] takes a step *)
  | SvServe (k : nat) (now : Z)                 (* the coordinator serves its call *)
  | SvFail (k : nat) (dialed : bool)            (* its call fails *)
  | SvHeartbeat (k : nat) (now : Z)             (* a heartbeat of it arrives *)
  | SvCheckAlive (now : Z)                      (* a pass of [CheckAliveMachine] *)
  | SvCrash (k : nat) (torn : option string)    (* it crashes *)
  | SvLose (k : nat)                            (* the call of a crashed worker is lost *)
  | SvExit.                                     (* the coordinator's [main] sees [Done] *)

Definition set_proc (s : system) (k : nat) (p : wproc) : system :=
  mkSystem (s_coord s) (<[k := p]> (s_procs s)) (s_files s) (s_exited s).
Definition set_coord (s : system) (c : Coordinator) : system :=
  mkSystem c (s_procs s) (s_files s) (s_exited s).
Definition set_files (s : system) (fs : files) : system :=
  mkSystem (s_coord s) (s_procs s) fs (s_exited s).

(** An event that cannot happen changes nothing.  A worker that fails ends;
    a failure of the coordinator is one of the system. *)
Definition sys_step (s : system) (e : sys_event) : outcome system :=
  match e with
  | SvStart =>
      Ret (mkSystem (s_coord s) (s_procs s ++ [mkWproc worker_start AtLoop false]) (s_files s) (s_exited s))
  | SvLocal k =>
      match s_procs s !! k with
      | Some p =>
          if wp_crashed p then Ret s else
          match local_step p (s_files s) with
          | Ret (p, fs) => Ret (set_files (set_proc s k p) fs)
          | Panic _ => Ret (set_proc s k (set_crashed p))
          | NoFuel => NoFuel
          end
      | None => Ret s
      end
  | SvServe k now =>
      match s_procs s !! k with
      | Some p =>
          if s_exited s then Ret s else
          '(c, p) ← serve_call now (s_coord s) p;
          Ret (set_coord (set_proc s k p) c)
      | None => Ret s
      end
  | SvFail k dialed =>
      match s_procs s !! k with
      | Some p =>
          if s_exited s && negb (wp_crashed p) then
            match fail_call dialed p with
            | Ret p => Ret (set_proc s k p)
            | Panic _ => Ret (set_proc s k (set_crashed p))
            | NoFuel => NoFuel
            end
          else Ret s
      | None => Ret s
      end
  | SvHeartbeat k now =>
      match s_procs s !! k with
      | Some p =>
          if s_exited s || bool_decide (info_id (wp_worker p) = -1) then Ret s else
          c ← ReceiveHeartbeat (sendHeartbeat (wp_worker p) now) (s_coord s);
          Ret (set_coord s c)
      | None => Ret s
      end
  | SvCheckAlive now =>
      if s_exited s then Ret s else Ret (set_coord s (CheckAliveMachine now (s_coord s)))
  | SvCrash k torn =>
      match s_procs s !! k with
      | Some p =>
          if wp_crashed p then Ret s else
          Ret (set_files (set_proc s k (set_crashed p)) (torn_write p torn (s_files s)))
      | None => Ret s
      end
  | SvLose k =>
      match s_procs s !! k with
      | Some p =>
          if wp_crashed p then
            match wp_pc p with
            | InRegister | InAssign _ | InComplete => Ret (set_proc s k (set_pc p AtLoop))
            | _ => Ret s
            end
          else Ret s
      | None => Ret s
      end
  | SvExit =>
      Ret (mkSystem (s_coord s) (s_procs s) (s_files s) (s_exited s || Done (s_coord s)))
  end.

(** [main] of mrcoordinator.go: without arguments it prints how it is used
    and exits. *)
Definition mrcoordinator_main (os_args : list string) (fs : files) : outcome system :=
  if bool_decide (Z.of_nat (length os_args) < 2) then Panic Fatal
  else Ret (mkSystem (MakeCoordinator (tail os_args) (tail os_args) 10) [] fs false).

Fixpoint run_system (s : system) (es : list sys_event) : outcome system :=
  match es with
  | [] => Ret s
  | e :: es => s ← sys_step s e; run_system s es
  end.
End system.
