(* ===== verification/MRSystemProof.v ===== *)
(** * The invariant of the MapReduce system

    What holds in every state of a run in which only machines that have really
    stopped are declared dead, and in which, once a request has seen all map
    tasks done, none of those is the machine of a map task. *)

From S2P Require Import Prelude Coordinator CoordinatorProof Worker WorkerProof MRSystem.

(** ** Runs *)

Definition wid (p : wproc) : Z := info_id (wp_worker p).

(** A worker that waits for a reply. *)
Definition calling (p : wproc) : bool :=
  match wp_pc p with InRegister | InAssign _ | InComplete => true | _ => false end.

(** A machine whose process has stopped, with no request on its way. *)
Definition stopped (s : system) (w : Z) : Prop :=
  forall p, p ∈ s_procs s -> wid p = w -> wp_crashed p = true /\ calling p = false.

Definition past_maps (p : wproc) : bool :=
  match wp_pc p with
  | InAssign a => match ac_pc a with AtReduceDone _ | AtReduceLoop _ => true | _ => false end
  | _ => false
  end.

(** Some request has seen that all map tasks are done. *)
Definition reducing (s : system) : bool :=
  existsb (fun t => negb (String.eqb (r_status t) "idle")) (rtasks (s_coord s)) ||
  existsb past_maps (s_procs s).

(** A pass of [CheckAliveMachine] makes no mistake, and it strikes no machine
    whose map output is in use. *)
Definition accurate (s : system) (e : sys_event) : Prop :=
  match e with
  | SvCheckAlive now => s_exited s = false -> forall w,
      alive (s_coord s) w = true -> alive (CheckAliveMachine now (s_coord s)) w = false ->
      stopped s w /\ (reducing s = true -> w ∉ t_AssignedWorker <$> tasks (s_coord s))
  | _ => True
  end.

Section runs.
Context `{!JsonStream, !JsonInts, !GoSort ByKey_Less, !RangeOrder Z}.
Context (mapf : string -> string -> list KeyValue) (reducef : string -> list string -> string).

Inductive sys_runs (s0 : system) : system -> Prop :=
  | sys_init : sys_runs s0 s0
  | sys_next s e s' :
      sys_runs s0 s -> accurate s e -> sys_step mapf reducef s e = Ret s' -> sys_runs s0 s'.
End runs.

(** ** The invariant *)

Section inv.
Context `{!JsonStream, !JsonInts, !GoSort ByKey_Less, !RangeOrder Z}.
Context (mapf : string -> string -> list KeyValue) (reducef : string -> list string -> string).
Context (n : Z) (input : string -> string) (names : list string).
(** The output of each reduce task. *)
Context (outputs : Z -> string).

(** Map executions: machine and number of the task. *)
Implicit Types (jobs : list (Z * nat)) (c : Coordinator) (fs : files) (p : wproc) (s : system).

Definition file_of (i : nat) : string := default EmptyString (names !! i).

Definition named jobs : list (Z * string) := prod_map id file_of <$> jobs.

Definition contrib jobs (w r : Z) : list KeyValue := contribution mapf n input (named jobs) w r.

Definition maps_complete c : Prop := Forall (fun t => map_complete c t = true) (tasks c).

(** The worker holds a map task, and the coordinator knows. *)
Definition owns_map c (w : worker) (i : nat) : Prop :=
  info_status w = "busy" /\ wt_Class w = "map" /\ wt_TaskID w = Z.of_nat i /\ names !! i = Some (wt_Key w) /\
  exists t, tasks c !! i = Some t /\ t_status t = "processing" /\ t_AssignedWorker t = info_id w.

Definition owns_reduce c (w : worker) (r : nat) : Prop :=
  info_status w = "busy" /\ wt_Class w = "reduce" /\ wt_TaskID w = Z.of_nat r /\ map_snapshot c (wt_Workers w) /\
  exists t, rtasks c !! r = Some t /\ r_status t = "processing" /\ r_AssignedWorker t = info_id w.

(** The pairs that the current map task has already appended. *)
Definition in_progress p (r : Z) : list KeyValue :=
  match wp_pc p with
  | MapWrite i _ => if r <? i then filter (in_part n r) (pairs mapf input (wt_Key (wp_worker p))) else []
  | _ => []
  end.

Definition begun p (r : Z) : Prop :=
  match wp_pc p with MapWrite i _ => r < i | _ => False end.

(** The intermediate files of a worker, unless a crash tore the last one. *)
Definition files_ok jobs fs p : Prop :=
  (wp_crashed p = true -> match wp_pc p with MapWrite _ _ => False | _ => True end) ->
  forall r, 0 <= r < n ->
    default EmptyString (fs !! mr_name (wid p) r) = encode_all (contrib jobs (wid p) r ++ in_progress p r) /\
    (wid p ∈ jobs.*1 \/ begun p r -> is_Some (fs !! mr_name (wid p) r)).

Definition pc_ok c jobs fs p : Prop :=
  let w := wp_worker p in
  let fresh i := wp_crashed p = false -> (wid p, i) ∉ jobs in
  match wp_pc p with
  | AtLoop => info_status w = "idle" \/ (exists i, owns_map c w i /\ fresh i) \/ exists r, owns_reduce c w r
  | InRegister => False
  | InAssign a => info_status w = "idle" /\ ac_worker a = wid p /\ ac_reply a = no_task /\
      match ac_pc a with
      | AtMapDone | AtMapLoop => True
      | AtReduceDone ws | AtReduceLoop ws => map_snapshot c ws
      | Returned => False
      end
  | MapRead => exists i, owns_map c w i /\ fresh i
  | MapWrite j ps => exists i, owns_map c w i /\ fresh i /\ 0 <= j /\
      ps = drop (Z.to_nat j) ((fun r => filter (in_part n (Z.of_nat r)) (pairs mapf input (wt_Key w))) <$>
             seq 0 (Z.to_nat n))
  | ReduceRead fnames acc => (exists r, owns_reduce c w r) /\
      exists ws1 ws2, wt_Workers w = ws1 ++ ws2 /\ fnames = (fun i => mr_name i (wt_TaskID w)) <$> ws2 /\
        acc = ws1 ≫= fun v => contrib jobs v (wt_TaskID w)
  | ReduceWrite acc => (exists r, owns_reduce c w r) /\
      acc = wt_Workers w ≫= fun v => contrib jobs v (wt_TaskID w)
  | InComplete =>
      (exists i, owns_map c w i /\ (wid p, i) ∈ jobs) \/
      (exists r, owns_reduce c w r /\ fs !! out_name (wt_TaskID w) = Some (outputs (wt_TaskID w)))
  end.

Definition unregistered p : Prop :=
  wid p = -1 /\ info_status (wp_worker p) = EmptyString /\ (wp_pc p = AtLoop \/ wp_pc p = InRegister).

Definition member_ok c jobs fs p : Prop :=
  registered c (wid p) /\ w_nReduce (wp_worker p) = n /\
  (alive c (wid p) = false -> wp_crashed p = true /\ calling p = false) /\
  (alive c (wid p) = true -> pc_ok c jobs fs p /\ files_ok jobs fs p).

Definition proc_ok c jobs fs p : Prop := unregistered p \/ member_ok c jobs fs p.

(** The executions of the machines that are not dead: each task belongs to
    the machine that the coordinator has for it. *)
Record jobs_ok c jobs : Prop := {
  jb_nodup : NoDup jobs;
  jb_owner : forall w i, (w, i) ∈ jobs -> alive c w = true /\
    exists t, tasks c !! i = Some t /\ t_AssignedWorker t = w /\
      (t_status t = "processing" \/ t_status t = "completed");
  jb_done : forall i t, tasks c !! i = Some t -> map_complete c t = true ->
    (t_AssignedWorker t, i) ∈ jobs;
}.

Record coord_ok c fs : Prop := {
  co_wf : wf c;
  co_n : nReduce c = n;
  co_names : t_key <$> tasks c = names;
  co_rtasks : length (rtasks c) = Z.to_nat n;
  co_reducing : (exists r t, rtasks c !! r = Some t /\ r_status t <> "idle") -> maps_complete c;
  co_outputs : forall r t, rtasks c !! r = Some t -> r_status t = "completed" ->
    fs !! out_name (Z.of_nat r) = Some (outputs (Z.of_nat r));
}.

Record files_inv c fs : Prop := {
  fi_inputs : forall f, f ∈ names -> fs !! f = Some (input f);
  fi_unused : forall w r, Z.of_nat (length (machines c)) <= w -> fs !! mr_name w r = None;
}.

Record procs_ok c (ps : list wproc) : Prop := {
  po_distinct : forall k k' p p', ps !! k = Some p -> ps !! k' = Some p' ->
    wid p = wid p' -> wid p <> -1 -> k = k';
  po_all : forall w, registered c w -> exists p, p ∈ ps /\ wid p = w;
}.

Record inv_with jobs s : Prop := {
  in_coord : coord_ok (s_coord s) (s_files s);
  in_jobs : jobs_ok (s_coord s) jobs;
  in_files : files_inv (s_coord s) (s_files s);
  in_procs : procs_ok (s_coord s) (s_procs s);
  in_each : forall p, p ∈ s_procs s -> proc_ok (s_coord s) jobs (s_files s) p;
}.

(** After the exit of the coordinator only the outputs matter, and nobody
    writes them. *)
Definition reduces p : Prop :=
  match wp_pc p with
  | AtLoop => info_status (wp_worker p) = "busy" /\ wt_Class (wp_worker p) = "reduce"
  | ReduceRead _ _ | ReduceWrite _ => True
  | _ => False
  end.

Definition harmless p : Prop :=
  wp_crashed p = false -> ~ reduces p /\
  match wp_pc p with
  | MapRead | MapWrite _ _ => 0 <= wid p
  | AtLoop => info_status (wp_worker p) = "busy" -> 0 <= wid p
  | InAssign _ => info_status (wp_worker p) <> "busy"
  | _ => True
  end.

Definition after_exit s : Prop :=
  (forall r, 0 <= r < n -> s_files s !! out_name r = Some (outputs r)) /\
  forall p, p ∈ s_procs s -> harmless p.

Definition inv s : Prop :=
  if s_exited s then after_exit s else exists jobs, inv_with jobs s.

(** *** What the other workers keep *)

Definition reduce_mode c p : Prop := past_maps p = true \/ exists r, owns_reduce c (wp_worker p) r.

(** A change of the rest of the system that leaves a worker alone. *)
Record frame c jobs fs c' jobs' fs' p : Prop := {
  fr_alive : alive c' (wid p) = alive c (wid p);
  fr_reg : registered c (wid p) -> registered c' (wid p);
  fr_task : alive c (wid p) = true -> forall i t, tasks c !! i = Some t -> t_status t = "processing" ->
    t_AssignedWorker t = wid p -> tasks c' !! i = Some t;
  fr_rtask : alive c (wid p) = true -> forall r t, rtasks c !! r = Some t -> r_status t = "processing" ->
    r_AssignedWorker t = wid p -> rtasks c' !! r = Some t;
  fr_snap : alive c (wid p) = true -> reduce_mode c p -> forall ws, map_snapshot c ws -> map_snapshot c' ws;
  fr_jobs : alive c (wid p) = true -> forall i, (wid p, i) ∈ jobs' <-> (wid p, i) ∈ jobs;
  fr_contrib : alive c (wid p) = true -> forall r, contrib jobs' (wid p) r = contrib jobs (wid p) r;
  fr_contribs : alive c (wid p) = true -> reduce_mode c p ->
    forall v r, contrib jobs' v r = contrib jobs v r;
  fr_files : forall r, 0 <= r < n -> fs' !! mr_name (wid p) r = fs !! mr_name (wid p) r;
  fr_out : alive c (wid p) = true -> forall r t, rtasks c !! r = Some t -> r_status t = "processing" ->
    r_AssignedWorker t = wid p -> fs' !! out_name (Z.of_nat r) = fs !! out_name (Z.of_nat r);
}.

Lemma owns_map_frame c jobs fs c' jobs' fs' p i :
  frame c jobs fs c' jobs' fs' p -> alive c (wid p) = true ->
  owns_map c (wp_worker p) i -> owns_map c' (wp_worker p) i.
Proof.
  intros Hf Ha (? & ? & ? & ? & t & ? & ? & ?). split_and!; [done..|]. exists t.
  split_and!; [by eapply (fr_task _ _ _ _ _ _ _ Hf)|done..].
Qed.

Lemma owns_reduce_frame c jobs fs c' jobs' fs' p r :
  frame c jobs fs c' jobs' fs' p -> alive c (wid p) = true ->
  owns_reduce c (wp_worker p) r -> owns_reduce c' (wp_worker p) r.
Proof.
  intros Hf Ha Ho. pose proof Ho as (? & ? & ? & ? & t & ? & ? & ?). split_and!; [done..| |].
  - eapply (fr_snap _ _ _ _ _ _ _ Hf); [done|by right; eauto|done].
  - exists t. split_and!; [by eapply (fr_rtask _ _ _ _ _ _ _ Hf)|done..].
Qed.

Lemma jobs_fst jobs w : w ∈ jobs.*1 <-> exists i, (w, i) ∈ jobs.
Proof.
  rewrite list_elem_of_fmap. split.
  - intros ([? i] & -> & ?). by exists i.
  - intros [i ?]. by exists (w, i).
Qed.

Lemma files_ok_frame c jobs fs c' jobs' fs' p :
  frame c jobs fs c' jobs' fs' p -> alive c (wid p) = true -> files_ok jobs fs p -> files_ok jobs' fs' p.
Proof.
  intros Hf Ha Hok Hc r Hr. destruct (Hok Hc r Hr) as [H1 H2].
  rewrite (fr_files _ _ _ _ _ _ _ Hf), (fr_contrib _ _ _ _ _ _ _ Hf) by done. split; [done|].
  intros Hin. apply H2. destruct Hin as [Hin|]; [left|by right]. apply jobs_fst in Hin as [i Hi].
  apply jobs_fst. exists i. by apply (fr_jobs _ _ _ _ _ _ _ Hf).
Qed.

Lemma pc_ok_frame c jobs fs c' jobs' fs' p :
  frame c jobs fs c' jobs' fs' p -> alive c (wid p) = true -> pc_ok c jobs fs p -> pc_ok c' jobs' fs' p.
Proof.
  intros Hf Ha. pose proof (owns_map_frame c jobs fs c' jobs' fs' p) as Hm.
  pose proof (owns_reduce_frame c jobs fs c' jobs' fs' p) as Hr.
  pose proof (fr_jobs _ _ _ _ _ _ _ Hf Ha) as Hj.
  unfold pc_ok. destruct (wp_pc p) as [| |a| |j ps|fnames acc|acc|] eqn:Hpc.
  - intros [?|[(i & ? & ?)|[r ?]]]; [by left|right..].
    + left. exists i. split; [by apply Hm|]. rewrite Hj. done.
    + right. eauto.
  - done.
  - intros (? & ? & ? & Ha'). split_and!; [done..|].
    destruct (ac_pc a) eqn:Ea; [done..| | |done]; (eapply (fr_snap _ _ _ _ _ _ _ Hf); [done| |done]);
      left; unfold past_maps; by rewrite Hpc, Ea.
  - intros (i & ? & ?). exists i. split; [by apply Hm|]. by rewrite Hj.
  - intros (i & ? & ? & ?). exists i. split; [by apply Hm|]. by rewrite Hj.
  - intros ([r Ho] & ws1 & ws2 & ? & ? & ->). split; [eauto|]. exists ws1, ws2. split_and!; [done..|].
    apply list_bind_ext; [|done]. intros v.
    symmetry. eapply (fr_contribs _ _ _ _ _ _ _ Hf); [done|by right; eauto].
  - intros ([r Ho] & ->). split; [eauto|]. apply list_bind_ext; [|done]. intros v.
    symmetry. eapply (fr_contribs _ _ _ _ _ _ _ Hf); [done|by right; eauto].
  - intros [(i & ? & ?)|(r & Ho & Hout)]; [left; exists i; split; [by apply Hm|by apply Hj]|right].
    exists r. split; [eauto|]. pose proof Ho as (_ & _ & Hid & _ & t & ? & ? & ?). rewrite Hid in *.
    by rewrite (fr_out _ _ _ _ _ _ _ Hf Ha r t) by done.
Qed.

Lemma proc_ok_frame c jobs fs c' jobs' fs' p :
  (wid p <> -1 -> frame c jobs fs c' jobs' fs' p) -> proc_ok c jobs fs p -> proc_ok c' jobs' fs' p.
Proof.
  intros Hf [?|(Hreg & ? & Hd & Hl)]; [by left|right].
  assert (frame c jobs fs c' jobs' fs' p) as Hf' by (apply Hf; unfold registered in Hreg; lia). clear Hf.
  unfold member_ok. rewrite (fr_alive _ _ _ _ _ _ _ Hf'). split_and!; [by apply (fr_reg _ _ _ _ _ _ _ Hf')|done..|].
  intros Ha. destruct (Hl Ha). split; [by eapply pc_ok_frame|by eapply files_ok_frame].
Qed.
End inv.
