(* ===== verification/MRSystemLocal.v ===== *)
(** * Steps of the workers keep the invariant of the MapReduce system *)

From S2P Require Import Prelude Coordinator CoordinatorProof Worker WorkerProof MRSystem MRSystemProof.

Lemma out_name_eq r r' : out_name r = out_name r' -> r = r'.
Proof. unfold out_name. intros Heq. injection Heq as Heq. exact (inj (pretty (A := Z)) r r' Heq). Qed.

Section local.
Context `{!JsonStream, !JsonInts, !GoSort ByKey_Less, !RangeOrder Z}.
Context (mapf : string -> string -> list KeyValue) (reducef : string -> list string -> string).
Context (n : Z) (input : string -> string) (names : list string) (outputs : Z -> string).

(** What the job needs of its files and functions. *)
Record job_spec : Prop := {
  js_n : 0 < n;
  js_valid : Forall (fun f => Forall valid_kv (pairs mapf input f)) names;
  js_names : forall f, f ∈ names -> (forall i j, f <> mr_name i j) /\ forall r, f <> out_name r;
  js_outputs : forall r l, 0 <= r < n -> l ≡ₚ filter (in_part n r) (names ≫= pairs mapf input) ->
    exists out, reduce_loop reducef (S (length (go_sort ByKey_Less l))) (go_sort ByKey_Less l) = Ret out /\
      out_text out = outputs r;
}.

Context (Hjob : job_spec).

Implicit Types (jobs : list (Z * nat)) (c : Coordinator) (fs : files) (p q : wproc) (s : system).

Abbreviation contrib := (contrib mapf n input names).
Abbreviation proc_ok := (proc_ok mapf n input names outputs).
Abbreviation member_ok := (member_ok mapf n input names outputs).
Abbreviation pc_ok := (pc_ok mapf n input names outputs).
Abbreviation files_ok := (files_ok mapf n input names).
Abbreviation frame := (frame mapf n input names).
Abbreviation inv_with := (inv_with mapf n input names outputs).
Abbreviation coord_ok := (coord_ok n names outputs).
Abbreviation files_inv := (files_inv input names).

(** ** General facts *)

Lemma alive_registered c w : alive c w = true -> registered c w.
Proof.
  unfold alive, registered. intros [?%bool_decide_eq_true Hw]%andb_true_iff.
  destruct (machines c !! Z.to_nat w) eqn:E; [|done]. apply lookup_lt_Some in E. lia.
Qed.

Lemma frame_refl c jobs fs p : frame c jobs fs c jobs fs p.
Proof. by split. Qed.

Lemma snapshot_complete c ws : map_snapshot c ws -> maps_complete c.
Proof.
  intros [Hall _]. eapply Forall_impl; [exact Hall|]. cbn. intros t [Hs Ha].
  unfold map_complete. by rewrite Hs, Ha.
Qed.

Lemma reduce_mode_complete c jobs fs p :
  proc_ok c jobs fs p -> alive c (wid p) = true -> reduce_mode c p -> maps_complete c.
Proof.
  intros Hp Ha Hr. destruct Hr as [Hpm|[r Ho]].
  - destruct Hp as [(Hid & _)|(_ & _ & _ & Hl)].
    + apply alive_registered in Ha. unfold registered in Ha. lia.
    + destruct (Hl Ha) as [Hpc _]. unfold pc_ok, past_maps in *. destruct (wp_pc p); try done.
      destruct Hpc as (_ & _ & _ & Hs). destruct (ac_pc a); try done; by eapply snapshot_complete.
  - destruct Ho as (_ & _ & _ & Hs & _). by eapply snapshot_complete.
Qed.

(** A map task in progress is not complete. *)
Lemma processing_incomplete c i t :
  tasks c !! i = Some t -> t_status t = "processing" -> ~ maps_complete c.
Proof.
  intros Hi Hs Hall. eapply Forall_lookup_1 in Hall; [|exact Hi]. cbn in Hall.
  unfold map_complete in Hall. by rewrite Hs in Hall.
Qed.

(** Replacing one worker. *)
Lemma inv_update jobs s k p p' c' jobs' fs' :
  inv_with jobs s -> s_procs s !! k = Some p -> wid p' = wid p ->
  machines c' = machines (s_coord s) ->
  coord_ok c' fs' -> jobs_ok c' jobs' -> files_inv c' fs' ->
  (forall q, q ∈ s_procs s -> proc_ok (s_coord s) jobs (s_files s) q -> wid q <> -1 -> wid q <> wid p ->
     frame (s_coord s) jobs (s_files s) c' jobs' fs' q) ->
  proc_ok c' jobs' fs' p' ->
  inv_with jobs' (mkSystem c' (<[k := p']> (s_procs s)) fs' (s_exited s)).
Proof.
  intros Hinv Hk Hw Hm Hc Hj Hf Hfr Hp'. split; cbn [s_coord s_files s_procs]; [done..| |].
  - assert (k < length (s_procs s))%nat as Hlt by by eapply lookup_lt_Some.
    split.
    + intros a b q q' Ha Hb Hq Hne.
      assert (forall a q, <[k := p']> (s_procs s) !! a = Some q -> exists q0, s_procs s !! a = Some q0 /\ wid q0 = wid q) as Hold.
      { intros a0 q0 [[<- ->]|Hin]%lookup_insert_cases; [by exists p|by exists q0]. }
      destruct (Hold a q Ha) as (qa & ? & ?), (Hold b q' Hb) as (qb & ? & ?).
      eapply (po_distinct _ _ (in_procs _ _ _ _ _ _ _ Hinv)); [done..|congruence|congruence].
    + intros w Hreg. destruct (po_all _ _ (in_procs _ _ _ _ _ _ _ Hinv) w) as (q & Hq & Hqw).
      { unfold registered in *. by rewrite <- Hm. }
      apply list_elem_of_lookup in Hq as [a Ha]. destruct (decide (a = k)) as [->|Hne].
      * exists p'. split; [apply list_elem_of_lookup; exists k; by rewrite list_lookup_insert_eq|]. congruence.
      * exists q. split; [|done]. apply list_elem_of_lookup. exists a. by rewrite list_lookup_insert_ne.
  - intros q Hq. apply list_elem_of_lookup in Hq as [a Ha]. destruct (decide (a = k)) as [->|Hne].
    { rewrite list_lookup_insert_eq in Ha by by eapply lookup_lt_Some. by injection Ha as <-. }
    rewrite list_lookup_insert_ne in Ha by done. pose proof (list_elem_of_lookup_2 _ _ _ Ha) as Hin.
    pose proof (in_each _ _ _ _ _ _ _ Hinv q Hin) as Hq.
    eapply proc_ok_frame; [|exact Hq]. intros Hid. apply Hfr; [done..|]. intros Heq. apply Hne.
    by eapply (po_distinct _ _ (in_procs _ _ _ _ _ _ _ Hinv)).
Qed.

(** A worker moves on and nothing else changes. *)
Lemma inv_move jobs s k p p' :
  inv_with jobs s -> s_procs s !! k = Some p -> wid p' = wid p ->
  proc_ok (s_coord s) jobs (s_files s) p' -> inv_with jobs (set_proc s k p').
Proof.
  intros Hinv Hk Hw Hp'. eapply inv_update; [done..| | | | |done]; [apply Hinv..|].
  intros q _ _ _ _. apply frame_refl.
Qed.

(** What a worker that has not crashed is like. *)
Lemma running_member jobs s p :
  inv_with jobs s -> p ∈ s_procs s -> wp_crashed p = false -> wid p <> -1 ->
  registered (s_coord s) (wid p) /\ w_nReduce (wp_worker p) = n /\ alive (s_coord s) (wid p) = true /\
  pc_ok (s_coord s) jobs (s_files s) p /\ files_ok jobs (s_files s) p.
Proof.
  intros Hinv Hp Hc Hid. destruct (in_each _ _ _ _ _ _ _ Hinv p Hp) as [(? & _)|(? & ? & Hd & Hl)]; [done|].
  destruct (alive _ _) eqn:Ha; [|destruct (Hd eq_refl); congruence]. destruct (Hl eq_refl). done.
Qed.

Lemma member_intro c jobs fs p :
  registered c (wid p) -> w_nReduce (wp_worker p) = n -> alive c (wid p) = true ->
  pc_ok c jobs fs p -> files_ok jobs fs p -> proc_ok c jobs fs p.
Proof. intros. right. split_and!; [done..|congruence|done]. Qed.

(** Moving between points at which no map task is being written. *)
Lemma files_ok_move jobs fs p p' :
  files_ok jobs fs p -> wid p' = wid p -> (forall r, 0 <= r -> in_progress mapf n input p r = []) ->
  (forall r, 0 <= r -> in_progress mapf n input p' r = []) -> (forall r, 0 <= r -> ~ begun p' r) ->
  (wp_crashed p = true -> match wp_pc p with MapWrite _ _ => False | _ => True end) ->
  files_ok jobs fs p'.
Proof.
  intros Hok Hw Hp Hp' Hb Hc _ r Hr. destruct (Hok Hc r Hr) as [H1 H2]. rewrite Hw, Hp' by lia.
  rewrite Hp in H1 by lia. split; [done|]. intros [Hin|Hbeg]; [apply H2; by left|].
  by apply Hb in Hbeg; [|lia].
Qed.

(** ** The executions of a complete map phase *)

Lemma job_lookup c jobs w i :
  jobs_ok c jobs -> t_key <$> tasks c = names -> (w, i) ∈ jobs -> names !! i = Some (file_of names i).
Proof.
  intros Hj Hn Hin. destruct (jb_owner _ _ Hj w i Hin) as (_ & t & Ht & _).
  unfold file_of. rewrite <- Hn, list_lookup_fmap, Ht. done.
Qed.

Lemma jobs_names c jobs :
  jobs_ok c jobs -> t_key <$> tasks c = names -> Forall (fun f => f ∈ names) (named names jobs).*2.
Proof.
  intros Hj Hn. apply Forall_forall. intros f (x & -> & Hx)%list_elem_of_fmap.
  unfold named in Hx. apply list_elem_of_fmap in Hx as ([w i] & -> & Hin). cbn.
  eapply list_elem_of_lookup_2. by eapply job_lookup.
Qed.

Lemma complete_perm c jobs :
  jobs_ok c jobs -> t_key <$> tasks c = names -> maps_complete c -> (named names jobs).*2 ≡ₚ names.
Proof.
  intros Hj Hn Hc.
  assert (jobs.*2 ≡ₚ seq 0 (length names)) as Hp.
  { apply NoDup_Permutation; [| apply NoDup_seq |].
    - apply NoDup_fmap_2_strong; [|apply Hj]. intros [w i] [w' i'] H1 H2 Heq. cbn in Heq. subst i'.
      destruct (jb_owner _ _ Hj _ _ H1) as (_ & t & Ht & Hw & _).
      destruct (jb_owner _ _ Hj _ _ H2) as (_ & t' & Ht' & Hw' & _). congruence.
    - intros i. rewrite elem_of_seq. split.
      + intros ([w j] & -> & Hin)%list_elem_of_fmap. pose proof (job_lookup _ _ _ _ Hj Hn Hin) as Hl.
        apply lookup_lt_Some in Hl. cbn. lia.
      + intros [_ Hi]. cbn in Hi. destruct (lookup_lt_is_Some_2 (tasks c) i) as [t Ht].
        { rewrite <- Hn, length_fmap in Hi. done. }
        apply list_elem_of_fmap. exists (t_AssignedWorker t, i). split; [done|].
        apply (jb_done _ _ Hj i t Ht). by eapply Forall_lookup_1 in Hc. }
  assert ((named names jobs).*2 = file_of names <$> jobs.*2) as ->
    by (unfold named; by rewrite <- !list_fmap_compose).
  rewrite Hp. apply reflexive_eq.
  apply list_eq. intros i. rewrite list_lookup_fmap. destruct (decide (i < length names)%nat) as [Hlt|Hge].
  - rewrite lookup_seq_lt by done. cbn. unfold file_of. destruct (lookup_lt_is_Some_2 names i Hlt) as [f ->]. done.
  - rewrite lookup_seq_ge by lia. cbn. symmetry. apply lookup_ge_None. lia.
Qed.

Lemma jobs_machines c jobs : jobs_ok c jobs -> maps_complete c -> forall v ws, map_snapshot c ws -> v ∈ jobs.*1 -> v ∈ ws.
Proof.
  intros Hj _ v ws (_ & _ & Hws) [i Hi]%jobs_fst. apply Hws.
  destruct (jb_owner _ _ Hj v i Hi) as (_ & t & Ht & <- & _). apply list_elem_of_fmap. exists t.
  split; [done|]. by eapply list_elem_of_lookup_2.
Qed.

(** What the reduce task of a partition reads, once all map tasks are done. *)
Lemma reads_perm c jobs ws r :
  jobs_ok c jobs -> t_key <$> tasks c = names -> map_snapshot c ws ->
  (ws ≫= fun v => contrib jobs v r) ≡ₚ filter (in_part n r) (names ≫= pairs mapf input).
Proof.
  intros Hj Hn Hs. pose proof (snapshot_complete _ _ Hs) as Hc. apply contributions_perm.
  - by eapply complete_perm.
  - apply Hs.
  - intros j Hj'. eapply jobs_machines; [done..|]. unfold named in Hj'.
    apply list_elem_of_fmap in Hj' as ([w i] & -> & Hin). cbn. apply jobs_fst. by exists i.
Qed.

(** ** The loop of [Worker] *)

Lemma worker_loop_ok jobs s k p :
  inv_with jobs s -> s_procs s !! k = Some p -> wp_crashed p = false -> wp_pc p = AtLoop ->
  ensures (local_step mapf reducef p (s_files s)) (fun '(p', fs') =>
    inv_with jobs (set_files (set_proc s k p') fs')).
Proof.
  intros Hinv Hk Hc Hpc. pose proof (list_elem_of_lookup_2 _ _ _ Hk) as Hin.
  unfold local_step. rewrite Hpc. case_bool_decide as Hid.
  { apply ensures_ret. apply (inv_move jobs s k p); [done..|]. left.
    destruct (in_each _ _ _ _ _ _ _ Hinv p Hin) as [(? & ? & _)|(Hreg & _)].
    - split_and!; [done..|by right].
    - unfold registered, wid in Hreg. lia. }
  destruct (running_member jobs s p Hinv Hin Hc Hid) as (Hreg & Hn & Ha & Hok & Hf).
  assert (forall p', wid p' = wid p -> w_nReduce (wp_worker p') = w_nReduce (wp_worker p) ->
    (forall r, 0 <= r -> in_progress mapf n input p' r = []) -> (forall r, 0 <= r -> ~ begun p' r) ->
    pc_ok (s_coord s) jobs (s_files s) p' -> inv_with jobs (set_proc s k p')) as Hmove.
  { intros p' Hw Hn' Hp' Hb Hok'. apply (inv_move jobs s k p); [done..|]. apply member_intro; try congruence.
    eapply files_ok_move; [exact Hf|done| |done..|congruence]. intros r _. unfold in_progress. by rewrite Hpc. }
  unfold pc_ok in Hok. rewrite Hpc in Hok. destruct Hok as [Hs|Ho].
  { rewrite Hs. apply ensures_ret. by apply Hmove; try done; intros r0 _ []. }
  assert (info_status (wp_worker p) = "busy") as Hs by by destruct Ho as [(i & (? & _) & _)|[r (? & _)]].
  rewrite Hs. change (String.eqb "busy" "idle") with false. change (String.eqb "busy" "busy") with true. cbn iota.
  destruct Ho as [(i & Ho & Hfr)|[r Ho]].
  - pose proof Ho as (_ & -> & _). cbn [String.eqb]. apply ensures_ret. apply Hmove; try done; try (by intros r0 _ []). cbn. by exists i.
  - pose proof Ho as (_ & -> & _). change (String.eqb "reduce" "map") with false. change (String.eqb "reduce" "reduce") with true.
    cbn iota. apply ensures_ret. apply Hmove; try done; try (by intros r0 _ []). cbn. split; [by exists r|].
    by exists [], (wt_Workers (wp_worker p)).
Qed.

(** ** Map tasks *)

Lemma map_read_ok jobs s k p :
  inv_with jobs s -> s_procs s !! k = Some p -> wp_crashed p = false -> wid p <> -1 -> wp_pc p = MapRead ->
  ensures (local_step mapf reducef p (s_files s)) (fun '(p', fs') =>
    inv_with jobs (set_files (set_proc s k p') fs')).
Proof.
  intros Hinv Hk Hc Hid Hpc. pose proof (list_elem_of_lookup_2 _ _ _ Hk) as Hin.
  destruct (running_member jobs s p Hinv Hin Hc Hid) as (Hreg & Hn & Ha & Hok & Hf).
  pose proof (js_n Hjob) as Hpos.
  unfold pc_ok in Hok. rewrite Hpc in Hok. destruct Hok as (i & Ho & Hfr). pose proof Ho as (_ & _ & _ & Hkey & _).
  unfold local_step, read_file. rewrite Hpc.
  rewrite (fi_inputs _ _ _ _ (in_files _ _ _ _ _ _ _ Hinv)) by by eapply list_elem_of_lookup_2.
  cbn [mbind outcome_bind]. rewrite Hn, decide_False by lia.
  rewrite partition_loop_spec by (rewrite ?length_replicate; lia). cbn [mbind outcome_bind].
  apply ensures_ret. apply (inv_move jobs s k p); [done..|].
  apply member_intro; try done.
  - cbn. exists i. split_and!; [done..|]. rewrite drop_0. apply list_eq. intros j.
    rewrite list_lookup_imap, list_lookup_fmap. destruct (decide (j < Z.to_nat n)%nat).
    + rewrite lookup_replicate_2, lookup_seq_lt by lia. done.
    + rewrite lookup_seq_ge by lia. rewrite lookup_ge_None_2 by (rewrite length_replicate; lia). done.
  - eapply files_ok_move; [exact Hf|done|..]; try congruence.
    + intros r _. unfold in_progress. by rewrite Hpc.
    + intros r Hr. unfold in_progress. cbn. by destruct (Z.ltb_spec r 0); [lia|].
    + intros r Hr. cbn. lia.
Qed.

Lemma contrib_snoc jobs w i v r :
  contrib (jobs ++ [(w, i)]) v r =
  contrib jobs v r ++ if decide (v = w) then filter (in_part n r) (pairs mapf input (file_of names i)) else [].
Proof.
  unfold MRSystemProof.contrib, contribution, named. rewrite fmap_app, filter_app, bind_app. f_equal.
  cbn [fmap list_fmap prod_map fst snd id]. rewrite filter_cons, filter_nil. cbn [fst].
  destruct (decide (w = v)), (decide (v = w)); try congruence; cbn; [by rewrite app_nil_r|done].
Qed.

(** A change that only concerns the executions or the files of one worker
    that holds a map task. *)
Lemma frame_map jobs s w i t jobs' fs' q :
  tasks (s_coord s) !! i = Some t -> t_status t = "processing" ->
  proc_ok (s_coord s) jobs (s_files s) q -> wid q <> w ->
  (forall v j, v <> w -> (v, j) ∈ jobs' <-> (v, j) ∈ jobs) ->
  (forall v r, v <> w -> contrib jobs' v r = contrib jobs v r) ->
  (forall r, 0 <= r < n -> fs' !! mr_name (wid q) r = s_files s !! mr_name (wid q) r) ->
  (forall r, fs' !! out_name r = s_files s !! out_name r) ->
  frame (s_coord s) jobs (s_files s) (s_coord s) jobs' fs' q.
Proof.
  intros Ht Hs Hq Hne Hj Hc Hf Ho. split; auto.
  intros Ha Hr. destruct (processing_incomplete _ _ _ Ht Hs). by eapply reduce_mode_complete.
Qed.

Lemma map_done_ok jobs s k p j :
  inv_with jobs s -> s_procs s !! k = Some p -> wp_crashed p = false -> wid p <> -1 ->
  wp_pc p = MapWrite j [] ->
  exists jobs', inv_with jobs' (set_proc s k (set_pc p InComplete)).
Proof.
  intros Hinv Hk Hc Hid Hpc. pose proof (list_elem_of_lookup_2 _ _ _ Hk) as Hin.
  destruct (running_member jobs s p Hinv Hin Hc Hid) as (Hreg & Hn & Ha & Hok & Hf).
  pose proof (in_jobs _ _ _ _ _ _ _ Hinv) as Hj. pose proof (js_n Hjob) as Hpos.
  unfold MRSystemProof.pc_ok in Hok. rewrite Hpc in Hok. destruct Hok as (i & Ho & Hfr & Hj0 & Hps).
  specialize (Hfr Hc). pose proof Ho as (_ & _ & _ & Hkey & t & Ht & Hst & Hw).
  assert (n <= j) as Hnj.
  { apply (f_equal length) in Hps. rewrite length_drop, length_fmap, length_seq in Hps. cbn in Hps. lia. }
  exists (jobs ++ [(wid p, i)]).
  apply (inv_update jobs s k p); [done..|apply Hinv| |apply Hinv| |].
  - split.
    + apply NoDup_app. split_and!; [apply Hj| |apply NoDup_singleton]. intros x Hx ->%list_elem_of_singleton. done.
    + intros w i' [Hin'| [= -> ->]%list_elem_of_singleton]%elem_of_app; [by apply (jb_owner _ _ Hj)|].
      split; [done|]. exists t. auto.
    + intros i' t' Ht' Hm. apply elem_of_app. left. by apply (jb_done _ _ Hj).
  - intros q _ Hq _ Hne. eapply (frame_map jobs s (wid p) i t); try done.
    + intros v j' Hv. rewrite elem_of_app, list_elem_of_singleton. naive_solver.
    + intros v r Hv. by rewrite contrib_snoc, decide_False, app_nil_r.
  - apply member_intro; try done.
    + cbn. left. exists i. split; [done|]. apply elem_of_app. right. by apply list_elem_of_singleton.
    + intros _ r Hr. destruct (Hf ltac:(congruence) r Hr) as [H1 H2].
      change (wid (set_pc p InComplete)) with (wid p). rewrite H1, contrib_snoc, decide_True by done. unfold in_progress, begun in *. rewrite Hpc in *. cbn [wp_pc set_pc].
      rewrite (proj2 (Z.ltb_lt r j)) by lia. rewrite app_nil_r. split.
      * do 4 f_equal. unfold file_of. by rewrite Hkey.
      * intros _. apply H2. right. lia.
Qed.

Lemma append_other fs name text name' :
  name' <> name -> append_file fs name text !! name' = fs !! name'.
Proof. intros. unfold append_file. by rewrite lookup_insert_ne. Qed.

(** The files that stay when a file of a worker is appended to. *)
Lemma files_inv_append c fs w i text :
  files_inv c fs -> registered c w -> files_inv c (append_file fs (mr_name w i) text).
Proof.
  intros Hf Hw. unfold registered in Hw. split.
  - intros f Hin. rewrite append_other; [by apply Hf|]. by apply (js_names Hjob).
  - intros v r Hv. rewrite append_other; [by apply Hf|]. intros [? _]%mr_name_inj; lia.
Qed.

Lemma coord_ok_append c fs w i text : 0 <= w -> coord_ok c fs -> coord_ok c (append_file fs (mr_name w i) text).
Proof.
  intros Hw Hc. split; try apply Hc. intros r t Ht Hs. rewrite append_other; [by eapply Hc|].
  intros Heq. by apply (mr_name_out w i (Z.of_nat r) Hw).
Qed.

Lemma map_write_ok jobs s k p j part ps :
  inv_with jobs s -> s_procs s !! k = Some p -> wp_crashed p = false -> wid p <> -1 ->
  wp_pc p = MapWrite j (part :: ps) ->
  inv_with jobs (set_files (set_proc s k (set_pc p (MapWrite (j + 1) ps)))
    (append_file (s_files s) (mr_name (wid p) j) (encode_all part))).
Proof.
  intros Hinv Hk Hc Hid Hpc. pose proof (list_elem_of_lookup_2 _ _ _ Hk) as Hin.
  destruct (running_member jobs s p Hinv Hin Hc Hid) as (Hreg & Hn & Ha & Hok & Hf).
  unfold MRSystemProof.pc_ok in Hok. rewrite Hpc in Hok. destruct Hok as (i & Ho & Hfr & Hj0 & Hps).
  pose proof Ho as (_ & _ & _ & Hkey & t & Ht & Hst & Hw).
  assert (0 <= wid p) as Hwid by (unfold registered in Hreg; lia).
  set (parts := _ <$> _) in Hps.
  assert (parts !! Z.to_nat j = Some part /\ ps = drop (Z.to_nat (j + 1)) parts) as [Hpart Hrest].
  { rewrite <- (Nat.add_0_r (Z.to_nat j)) at 1. rewrite <- lookup_drop, <- Hps. split; [done|].
    replace (Z.to_nat (j + 1)) with (Z.to_nat j + 1)%nat by lia. rewrite <- drop_drop, <- Hps. done. }
  assert (part = filter (in_part n j) (pairs mapf input (wt_Key (wp_worker p)))) as Heq.
  { unfold parts in Hpart. rewrite list_lookup_fmap in Hpart. apply fmap_Some in Hpart as (j' & Hj' & ->).
    apply lookup_seq in Hj' as [-> _]. cbn. by rewrite Z2Nat.id by lia. }
  apply (inv_update jobs s k p); [done..| |apply Hinv| | |].
  - apply coord_ok_append; [done|]. apply Hinv.
  - apply files_inv_append; [apply Hinv|done].
  - intros q _ Hq Hqid Hne. eapply (frame_map jobs s (wid p) i t); try done.
    + intros r _. apply append_other. destruct Hq as [(? & _)|(Hqr & _)]; [done|].
      unfold registered in Hqr. intros [? _]%mr_name_inj; [done|lia..].
    + intros r. apply append_other. intros Hx. symmetry in Hx. by apply mr_name_out in Hx.
  - apply member_intro; try done.
    + cbn. exists i. split_and!; [done..|lia|done].
    + intros _ r Hr. destruct (Hf ltac:(congruence) r Hr) as [H1 H2].
      change (wid (set_pc p (MapWrite (j + 1) ps))) with (wid p). unfold in_progress, begun in *. rewrite Hpc in *. cbn [wp_pc set_pc wp_worker].
      unfold append_file. destruct (decide (r = j)) as [->|Hne].
      * rewrite lookup_insert_eq. cbn [from_option]. rewrite Z.ltb_irrefl, app_nil_r in H1.
        rewrite (proj2 (Z.ltb_lt j (j + 1))) by lia. rewrite H1, encode_all_app, Heq. split; [done|eauto].
      * rewrite lookup_insert_ne by (intros [_ ?]%mr_name_inj; [lia|done..]). rewrite H1.
        assert ((r <? j + 1) = (r <? j)) as -> by lia. split; [done|].
        intros [?|?]; apply H2; [by left|right; lia].
Qed.

(** ** Reduce tasks *)

(** The files that a reduce task reads are complete and stay so. *)
Lemma reduce_file jobs s ws v r :
  inv_with jobs s -> map_snapshot (s_coord s) ws -> v ∈ ws -> 0 <= r < n ->
  s_files s !! mr_name v r = Some (encode_all (contrib jobs v r)).
Proof.
  intros Hinv Hs Hv Hr. pose proof (snapshot_complete _ _ Hs) as Hc. pose proof Hs as (Hall & _ & Hws).
  apply Hws in Hv as (t & -> & Ht)%list_elem_of_fmap. rewrite Forall_forall in Hall.
  destruct (Hall t Ht) as [Hst Ha]. apply list_elem_of_lookup in Ht as [i Hi].
  set (v := t_AssignedWorker t) in *.
  assert (v ∈ jobs.*1) as Hvj.
  { apply jobs_fst. exists i. apply (jb_done _ _ (in_jobs _ _ _ _ _ _ _ Hinv) i t Hi).
    unfold map_complete. fold v. by rewrite Hst, Ha. }
  destruct (po_all _ _ (in_procs _ _ _ _ _ _ _ Hinv) v) as (q & Hq & Hqv); [by apply alive_registered|].
  destruct (in_each _ _ _ _ _ _ _ Hinv q Hq) as [(Hid & _)|(_ & _ & _ & Hl)].
  { apply alive_registered in Ha. unfold registered in Ha. lia. }
  rewrite <- Hqv in *. destruct (Hl Ha) as [Hpc Hf].
  assert (match wp_pc q with MapWrite _ _ => False | _ => True end) as Hnw.
  { unfold MRSystemProof.pc_ok in Hpc. destruct (wp_pc q); try done.
    destruct Hpc as (i' & (_ & _ & _ & _ & t' & Ht' & Hst' & _) & _). by eapply processing_incomplete. }
  destruct (Hf ltac:(done) r Hr) as [H1 H2]. destruct H2 as [text Htext]; [by left|].
  rewrite Htext in H1 |- *. cbn in H1. rewrite H1. f_equal. unfold in_progress.
  destruct (wp_pc q); try done; by rewrite app_nil_r.
Qed.

Lemma owns_reduce_range c fs w r : coord_ok c fs -> owns_reduce c w r -> wt_TaskID w = Z.of_nat r /\ 0 <= Z.of_nat r < n.
Proof.
  intros Hc (_ & _ & Hid & _ & t & Ht & _). apply lookup_lt_Some in Ht. rewrite (co_rtasks _ _ _ _ _ Hc) in Ht.
  split; [done|lia].
Qed.

Lemma contrib_valid c jobs v r :
  jobs_ok c jobs -> t_key <$> tasks c = names -> Forall valid_kv (contrib jobs v r).
Proof.
  intros Hj Hn. apply contribution_valid. pose proof (jobs_names c jobs Hj Hn) as Hall.
  eapply Forall_impl; [exact Hall|]. cbn. intros f Hf. pose proof (js_valid Hjob) as Hv.
  rewrite Forall_forall in Hv. by apply Hv.
Qed.

Lemma reduce_read_ok jobs s k p fnames acc :
  inv_with jobs s -> s_procs s !! k = Some p -> wp_crashed p = false -> wid p <> -1 ->
  wp_pc p = ReduceRead fnames acc ->
  ensures (local_step mapf reducef p (s_files s)) (fun '(p', fs') =>
    inv_with jobs (set_files (set_proc s k p') fs')).
Proof.
  intros Hinv Hk Hc Hid Hpc. pose proof (list_elem_of_lookup_2 _ _ _ Hk) as Hin.
  destruct (running_member jobs s p Hinv Hin Hc Hid) as (Hreg & Hn & Ha & Hok & Hf).
  unfold MRSystemProof.pc_ok in Hok. rewrite Hpc in Hok. destruct Hok as ([r Ho] & ws1 & ws2 & Hws & -> & ->).
  pose proof (owns_reduce_range _ _ _ _ (in_coord _ _ _ _ _ _ _ Hinv) Ho) as [Htid Hr]. pose proof Ho as (_ & _ & _ & Hs & _).
  assert (forall p', wid p' = wid p -> w_nReduce (wp_worker p') = w_nReduce (wp_worker p) ->
    (forall r, in_progress mapf n input p' r = []) -> (forall r, ~ begun p' r) ->
    pc_ok (s_coord s) jobs (s_files s) p' -> inv_with jobs (set_proc s k p')) as Hmove.
  { intros p' Hw Hn' Hp' Hb Hok'. apply (inv_move jobs s k p); [done..|]. apply member_intro; try congruence.
    eapply files_ok_move; [exact Hf|done| |done..|congruence]. intros q _. unfold in_progress. by rewrite Hpc. }
  unfold local_step. rewrite Hpc. destruct ws2 as [|v ws2]; cbn [fmap list_fmap].
  - apply ensures_ret. apply Hmove; try done; [by intros q []|]. cbn. split; [by exists r|].
    by rewrite Hws, app_nil_r.
  - unfold read_file. rewrite Htid, (reduce_file jobs s (wt_Workers (wp_worker p)) v (Z.of_nat r));
      [|done..|rewrite Hws; set_solver|done].
    cbn [mbind outcome_bind]. unfold encode_all. rewrite json_stream_law.
    2:{ eapply contrib_valid; [apply Hinv|]. apply (co_names _ _ _ _ _ (in_coord _ _ _ _ _ _ _ Hinv)). }
    apply ensures_ret. apply Hmove; try done; [by intros q []|]. cbn. split; [by exists r|].
    exists (ws1 ++ [v]), ws2. rewrite <- app_assoc, Htid. split_and!; [done..|].
    rewrite bind_app, bind_cons. cbn. by rewrite app_nil_r.
Qed.

Lemma reduce_write_ok jobs s k p acc :
  inv_with jobs s -> s_procs s !! k = Some p -> wp_crashed p = false -> wid p <> -1 ->
  wp_pc p = ReduceWrite acc ->
  ensures (local_step mapf reducef p (s_files s)) (fun '(p', fs') =>
    inv_with jobs (set_files (set_proc s k p') fs')).
Proof.
  intros Hinv Hk Hc Hid Hpc. pose proof (list_elem_of_lookup_2 _ _ _ Hk) as Hin.
  destruct (running_member jobs s p Hinv Hin Hc Hid) as (Hreg & Hn & Ha & Hok & Hf).
  pose proof (in_coord _ _ _ _ _ _ _ Hinv) as Hco.
  unfold MRSystemProof.pc_ok in Hok. rewrite Hpc in Hok. destruct Hok as ([r Ho] & ->).
  pose proof (owns_reduce_range _ _ _ _ Hco Ho) as [Htid Hr]. pose proof Ho as (_ & _ & _ & Hs & t & Ht & Hst & Hw).
  unfold local_step. rewrite Hpc, Htid.
  destruct (js_outputs Hjob (Z.of_nat r) (wt_Workers (wp_worker p) ≫= fun v => contrib jobs v (Z.of_nat r))) as (out & -> & Hout);
    [done|eapply reads_perm; [apply Hinv|apply Hco|done]|].
  cbn [mbind outcome_bind]. apply ensures_ret. rewrite Hout.
  apply (inv_update jobs s k p); [done..| |apply Hinv| | |].
  - destruct Hco as [Hwf Hcn Hnm Hrt Hred Hop]. split; try done. cbn. intros r' t' Ht' Hst'. destruct (decide (r' = r)) as [->|Hne].
    { rewrite Ht in Ht'. injection Ht' as <-. rewrite Hst in Hst'. discriminate. }
    rewrite lookup_insert_ne; [by eapply Hop|]. intros ?%out_name_eq. lia.
  - pose proof (in_files _ _ _ _ _ _ _ Hinv) as Hfi. split.
    + intros f Hfn. rewrite lookup_insert_ne; [by apply Hfi|]. intros <-. apply (js_names Hjob) in Hfn as [_ Hfn]. by apply (Hfn (Z.of_nat r)).
    + intros v r' Hv. rewrite lookup_insert_ne; [by apply Hfi|].
      intros Hx. symmetry in Hx. apply mr_name_out in Hx; [done|]. lia.
  - intros q _ Hq Hqid Hne. split; try done.
    + intros r' _. apply lookup_insert_ne. intros Hx. symmetry in Hx. apply mr_name_out in Hx; [done|].
      destruct Hq as [(? & _)|(Hqr & _)]; [done|]. unfold registered in Hqr. lia.
    + intros _ r' t' Ht' _ Hw'. apply lookup_insert_ne. intros ?%out_name_eq.
      assert (r' = r) as -> by lia. apply Hne. rewrite Ht in Ht'. injection Ht' as <-.
      by rewrite <- Hw', Hw.
  - apply member_intro; try done.
    + cbn. right. exists r. rewrite Htid. split; [done|]. by rewrite lookup_insert_eq.
    + apply (files_ok_move jobs _ p); [|done| | |by intros q _ []|congruence].
      * intros _ r' Hr'. rewrite lookup_insert_ne; [apply (Hf ltac:(congruence) r' Hr')|].
        intros Hx. symmetry in Hx. apply mr_name_out in Hx; [done|]. unfold registered in Hreg. lia.
      * intros q _. unfold in_progress. by rewrite Hpc.
      * done.
Qed.

(** A worker that has not crashed never fails, whatever it is doing. *)
Lemma local_ok jobs s k p :
  inv_with jobs s -> s_procs s !! k = Some p -> wp_crashed p = false ->
  ensures (local_step mapf reducef p (s_files s)) (fun '(p', fs') =>
    exists jobs', inv_with jobs' (set_files (set_proc s k p') fs')).
Proof.
  intros Hinv Hk Hc. pose proof (list_elem_of_lookup_2 _ _ _ Hk) as Hin.
  assert (set_files (set_proc s k p) (s_files s) = s) as Hsame.
  { unfold set_files, set_proc. cbn. rewrite list_insert_id by done. by destruct s. }
  assert (forall m, ensures m (fun '(p', fs') => inv_with jobs (set_files (set_proc s k p') fs')) ->
    ensures m (fun '(p', fs') => exists jobs', inv_with jobs' (set_files (set_proc s k p') fs'))) as Hex.
  { intros m Hm. eapply ensures_mono; [exact Hm|]. intros [p' fs'] ?. by exists jobs. }
  destruct (decide (wid p = -1)) as [Hid|Hid].
  { destruct (in_each _ _ _ _ _ _ _ Hinv p Hin) as [(_ & _ & [Hpc|Hpc])|(Hreg & _)].
    - apply Hex. by apply worker_loop_ok.
    - unfold local_step. rewrite Hpc. apply ensures_ret. exists jobs. by rewrite Hsame.
    - unfold registered in Hreg. lia. }
  destruct (wp_pc p) as [| |a| |j ps|fnames acc|acc|] eqn:Hpc.
  - apply Hex. by apply worker_loop_ok.
  - unfold local_step. rewrite Hpc. apply ensures_ret. exists jobs. by rewrite Hsame.
  - unfold local_step. rewrite Hpc. apply ensures_ret. exists jobs. by rewrite Hsame.
  - apply Hex. by apply map_read_ok.
  - unfold local_step. rewrite Hpc. destruct ps as [|part ps]; apply ensures_ret.
    + destruct (map_done_ok jobs s k p j) as [jobs' Hj]; [done..|]. by exists jobs'.
    + exists jobs. by apply map_write_ok.
  - apply Hex. by eapply reduce_read_ok.
  - apply Hex. by eapply reduce_write_ok.
  - unfold local_step. rewrite Hpc. apply ensures_ret. exists jobs. by rewrite Hsame.
Qed.
End local.
