(* ===== verification/MRSystemServe.v ===== *)
(** * Steps of the coordinator keep the invariant of the MapReduce system *)

From S2P Require Import Prelude Coordinator CoordinatorProof Worker WorkerProof MRSystem MRSystemProof MRSystemLocal.

Section serve_call.
Context `{!JsonStream, !JsonInts, !GoSort ByKey_Less, !RangeOrder Z}.
Context (mapf : string -> string -> list KeyValue) (reducef : string -> list string -> string).
Context (n : Z) (input : string -> string) (names : list string) (outputs : Z -> string).
Context (Hjob : job_spec mapf reducef n input names outputs).

Implicit Types (jobs : list (Z * nat)) (c : Coordinator) (fs : files) (p q : wproc) (s : system).

Abbreviation contrib := (contrib mapf n input names).
Abbreviation proc_ok := (proc_ok mapf n input names outputs).
Abbreviation pc_ok := (pc_ok mapf n input names outputs).
Abbreviation files_ok := (files_ok mapf n input names).
Abbreviation frame := (frame mapf n input names).
Abbreviation inv_with := (inv_with mapf n input names outputs).
Abbreviation coord_ok := (coord_ok n names outputs).

(** What a worker that waits for a call is like. *)
Lemma calling_member jobs s p :
  inv_with jobs s -> p ∈ s_procs s -> calling p = true -> wp_pc p <> InRegister ->
  registered (s_coord s) (wid p) /\ w_nReduce (wp_worker p) = n /\ alive (s_coord s) (wid p) = true /\
  pc_ok (s_coord s) jobs (s_files s) p /\ files_ok jobs (s_files s) p.
Proof.
  intros Hinv Hp Hc Hr. destruct (in_each _ _ _ _ _ _ _ Hinv p Hp) as [(_ & _ & Hpc)|(? & ? & Hd & Hl)].
  { unfold calling in Hc. destruct Hpc as [Hpc|Hpc]; [by rewrite Hpc in Hc|done]. }
  destruct (alive _ _) eqn:Ha; [|destruct (Hd eq_refl); congruence]. destruct (Hl eq_refl). done.
Qed.

(** A worker whose call ends or goes on, with the coordinator changed. *)
Lemma inv_reply jobs s k p p' c' :
  inv_with jobs s -> s_procs s !! k = Some p -> calling p = true -> wp_pc p <> InRegister ->
  wid p' = wid p -> w_nReduce (wp_worker p') = w_nReduce (wp_worker p) ->
  (forall r, in_progress mapf n input p' r = []) -> (forall r, ~ begun p' r) ->
  machines c' = machines (s_coord s) -> coord_ok c' (s_files s) -> jobs_ok c' jobs ->
  (forall q, q ∈ s_procs s -> proc_ok (s_coord s) jobs (s_files s) q -> wid q <> -1 -> wid q <> wid p ->
     frame (s_coord s) jobs (s_files s) c' jobs (s_files s) q) ->
  pc_ok c' jobs (s_files s) p' ->
  inv_with jobs (set_coord (set_proc s k p') c').
Proof.
  intros Hinv Hk Hcall Hnr Hw Hn Hp' Hb Hm Hc Hj Hfr Hok.
  destruct (calling_member jobs s p Hinv (list_elem_of_lookup_2 _ _ _ Hk) Hcall Hnr) as (Hreg & Hn' & Ha & _ & Hf).
  apply (inv_update mapf n input names outputs jobs s k p); [done..| |done|].
  - destruct (in_files _ _ _ _ _ _ _ Hinv) as [Hin Hun]. split; [done|]. by rewrite Hm.
  - apply member_intro.
    + unfold registered in *. by rewrite Hm, Hw.
    + congruence.
    + unfold alive in *. by rewrite Hm, Hw.
    + done.
    + apply (files_ok_move mapf n input names jobs (s_files s) p); [done..| |done|done|].
      * intros r _. unfold in_progress, calling in *. by destruct (wp_pc p).
      * intros _. unfold calling in Hcall. by destruct (wp_pc p).
Qed.

(** The coordinator only looked. *)
Lemma inv_look jobs s k p p' :
  inv_with jobs s -> s_procs s !! k = Some p -> calling p = true -> wp_pc p <> InRegister ->
  wid p' = wid p -> w_nReduce (wp_worker p') = w_nReduce (wp_worker p) ->
  (forall r, in_progress mapf n input p' r = []) -> (forall r, ~ begun p' r) ->
  pc_ok (s_coord s) jobs (s_files s) p' ->
  inv_with jobs (set_coord (set_proc s k p') (s_coord s)).
Proof.
  intros Hinv ????????. pose proof (in_coord _ _ _ _ _ _ _ Hinv). pose proof (in_jobs _ _ _ _ _ _ _ Hinv).
  by eapply inv_reply.
Qed.

(** ** The map phase *)

Lemma complete_held c t : map_complete c t = true -> map_held c t = true.
Proof. unfold map_complete, map_held. intros [-> ->]%andb_true_iff. by rewrite orb_true_r. Qed.

Lemma unheld_incomplete c i t : tasks c !! i = Some t -> map_held c t = false -> ~ maps_complete c.
Proof.
  intros Hi Hh Hall. eapply Forall_lookup_1 in Hall; [|exact Hi]. cbn in Hall. apply complete_held in Hall. congruence.
Qed.

Lemma held_owner c t :
  alive c (t_AssignedWorker t) = true -> t_status t = "processing" \/ t_status t = "completed" -> map_held c t = true.
Proof. intros Ha [Hs|Hs]; unfold map_held; by rewrite Hs, Ha. Qed.

(** Rewriting a task whose completion is not yet in use. *)
Lemma coord_ok_task c fs i t st w :
  coord_ok c fs -> tasks c !! i = Some t -> ~ maps_complete c -> status_ok c st w ->
  coord_ok (set_tasks c (<[i := mkTask (t_id t) (t_key t) (t_class t) st w]> (tasks c))) fs.
Proof.
  intros [Hwf Hn Hnm Hr Hred Ho] Ht Hnc Hs. split; try done.
  - by apply wf_update_task.
  - cbn. rewrite list_fmap_insert. cbn. rewrite list_insert_id; [done|]. by rewrite list_lookup_fmap, Ht.
  - cbn. intros Hx. by apply Hred in Hx.
Qed.

Lemma frame_task jobs s i t w st q :
  tasks (s_coord s) !! i = Some t -> ~ maps_complete (s_coord s) ->
  proc_ok (s_coord s) jobs (s_files s) q ->
  (alive (s_coord s) (wid q) = true -> t_status t = "processing" -> t_AssignedWorker t <> wid q) ->
  frame (s_coord s) jobs (s_files s)
    (set_tasks (s_coord s) (<[i := mkTask (t_id t) (t_key t) (t_class t) st w]> (tasks (s_coord s)))) jobs (s_files s) q.
Proof.
  intros Ht Hnc Hq Hne. split; try done.
  - intros Ha j u Hj Hst Hu. cbn. destruct (decide (i = j)) as [<-|Hij]; [|by rewrite list_lookup_insert_ne].
    rewrite Ht in Hj. injection Hj as <-. by destruct (Hne Ha Hst).
  - intros Ha Hr. destruct Hnc. by eapply reduce_mode_complete.
Qed.

Lemma serve_map_loop jobs s k p a :
  inv_with jobs s -> s_procs s !! k = Some p -> wp_pc p = InAssign a -> ac_pc a = AtMapLoop ->
  forall now, ensures (serve_call now (s_coord s) p) (fun '(c', p') => inv_with jobs (set_coord (set_proc s k p') c')).
Proof.
  intros Hinv Hk Hpc Hapc now.
  assert (calling p = true) as Hcall by (unfold calling; by rewrite Hpc).
  destruct (calling_member jobs s p Hinv (list_elem_of_lookup_2 _ _ _ Hk) Hcall) as (Hreg & Hn & Ha & Hok & Hf); [congruence|].
  pose proof (in_coord _ _ _ _ _ _ _ Hinv) as Hco. pose proof (co_wf _ _ _ _ _ Hco) as Hwf.
  pose proof (in_jobs _ _ _ _ _ _ _ Hinv) as Hj.
  unfold MRSystemProof.pc_ok in Hok. rewrite Hpc in Hok. destruct Hok as (Hidle & Hw & Hreply & _).
  unfold serve_call, assign_step. rewrite Hpc, Hapc, assign_map_ok, Hreply by done.
  destruct (list_find _ (tasks (s_coord s))) as [[i t]|] eqn:E; cbn [mbind outcome_bind ac_pc ac_reply].
  - apply list_find_Some in E as (Ht & Hh & _). pose proof (unheld_incomplete _ _ _ Ht Hh) as Hnc.
    destruct (wf_task _ Hwf i t Ht) as (Hid & Hcl & _). apply ensures_ret. rewrite Hw.
    assert (CallAssignTask (mkTaskInfo (t_id t) (t_class t) (t_key t) (Workers no_task)) (wp_worker p) =
      mkWorker (wid p) "busy" (Z.of_nat i) "map" (t_key t) (wt_Workers (wp_worker p)) (w_nReduce (wp_worker p))) as ->.
    { unfold CallAssignTask. cbn [Class_ TaskID Key Workers no_task]. by rewrite Hcl, Hid, json_empty_law. }
    assert (forall w, (w, i) ∉ jobs) as Hnot.
    { intros w Hin. destruct (jb_owner _ _ Hj w i Hin) as (Haw & t' & Ht' & <- & Hst).
      rewrite Ht in Ht'. injection Ht' as <-. rewrite held_owner in Hh; done. }
    apply (inv_reply jobs s k p); try done; [congruence|by intros r []|..].
    + apply coord_ok_task; [done..|]. by apply status_ok_new.
    + destruct Hj as [Hnd Hown Hdone]. split; [done|..].
      * intros w j Hin. destruct (Hown w j Hin) as (Haw & t' & Ht' & ?). split; [done|]. exists t'. split; [|done].
        cbn. rewrite list_lookup_insert_ne; [done|]. intros <-. by apply (Hnot w).
      * cbn. intros j t' [[<- ->]|Hl]%lookup_insert_cases Hm; [done|]. by apply Hdone.
    + intros q _ Hq _ Hne. apply frame_task; [done..|]. intros Haq Hst Hown.
      rewrite held_owner in Hh; [done|by rewrite Hown|by left].
    + cbn. right. left. exists i. split; [|done]. split_and!; [done..| |].
      * cbn. rewrite <- (co_names _ _ _ _ _ Hco), list_lookup_fmap, Ht. done.
      * cbn. eexists. rewrite list_lookup_insert_eq by by eapply lookup_lt_Some. done.
  - apply ensures_ret. apply (inv_look jobs s k p); try done; [congruence|by intros r []|].
    cbn. by left.
Qed.

Lemma serve_map_done jobs s k p a :
  inv_with jobs s -> s_procs s !! k = Some p -> wp_pc p = InAssign a -> ac_pc a = AtMapDone ->
  forall now, ensures (serve_call now (s_coord s) p) (fun '(c', p') => inv_with jobs (set_coord (set_proc s k p') c')).
Proof.
  intros Hinv Hk Hpc Hapc now.
  assert (calling p = true) as Hcall by (unfold calling; by rewrite Hpc).
  destruct (calling_member jobs s p Hinv (list_elem_of_lookup_2 _ _ _ Hk) Hcall) as (Hreg & Hn & Ha & Hok & Hf); [congruence|].
  pose proof (co_wf _ _ _ _ _ (in_coord _ _ _ _ _ _ _ Hinv)) as Hwf.
  unfold MRSystemProof.pc_ok in Hok. rewrite Hpc in Hok. destruct Hok as (Hidle & Hw & Hreply & _).
  unfold serve_call, assign_step. rewrite Hpc, Hapc.
  destruct (MapDone_ok (s_coord s) Hwf) as ([done ws] & -> & _ & Hd). cbn [mbind outcome_bind].
  destruct done; cbn; apply ensures_ret; (apply (inv_look jobs s k p); try done; try congruence; try (by intros r []));
    cbn; split_and!; auto.
Qed.

(** ** The reduce phase *)

Lemma serve_reduce_done jobs s k p a ws :
  inv_with jobs s -> s_procs s !! k = Some p -> wp_pc p = InAssign a -> ac_pc a = AtReduceDone ws ->
  forall now, ensures (serve_call now (s_coord s) p) (fun '(c', p') => inv_with jobs (set_coord (set_proc s k p') c')).
Proof.
  intros Hinv Hk Hpc Hapc now.
  assert (calling p = true) as Hcall by (unfold calling; by rewrite Hpc).
  destruct (calling_member jobs s p Hinv (list_elem_of_lookup_2 _ _ _ Hk) Hcall) as (Hreg & Hn & Ha & Hok & Hf); [congruence|].
  unfold MRSystemProof.pc_ok in Hok. rewrite Hpc, Hapc in Hok. destruct Hok as (Hidle & Hw & Hreply & Hs).
  unfold serve_call, assign_step. rewrite Hpc, Hapc, Hreply. cbn [mbind outcome_bind].
  destruct (ReduceDone _); cbn; apply ensures_ret; (apply (inv_look jobs s k p); try done; try congruence; try (by intros r []));
    cbn; auto.
Qed.

(** Rewriting a reduce task. *)
Lemma coord_ok_rtask c fs r t st w :
  coord_ok c fs -> rtasks c !! r = Some t -> maps_complete c -> status_ok c st w ->
  (st = "completed" -> fs !! out_name (Z.of_nat r) = Some (outputs (Z.of_nat r))) ->
  coord_ok (set_rtasks c (<[r := mkReduceTask (r_id t) (r_key t) (r_class t) st w]> (rtasks c))) fs.
Proof.
  intros [Hwf Hn Hnm Hr Hred Ho] Ht Hnc Hs Hout. split; try done.
  - by apply wf_update_rtask.
  - cbn. by rewrite length_insert.
  - cbn. intros r' t' [[<- ->]|Hl]%lookup_insert_cases Hst; [by apply Hout|by eapply Ho].
Qed.

Lemma jobs_ok_rtasks c jobs ts : jobs_ok c jobs -> jobs_ok (set_rtasks c ts) jobs.
Proof. intros [Hnd Hown Hdone]. by split. Qed.

Lemma frame_rtask jobs s r t w st q :
  rtasks (s_coord s) !! r = Some t ->
  (alive (s_coord s) (wid q) = true -> r_status t = "processing" -> r_AssignedWorker t <> wid q) ->
  frame (s_coord s) jobs (s_files s)
    (set_rtasks (s_coord s) (<[r := mkReduceTask (r_id t) (r_key t) (r_class t) st w]> (rtasks (s_coord s))))
    jobs (s_files s) q.
Proof.
  intros Ht Hne. split; try done.
  intros Ha j u Hj Hst Hu. cbn. destruct (decide (r = j)) as [<-|Hij]; [|by rewrite list_lookup_insert_ne].
  rewrite Ht in Hj. injection Hj as <-. by destruct (Hne Ha Hst).
Qed.

Lemma snapshot_range c ws :
  map_snapshot c ws -> (length (machines c) <= 256)%nat -> Forall (fun x => 0 <= x < 256) ws.
Proof.
  intros (Hall & _ & Hws) Hm. apply Forall_forall. intros w Hw. apply Hws in Hw as (t & -> & Ht)%list_elem_of_fmap.
  rewrite Forall_forall in Hall. destruct (Hall t Ht) as [_ Ha]. apply alive_registered in Ha. unfold registered in Ha. lia.
Qed.

Lemma serve_reduce_loop jobs s k p a ws :
  inv_with jobs s -> (length (machines (s_coord s)) <= 256)%nat ->
  s_procs s !! k = Some p -> wp_pc p = InAssign a -> ac_pc a = AtReduceLoop ws ->
  forall now, ensures (serve_call now (s_coord s) p) (fun '(c', p') => inv_with jobs (set_coord (set_proc s k p') c')).
Proof.
  intros Hinv Hm Hk Hpc Hapc now.
  assert (calling p = true) as Hcall by (unfold calling; by rewrite Hpc).
  destruct (calling_member jobs s p Hinv (list_elem_of_lookup_2 _ _ _ Hk) Hcall) as (Hreg & Hn & Ha & Hok & Hf); [congruence|].
  pose proof (in_coord _ _ _ _ _ _ _ Hinv) as Hco. pose proof (co_wf _ _ _ _ _ Hco) as Hwf.
  unfold MRSystemProof.pc_ok in Hok. rewrite Hpc, Hapc in Hok. destruct Hok as (Hidle & Hw & Hreply & Hs).
  unfold serve_call, assign_step. rewrite Hpc, Hapc, assign_reduce_ok, Hreply by done.
  destruct (list_find _ (rtasks (s_coord s))) as [[r t]|] eqn:E; cbn [mbind outcome_bind ac_pc ac_reply].
  - apply list_find_Some in E as (Ht & Hh & _).
    destruct (wf_rtask _ Hwf r t Ht) as (Hid & _ & _). apply ensures_ret. rewrite Hw.
    apply (inv_reply jobs s k p); try done; [congruence|by intros r' []|..].
    + apply coord_ok_rtask; [done..|by eapply snapshot_complete|by apply status_ok_new|done].
    + apply jobs_ok_rtasks, Hinv.
    + intros q _ Hq _ Hne. apply frame_rtask; [done|]. intros Haq Hst Hown.
      unfold reduce_held in Hh. rewrite Hst, Hown, Haq in Hh. done.
    + cbn. right. right. exists r. split_and!; [done..| |].
      * cbn. rewrite json_ints_law by by eapply snapshot_range. done.
      * cbn. eexists. rewrite list_lookup_insert_eq by by eapply lookup_lt_Some. done.
  - apply ensures_ret. apply (inv_look jobs s k p); try done; [congruence|by intros r []|].
    cbn. by left.
Qed.

(** ** Completion *)

Lemma serve_complete jobs s k p :
  inv_with jobs s -> s_procs s !! k = Some p -> wp_pc p = InComplete ->
  forall now, ensures (serve_call now (s_coord s) p) (fun '(c', p') => inv_with jobs (set_coord (set_proc s k p') c')).
Proof.
  intros Hinv Hk Hpc now.
  assert (calling p = true) as Hcall by (unfold calling; by rewrite Hpc).
  destruct (calling_member jobs s p Hinv (list_elem_of_lookup_2 _ _ _ Hk) Hcall) as (Hreg & Hn & Ha & Hok & Hf); [congruence|].
  pose proof (in_coord _ _ _ _ _ _ _ Hinv) as Hco. pose proof (in_jobs _ _ _ _ _ _ _ Hinv) as Hj.
  assert (status_ok (s_coord s) "completed" (wid p)) as Hstat by by apply status_ok_new.
  unfold MRSystemProof.pc_ok in Hok. rewrite Hpc in Hok. unfold serve_call, CompleteTask. rewrite Hpc. cbn [CallCompleteTask wc_Class wc_TaskID wc_WorkerID].
  destruct Hok as [(i & (_ & Hcl & Hid & _ & t & Ht & Hst & Hown) & Hdone)|(r & (_ & Hcl & Hid & Hs & t & Ht & Hst & Hown) & Hout)];
    rewrite Hcl, Hid; [change (String.eqb "map" "map") with true|change (String.eqb "reduce" "map") with false; change (String.eqb "reduce" "reduce") with true];
    cbn iota; rewrite (idx_lookup _ _ _ Ht); cbn [mbind outcome_bind];
    rewrite idx_set_ok by (apply lookup_lt_Some in Ht; lia); cbn [mbind outcome_bind]; rewrite Nat2Z.id; apply ensures_ret.
  - pose proof (processing_incomplete _ _ _ Ht Hst) as Hnc.
    apply (inv_reply jobs s k p); try done; [congruence|by intros r []|..].
    + by apply coord_ok_task.
    + destruct Hj as [Hnd Hown' Hd]. split; [done|..].
      * intros w j Hin. destruct (Hown' w j Hin) as (Haw & t' & Ht' & Hw' & Hst'). split; [done|]. cbn.
        destruct (decide (i = j)) as [<-|Hne].
        -- rewrite list_lookup_insert_eq by by eapply lookup_lt_Some. eexists. split; [done|]. cbn.
           rewrite Ht in Ht'. injection Ht' as <-. split; [congruence|by right].
        -- rewrite list_lookup_insert_ne by done. by exists t'.
      * cbn. intros j t' [[<- ->]|Hl]%lookup_insert_cases Hm; [done|]. by apply Hd.
    + intros q _ Hq _ Hne. apply frame_task; [done..|]. intros _ _. unfold wid in *. congruence.
    + cbn. by left.
  - apply (inv_reply jobs s k p); try done; [congruence|by intros q []|..].
    + apply coord_ok_rtask; [done..|by eapply snapshot_complete|done|]. intros _. by rewrite Hid in Hout.
    + by apply jobs_ok_rtasks.
    + intros q _ Hq _ Hne. apply frame_rtask; [done|]. intros _ _. unfold wid in *. congruence.
    + cbn. by left.
Qed.
End serve_call.
