(* ===== verification/MRSystemLive.v ===== *)
(** * A MapReduce job can always be finished

    What holds in every state of every run, whatever is declared dead and
    whatever crashes, and the run of one more worker that finishes the job from
    such a state. *)

From S2P Require Import Prelude Coordinator CoordinatorProof Worker WorkerProof MRSystem MRSystemProof MRSystemLocal MRSystemServe.

Section live.
Context `{!JsonStream, !JsonInts, !GoSort ByKey_Less, !RangeOrder Z}.
Context (mapf : string -> string -> list KeyValue) (reducef : string -> list string -> string).
Context (n : Z) (names : list string).

Implicit Types (c : Coordinator) (fs : files) (p : wproc) (s : system) (w : worker).

(** ** The invariant of all runs *)

(** Files are never removed. *)
Definition keeps fs fs' : Prop := forall f, is_Some (fs !! f) -> is_Some (fs' !! f).

#[local] Instance keeps_refl : Reflexive keeps.
Proof. by intros fs f. Qed.
#[local] Instance keeps_trans : Transitive keeps.
Proof. intros fs1 fs2 fs3 H1 H2 f Hf. auto. Qed.

Lemma keeps_insert fs f t : keeps fs (<[f := t]> fs).
Proof. intros g Hg. destruct (decide (f = g)) as [->|Hne]; [by rewrite lookup_insert_eq|by rewrite lookup_insert_ne]. Qed.

Definition task_in_range c w : Prop :=
  (wt_Class w = "map" -> 0 <= wt_TaskID w < Z.of_nat (length (tasks c))) /\
  (wt_Class w = "reduce" -> 0 <= wt_TaskID w < Z.of_nat (length (rtasks c))).

(** A worker that reports a reduce task has written its output. *)
Definition proc_live c fs p : Prop :=
  task_in_range c (wp_worker p) /\ (wid p = -1 \/ registered c (wid p)) /\
  match wp_pc p with
  | AtLoop | InRegister => True
  | InAssign a => ac_worker a = wid p /\ registered c (wid p) /\ ac_reply a = no_task /\ ac_pc a <> Returned
  | MapRead | MapWrite _ _ => registered c (wid p) /\ wt_Class (wp_worker p) = "map"
  | ReduceRead _ _ | ReduceWrite _ => registered c (wid p)
  | InComplete =>
      registered c (wid p) /\
      (wt_Class (wp_worker p) = "reduce" -> is_Some (fs !! out_name (wt_TaskID (wp_worker p))))
  end.

(** A reduce task that is completed has its output file. *)
Record coord_live c fs : Prop := {
  lv_wf : wf c;
  lv_n : nReduce c = n;
  lv_keys : t_key <$> tasks c = names;
  lv_rtasks : length (rtasks c) = Z.to_nat n;
  lv_outputs : forall i t, rtasks c !! i = Some t -> r_status t = "completed" -> is_Some (fs !! out_name (Z.of_nat i));
}.

Record live_inv s : Prop := {
  lv_coord : coord_live (s_coord s) (s_files s);
  lv_inputs : forall f, f ∈ names -> is_Some (s_files s !! f);
  lv_procs : forall p, p ∈ s_procs s -> proc_live (s_coord s) (s_files s) p;
}.

(** The next coordinator of a step. *)
Definition next_coord c fs c' : Prop := coord_live c' fs /\ evolves c c'.

Lemma coord_live_keeps c fs fs' : keeps fs fs' -> coord_live c fs -> coord_live c fs'.
Proof. intros Hk [H1 H2 H3 H4 H5]. split; [done..|]. eauto. Qed.

Lemma proc_live_next c c' fs fs' p : evolves c c' -> keeps fs fs' -> proc_live c fs p -> proc_live c' fs' p.
Proof.
  intros He Hf [[H1 H2] [H3 H4]]. pose proof (ev_machines _ _ He) as Hm. split; [|split].
  - unfold task_in_range. by rewrite (ev_tasks _ _ He), (ev_rtasks _ _ He).
  - destruct H3; [by left|right]. by eapply registered_mono.
  - destruct (wp_pc p); try done; try (by eapply registered_mono);
      try (destruct H4 as [? ?]; split; [by eapply registered_mono|eauto]).
    destruct H4 as (? & ? & ?). split; [done|]. split; [by eapply registered_mono|done].
Qed.

Lemma keys_update c i t st v : tasks c !! i = Some t ->
  t_key <$> <[i := mkTask (t_id t) (t_key t) (t_class t) st v]> (tasks c) = t_key <$> tasks c.
Proof. intros Ht. rewrite list_fmap_insert. cbn. apply list_insert_id. by rewrite list_lookup_fmap, Ht. Qed.

Lemma next_same c fs : coord_live c fs -> next_coord c fs c.
Proof. by split. Qed.

(** Handing out or completing a task. *)
Lemma next_task c fs i t st v : coord_live c fs -> tasks c !! i = Some t -> status_ok c st v ->
  next_coord c fs (set_tasks c (<[i := mkTask (t_id t) (t_key t) (t_class t) st v]> (tasks c))).
Proof.
  intros [Hwf Hn Hk Hr Ho] Ht Hs. split; [|apply evolves_set_tasks].
  split; [by apply wf_update_task|done| |done..]. cbn. by rewrite keys_update.
Qed.

Lemma next_rtask c fs i t st v : coord_live c fs -> rtasks c !! i = Some t -> status_ok c st v ->
  (r_status t = "completed" -> st = "completed") -> (st = "completed" -> is_Some (fs !! out_name (Z.of_nat i))) ->
  next_coord c fs (set_rtasks c (<[i := mkReduceTask (r_id t) (r_key t) (r_class t) st v]> (rtasks c))).
Proof.
  intros [Hwf Hn Hk Hr Ho] Ht Hs Hst Hout. split; [|by eapply evolves_set_rtasks].
  split; [by apply wf_update_rtask|done|done|cbn; by rewrite length_insert|].
  cbn. intros j u [[<- ->]|Hj]%lookup_insert_cases; [done|by eapply Ho].
Qed.

Lemma serve_assign_live now c fs p a c' p' :
  coord_live c fs -> proc_live c fs p -> wp_pc p = InAssign a -> serve_call now c p = Ret (c', p') ->
  next_coord c fs c' /\ proc_live c' fs p'.
Proof.
  intros Hc Hp Epc Hs. pose proof Hc as [Hwf Hn Hk Hr Ho]. destruct Hp as [Ht [Hw Hpc]].
  unfold serve_call in Hs. rewrite Epc in Hs, Hpc. destruct Hpc as (Haw & Hreg & Hrep & Hnr).
  unfold assign_step in Hs. destruct (ac_pc a) as [| |ws|ws|] eqn:Ea; [| | | |done].
  - destruct (MapDone_ok c Hwf) as ([d ws] & Hd & _). rewrite Hd in Hs. cbn [mbind outcome_bind ac_pc] in Hs.
    destruct d; injection Hs as <- <-; (split; [by apply next_same|]); (split; [done|]); (split; [done|]); by cbn.
  - rewrite assign_map_ok in Hs by done. rewrite Haw, Hrep in Hs.
    destruct (list_find _ (tasks c)) as [[i t]|] eqn:E; cbn [mbind outcome_bind ac_pc ac_reply] in Hs; injection Hs as <- <-.
    + apply list_find_Some in E as (Hi & _ & _). split; [apply next_task; [done..|by apply status_ok_new]|].
      destruct (wf_task _ Hwf i t Hi) as (Hid & Hcl & _). unfold CallAssignTask. cbn. rewrite Hcl. cbn.
      split; [|split; [by right|done]]. unfold task_in_range. cbn. rewrite Hid, length_insert. apply lookup_lt_Some in Hi.
      split; [intros _; lia|done].
    + split; [by apply next_same|]. by split; [|split].
  - cbn [mbind outcome_bind ac_pc] in Hs. destruct (ReduceDone c); injection Hs as <- <-; (split; [by apply next_same|]).
    + rewrite Hrep. by split; [|split].
    + split; [done|]. split; [done|]. by cbn.
  - rewrite assign_reduce_ok in Hs by done. rewrite Haw, Hrep in Hs.
    destruct (list_find _ (rtasks c)) as [[i t]|] eqn:E; cbn [mbind outcome_bind ac_pc ac_reply] in Hs; injection Hs as <- <-.
    + apply list_find_Some in E as (Hi & Hh & _).
      split; [apply next_rtask; [done..|by apply status_ok_new|by intros ?%(reduce_held_completed c t Hh)|done]|].
      destruct (wf_rtask _ Hwf i t Hi) as (Hid & _ & _). unfold CallAssignTask. cbn.
      split; [|split; [by right|done]]. unfold task_in_range. cbn. rewrite Hid, length_insert. apply lookup_lt_Some in Hi.
      split; [done|intros _; lia].
    + split; [by apply next_same|]. by split; [|split].
Qed.

Lemma complete_live c fs p c' :
  coord_live c fs -> proc_live c fs p -> wp_pc p = InComplete ->
  CompleteTask (CallCompleteTask (wp_worker p)) c = Ret c' -> next_coord c fs c'.
Proof.
  intros Hc [[Hm Hrd] [_ Hpc]] Epc Hcomp. rewrite Epc in Hpc. destruct Hpc as [Hreg Hout].
  unfold CompleteTask, CallCompleteTask in Hcomp. cbn [wc_Class wc_TaskID wc_WorkerID] in Hcomp.
  destruct (String.eqb_spec (wt_Class (wp_worker p)) "map") as [E|_].
  - destruct (idx_lookup_Z _ _ (Hm E)) as (t & Ht & Hidx). rewrite Hidx in Hcomp. cbn [mbind outcome_bind] in Hcomp.
    rewrite idx_set_ok in Hcomp by auto. injection Hcomp as <-. apply next_task; [done..|by apply status_ok_new].
  - destruct (String.eqb_spec (wt_Class (wp_worker p)) "reduce") as [E|_]; [|injection Hcomp as <-; by apply next_same].
    destruct (idx_lookup_Z _ _ (Hrd E)) as (t & Ht & Hidx). rewrite Hidx in Hcomp. cbn [mbind outcome_bind] in Hcomp.
    rewrite idx_set_ok in Hcomp by auto. injection Hcomp as <-. apply next_rtask; [done..|by apply status_ok_new|done|].
    intros _. rewrite Z2Nat.id by (specialize (Hrd E); lia). auto.
Qed.

Lemma serve_live now c fs p c' p' :
  coord_live c fs -> proc_live c fs p -> serve_call now c p = Ret (c', p') -> next_coord c fs c' /\ proc_live c' fs p'.
Proof.
  intros Hc Hp Hs. destruct (wp_pc p) as [| |a| | | | |] eqn:Epc; try (by eapply serve_assign_live);
    unfold serve_call in Hs; rewrite Epc in Hs; try (injection Hs as <- <-; split; [by apply next_same|]; done).
  - pose proof Hc as [Hwf Hn Hk Hr Ho]. destruct Hp as [Ht [Hw Hpc]].
    injection Hs as <- <-. destruct (Register_ok now c Hwf) as [Hwf' He]. split; [by split; [split|]|].
    split; [exact Ht|]. split; [right|done]. unfold wid, registered. cbn. rewrite (wf_number c Hwf), length_app. cbn. lia.
  - apply bind_ret_inv in Hs as (c1 & Hcomp & [= <- <-]).
    assert (next_coord c fs c1) as Hnx by by eapply complete_live. split; [done|].
    destruct (proc_live_next _ _ fs fs _ (proj2 Hnx) ltac:(done) Hp) as (? & ? & _). by split; [|split].
Qed.

Lemma local_live c p fs p' fs' :
  proc_live c fs p -> local_step mapf reducef p fs = Ret (p', fs') -> proc_live c fs' p' /\ keeps fs fs'.
Proof.
  intros Hp Hs. pose proof Hp as [Ht [Hw Hpc]]. unfold local_step in Hs.
  destruct (wp_pc p) as [| |a| |i ps|fnames acc|acc|] eqn:Epc; try (by injection Hs as <- <-).
  - destruct (bool_decide (info_id (wp_worker p) = -1)) eqn:E; [by injection Hs as <- <-|].
    apply bool_decide_eq_false in E. assert (registered c (wid p)) as Hreg by (by destruct Hw).
    destruct (String.eqb (info_status (wp_worker p)) "idle"); [by injection Hs as <- <-|].
    destruct (String.eqb (info_status (wp_worker p)) "busy"); [|by injection Hs as <- <-].
    destruct (String.eqb_spec (wt_Class (wp_worker p)) "map"); [by injection Hs as <- <-|].
    destruct (String.eqb (wt_Class (wp_worker p)) "reduce"); by injection Hs as <- <-.
  - apply bind_ret_inv in Hs as (content & _ & Hs). destruct (decide _); [done|].
    apply bind_ret_inv in Hs as (parts & _ & [= <- <-]). done.
  - destruct Hpc as [Hreg Hcl]. destruct ps as [|part ps]; injection Hs as <- <-.
    + split; [|done]. split; [done|]. split; [done|]. cbn. rewrite Hcl. done.
    + split; [done|]. apply keeps_insert.
  - destruct fnames as [|f fnames]; [by injection Hs as <- <-|]. apply bind_ret_inv in Hs as (content & _ & [= <- <-]). done.
  - apply bind_ret_inv in Hs as (out & _ & [= <- <-]). split; [|apply keeps_insert].
    split; [done|]. split; [done|]. cbn. by rewrite lookup_insert_eq.
Qed.

(** A step that replaces one process. *)
Lemma live_update s k p p' c' fs' :
  live_inv s -> s_procs s !! k = Some p -> next_coord (s_coord s) (s_files s) c' -> proc_live c' fs' p' ->
  keeps (s_files s) fs' -> live_inv (mkSystem c' (<[k := p']> (s_procs s)) fs' (s_exited s)).
Proof.
  intros [Hc Hi Hp] Hk [Hc' He] Hp' Hf. split; cbn; [by eapply coord_live_keeps|intros f Hfn; apply Hf; auto|].
  intros q [j Hj]%list_elem_of_lookup. apply lookup_insert_cases in Hj as [[_ ->]|Hj]; [done|].
  eapply proc_live_next; [done..|]. apply Hp. by eapply list_elem_of_lookup_2.
Qed.

(** A crash leaves a fragment of what was being written. *)
Lemma crash_live c fs p torn : proc_live c fs p ->
  keeps fs (torn_write p torn fs) /\ proc_live c (torn_write p torn fs) (set_crashed p).
Proof.
  intros Hp. assert (keeps fs (torn_write p torn fs)) as Hk
    by (unfold torn_write; destruct torn, (wp_pc p); try done; apply keeps_insert).
  split; [done|]. exact (proc_live_next c c fs _ p (reflexivity c) Hk Hp).
Qed.

Lemma heartbeat_live c fs w now c' : coord_live c fs -> registered c (info_id w) ->
  ReceiveHeartbeat (sendHeartbeat w now) c = Ret c' -> next_coord c fs c'.
Proof.
  intros [Hwf Hn Hk Hr Ho] Hreg Hhb.
  destruct (ReceiveHeartbeat_ok (sendHeartbeat w now) c Hwf Hreg) as (c2 & Hc2 & Hwf2 & He).
  rewrite Hhb in Hc2. injection Hc2 as <-. split; [|done]. unfold ReceiveHeartbeat in Hhb.
  apply bind_ret_inv in Hhb as (m & _ & (ms & _ & [= <-])%bind_ret_inv). by split.
Qed.

Lemma check_live c fs now : coord_live c fs -> next_coord c fs (CheckAliveMachine now c).
Proof. intros [Hwf Hn Hk Hr Ho]. destruct (CheckAliveMachine_ok now c Hwf) as [Hwf2 He]. by split; [split|]. Qed.

(** A step of the coordinator alone. *)
Lemma live_coord s c' : live_inv s -> next_coord (s_coord s) (s_files s) c' -> live_inv (set_coord s c').
Proof. intros [Hc Hi Hp] [Hc' He]. split; cbn; [done..|]. intros q Hq. eapply proc_live_next; [exact He|done|auto]. Qed.

Lemma step_live s e s' : live_inv s -> s_exited s = false -> sys_step mapf reducef s e = Ret s' -> live_inv s'.
Proof.
  intros Hl Hx Hs. pose proof Hl as [Hc Hi Hp].
  assert (forall k p, s_procs s !! k = Some p -> proc_live (s_coord s) (s_files s) p) as Hlook
    by (intros k p Hk; apply Hp; by eapply list_elem_of_lookup_2).
  destruct e as [|k|k now|k dialed|k now|now|k torn|k|]; cbn [sys_step] in Hs;
    try (destruct (s_procs s !! k) as [p|] eqn:Hk; [|by injection Hs as <-]); rewrite ?Hx in Hs.
  - injection Hs as <-. split; cbn; [done..|]. intros p [Hin|Hin]%elem_of_app; [auto|].
    apply list_elem_of_singleton in Hin as ->. split; [done|]. split; [by left|done].
  - destruct (wp_crashed p); [by injection Hs as <-|].
    destruct (local_step mapf reducef p (s_files s)) as [[p' fs']|e|] eqn:E; [| |done]; injection Hs as <-.
    + destruct (local_live _ _ _ _ _ (Hlook _ _ Hk) E). by apply (live_update s k p).
    + apply (live_update s k p); try done. exact (Hlook k p Hk).
  - apply bind_ret_inv in Hs as ([c' p'] & Hsv & [= <-]).
    destruct (serve_live _ _ _ _ _ _ Hc (Hlook _ _ Hk) Hsv). by apply (live_update s k p).
  - by injection Hs as <-.
  - cbn [orb] in Hs. case_bool_decide as E; [by injection Hs as <-|]. apply bind_ret_inv in Hs as (c' & Hhb & [= <-]).
    destruct (Hlook _ _ Hk) as (_ & [Hw|Hreg] & _); [done|]. apply live_coord; [done|]. by eapply heartbeat_live.
  - injection Hs as <-. apply live_coord; [done|]. by apply check_live.
  - destruct (wp_crashed p); [by injection Hs as <-|]. injection Hs as <-.
    destruct (crash_live _ _ _ torn (Hlook k p Hk)). by apply (live_update s k p).
  - destruct (wp_crashed p); [|by injection Hs as <-].
    assert (proc_live (s_coord s) (s_files s) (set_pc p AtLoop)) as Hp' by (destruct (Hlook _ _ Hk) as (? & ? & _); by split; [|split]).
    destruct (wp_pc p); injection Hs as <-; try done; by apply (live_update s k p).
  - by injection Hs as <-.
Qed.

Lemma exited_stays s e s' : sys_step mapf reducef s e = Ret s' -> s_exited s = true -> s_exited s' = true.
Proof.
  intros Hs Hx. destruct e as [|k|k now|k dialed|k now|now|k torn|k|]; cbn [sys_step] in Hs;
    try (destruct (s_procs s !! k) as [p|] eqn:Hk; [|by injection Hs as <-]); rewrite ?Hx in Hs; cbn [andb orb negb] in Hs.
  - by injection Hs as <-.
  - destruct (wp_crashed p); [by injection Hs as <-|]. destruct (local_step _ _ _ _) as [[p' fs']| |]; [| |done]; by injection Hs as <-.
  - by injection Hs as <-.
  - destruct (negb (wp_crashed p)); [|by injection Hs as <-]. destruct (fail_call _ _); [| |done]; by injection Hs as <-.
  - by injection Hs as <-.
  - by injection Hs as <-.
  - destruct (wp_crashed p); by injection Hs as <-.
  - destruct (wp_crashed p); [|by injection Hs as <-]. destruct (wp_pc p); by injection Hs as <-.
  - by injection Hs as <-.
Qed.

Lemma run_live s es s' : live_inv s -> run_system mapf reducef s es = Ret s' -> s_exited s' = false -> live_inv s'.
Proof.
  revert s. induction es as [|e es IH]; intros s Hl; cbn [run_system]; [by intros [= <-]|].
  intros (s1 & Hs & Hr)%bind_ret_inv Hx. destruct (s_exited s) eqn:Ex.
  - exfalso. pose proof (exited_stays _ _ _ Hs Ex) as Hx1. clear -Hr Hx Hx1. revert s1 Hr Hx1.
    induction es as [|e es IH]; intros s1; cbn [run_system]; [intros [= <-]; congruence|].
    intros (s2 & Hs & Hr)%bind_ret_inv Hx1. by apply (IH s2 Hr), (exited_stays _ _ _ Hs).
  - apply (IH s1); [by eapply step_live|done..].
Qed.
End live.
