(* ===== verification/MRSystemSolo.v ===== *)
(** * The run of one worker that finishes a MapReduce job

    When every other machine counts as dead, a worker that has just registered
    completes the map tasks one by one and then the reduce tasks, whatever the
    runs before left in the files. *)

From S2P Require Import Prelude Coordinator CoordinatorProof Worker WorkerProof MRSystem MRSystemProof MRSystemLocal MRSystemServe MRSystemLive.

(** Replacing an element that counts by one that does not. *)
Lemma filter_insert_lt {A} (P : A -> Prop) `{!forall x, Decision (P x)} (l : list A) i x y :
  l !! i = Some x -> P x -> ~ P y -> (length (filter P (<[i := y]> l)) < length (filter P l))%nat.
Proof.
  intros Hi Hx Hy. rewrite <- (take_drop_middle l i x Hi) at 2.
  rewrite insert_take_drop by by eapply lookup_lt_Some.
  rewrite !filter_app, !filter_cons, decide_False, decide_True, !length_app by done. cbn. lia.
Qed.

Section solo.
Context `{!JsonStream, !JsonInts, !GoSort ByKey_Less, !RangeOrder Z}.
Context (mapf : string -> string -> list KeyValue) (reducef : string -> list string -> string).
Context (n : Z) (names : list string) (Hn : 0 < n).

Implicit Types (c : Coordinator) (fs : files) (p : wproc) (s : system) (w : worker).

(** ** Steps of one worker *)

Definition reaches s s' : Prop := exists es, run_system mapf reducef s es = Ret s'.

Lemma run_app s es1 es2 s1 : run_system mapf reducef s es1 = Ret s1 ->
  run_system mapf reducef s (es1 ++ es2) = run_system mapf reducef s1 es2.
Proof.
  revert s. induction es1 as [|e es1 IH]; intros s; cbn [run_system app]; [by intros [= ->]|].
  intros (s2 & -> & Hr)%bind_ret_inv. cbn. auto.
Qed.

#[local] Instance reaches_refl : Reflexive reaches.
Proof. intros s. by exists []. Qed.
#[local] Instance reaches_trans : Transitive reaches.
Proof. intros s1 s2 s3 [es1 H1] [es2 H2]. exists (es1 ++ es2). by rewrite (run_app _ _ _ _ H1). Qed.

Lemma reaches_step s e s' : sys_step mapf reducef s e = Ret s' -> reaches s s'.
Proof. intros Hs. exists [e]. cbn. by rewrite Hs. Qed.

(** What worker [k] and the coordinator see of the system. *)
Definition sees (k : nat) p c fs s : Prop :=
  s_procs s !! k = Some p /\ s_coord s = c /\ s_files s = fs /\ s_exited s = false.

(** Steps of worker [k], its calls included, take it from one view to another. *)
Definition moves (k : nat) (v v' : wproc * Coordinator * files) : Prop :=
  forall s, sees k v.1.1 v.1.2 v.2 s -> exists s', reaches s s' /\ sees k v'.1.1 v'.1.2 v'.2 s'.

#[local] Instance moves_refl k : Reflexive (moves k).
Proof. intros v s Hs. by exists s. Qed.
#[local] Instance moves_trans k : Transitive (moves k).
Proof. intros v1 v2 v3 H1 H2 s (s1 & Hr1 & Hs1)%H1. apply H2 in Hs1 as (s2 & Hr2 & Hs2). exists s2. split; [by etrans|done]. Qed.

Lemma moves_local k w pc c fs p' fs' :
  local_step mapf reducef (mkWproc w pc false) fs = Ret (p', fs') -> moves k (mkWproc w pc false, c, fs) (p', c, fs').
Proof.
  intros Hl s (Hk & Hc & Hf & Hx). cbn [fst snd] in *. subst c fs. eexists. split.
  - apply (reaches_step s (SvLocal k)). cbn. by rewrite Hk, Hl.
  - split; [|done]. cbn. apply list_lookup_insert_eq. by eapply lookup_lt_Some.
Qed.

Lemma moves_serve k now p c fs p' c' :
  serve_call now c p = Ret (c', p') -> moves k (p, c, fs) (p', c', fs).
Proof.
  intros Hl s (Hk & Hc & Hf & Hx). cbn [fst snd] in *. subst c fs. eexists. split.
  - apply (reaches_step s (SvServe k now)). cbn. by rewrite Hk, Hx, Hl.
  - split; [|done]. cbn. apply list_lookup_insert_eq. by eapply lookup_lt_Some.
Qed.

(** The loop of [saveIntermediate]. *)
Lemma moves_writes k w c i ps fs :
  moves k (mkWproc w (MapWrite i ps) false, c, fs) (mkWproc w InComplete false, c, write_loop (info_id w) i ps fs).
Proof.
  revert i fs. induction ps as [|part ps IH]; intros i fs; [by apply moves_local|].
  etrans; [by apply moves_local|]. apply IH.
Qed.

(** The loop that reads the intermediate files. *)
Lemma moves_reads k w c fs fnames acc : (forall f, f ∈ fnames -> is_Some (fs !! f)) ->
  exists acc', moves k (mkWproc w (ReduceRead fnames acc) false, c, fs) (mkWproc w (ReduceWrite acc') false, c, fs).
Proof.
  revert acc. induction fnames as [|f fnames IH]; intros acc Hf; [eexists; by apply moves_local|].
  destruct (Hf f ltac:(left)) as [content Hc]. destruct (IH (acc ++ json_decode_all content)) as [acc' Hm]; [intros; apply Hf; by right|].
  exists acc'. etrans; [|exact Hm]. apply moves_local. cbn. unfold read_file. by rewrite Hc.
Qed.

Lemma moves_writes_out k w c fs acc : exists text,
  moves k (mkWproc w (ReduceWrite acc) false, c, fs) (mkWproc w InComplete false, c, <[out_name (wt_TaskID w) := text]> fs).
Proof.
  destruct (sorted_grouped reducef acc) as (out & Hout & _). exists (out_text out).
  apply moves_local. cbn [local_step wp_pc wp_worker]. by rewrite Hout.
Qed.

(** ** The worker that is alone *)

Record alone (m : Z) w c fs : Prop := {
  al_coord : coord_live n names c fs;
  al_inputs : forall f, f ∈ names -> is_Some (fs !! f);
  al_id : info_id w = m;
  al_status : info_status w = "idle";
  al_n : w_nReduce w = n;
  al_range : 0 <= m;
  al_alive : forall v, alive c v = bool_decide (v = m);
  al_small : (length (machines c) <= 256)%nat;
  al_tasks : forall t, t ∈ tasks c -> t_status t = "processing" -> t_AssignedWorker t <> m;
  al_rtasks : forall t, t ∈ rtasks c -> r_status t = "processing" -> r_AssignedWorker t <> m;
  al_files : Exists (fun t => map_complete c t = true) (tasks c) -> forall r, 0 <= r < n -> is_Some (fs !! mr_name m r);
}.

Definition incomplete c : nat := length (filter (fun t => map_complete c t = false) (tasks c)).
Definition unreduced c : nat := length (filter (fun t => r_status t <> "completed") (rtasks c)).

Definition at_loop w : wproc := mkWproc w AtLoop false.

Lemma alone_held m w c fs t : alone m w c fs -> t ∈ tasks c -> map_held c t = map_complete c t.
Proof.
  intros Ha Ht. unfold map_held, map_complete. destruct (String.eqb_spec (t_status t) "processing") as [E|_]; [|done].
  rewrite (al_alive _ _ _ _ Ha), bool_decide_eq_false_2, !andb_false_r by by apply (al_tasks _ _ _ _ Ha). done.
Qed.

Lemma alone_rheld m w c fs t : alone m w c fs -> t ∈ rtasks c -> reduce_held c t = String.eqb (r_status t) "completed".
Proof.
  intros Ha Ht. unfold reduce_held. destruct (String.eqb_spec (r_status t) "processing") as [E|_]; [|by rewrite orb_false_r].
  rewrite (al_alive _ _ _ _ Ha), bool_decide_eq_false_2, andb_false_r, orb_false_r by by apply (al_rtasks _ _ _ _ Ha). done.
Qed.

Lemma alone_registered m w c fs : alone m w c fs -> registered c m.
Proof. intros Ha. apply alive_registered. rewrite (al_alive _ _ _ _ Ha). by apply bool_decide_eq_true_2. Qed.

(** An element that a test refuses is found. *)
Lemma find_refused {A} (f : A -> bool) (l : list A) :
  forallb f l = false -> exists i x, list_find (fun x => f x = false) l = Some (i, x).
Proof.
  intros Hf. destruct (list_find (fun x => f x = false) l) as [[i x]|] eqn:E; [eauto|].
  apply list_find_None in E. rewrite <- not_true_iff_false in Hf. destruct Hf. apply forallb_forall.
  intros x Hx%list_elem_of_In. rewrite Forall_forall in E. specialize (E x Hx). by destruct (f x).
Qed.

Lemma find_ext {A} (f g : A -> bool) (l : list A) : (forall x, x ∈ l -> f x = g x) ->
  list_find (fun x => f x = false) l = list_find (fun x => g x = false) l.
Proof.
  induction l as [|x l IH]; intros Hfg; [done|]. cbn. rewrite IH by (intros; apply Hfg; by right).
  rewrite <- (Hfg x) by left. done.
Qed.

(** Asking for a task starts with a look at the map tasks. *)
Lemma solo_asks k m w c fs : alone m w c fs ->
  exists ws, (forallb (map_complete c) (tasks c) = true -> map_snapshot c ws) /\
    moves k (at_loop w, c, fs)
      (mkWproc w (InAssign (mkAssign m (if forallb (map_complete c) (tasks c) then AtReduceDone ws else AtMapLoop) no_task)) false, c, fs).
Proof.
  intros Ha. pose proof (al_range _ _ _ _ Ha). destruct (MapDone_ok c) as ([d ws] & Hd & -> & Hsnap); [apply Ha|].
  exists ws. split; [done|]. etrans.
  - apply moves_local. cbn. rewrite (al_id _ _ _ _ Ha), bool_decide_eq_false_2, (al_status _ _ _ _ Ha) by lia. done.
  - apply (moves_serve k 0). cbn. rewrite Hd. cbn. by destruct (forallb _ _).
Qed.

(** The worker of a task. *)
Definition busy_with (m : Z) w (reply : TaskInfo) : worker :=
  mkWorker m "busy" (TaskID reply) (Class_ reply) (Key reply) (json_unmarshal_bytes (Workers reply) (wt_Workers w)) n.

(** A map task is fetched and carried out. *)
Lemma solo_map_work k m w c fs i t :
  alone m w c fs -> forallb (map_complete c) (tasks c) = false ->
  list_find (fun t => map_held c t = false) (tasks c) = Some (i, t) ->
  let w1 := busy_with m w (mkTaskInfo (t_id t) "map" (t_key t) EmptyString) in
  let c1 := set_tasks c (<[i := mkTask (t_id t) (t_key t) "map" "processing" m]> (tasks c)) in
  exists ps, length ps = Z.to_nat n /\ moves k (at_loop w, c, fs) (mkWproc w1 InComplete false, c1, write_loop m 0 ps fs).
Proof.
  intros Ha Hc Hf w1 c1. pose proof (al_coord _ _ _ _ Ha) as [Hwf Hnr Hkeys Hr Ho]. pose proof (al_range _ _ _ _ Ha).
  destruct (solo_asks k m w c fs Ha) as (ws & _ & Hask). rewrite Hc in Hask.
  pose proof Hf as (Hi & _ & _)%list_find_Some. destruct (wf_task _ Hwf i t Hi) as (Hid & Hcl & _).
  destruct (al_inputs _ _ _ _ Ha (t_key t)) as [content Hcont].
  { rewrite <- Hkeys. apply list_elem_of_fmap. exists t. split; [done|]. by eapply list_elem_of_lookup_2. }
  pose proof (partition_loop_spec n (mapf (t_key t) content) (replicate (Z.to_nat n) []) Hn ltac:(apply length_replicate)) as Hps.
  eexists (imap _ _). split; [rewrite length_imap; apply length_replicate|].
  etrans; [exact Hask|etrans; [|etrans; [|etrans; [|apply moves_writes]]]].
  - apply (moves_serve k 0). cbn [serve_call wp_pc assign_step ac_pc ac_worker ac_reply]. rewrite assign_map_ok by done. rewrite Hf.
    cbn [mbind outcome_bind ac_pc ac_reply wp_worker wp_crashed]. unfold CallAssignTask. cbn [Class_ TaskID Key Workers no_task].
    rewrite Hcl, (al_id _ _ _ _ Ha), (al_n _ _ _ _ Ha). reflexivity.
  - apply moves_local. cbn. rewrite bool_decide_eq_false_2 by lia. reflexivity.
  - apply moves_local. cbn [local_step wp_pc wp_worker w_nReduce wt_Key]. unfold read_file. cbn. rewrite Hcont. cbn [mbind outcome_bind].
    rewrite decide_False by lia. rewrite Hps. reflexivity.
Qed.

Lemma keeps_write_loop id i ps fs : keeps fs (write_loop id i ps fs).
Proof.
  revert i fs. induction ps as [|part ps IH]; intros i fs; [by intros f|]. cbn [write_loop].
  intros f Hf. apply IH. by apply keeps_insert.
Qed.

(** Completing it makes one task less incomplete. *)
Lemma solo_map k m w c fs :
  alone m w c fs -> forallb (map_complete c) (tasks c) = false ->
  exists w' c' fs', moves k (at_loop w, c, fs) (at_loop w', c', fs') /\ alone m w' c' fs' /\
    (incomplete c' < incomplete c)%nat.
Proof.
  intros Ha Hc. pose proof (al_coord _ _ _ _ Ha) as Hco. pose proof (lv_wf _ _ _ _ Hco) as Hwf.
  pose proof (al_range _ _ _ _ Ha) as Hm. pose proof (alone_registered _ _ _ _ Ha) as Hreg.
  destruct (find_refused _ _ Hc) as (i & t & Hf). pose proof Hf as (Hi & Hinc & _)%list_find_Some.
  rewrite <- (find_ext (map_held c)) in Hf by (intros; by eapply alone_held).
  destruct (solo_map_work k m w c fs i t Ha Hc Hf) as (ps & Hlen & Hwork).
  destruct (wf_task _ Hwf i t Hi) as (Hid & Hcl & _). pose proof (lookup_lt_Some _ _ _ Hi) as Hlt.
  eexists _, (set_tasks c (<[i := mkTask (t_id t) (t_key t) (t_class t) "completed" m]> (tasks c))), _. split; [|split].
  - etrans; [exact Hwork|]. apply (moves_serve k 0). cbn. rewrite Hid.
    rewrite (idx_lookup _ _ (mkTask (Z.of_nat i) (t_key t) "map" "processing" m)) by by apply list_lookup_insert_eq.
    cbn. rewrite idx_set_ok by (rewrite length_insert; lia). cbn.
    rewrite Nat2Z.id, list_insert_insert_eq, Hcl. reflexivity.
  - split; cbn; try apply Ha; try done.
    + eapply coord_live_keeps; [apply keeps_write_loop|]. apply next_task; [done..|by apply status_ok_new].
    + intros f Hfn. apply keeps_write_loop. by apply (al_inputs _ _ _ _ Ha).
    + intros u [j [[_ ->]|Hj]%lookup_insert_cases]%list_elem_of_lookup; [done|].
      apply (al_tasks _ _ _ _ Ha). by eapply list_elem_of_lookup_2.
    + intros _ r Hr. destruct (lookup_lt_is_Some_2 ps (Z.to_nat r)) as [part Hp]; [lia|].
      pose proof (write_loop_at m 0 ps fs (Z.to_nat r) part Hm Hp) as Hw. rewrite Z.add_0_l, Z2Nat.id in Hw by lia. by rewrite Hw.
  - apply filter_insert_lt with t; [done..|]. unfold map_complete. cbn.
    change (alive _ m) with (alive c m). by rewrite (al_alive _ _ _ _ Ha), bool_decide_eq_true_2.
Qed.

(** A reduce task is fetched and carried out: the machines of the snapshot are
    the worker itself, and its files exist. *)
Lemma solo_reduce_work k m w c fs i t :
  alone m w c fs -> forallb (map_complete c) (tasks c) = true -> ReduceDone c = false ->
  list_find (fun t => reduce_held c t = false) (rtasks c) = Some (i, t) ->
  let c1 := set_rtasks c (<[i := mkReduceTask (r_id t) (r_key t) (r_class t) "processing" m]> (rtasks c)) in
  exists ws text, moves k (at_loop w, c, fs)
    (mkWproc (busy_with m w (mkTaskInfo (r_id t) "reduce" EmptyString (json_marshal ws))) InComplete false, c1,
     <[out_name (r_id t) := text]> fs).
Proof.
  intros Ha Hc Hd Hf c1. pose proof (al_coord _ _ _ _ Ha) as [Hwf Hnr Hkeys Hr Ho]. pose proof (al_range _ _ _ _ Ha).
  destruct (solo_asks k m w c fs Ha) as (ws & Hsnap & Hask). rewrite Hc in Hask. specialize (Hsnap Hc).
  pose proof Hf as (Hi & _ & _)%list_find_Some. destruct (wf_rtask _ Hwf i t Hi) as (Hid & _ & _).
  pose proof (lookup_lt_Some _ _ _ Hi) as Hlt. exists ws.
  set (w1 := busy_with m w (mkTaskInfo (r_id t) "reduce" EmptyString (json_marshal ws))).
  destruct (moves_reads k w1 c1 fs ((fun v => mr_name v (wt_TaskID w1)) <$> wt_Workers w1) []) as [acc Hreads].
  { intros f (v & -> & Hv)%list_elem_of_fmap. cbn in Hv. rewrite json_ints_law in Hv by (eapply snapshot_range; [done|apply Ha]).
    destruct Hsnap as (Hall & _ & Hws). apply Hws in Hv as (u & -> & Hu)%list_elem_of_fmap.
    rewrite Forall_forall in Hall. destruct (Hall u Hu) as [Hst Hal].
    assert (t_AssignedWorker u = m) as -> by (rewrite (al_alive _ _ _ _ Ha) in Hal; by apply bool_decide_eq_true_1 in Hal).
    cbn. rewrite Hid. apply (al_files _ _ _ _ Ha); [|lia]. apply Exists_exists. exists u. split; [done|].
    rewrite forallb_forall in Hc. by apply Hc, list_elem_of_In. }
  destruct (moves_writes_out k w1 c1 fs acc) as [text Hout]. exists text.
  etrans; [exact Hask|etrans; [|etrans; [|etrans; [|etrans; [exact Hreads|exact Hout]]]]].
  - apply (moves_serve k 0). cbn. rewrite Hd. reflexivity.
  - apply (moves_serve k 0). cbn [serve_call set_pc wp_pc assign_step ac_pc ac_worker ac_reply]. rewrite assign_reduce_ok by done. rewrite Hf.
    cbn. unfold CallAssignTask. cbn. rewrite (al_id _ _ _ _ Ha), (al_n _ _ _ _ Ha). reflexivity.
  - apply moves_local. cbn. rewrite bool_decide_eq_false_2 by lia. reflexivity.
Qed.

Lemma solo_reduce k m w c fs :
  alone m w c fs -> forallb (map_complete c) (tasks c) = true -> ReduceDone c = false ->
  exists w' c' fs', moves k (at_loop w, c, fs) (at_loop w', c', fs') /\ alone m w' c' fs' /\
    forallb (map_complete c') (tasks c') = true /\ (unreduced c' < unreduced c)%nat.
Proof.
  intros Ha Hc Hd. pose proof (al_coord _ _ _ _ Ha) as Hco. pose proof (lv_wf _ _ _ _ Hco) as Hwf.
  pose proof (al_range _ _ _ _ Ha) as Hm. pose proof (alone_registered _ _ _ _ Ha) as Hreg.
  destruct (find_refused _ _ Hd) as (i & t & Hf). pose proof Hf as (Hi & Hinc & _)%list_find_Some.
  rewrite <- (find_ext (reduce_held c)) in Hf by (intros; by eapply alone_rheld).
  destruct (solo_reduce_work k m w c fs i t Ha Hc Hd Hf) as (ws & text & Hwork).
  destruct (wf_rtask _ Hwf i t Hi) as (Hid & _ & _). pose proof (lookup_lt_Some _ _ _ Hi) as Hlt.
  eexists _, (set_rtasks c (<[i := mkReduceTask (r_id t) (r_key t) (r_class t) "completed" m]> (rtasks c))), _. split; [|split; [|split]].
  - etrans; [exact Hwork|]. apply (moves_serve k 0). cbn. rewrite Hid.
    rewrite (idx_lookup _ _ (mkReduceTask (Z.of_nat i) (r_key t) (r_class t) "processing" m)) by by apply list_lookup_insert_eq.
    cbn. rewrite idx_set_ok by (rewrite length_insert; lia). cbn.
    rewrite Nat2Z.id, list_insert_insert_eq. reflexivity.
  - split; cbn; try apply Ha; try done.
    + apply next_rtask; [|done|by apply status_ok_new|done|].
      * eapply coord_live_keeps; [apply keeps_insert|done].
      * intros _. rewrite Hid. by rewrite lookup_insert_eq.
    + intros f Hfn. apply keeps_insert. by apply (al_inputs _ _ _ _ Ha).
    + intros u [j [[_ ->]|Hj]%lookup_insert_cases]%list_elem_of_lookup; [done|].
      apply (al_rtasks _ _ _ _ Ha). by eapply list_elem_of_lookup_2.
    + intros He r Hr. apply keeps_insert. by apply (al_files _ _ _ _ Ha).
  - done.
  - apply filter_insert_lt with t; [done| |by intros []]. by apply String.eqb_neq in Hinc.
Qed.

(** ** The whole job *)

Lemma solo_maps k m w c fs : alone m w c fs ->
  exists w' c' fs', moves k (at_loop w, c, fs) (at_loop w', c', fs') /\ alone m w' c' fs' /\
    forallb (map_complete c') (tasks c') = true.
Proof.
  remember (incomplete c) as j eqn:Ej. revert w c fs Ej. induction (lt_wf j) as [j _ IH]; intros w c fs -> Ha.
  destruct (forallb (map_complete c) (tasks c)) eqn:E; [by exists w, c, fs|].
  destruct (solo_map k m w c fs Ha E) as (w1 & c1 & fs1 & Hm1 & Ha1 & Hlt).
  destruct (IH _ Hlt w1 c1 fs1 eq_refl Ha1) as (w2 & c2 & fs2 & Hm2 & Hrest). exists w2, c2, fs2. split; [by etrans|done].
Qed.

Lemma solo_reduces k m w c fs : alone m w c fs -> forallb (map_complete c) (tasks c) = true ->
  exists w' c' fs', moves k (at_loop w, c, fs) (at_loop w', c', fs') /\ alone m w' c' fs' /\ ReduceDone c' = true.
Proof.
  remember (unreduced c) as j eqn:Ej. revert w c fs Ej. induction (lt_wf j) as [j _ IH]; intros w c fs -> Ha Hc.
  destruct (ReduceDone c) eqn:E; [by exists w, c, fs|].
  destruct (solo_reduce k m w c fs Ha Hc E) as (w1 & c1 & fs1 & Hm1 & Ha1 & Hc1 & Hlt).
  destruct (IH _ Hlt w1 c1 fs1 eq_refl Ha1 Hc1) as (w2 & c2 & fs2 & Hm2 & Hrest). exists w2, c2, fs2. split; [by etrans|done].
Qed.

(** A pass of [CheckAliveMachine] that is late enough strikes every machine. *)
Lemma all_struck c : exists now, forall v, alive (CheckAliveMachine now c) v = false.
Proof.
  assert (exists now, Forall (fun m => timeoutDuration < now - m_Lastime m) (machines c)) as [now Hnow].
  { induction (machines c) as [|m ms [now IH]]; [exists 0; constructor|]. exists (Z.max now (m_Lastime m + timeoutDuration + 1)).
    constructor; [lia|]. eapply Forall_impl; [exact IH|]. cbn. intros. lia. }
  exists now. intros v. unfold alive, CheckAliveMachine. cbn. rewrite list_lookup_fmap.
  destruct (machines c !! Z.to_nat v) as [m|] eqn:E; [|by rewrite andb_false_r]. cbn.
  eapply (Forall_lookup_1 _ _ _ _ Hnow) in E. rewrite (bool_decide_eq_true_2 (timeoutDuration < _)) by done.
  destruct (m_IsAlive m) eqn:El; cbn; by rewrite ?El, andb_false_r.
Qed.

(** A worker that registers when all others are dead. *)
Lemma registers_alone k c fs :
  coord_live n names c fs -> (forall f, f ∈ names -> is_Some (fs !! f)) ->
  (forall v, alive c v = false) -> (length (machines c) < 256)%nat ->
  exists m w c', moves k (at_loop worker_start, c, fs) (at_loop w, c', fs) /\ alone m w c' fs.
Proof.
  intros Hco Hin Hdead Hsm. pose proof Hco as [Hwf Hnr Hkeys Hr Ho]. pose proof (wf_number _ Hwf) as Hnum.
  destruct (Register_ok 0 c Hwf) as [Hwf' _].
  assert (forall v, registered c v -> v <> MachinesNumber c) as Hne by (unfold registered; lia).
  assert (forall v, alive (Register 0 c).1 v = bool_decide (v = MachinesNumber c)) as Halive.
  { intros v. specialize (Hdead v). unfold alive in *. cbn. destruct (decide (v = MachinesNumber c)) as [->|Hv].
    - rewrite Hnum, Nat2Z.id, lookup_app_r, Nat.sub_diag by lia. cbn. rewrite !bool_decide_eq_true_2 by lia. done.
    - rewrite (bool_decide_eq_false_2 (v = _)) by done. case_bool_decide as Hv0; [|done]. cbn in *.
      destruct (decide (v < MachinesNumber c)); [by rewrite lookup_app_l by lia|].
      rewrite lookup_ge_None_2; [done|]. rewrite length_app. cbn. lia. }
  exists (MachinesNumber c), (CallRegister (Register 0 c).2 worker_start), (Register 0 c).1. split.
  - etrans; [by apply moves_local|]. by apply (moves_serve k 0).
  - split; cbn; try done; try lia.
    + rewrite length_app. cbn. lia.
    + intros t Ht Hst. apply Hne. eapply status_registered; [by apply wf_statuses|by left].
    + intros t Ht Hst. apply Hne. eapply status_registered; [by apply wf_rstatuses|by left].
    + intros (t & Ht & [Hst Hal]%andb_true_iff)%Exists_exists. exfalso. rewrite Halive in Hal.
      apply bool_decide_eq_true_1 in Hal. apply (Hne (t_AssignedWorker t)); [|done].
      eapply status_registered; [by apply wf_statuses|right; by apply String.eqb_eq].
Qed.

(** From every state of a job that is not over, a run of one more worker ends it. *)
Lemma finishes s :
  live_inv n names s -> s_exited s = false -> (length (machines (s_coord s)) < 256)%nat ->
  exists s', reaches s s' /\ s_exited s' = true /\ forall r, 0 <= r < n -> is_Some (s_files s' !! out_name r).
Proof.
  intros [Hco Hin _] Hx Hsm. destruct (all_struck (s_coord s)) as [now Hdead].
  set (k := length (s_procs s)). set (c := CheckAliveMachine now (s_coord s)).
  destruct (registers_alone k c (s_files s)) as (m & w & c1 & Hm1 & Ha1);
    [by apply check_live|done|done|by cbn; rewrite length_fmap|].
  destruct (solo_maps k _ _ _ _ Ha1) as (w2 & c2 & fs2 & Hm2 & Ha2 & Hc2).
  destruct (solo_reduces k _ _ _ _ Ha2 Hc2) as (w3 & c3 & fs3 & Hm3 & Ha3 & Hd).
  destruct (moves_trans k _ _ _ Hm1 (moves_trans k _ _ _ Hm2 Hm3)
    (mkSystem c (s_procs s ++ [at_loop worker_start]) (s_files s) false)) as (s3 & Hr3 & _ & Hs3 & Hf3 & Hx3).
  { split; [|done]. cbn. by rewrite lookup_app_r, Nat.sub_diag by lia. }
  cbn [fst snd] in *. exists (mkSystem (s_coord s3) (s_procs s3) (s_files s3) true). split; [|split; [done|]].
  - etrans; [apply (reaches_step s (SvCheckAlive now)); cbn; by rewrite Hx|].
    etrans; [apply (reaches_step _ SvStart); cbn; by rewrite Hx|].
    etrans; [exact Hr3|]. apply (reaches_step _ SvExit). cbn. unfold Done. by rewrite Hs3, Hd, orb_true_r.
  - cbn. rewrite Hf3. intros r Hr. pose proof (al_coord _ _ _ _ Ha3) as [_ _ _ Hlen Hout].
    destruct (lookup_lt_is_Some_2 (rtasks c3) (Z.to_nat r)) as [t Ht]; [lia|].
    rewrite <- (Z2Nat.id r) by lia. apply (Hout _ t Ht). unfold ReduceDone in Hd. rewrite forallb_forall in Hd.
    apply String.eqb_eq, Hd, list_elem_of_In. by eapply list_elem_of_lookup_2.
Qed.
End solo.
