(* ===== verification/MRSystemInv.v ===== *)
(** * Every step of the MapReduce system keeps its invariant *)

From S2P Require Import Prelude Coordinator CoordinatorProof Worker WorkerProof.
From S2P Require Import MRSystem MRSystemProof MRSystemLocal MRSystemServe.

Section steps.
Context `{!JsonStream, !JsonInts, !GoSort ByKey_Less, !RangeOrder Z}.
Context (mapf : string -> string -> list KeyValue) (reducef : string -> list string -> string).
Context (n : Z) (input : string -> string) (names : list string) (outputs : Z -> string).
Context (Hjob : job_spec mapf reducef n input names outputs).

Implicit Types (jobs : list (Z * nat)) (c : Coordinator) (fs : files) (p q : wproc) (s : system).

Abbreviation contrib := (contrib mapf n input names).
Abbreviation proc_ok := (proc_ok mapf n input names outputs).
Abbreviation pc_ok := (pc_ok mapf n input names outputs).
Abbreviation files_ok := (files_ok mapf n input names).
Abbreviation frame := (frame mapf n input names).
Abbreviation inv_with := (inv_with mapf n input names outputs).
Abbreviation coord_ok := (coord_ok n names outputs).
Abbreviation inv := (inv mapf n input names outputs).
Abbreviation after_exit := (after_exit n outputs).

(** ** Registration *)

Lemma Register_alive now c w : registered c w -> alive (Register now c).1 w = alive c w.
Proof.
  intros Hw. unfold alive, Register. cbn. rewrite lookup_app_l; [done|]. unfold registered in Hw. lia.
Qed.

Lemma Register_dead now c w : wf c -> alive c w = true -> alive (Register now c).1 w = true.
Proof. intros Hwf Ha. by rewrite Register_alive by by apply alive_registered. Qed.

Lemma Register_snapshot now c ws : wf c -> map_snapshot c ws -> map_snapshot (Register now c).1 ws.
Proof.
  intros Hwf (Hall & ? & ?). split; [|done]. eapply Forall_impl; [exact Hall|]. cbn. intros t [? ?].
  split; [done|]. by apply Register_dead.
Qed.

Lemma Register_complete now c t : wf c -> t ∈ tasks c -> map_complete (Register now c).1 t = map_complete c t.
Proof.
  intros Hwf Ht. unfold map_complete. destruct (String.eqb_spec (t_status t) "completed") as [Hs|]; [|done]. cbn.
  apply Register_alive. eapply status_registered; [by apply wf_statuses|by right].
Qed.

Lemma Register_jobs now c jobs : wf c -> jobs_ok c jobs -> jobs_ok (Register now c).1 jobs.
Proof.
  intros Hwf [Hnd Hown Hdone]. split; [done|..].
  - intros w i Hin. destruct (Hown w i Hin) as (Ha & t & ?). split; [by apply Register_dead|by exists t].
  - intros i t Ht Hm. apply Hdone; [done|]. rewrite Register_complete in Hm; [done..|].
    by eapply list_elem_of_lookup_2.
Qed.

Lemma Register_coord now c fs : coord_ok c fs -> coord_ok (Register now c).1 fs.
Proof.
  intros [Hwf Hn Hnm Hr Hred Ho]. split; try done; [by apply Register_ok|].
  intros Hx. specialize (Hred Hx). unfold maps_complete in *. eapply Forall_impl; [exact Hred|]. cbn.
  intros t Hm. unfold map_complete in *. apply andb_true_iff in Hm as [-> Ha]. by apply Register_dead.
Qed.

Lemma Register_frame now c jobs fs q :
  wf c -> registered c (wid q) -> frame c jobs fs (Register now c).1 jobs fs q.
Proof.
  intros Hwf Hq. split; try done.
  - by apply Register_alive.
  - intros _. eapply registered_mono; [|exact Hq]. by apply Register_ok.
  - intros _ _ ws. by apply Register_snapshot.
Qed.

Lemma contrib_none jobs w r : w ∉ jobs.*1 -> contrib jobs w r = [].
Proof.
  intros Hw. unfold MRSystemProof.contrib, contribution, named. rewrite list_filter_none; [done|].
  apply Forall_forall. intros x (j & -> & Hj)%list_elem_of_fmap Hx. apply Hw. apply list_elem_of_fmap.
  exists j. split; [|done]. by destruct j.
Qed.

Lemma serve_register jobs s k p now :
  inv_with jobs s -> s_procs s !! k = Some p -> wp_pc p = InRegister ->
  ensures (serve_call now (s_coord s) p) (fun '(c', p') => inv_with jobs (set_coord (set_proc s k p') c')).
Proof.
  intros Hinv Hk Hpc. pose proof (list_elem_of_lookup_2 _ _ _ Hk) as Hin.
  pose proof (in_coord _ _ _ _ _ _ _ Hinv) as Hco. pose proof (co_wf _ _ _ _ _ Hco) as Hwf.
  pose proof (in_jobs _ _ _ _ _ _ _ Hinv) as Hj.
  destruct (in_each _ _ _ _ _ _ _ Hinv p Hin) as [(Hid & _)|(_ & _ & Hd & Hl)].
  2:{ destruct (alive _ _).
      - destruct (Hl eq_refl) as [Hok _]. unfold MRSystemProof.pc_ok in Hok. by rewrite Hpc in Hok.
      - destruct (Hd eq_refl) as [_ Hcall]. unfold calling in Hcall. by rewrite Hpc in Hcall. }
  set (c := s_coord s) in *. set (w := Z.of_nat (length (machines c))).
  unfold serve_call. rewrite Hpc. apply ensures_ret. set (c' := mkCoordinator _ _ _ _ _).
  assert (c' = (Register now c).1) as Hc' by done. set (p' := mkWproc _ _ _).
  assert (wid p' = w) as Hw' by (cbn; apply (wf_number _ Hwf)).
  assert (registered c' w) as Hreg' by (unfold registered, w; cbn; rewrite length_app; cbn; lia).
  assert (forall q, q ∈ s_procs s -> wid q <> -1 -> registered c (wid q)) as Hregs.
  { intros q Hq Hne. destruct (in_each _ _ _ _ _ _ _ Hinv q Hq) as [(? & _)|(? & _)]; done. }
  assert (forall a q, <[k := p']> (s_procs s) !! a = Some q -> (a = k /\ q = p') \/ a <> k /\ s_procs s !! a = Some q) as Hold.
  { intros a q Ha. destruct (decide (a = k)) as [->|Hne].
    - rewrite list_lookup_insert_eq in Ha by by eapply lookup_lt_Some. injection Ha as <-. by left.
    - rewrite list_lookup_insert_ne in Ha by done. by right. }
  split; cbn [s_coord s_procs s_files set_coord set_proc].
  - rewrite Hc'. by apply Register_coord.
  - rewrite Hc'. by apply Register_jobs.
  - destruct (in_files _ _ _ _ _ _ _ Hinv) as [Hi Hu]. split; [done|]. intros v r Hv. apply Hu.
    unfold c' in Hv. cbn in Hv. rewrite length_app in Hv. cbn in Hv. unfold c in Hv. lia.
  - destruct (in_procs _ _ _ _ _ _ _ Hinv) as [Hdist Hall]. split.
    + intros a b q q' Ha Hb Heq Hne. apply Hold in Ha as [[-> ->]|[Hak Ha]], Hb as [[-> ->]|[Hbk Hb]]; [done|..].
      * pose proof (Hregs q' (list_elem_of_lookup_2 _ _ _ Hb) ltac:(congruence)) as Hr.
        unfold registered in Hr. lia.
      * pose proof (Hregs q (list_elem_of_lookup_2 _ _ _ Ha) ltac:(congruence)) as Hr.
        unfold registered in Hr. lia.
      * by eapply Hdist.
    + intros v Hv. destruct (decide (v = w)) as [->|Hne].
      * exists p'. split; [|done]. apply list_elem_of_lookup. exists k.
        by rewrite list_lookup_insert_eq by by eapply lookup_lt_Some.
      * destruct (Hall v) as (q & Hq & Hqv).
        { unfold registered in *. cbn in Hv. rewrite length_app in Hv. cbn in Hv. unfold w in Hne. fold c. lia. }
        exists q. split; [|done]. apply list_elem_of_lookup in Hq as [a Ha]. apply list_elem_of_lookup. exists a.
        rewrite list_lookup_insert_ne; [done|]. intros <-. rewrite Hk in Ha. injection Ha as <-.
        unfold registered in Hv. lia.
  - intros q Hq. apply list_elem_of_lookup in Hq as [a Ha]. apply Hold in Ha as [[-> ->]|[_ Ha]].
    + apply member_intro; [by rewrite Hw'|apply Hco| | |].
      * rewrite Hw'. unfold alive. rewrite bool_decide_eq_true_2 by lia. cbn. unfold w.
        rewrite Nat2Z.id, lookup_app_r, Nat.sub_diag by done. done.
      * cbn. by left.
      * intros _ r Hr. rewrite Hw'. rewrite (fi_unused _ _ _ _ (in_files _ _ _ _ _ _ _ Hinv)) by (fold c; lia).
        assert (w ∉ jobs.*1) as Hnew.
        { intros [i Hi]%jobs_fst. destruct (jb_owner _ _ Hj w i Hi) as [Ha' _]. apply alive_registered in Ha'.
          unfold registered in Ha'. lia. }
        rewrite contrib_none by done. split; [done|]. intros [?|[]]; done.
    + pose proof (list_elem_of_lookup_2 _ _ _ Ha) as Hq. rewrite Hc'.
      eapply proc_ok_frame; [|apply Hinv; done]. intros Hne. apply Register_frame; [done|]. by apply Hregs.
Qed.

(** ** Heartbeats and the detection of failures *)

Lemma inv_coord jobs s c' jobs' :
  inv_with jobs s -> length (machines c') = length (machines (s_coord s)) ->
  coord_ok c' (s_files s) -> jobs_ok c' jobs' ->
  (forall q, q ∈ s_procs s -> proc_ok (s_coord s) jobs (s_files s) q -> proc_ok c' jobs' (s_files s) q) ->
  inv_with jobs' (set_coord s c').
Proof.
  intros Hinv Hm Hc Hj Hp. destruct (in_files _ _ _ _ _ _ _ Hinv) as [Hi Hu], (in_procs _ _ _ _ _ _ _ Hinv) as [Hd Ha].
  split; cbn [s_coord s_procs s_files set_coord]; [done..| | |].
  - split; [done|]. by rewrite Hm.
  - split; [done|]. unfold registered in *. by rewrite Hm.
  - intros q Hq. apply Hp; [done|]. by apply Hinv.
Qed.

(** A change of the machines that keeps who is alive. *)
Lemma inv_machines jobs s ms :
  inv_with jobs s -> wf (set_machines (s_coord s) ms) -> length ms = length (machines (s_coord s)) ->
  (forall w, alive (set_machines (s_coord s) ms) w = alive (s_coord s) w) ->
  inv_with jobs (set_coord s (set_machines (s_coord s) ms)).
Proof.
  intros Hinv Hwf Hlen Ha. set (c := s_coord s) in *. set (c' := set_machines c ms) in *.
  assert (forall t, map_complete c' t = map_complete c t) as Hmc.
  { intros t. unfold map_complete. by rewrite Ha. }
  assert (maps_complete c -> maps_complete c') as Hcomp.
  { intros Hall. eapply Forall_impl; [exact Hall|]. cbn. intros t. by rewrite Hmc. }
  apply inv_coord with jobs; [done..| | |].
  - destruct (in_coord _ _ _ _ _ _ _ Hinv) as [_ ? ? ? Hred ?]. split; try done.
    intros Hx. by apply Hcomp, Hred.
  - destruct (in_jobs _ _ _ _ _ _ _ Hinv) as [? Hown Hdone]. split; [done|..].
    + intros w i Hin. rewrite Ha. by apply Hown.
    + intros i t Ht. rewrite Hmc. by apply Hdone.
  - intros q _. apply proc_ok_frame. intros _. split; try done.
    + unfold registered. cbn. by rewrite Hlen.
    + intros _ _ ws (Hall & ? & ?). split; [|done]. eapply Forall_impl; [exact Hall|]. cbn.
      intros t [? ?]. by rewrite Ha.
Qed.

Lemma heartbeat_ok jobs s p now :
  inv_with jobs s -> p ∈ s_procs s -> wid p <> -1 ->
  ensures (ReceiveHeartbeat (sendHeartbeat (wp_worker p) now) (s_coord s)) (fun c' =>
    inv_with jobs (set_coord s c')).
Proof.
  intros Hinv Hp Hid.
  destruct (in_each _ _ _ _ _ _ _ Hinv p Hp) as [(? & _)|(Hreg & _)]; [done|].
  pose proof (co_wf _ _ _ _ _ (in_coord _ _ _ _ _ _ _ Hinv)) as Hwf.
  destruct (ReceiveHeartbeat_ok (sendHeartbeat (wp_worker p) now) (s_coord s) Hwf Hreg) as (c1 & Hc1 & Hwf1 & _).
  exists c1. split; [done|]. revert Hc1. unfold ReceiveHeartbeat. cbn [sendHeartbeat hb_WorkerID Timestamp]. fold (wid p).
  destruct (idx_lookup_Z _ _ Hreg) as (m & Hm & ->). cbn [mbind outcome_bind]. rewrite idx_set_ok by done.
  intros [= <-]. apply inv_machines; [done..|by rewrite length_insert|].
  intros w. unfold alive. cbn. destruct (decide (Z.to_nat w = Z.to_nat (wid p))) as [->|Hne].
  - rewrite list_lookup_insert_eq by by eapply lookup_lt_Some. by rewrite Hm.
  - by rewrite list_lookup_insert_ne.
Qed.

Section check.
Context (jobs : list (Z * nat)) (s : system) (now : Z).
Context (Hinv : inv_with jobs s) (Hexit : s_exited s = false) (Hacc : accurate s (SvCheckAlive now)).

Let c := s_coord s.
Let c' := CheckAliveMachine now c.
Let jobs' := filter (fun x : Z * nat => alive c' x.1 = true) jobs.

Lemma check_was_alive w : alive c' w = true -> alive c w = true.
Proof.
  intros Ha. destruct (alive c w) eqn:E; [done|]. pose proof (alive_registered _ _ Ha) as Hr.
  destruct (CheckAliveMachine_ok now c (co_wf _ _ _ _ _ (in_coord _ _ _ _ _ _ _ Hinv))) as [_ He].
  fold c' in He. rewrite (ev_dead _ _ He w) in Ha; [done| |done].
  unfold registered in *. unfold c', CheckAliveMachine in Hr. cbn in Hr. by rewrite length_fmap in Hr.
Qed.

(** In the reduce phase no owner of a map task is struck. *)
Lemma check_keeps_owner t :
  reducing s = true -> t ∈ tasks c -> alive c (t_AssignedWorker t) = true -> alive c' (t_AssignedWorker t) = true.
Proof.
  intros Hr Ht Ha. destruct (alive c' _) eqn:E; [done|]. exfalso.
  destruct (Hacc Hexit (t_AssignedWorker t) Ha E) as [_ Hno]. apply Hno; [done|].
  apply list_elem_of_fmap. by exists t.
Qed.

Lemma check_keeps_snapshot ws : reducing s = true -> map_snapshot c ws -> map_snapshot c' ws.
Proof.
  intros Hr (Hall & ? & ?). split; [|done]. apply Forall_forall. intros t Ht. rewrite Forall_forall in Hall.
  destruct (Hall t Ht). split; [done|]. by apply check_keeps_owner.
Qed.

Lemma check_keeps_jobs : reducing s = true -> jobs' = jobs.
Proof.
  intros Hr. apply list_filter_all, Forall_forall. intros [w i] Hin. cbn.
  destruct (jb_owner _ _ (in_jobs _ _ _ _ _ _ _ Hinv) w i Hin) as (Ha & t & Ht & <- & _).
  apply check_keeps_owner; [done|by eapply list_elem_of_lookup_2|done].
Qed.

Lemma reduce_mode_reducing q : q ∈ s_procs s -> reduce_mode c q -> reducing s = true.
Proof.
  intros Hq [Hp|(r & _ & _ & _ & _ & t & Ht & Hst & _)]; unfold reducing; apply orb_true_iff; [right|left];
    apply existsb_exists.
  - exists q. split; [by apply list_elem_of_In|done].
  - exists t. split; [by eapply list_elem_of_In, list_elem_of_lookup_2|by rewrite Hst].
Qed.

Lemma check_frame q :
  q ∈ s_procs s -> alive c' (wid q) = true -> frame c jobs (s_files s) c' jobs' (s_files s) q.
Proof.
  intros Hq Ha'. pose proof (check_was_alive _ Ha') as Ha. split; try done.
  - by rewrite Ha, Ha'.
  - unfold registered, c', CheckAliveMachine. cbn. by rewrite length_fmap.
  - intros _ Hr ws. apply check_keeps_snapshot. by eapply reduce_mode_reducing.
  - intros _ i. unfold jobs'. rewrite list_elem_of_filter. cbn. tauto.
  - intros _ r. unfold MRSystemProof.contrib, contribution, named, jobs'. f_equal.
    rewrite !list_filter_fmap. f_equal. rewrite list_filter_filter. apply list_filter_ext.
    intros [w i] _. cbn. split; [tauto|]. by intros ->.
  - intros _ Hr v r. by rewrite check_keeps_jobs by by eapply reduce_mode_reducing.
Qed.

Lemma check_alive_ok : inv_with jobs' (set_coord s c').
Proof.
  pose proof (in_coord _ _ _ _ _ _ _ Hinv) as [Hwf Hn Hnm Hrt Hred Hout].
  apply inv_coord with jobs; [done|unfold c', CheckAliveMachine; cbn; by rewrite length_fmap|..].
  - split; try done; [by apply CheckAliveMachine_ok|].
    intros (r & t & Ht & Hst). assert (reducing s = true) as Hr.
    { unfold reducing. apply orb_true_iff. left. apply existsb_exists. exists t.
      split; [by eapply list_elem_of_In, list_elem_of_lookup_2|]. apply negb_true_iff. by apply String.eqb_neq. }
    apply Forall_forall. intros u Hu. pose proof (Hred ltac:(eauto)) as Hall. unfold maps_complete in Hall.
    rewrite Forall_forall in Hall. specialize (Hall u Hu). cbn in Hall. unfold map_complete in *.
    apply andb_true_iff in Hall as [-> Ha]. by apply check_keeps_owner.
  - destruct (in_jobs _ _ _ _ _ _ _ Hinv) as [Hnd Hown Hdone]. split.
    + by apply NoDup_filter.
    + intros w i [Ha Hin]%list_elem_of_filter. split; [done|]. by apply (Hown w i).
    + intros i t Ht Hm. unfold map_complete in Hm. apply andb_true_iff in Hm as [Hs Ha].
      apply list_elem_of_filter. split; [done|]. apply Hdone; [done|].
      unfold map_complete. rewrite Hs. by apply check_was_alive.
  - intros q Hq Hok. destruct (alive c' (wid q)) eqn:Ha'.
    + eapply proc_ok_frame; [|exact Hok]. intros _. by apply check_frame.
    + destruct Hok as [?|(Hreg & Hwn & Hd & Hl)]; [by left|right]. split_and!; [|done|intros _|by rewrite Ha'].
      * unfold registered, c', CheckAliveMachine in *. cbn. by rewrite length_fmap.
      * destruct (alive c (wid q)) eqn:Ha; [|by apply Hd].
        destruct (Hacc Hexit (wid q) Ha Ha') as [Hstop _]. by apply Hstop.
Qed.
End check.

(** ** Crashes and lost calls *)

Lemma torn_mr p torn fs w r :
  (forall i ps, wp_pc p = MapWrite i ps -> mr_name w r <> mr_name (wid p) i) -> 0 <= w ->
  torn_write p torn fs !! mr_name w r = fs !! mr_name w r.
Proof.
  intros Hne Hw. unfold torn_write. destruct torn as [t|]; [|done]. destruct (wp_pc p) eqn:Hpc; try done.
  - rewrite append_other; [done|]. by eapply Hne.
  - rewrite lookup_insert_ne; [done|]. intros Hx. symmetry in Hx. by apply mr_name_out in Hx.
Qed.

Lemma torn_other p torn fs f :
  (forall i, f <> mr_name (wid p) i) -> (forall r, f <> out_name r) -> torn_write p torn fs !! f = fs !! f.
Proof.
  intros H1 H2. unfold torn_write. destruct torn as [t|]; [|done]. destruct (wp_pc p) eqn:Hpc; try done.
  - rewrite append_other; [done|]. apply H1.
  - rewrite lookup_insert_ne; [done|]. intros Hx. symmetry in Hx. by apply H2 in Hx.
Qed.

(** The outputs are only torn by the worker of the reduce task. *)
Lemma torn_out c jobs fs p torn r t :
  pc_ok c jobs fs p -> 0 <= wid p -> rtasks c !! r = Some t ->
  (r_status t = "processing" -> r_AssignedWorker t <> wid p) ->
  torn_write p torn fs !! out_name (Z.of_nat r) = fs !! out_name (Z.of_nat r).
Proof.
  intros Hok Hw Ht Hne. unfold torn_write. destruct torn as [x|]; [|done].
  unfold MRSystemProof.pc_ok in Hok. destruct (wp_pc p) eqn:Hpc; try done.
  - rewrite append_other; [done|]. intros Hx. symmetry in Hx. by apply mr_name_out in Hx.
  - destruct Hok as ([r' (_ & _ & Hid & _ & t' & Ht' & Hst & Hown)] & _).
    rewrite lookup_insert_ne; [done|]. rewrite Hid. intros Hx%out_name_eq. assert (r' = r) as -> by lia.
    rewrite Ht in Ht'. injection Ht' as <-. by apply (Hne Hst).
Qed.

Lemma pc_ok_crashed c jobs fs fs' p : pc_ok c jobs fs p ->
  (wp_pc p = InComplete -> fs' = fs) -> pc_ok c jobs fs' (set_crashed p).
Proof.
  intros Hok Hfs. unfold MRSystemProof.pc_ok in *. cbn [set_crashed wp_pc wp_worker wp_crashed].
  destruct (wp_pc p) eqn:Hpc; try done.
  - destruct Hok as [?|[(i & ? & _)|?]]; [by left|right; left; by exists i|by right; right].
  - destruct Hok as (i & ? & _). by exists i.
  - destruct Hok as (i0 & ? & _ & ?). by exists i0.
  - by rewrite Hfs.
Qed.

Lemma crash_ok jobs s k p torn :
  inv_with jobs s -> s_procs s !! k = Some p -> wp_crashed p = false ->
  inv_with jobs (set_files (set_proc s k (set_crashed p)) (torn_write p torn (s_files s))).
Proof.
  intros Hinv Hk Hc. pose proof (list_elem_of_lookup_2 _ _ _ Hk) as Hin.
  destruct (decide (wid p = -1)) as [Hid|Hid].
  { assert (torn_write p torn (s_files s) = s_files s) as Heq.
    { destruct (in_each _ _ _ _ _ _ _ Hinv p Hin) as [(_ & _ & Hpc)|(Hreg & _)].
      - unfold torn_write. destruct torn; [|done]. by destruct Hpc as [-> | ->].
      - unfold registered in Hreg. lia. }
    rewrite Heq. apply (inv_move mapf n input names outputs jobs s k p); [done..|]. left.
    destruct (in_each _ _ _ _ _ _ _ Hinv p Hin) as [Hu|(Hreg & _)]; [exact Hu|]. unfold registered in Hreg. lia. }
  destruct (running_member _ _ _ _ _ jobs s p Hinv Hin Hc Hid) as (Hreg & Hn & Ha & Hok & Hf).
  assert (0 <= wid p) as Hwid by (unfold registered in Hreg; lia).
  apply (inv_update mapf n input names outputs jobs s k p); [done..| |apply Hinv| | |].
  - destruct (in_coord _ _ _ _ _ _ _ Hinv) as [Hwf Hcn Hnm Hrt Hred Hop]. split; try done. cbn. intros r t Ht Hst.
    rewrite (torn_out _ _ _ _ _ _ _ Hok Hwid Ht) by (rewrite Hst; done). by eapply Hop.
  - destruct (in_files _ _ _ _ _ _ _ Hinv) as [Hi Hu]. split.
    + intros f Hfn. destruct (js_names _ _ _ _ _ _ Hjob f Hfn). rewrite torn_other; auto.
    + intros v r Hv. rewrite torn_mr; [by apply Hu| |lia]. cbn in Hv. unfold registered in Hreg.
      intros i ps _ [? _]%mr_name_inj; lia.
  - intros q _ Hq Hqid Hne. split; try done.
    + intros r _. apply torn_mr; destruct Hq as [(? & _)|(Hqr & _)]; try done; unfold registered in Hqr; [|lia].
      intros i ps _ [? _]%mr_name_inj; [done|lia..].
    + intros _ r t Ht Hst Hown. eapply torn_out; [done..|]. by rewrite Hown.
  - apply member_intro; try done.
    + apply pc_ok_crashed with (s_files s); [done|]. intros Hpc. unfold torn_write. by destruct torn; rewrite ?Hpc.
    + intros Hnw r Hr. cbn in Hnw. specialize (Hnw eq_refl).
      change (wid (set_crashed p)) with (wid p). rewrite torn_mr by (try done; intros i ps Hpc; by rewrite Hpc in Hnw).
      apply (Hf ltac:(congruence) r Hr).
Qed.

Lemma lose_ok jobs s k p :
  inv_with jobs s -> s_procs s !! k = Some p -> wp_crashed p = true -> calling p = true ->
  inv_with jobs (set_proc s k (set_pc p AtLoop)).
Proof.
  intros Hinv Hk Hc Hcall. pose proof (list_elem_of_lookup_2 _ _ _ Hk) as Hin.
  apply (inv_move mapf n input names outputs jobs s k p); [done..|].
  assert (wp_pc p = InRegister \/ wp_pc p <> InRegister) as [Hpc|Hpc] by (destruct (wp_pc p); auto).
  { destruct (in_each _ _ _ _ _ _ _ Hinv p Hin) as [(? & ? & _)|(_ & _ & Hd & Hl)]; [left; by split_and!; [..|left]|].
    destruct (alive _ _); [|destruct (Hd eq_refl); congruence].
    destruct (Hl eq_refl) as [Hok _]. unfold MRSystemProof.pc_ok in Hok. by rewrite Hpc in Hok. }
  destruct (calling_member _ _ _ _ _ jobs s p Hinv Hin Hcall Hpc) as (Hreg & Hn & Ha & Hok & Hf).
  apply member_intro; try done.
  - unfold MRSystemProof.pc_ok, calling in *. cbn [set_pc wp_pc wp_worker wp_crashed]. destruct (wp_pc p); try done.
    + left. apply Hok.
    + right. destruct Hok as [(i & Ho & _)|(r & Ho & _)]; [left|right; by exists r]. exists i. split; [done|]. congruence.
  - apply (files_ok_move mapf n input names jobs (s_files s) p); try done.
    + intros r _. unfold in_progress, calling in *. by destruct (wp_pc p).
    + by intros r _ [].
    + intros _. unfold calling in Hcall. by destruct (wp_pc p).
Qed.

(** ** The exit of the coordinator *)

Lemma exit_ok jobs s :
  inv_with jobs s -> Done (s_coord s) = true -> after_exit s.
Proof.
  intros Hinv Hd. pose proof (in_coord _ _ _ _ _ _ _ Hinv) as Hco.
  assert (forall r t, rtasks (s_coord s) !! r = Some t -> r_status t = "completed") as Hall.
  { intros r t Ht. unfold Done, ReduceDone in Hd. destruct (forallb _ _) eqn:E; [|done].
    rewrite forallb_forall in E. apply String.eqb_eq, E. by eapply list_elem_of_In, list_elem_of_lookup_2. }
  split.
  - intros r Hr. destruct (lookup_lt_is_Some_2 (rtasks (s_coord s)) (Z.to_nat r)) as [t Ht].
    { rewrite (co_rtasks _ _ _ _ _ Hco). lia. }
    pose proof (co_outputs _ _ _ _ _ Hco _ _ Ht (Hall _ _ Ht)) as Hout. by rewrite Z2Nat.id in Hout by lia.
  - intros p Hp Hc. destruct (decide (wid p = -1)) as [Hid|Hid].
    { destruct (in_each _ _ _ _ _ _ _ Hinv p Hp) as [(_ & Hs & Hpc)|(Hreg & _)]; [|unfold registered in Hreg; lia].
      unfold reduces. destruct Hpc as [-> | ->]; rewrite ?Hs; (split; [|done]); [by intros [[=] _]|by intros []]. }
    destruct (running_member _ _ _ _ _ jobs s p Hinv Hp Hc Hid) as (Hreg & _ & _ & Hok & _).
    assert (forall r, ~ owns_reduce (s_coord s) (wp_worker p) r) as Hno.
    { intros r (_ & _ & _ & _ & t & Ht & Hst & _). by rewrite (Hall _ _ Ht) in Hst. }
    unfold MRSystemProof.pc_ok, reduces in *. unfold registered in Hreg. destruct (wp_pc p); try (split; [tauto|lia]).
    + split; [|lia]. intros [Hb Hcl]. destruct Hok as [Hi|[(i & (_ & Hm & _) & _)|[r Ho]]]; [congruence|congruence|by apply (Hno r)].
    + split; [tauto|]. destruct Hok as [Hi _]. congruence.
    + destruct Hok as [[r Ho] _]. by destruct (Hno r).
    + destruct Hok as [[r Ho] _]. by destruct (Hno r).
Qed.

Lemma exit_put s k p : after_exit s -> harmless p -> after_exit (set_proc s k p).
Proof.
  intros [Ho Hp] Hh. split; [done|]. cbn. intros q [a Ha]%list_elem_of_lookup.
  apply lookup_insert_cases in Ha as [[_ ->]|Ha]; [done|]. apply Hp. by eapply list_elem_of_lookup_2.
Qed.

Lemma exit_append s w i text :
  after_exit s -> 0 <= w -> after_exit (set_files s (append_file (s_files s) (mr_name w i) text)).
Proof.
  intros [Ho Hp] Hw. split; [|done]. cbn. intros r Hr. rewrite append_other; [by apply Ho|].
  intros Hx. symmetry in Hx. by apply mr_name_out in Hx.
Qed.

Lemma partition_loop_fuel m kvs ps : partition_loop m kvs ps <> NoFuel.
Proof.
  revert ps. induction kvs as [|kv kvs IH]; intros ps; cbn [partition_loop]; [done|].
  unfold go_rem. case_decide; cbn [mbind outcome_bind]; [done|].
  destruct (idx ps _) as [q| |] eqn:E; cbn [mbind outcome_bind]; [|done|].
  - unfold idx_set. case_decide; cbn [mbind outcome_bind]; [apply IH|done].
  - unfold idx in E. case_decide; [destruct (ps !! _)|]; done.
Qed.

Lemma exit_local s k p :
  after_exit s -> s_procs s !! k = Some p -> wp_crashed p = false ->
  match local_step mapf reducef p (s_files s) with
  | Ret (p', fs') => after_exit (set_files (set_proc s k p') fs')
  | Panic _ => True
  | NoFuel => False
  end.
Proof.
  intros Hs Hk Hc. pose proof Hs as [_ Hp]. pose proof (Hp p (list_elem_of_lookup_2 _ _ _ Hk) Hc) as [Hr Hok].
  assert (forall p', harmless p' -> after_exit (set_files (set_proc s k p') (s_files s))) as Hput.
  { intros p' Hh. exact (exit_put s k p' Hs Hh). }
  unfold local_step, reduces in *. destruct (wp_pc p) as [| |a| |i ps|fnames acc|acc|] eqn:Hpc;
    try (by apply Hput; intros _; unfold reduces; rewrite Hpc).
  - case_bool_decide as Hid; [apply Hput; intros _; by split; [intros []|]|].
    destruct (String.eqb_spec (info_status (wp_worker p)) "idle") as [Hi|Hni].
    { apply Hput. intros _. split; [intros []|]. cbn. by rewrite Hi. }
    destruct (String.eqb_spec (info_status (wp_worker p)) "busy") as [Hb|Hnb].
    + destruct (String.eqb_spec (wt_Class (wp_worker p)) "map").
      { apply Hput. intros _. split; [intros []|]. cbn. by apply Hok. }
      destruct (String.eqb_spec (wt_Class (wp_worker p)) "reduce"); [by destruct Hr|].
      apply Hput. intros _. split; [by intros [[=] _]|]. cbn. done.
    + apply Hput. intros _. unfold reduces. rewrite Hpc. split; [by intros [? _]|]. by intros ?.
  - unfold read_file. destruct (s_files s !! wt_Key (wp_worker p)); cbn; [|done]. case_decide; [done|].
    pose proof (partition_loop_fuel (w_nReduce (wp_worker p)) (mapf (wt_Key (wp_worker p)) s0)
      (replicate (Z.to_nat (w_nReduce (wp_worker p))) [])) as Hfuel.
    destruct (partition_loop _ _ _); cbn; [|done|done]. apply Hput. intros _. by split; [intros []|].
  - destruct ps as [|part ps].
    + apply Hput. intros _. by split; [intros []|].
    + apply (exit_append (set_proc s k _)); [|done]. apply exit_put; [done|]. intros _. by split; [intros []|].
  - tauto.
  - tauto.
Qed.

Lemma exit_step s e :
  s_exited s = true -> after_exit s -> ensures (sys_step mapf reducef s e) (fun s' => s_exited s' = true /\ after_exit s').
Proof.
  intros Hx Hs. pose proof Hs as [Ho Hp].
  destruct e as [|k|k now|k dialed|k now|now|k torn|k|]; cbn [sys_step]; rewrite ?Hx; cbn [orb andb].
  - apply ensures_ret. split; [done|]. split; [done|]. cbn. intros p [Hin|Hin]%elem_of_app; [by apply Hp|].
    apply list_elem_of_singleton in Hin as ->. intros _. split; [by intros [[=] _]|done].
  - destruct (s_procs s !! k) as [p|] eqn:Hk; [|by apply ensures_ret]. destruct (wp_crashed p) eqn:Hc; [by apply ensures_ret|].
    pose proof (exit_local s k p Hs Hk Hc) as Hl. destruct (local_step _ _ _ _) as [[p' fs']|pn|]; [by apply ensures_ret| |done].
    apply ensures_ret. split; [done|]. by apply exit_put.
  - destruct (s_procs s !! k); by apply ensures_ret.
  - destruct (s_procs s !! k) as [p|] eqn:Hk; [|by apply ensures_ret]. destruct (wp_crashed p) eqn:Hc; cbn [negb]; [by apply ensures_ret|].
    pose proof (Hp p (list_elem_of_lookup_2 _ _ _ Hk) Hc) as [Hr Hok].
    unfold fail_call, call_failed, reduces in *. destruct (wp_pc p) eqn:Hpc; destruct dialed; cbn; apply ensures_ret;
      (split; [done|]); (apply exit_put; [done|]); try (by intros [=]); try (by apply Hp; eapply list_elem_of_lookup_2); intros _; cbn.
    + split; [by intros [[=] _]|]. done.
    + split; [by intros [? _]|]. by intros ?.
    + split; [by intros [[=] _]|]. done.
  - destruct (s_procs s !! k); by apply ensures_ret.
  - by apply ensures_ret.
  - destruct (s_procs s !! k) as [p|] eqn:Hk; [|by apply ensures_ret]. destruct (wp_crashed p) eqn:Hc; [by apply ensures_ret|].
    apply ensures_ret. split; [done|]. pose proof (Hp p (list_elem_of_lookup_2 _ _ _ Hk) Hc) as [Hr Hok].
    assert (after_exit (set_proc s k (set_crashed p))) as Hs' by by apply exit_put.
    unfold torn_write, reduces in *. destruct torn as [t|]; [|done]. destruct (wp_pc p); try done.
    by apply (exit_append (set_proc s k (set_crashed p))).
  - destruct (s_procs s !! k) as [p|] eqn:Hk; [|by apply ensures_ret]. destruct (wp_crashed p) eqn:Hc; [|by apply ensures_ret].
    destruct (wp_pc p); apply ensures_ret; (split; [done|]); try done; (apply exit_put; [done|]); unfold harmless; cbn; congruence.
  - by apply ensures_ret.
Qed.

(** ** All steps *)

Lemma start_ok jobs s :
  inv_with jobs s ->
  inv_with jobs (mkSystem (s_coord s) (s_procs s ++ [mkWproc worker_start AtLoop false]) (s_files s) (s_exited s)).
Proof.
  intros Hinv. destruct (in_procs _ _ _ _ _ _ _ Hinv) as [Hd Ha]. split; cbn [s_coord s_procs s_files]; try apply Hinv.
  - split.
    + intros a b q q' Hqa Hqb Heq Hne.
      assert (forall a q, (s_procs s ++ [mkWproc worker_start AtLoop false]) !! a = Some q -> wid q <> -1 -> s_procs s !! a = Some q) as Hold.
      { intros a0 q0 [?|[_ Hx]]%lookup_app_Some Hx'; [done|]. apply list_lookup_singleton_Some in Hx as [_ <-]. done. }
      eapply Hd; [apply Hold; [exact Hqa|done]|apply Hold; [exact Hqb|congruence]|done..].
    + intros w Hw. destruct (Ha w Hw) as (q & Hq & ?). exists q. split; [|done]. apply elem_of_app. by left.
  - intros q [Hq|Hq]%elem_of_app; [by apply Hinv|]. apply list_elem_of_singleton in Hq as ->. left. by split_and!; [..|left].
Qed.

Lemma set_proc_id s k p : s_procs s !! k = Some p -> set_proc s k p = s.
Proof. intros Hk. unfold set_proc. rewrite list_insert_id by done. by destruct s. Qed.

Lemma serve_ok jobs s k p now :
  inv_with jobs s -> (length (machines (s_coord s)) <= 256)%nat -> s_procs s !! k = Some p ->
  ensures (serve_call now (s_coord s) p) (fun '(c', p') => inv_with jobs (set_coord (set_proc s k p') c')).
Proof.
  intros Hinv Hm Hk.
  assert (ensures (Ret (s_coord s, p)) (fun '(c', p') => inv_with jobs (set_coord (set_proc s k p') c'))) as Hsame.
  { apply ensures_ret. rewrite set_proc_id by done. by destruct s. }
  destruct (wp_pc p) as [| |a| |i ps|fnames acc|acc|] eqn:Hpc;
    try (unfold serve_call; rewrite Hpc; exact Hsame).
  - by apply serve_register.
  - destruct (ac_pc a) as [| |ws|ws|] eqn:Ha.
    + by eapply serve_map_done.
    + by eapply serve_map_loop.
    + by eapply serve_reduce_done.
    + by eapply serve_reduce_loop.
    + assert (calling p = true) as Hcall by (unfold calling; by rewrite Hpc).
      destruct (calling_member _ _ _ _ _ jobs s p Hinv (list_elem_of_lookup_2 _ _ _ Hk) Hcall) as (_ & _ & _ & Hok & _); [congruence|].
      unfold MRSystemProof.pc_ok in Hok. rewrite Hpc, Ha in Hok. by destruct Hok as (_ & _ & _ & []).
  - by apply serve_complete.
Qed.

Lemma inv_intro jobs s : s_exited s = false -> inv_with jobs s -> inv s.
Proof. intros Hx Hi. unfold MRSystemProof.inv. rewrite Hx. by exists jobs. Qed.

Lemma step_inv s e :
  inv s -> (length (machines (s_coord s)) <= 256)%nat -> accurate s e -> ensures (sys_step mapf reducef s e) inv.
Proof.
  unfold MRSystemProof.inv at 1. destruct (s_exited s) eqn:Hx; intros Hi Hm Hacc.
  { eapply ensures_mono; [by apply exit_step|]. cbn. intros s' [Hx' ?]. unfold MRSystemProof.inv. by rewrite Hx'. }
  destruct Hi as [jobs Hinv]. pose proof (inv_intro jobs s Hx Hinv) as Hsame.
  destruct e as [|k|k now|k dialed|k now|now|k torn|k|]; cbn [sys_step]; rewrite ?Hx; cbn [orb andb].
  - apply ensures_ret. apply (inv_intro jobs); [done|]. pose proof (start_ok jobs s Hinv) as Hst. by rewrite Hx in Hst.
  - destruct (s_procs s !! k) as [p|] eqn:Hk; [|by apply ensures_ret]. destruct (wp_crashed p) eqn:Hc; [by apply ensures_ret|].
    destruct (local_ok mapf reducef n input names outputs Hjob jobs s k p Hinv Hk Hc) as ([p' fs'] & -> & jobs' & Hl).
    apply ensures_ret. by apply (inv_intro jobs').
  - destruct (s_procs s !! k) as [p|] eqn:Hk; [|by apply ensures_ret].
    destruct (serve_ok jobs s k p now Hinv Hm Hk) as ([c' p'] & -> & Hs). apply ensures_ret. by apply (inv_intro jobs).
  - destruct (s_procs s !! k); by apply ensures_ret.
  - destruct (s_procs s !! k) as [p|] eqn:Hk; [|by apply ensures_ret]. case_bool_decide as Hid; [by apply ensures_ret|].
    destruct (heartbeat_ok jobs s p now Hinv (list_elem_of_lookup_2 _ _ _ Hk) Hid) as (c' & -> & Hh).
    apply ensures_ret. by apply (inv_intro jobs).
  - apply ensures_ret. eapply inv_intro; [done|]. by apply (check_alive_ok jobs s now).
  - destruct (s_procs s !! k) as [p|] eqn:Hk; [|by apply ensures_ret]. destruct (wp_crashed p) eqn:Hc; [by apply ensures_ret|].
    apply ensures_ret. apply (inv_intro jobs); [done|]. by apply crash_ok.
  - destruct (s_procs s !! k) as [p|] eqn:Hk; [|by apply ensures_ret]. destruct (wp_crashed p) eqn:Hc; [|by apply ensures_ret].
    destruct (wp_pc p) eqn:Hpc; apply ensures_ret; try done; apply (inv_intro jobs); try done;
      apply lose_ok; try done; unfold calling; by rewrite Hpc.
  - apply ensures_ret. unfold MRSystemProof.inv. cbn [s_exited]. destruct (Done (s_coord s)) eqn:Hd; [exact (exit_ok jobs s Hinv Hd)|].
    exists jobs. destruct s. cbn in Hx. by rewrite <- Hx.
Qed.
End steps.
