(* ===== verification/MRSystemSpec.v ===== *)
(** * Properties of the MapReduce programs running together

    Whatever the interleaving of workers and coordinator, the output files of
    a finished job are those of the sequential program; workers that crash in
    the map phase do not change that.  A crash in the reduce phase may.  No run
    leads to a state from which the job cannot be finished. *)

From S2P Require Import Prelude Codec Coordinator CoordinatorProof CoordinatorSpec Worker WorkerProof MRApps MapReduceSpec.
From S2P Require Import MRSystem MRSystemProof MRSystemLocal MRSystemServe MRSystemInv MRSystemLive MRSystemSolo.

Section job.
Context `{!JsonStream, !JsonInts, !GoSort ByKey_Less, !RangeOrder Z}.
Context (mapf : string -> string -> list KeyValue) (reducef : string -> list string -> string).
Context (n : Z) (input : string -> string) (names : list string).

(** The input files exist and do not have names of files that the job writes;
    the job's intermediate files do not exist; the pairs are valid UTF-8 and
    the reduce function does not depend on the order of the values. *)
Record mr_job (fs : files) : Prop := {
  mj_n : 0 < n;
  mj_reduce : order_free reducef;
  mj_inputs : forall f, f ∈ names -> fs !! f = Some (input f);
  mj_names : forall f, f ∈ names -> (forall i j, f <> mr_name i j) /\ forall r, f <> out_name r;
  mj_valid : Forall (fun f => Forall valid_kv (pairs mapf input f)) names;
  mj_fresh : forall w r, 0 <= w -> fs !! mr_name w r = None;
}.

Definition started (fs : files) (args : list string) : system :=
  mkSystem (MakeCoordinator names args n) [] fs false.

Definition part_output (lines : list (string * string)) (r : Z) : string :=
  out_text (filter (fun l => part_of n l.1 = r) lines).

Lemma mr_job_spec fs lines :
  mr_job fs -> grouped reducef (names ≫= pairs mapf input) lines ->
  job_spec mapf reducef n input names (part_output lines).
Proof.
  intros Hj Hg. split; try apply Hj. intros r l Hr Hp.
  destruct (sorted_grouped reducef l) as (out & Hout & Hgo). exists out. split; [done|].
  unfold part_output. f_equal. apply (grouped_unique reducef (filter (in_part n r) (names ≫= pairs mapf input))).
  - eapply grouped_perm; [apply Hj| |exact Hgo]. by rewrite go_sort_perm.
  - by apply (grouped_filter reducef (fun k => part_of n k = r) (fun k => decide_rel eq (part_of n k) r)).
Qed.

Lemma started_inv fs args outputs : mr_job fs -> inv mapf n input names outputs (started fs args).
Proof.
  intros Hj. exists []. split; cbn [s_coord s_files s_procs started].
  - split.
    + apply MakeCoordinator_wf.
    + done.
    + cbn. apply list_eq. intros i. rewrite list_lookup_fmap, list_lookup_imap. by destruct (names !! i).
    + cbn. by rewrite length_fmap, length_seq.
    + intros (r & t & Ht & Hst). exfalso. apply Hst. cbn in Ht. rewrite list_lookup_fmap in Ht.
      by apply fmap_Some in Ht as (i & _ & ->).
    + intros r t Ht Hst. cbn in Ht. rewrite list_lookup_fmap in Ht. apply fmap_Some in Ht as (i & _ & ->). done.
  - split; [constructor|by intros w i Hin%not_elem_of_nil|]. intros i t Ht Hm. cbn in Ht.
    rewrite list_lookup_imap in Ht. apply fmap_Some in Ht as (f & _ & ->). done.
  - split; [apply Hj|]. intros w r Hw. apply Hj. cbn in Hw. lia.
  - split; [done|]. intros w Hw. unfold registered in Hw. cbn in Hw. lia.
  - intros p Hp. by apply not_elem_of_nil in Hp.
Qed.

(** Machines are never forgotten. *)
Lemma assign_map_machines w c reply c' reply' :
  assign_map w c reply = Ret (c', reply') -> machines c' = machines c.
Proof. unfold assign_map. intros Hs. inv_ret. case_match; by inv_ret. Qed.

Lemma assign_reduce_machines w ws c reply c' reply' :
  assign_reduce w ws c reply = Ret (c', reply') -> machines c' = machines c.
Proof. unfold assign_reduce. intros Hs. inv_ret. case_match; by inv_ret. Qed.

Lemma assign_machines c a c' a' : assign_step c a = Ret (c', a') -> machines c' = machines c.
Proof.
  unfold assign_step. intros Hs. destruct (ac_pc a); try (by inv_ret).
  - apply bind_ret_inv in Hs as ([d ws] & _ & Hs). by inv_ret.
  - apply bind_ret_inv in Hs as ([c1 r1] & Hm & Hs). inv_ret. by eapply assign_map_machines.
  - apply bind_ret_inv in Hs as ([c1 r1] & Hm & Hs). inv_ret. by eapply assign_reduce_machines.
Qed.

Lemma serve_machines now c p c' p' :
  serve_call now c p = Ret (c', p') -> (length (machines c) <= length (machines c'))%nat.
Proof.
  unfold serve_call. destruct (wp_pc p); try (by intros [= <- _]).
  - intros [= <- _]. cbn. rewrite length_app. lia.
  - intros Hs. apply bind_ret_inv in Hs as ([c1 a1] & Ha & Hs). apply assign_machines in Ha.
    destruct (ac_pc a1); inv_ret; by rewrite Ha.
  - intros Hs. apply bind_ret_inv in Hs as (c1 & Hc & [= <- _]). by apply CompleteTask_machines in Hc as ->.
Qed.

Lemma sys_step_machines s e s' :
  sys_step mapf reducef s e = Ret s' -> (length (machines (s_coord s)) <= length (machines (s_coord s')))%nat.
Proof.
  intros Hs. destruct e as [|k|k now|k dialed|k now|now|k torn|k|]; cbn [sys_step] in Hs;
    try (destruct (s_procs s !! k) as [p|]; [|by inv_ret]); try (by inv_ret).
  - destruct (wp_crashed p); [by inv_ret|]. destruct (local_step _ _ _ _) as [[p' fs']| |]; by inv_ret.
  - destruct (s_exited s); [by inv_ret|]. apply bind_ret_inv in Hs as ([c' p'] & Hc & Hs). inv_ret.
    by eapply serve_machines.
  - destruct (_ && _); [|by inv_ret]. destruct (fail_call _ _); by inv_ret.
  - destruct (_ || _); [by inv_ret|]. apply bind_ret_inv in Hs as (c' & Hc & Hs). inv_ret.
    unfold ReceiveHeartbeat in Hc. apply bind_ret_inv in Hc as (m & _ & Hc).
    apply bind_ret_inv in Hc as (ms & [_ ->]%idx_set_ret & [= <-]). cbn. by rewrite length_insert.
  - destruct (s_exited s); inv_ret; [done|]. cbn. by rewrite length_fmap.
  - destruct (wp_crashed p); by inv_ret.
  - destruct (wp_crashed p); [|by inv_ret]. destruct (wp_pc p); by inv_ret.
Qed.

Lemma runs_inv s0 s outputs :
  job_spec mapf reducef n input names outputs -> inv mapf n input names outputs s0 ->
  sys_runs mapf reducef s0 s -> (length (machines (s_coord s)) <= 256)%nat -> inv mapf n input names outputs s.
Proof.
  intros Hj Hinit Hr. induction Hr as [|s e s' _ IH Hacc Hs]; [done|]. intros Hm.
  pose proof (sys_step_machines _ _ _ Hs) as Hle.
  destruct (step_inv _ _ _ _ _ _ Hj s e (IH ltac:(lia)) ltac:(lia) Hacc) as (s1 & Hs1 & Hi).
  rewrite Hs in Hs1. by injection Hs1 as <-.
Qed.

(** The sequential program on the input files. *)
Lemma sequential_lines fs :
  mr_job fs -> exists lines, mrsequential mapf reducef names fs = Ret (<["mr-out-0" := out_text lines]> fs) /\
    grouped reducef (names ≫= pairs mapf input) lines.
Proof.
  intros Hj. unfold mrsequential. rewrite (map_files_spec mapf input).
  2:{ apply Forall_forall. intros f Hf. by apply Hj. }
  cbn [mbind outcome_bind]. destruct (sorted_grouped reducef (names ≫= pairs mapf input)) as (lines & Hl & Hg).
  rewrite Hl. cbn [mbind outcome_bind]. exists lines. split; [done|].
  eapply grouped_perm; [apply Hj|apply go_sort_perm|done].
Qed.

(** C5: the programs together compute what the sequential program computes.
    However the coordinator and any number of worker processes interleave,
    and whichever of them crash, also in the middle of a write: as soon as
    the coordinator sees that the job is done, and for ever after it has
    exited, the output file of each partition holds exactly the lines of the
    sequential output whose key hashes to it.  It is assumed that the reduce
    function does not depend on the order of the values, that no files of an
    earlier job are left and that the pairs are valid UTF-8, that at most 256
    workers register, that a machine is declared dead only after its process
    has stopped and no request of it is on the way, and that after the map
    phase none of the declared machines has done a map task. *)
Theorem system_output fs args s :
  mr_job fs -> sys_runs mapf reducef (started fs args) s ->
  (length (machines (s_coord s)) <= 256)%nat ->
  (if s_exited s then true else Done (s_coord s)) = true ->
  exists lines, mrsequential mapf reducef names fs = Ret (<["mr-out-0" := out_text lines]> fs) /\
    forall r, 0 <= r < n -> s_files s !! out_name r = Some (part_output lines r).
Proof.
  intros Hj Hr Hm Hd. destruct (sequential_lines fs Hj) as (lines & Hseq & Hg). exists lines. split; [done|].
  pose proof (mr_job_spec fs lines Hj Hg) as Hspec.
  pose proof (runs_inv _ s _ Hspec (started_inv fs args _ Hj) Hr Hm) as Hinv. unfold inv in Hinv.
  destruct (s_exited s) eqn:Hx; [apply Hinv|]. destruct Hinv as [jobs Hinv].
  by destruct (exit_ok _ _ _ _ _ jobs s Hinv Hd) as [Hout _].
Qed.

(** C9: in the same runs nothing fails before the coordinator has exited: no
    handler of the coordinator panics, and a worker that has not crashed
    never stops by itself, in particular every file it opens exists. *)
Theorem system_never_fails fs args s e k p :
  mr_job fs -> sys_runs mapf reducef (started fs args) s ->
  (length (machines (s_coord s)) <= 256)%nat -> s_exited s = false -> accurate s e ->
  s_procs s !! k = Some p -> wp_crashed p = false ->
  returns (sys_step mapf reducef s e) /\ returns (local_step mapf reducef p (s_files s)).
Proof.
  intros Hj Hr Hm Hx Hacc Hk Hc. destruct (sequential_lines fs Hj) as (lines & _ & Hg).
  pose proof (mr_job_spec fs lines Hj Hg) as Hspec.
  pose proof (runs_inv _ s _ Hspec (started_inv fs args _ Hj) Hr Hm) as Hinv. split.
  - destruct (step_inv _ _ _ _ _ _ Hspec s e Hinv Hm Hacc) as (s' & Hs & _). by exists s'.
  - unfold inv in Hinv. rewrite Hx in Hinv. destruct Hinv as [jobs Hinv].
    destruct (local_ok _ _ _ _ _ _ Hspec jobs s k p Hinv Hk Hc) as (y & Hl & _). by exists y.
Qed.

Lemma started_live fs args : (forall f, f ∈ names -> is_Some (fs !! f)) -> live_inv n names (started fs args).
Proof.
  intros Hin. split; cbn [s_coord s_files s_procs started]; [|done|by intros p Hp%not_elem_of_nil]. split.
  - apply MakeCoordinator_wf.
  - done.
  - cbn. apply list_eq. intros i. rewrite list_lookup_fmap, list_lookup_imap. by destruct (names !! i).
  - cbn. by rewrite length_fmap, length_seq.
  - intros i t Ht Hst. cbn in Ht. rewrite list_lookup_fmap in Ht. by apply fmap_Some in Ht as (j & _ & ->).
Qed.

(** C10: a job can always be finished.  Nothing is assumed of the run so far:
    workers may have crashed in the middle of a write or been declared dead
    while they work, and the files that they left may hold anything.  While
    the coordinator runs and fewer than 256 workers have registered, there is
    a continuation after which it exits with every output file written, so
    no task is ever lost and no state of the coordinator is a dead end. *)
Theorem job_can_finish fs args es s :
  0 < n -> (forall f, f ∈ names -> is_Some (fs !! f)) ->
  run_system mapf reducef (started fs args) es = Ret s ->
  s_exited s = false -> (length (machines (s_coord s)) < 256)%nat ->
  exists es' s', run_system mapf reducef s es' = Ret s' /\ s_exited s' = true /\
    forall r, 0 <= r < n -> is_Some (s_files s' !! out_name r).
Proof.
  intros Hn Hin Hr Hx Hm. pose proof (run_live _ _ _ _ _ _ _ (started_live fs args Hin) Hr Hx) as Hl.
  destruct (finishes mapf reducef n names Hn s Hl Hx Hm) as (s' & [es' Hr'] & Hrest). by exists es', s'.
Qed.
End job.

(** ** Runs that are checked *)

(** The machines that a pass of [CheckAliveMachine] strikes. *)
Definition struck (s : system) (now : Z) : list Z :=
  filter (fun w => alive (s_coord s) w = true /\ alive (CheckAliveMachine now (s_coord s)) w = false)
    (Z.of_nat <$> seq 0 (length (machines (s_coord s)))).

(** Only machines that have stopped are struck. *)
Definition truthful (s : system) (e : sys_event) : bool :=
  match e with
  | SvCheckAlive now => forallb (fun w =>
      forallb (fun p => negb (wid p =? w) || wp_crashed p && negb (calling p)) (s_procs s)) (struck s now)
  | _ => true
  end.

Definition no_owner_struck (s : system) (e : sys_event) : bool :=
  match e with
  | SvCheckAlive now => negb (reducing s) ||
      forallb (fun w => forallb (fun t => negb (t_AssignedWorker t =? w)) (tasks (s_coord s))) (struck s now)
  | _ => true
  end.

Lemma accurate_checked s e : truthful s e = true -> no_owner_struck s e = true -> accurate s e.
Proof.
  destruct e as [| | | | |now| | |]; try done. cbn. intros Ht Ho _ w Ha Hd.
  assert (w ∈ struck s now) as Hw.
  { apply list_elem_of_filter. split; [done|]. pose proof (alive_registered _ _ Ha) as Hr. unfold registered in Hr.
    apply list_elem_of_fmap. exists (Z.to_nat w). split; [lia|]. apply elem_of_seq. lia. }
  rewrite forallb_forall in Ht. specialize (Ht w (proj1 (list_elem_of_In _ _) Hw)). rewrite forallb_forall in Ht. split.
  - intros p Hp Hpw. specialize (Ht p (proj1 (list_elem_of_In _ _) Hp)).
    apply orb_true_iff in Ht as [Ht|Ht]; [lia|]. apply andb_true_iff in Ht as [? ?%negb_true_iff]. done.
  - intros Hr (t & Hwt & Htin)%list_elem_of_fmap. rewrite Hr in Ho. cbn in Ho. rewrite forallb_forall in Ho.
    specialize (Ho w (proj1 (list_elem_of_In _ _) Hw)). rewrite forallb_forall in Ho.
    specialize (Ho t (proj1 (list_elem_of_In _ _) Htin)). lia.
Qed.

Section checked.
Context `{!JsonStream, !JsonInts, !GoSort ByKey_Less, !RangeOrder Z}.
Context (mapf : string -> string -> list KeyValue) (reducef : string -> list string -> string).

Fixpoint run_checked (check : system -> sys_event -> bool) (s : system) (es : list sys_event) : outcome system :=
  match es with
  | [] => Ret s
  | e :: es => if check s e then s ← sys_step mapf reducef s e; run_checked check s es else NoFuel
  end.

Lemma run_checked_runs s0 s es s' :
  sys_runs mapf reducef s0 s ->
  run_checked (fun s e => truthful s e && no_owner_struck s e) s es = Ret s' -> sys_runs mapf reducef s0 s'.
Proof.
  revert s. induction es as [|e es IH]; intros s Hr; cbn [run_checked]; [by intros [= <-]|].
  destruct (_ && _) eqn:Hc; [|done]. apply andb_true_iff in Hc as [Ht Ho]. intros (s1 & Hs & Hrun)%bind_ret_inv.
  apply (IH s1); [|done]. eapply sys_next; [done| |done]. by apply accurate_checked.
Qed.
End checked.

(** ** Word count with a worker that crashes in the map phase *)

Module CrashDemo.
(** Worker [k] gets registered, and fetches a task of the given phase. *)
Definition joins (k : nat) : list sys_event := [SvLocal k; SvServe k 0].
Definition fetches_map (k : nat) : list sys_event := [SvLocal k; SvServe k 0; SvServe k 0].
Definition fetches_reduce (k : nat) : list sys_event := [SvLocal k; SvServe k 0; SvServe k 0; SvServe k 0].
(** Worker [k] takes [m] steps, and reports. *)
Definition works (k m : nat) : list sys_event := replicate m (SvLocal k) ++ [SvServe k 0].

(** Worker 0 crashes while it appends the second partition of the first file;
    worker 1 does the whole job. *)
Definition events : list sys_event :=
  [SvStart; SvStart] ++ joins 0 ++ joins 1 ++ fetches_map 0 ++ replicate 3 (SvLocal 0) ++
  [SvCrash 0 (Some "junk"); SvHeartbeat 1 300000000; SvCheckAlive 301000000] ++
  fetches_map 1 ++ works 1 5 ++ fetches_map 1 ++ works 1 5 ++
  fetches_reduce 1 ++ works 1 4 ++ fetches_reduce 1 ++ works 1 4 ++ [SvExit].

Definition start : system := started 2 ["a.txt"; "b.txt"] wc_fs ["a.txt"; "b.txt"].

Definition final : system :=
  match run_checked wc_Map wc_Reduce (fun s e => truthful s e && no_owner_struck s e) start events with
  | Ret s => s
  | _ => start
  end.

Lemma final_runs : sys_runs wc_Map wc_Reduce start final.
Proof.
  apply (run_checked_runs wc_Map wc_Reduce start start events); [constructor|].
  vm_compute. reflexivity.
Qed.

Lemma wc_mr_job : mr_job wc_Map wc_Reduce 2 wc_input ["a.txt"; "b.txt"] wc_fs.
Proof.
  split.
  - lia.
  - apply wc_order_free.
  - intros f [->|[->|[]%not_elem_of_nil]%elem_of_cons]%elem_of_cons; done.
  - intros f [->|[->|[]%not_elem_of_nil]%elem_of_cons]%elem_of_cons; (split; [intros i j Heq|intros r Heq]); discriminate Heq.
  - eapply bool_decide_unpack. by vm_compute.
  - intros w r _. unfold wc_fs. rewrite !lookup_insert_ne by (intros Heq; discriminate Heq).
    apply lookup_singleton_ne. intros Heq. discriminate Heq.
Qed.
End CrashDemo.

Lemma system_output_witness :
  s_exited CrashDemo.final = true /\
  exists lines, mrsequential wc_Map wc_Reduce ["a.txt"; "b.txt"] wc_fs = Ret (<["mr-out-0" := out_text lines]> wc_fs) /\
    forall r, 0 <= r < 2 -> s_files CrashDemo.final !! out_name r = Some (part_output 2 lines r).
Proof.
  split; [vm_compute; reflexivity|].
  apply (system_output wc_Map wc_Reduce 2 wc_input ["a.txt"; "b.txt"] wc_fs ["a.txt"; "b.txt"] CrashDemo.final).
  - apply CrashDemo.wc_mr_job.
  - apply CrashDemo.final_runs.
  - apply Nat.leb_le. vm_compute. reflexivity.
  - vm_compute. reflexivity.
Defined.

(** The state of that run in which the crashed worker has just been declared
    dead and the other one has fetched its task. *)
Definition CrashDemo_middle : system :=
  match run_checked wc_Map wc_Reduce (fun s e => truthful s e && no_owner_struck s e) CrashDemo.start (take 19 CrashDemo.events) with
  | Ret s => s
  | _ => CrashDemo.start
  end.

Lemma CrashDemo_middle_runs : sys_runs wc_Map wc_Reduce CrashDemo.start CrashDemo_middle.
Proof.
  apply (run_checked_runs wc_Map wc_Reduce CrashDemo.start CrashDemo.start (take 19 CrashDemo.events)); [constructor|].
  vm_compute. reflexivity.
Qed.

Lemma system_never_fails_witness :
  exists p, s_procs CrashDemo_middle !! 1%nat = Some p /\ wp_pc p = MapRead /\
    returns (sys_step wc_Map wc_Reduce CrashDemo_middle (SvServe 1 0)) /\
    returns (local_step wc_Map wc_Reduce p (s_files CrashDemo_middle)).
Proof.
  destruct (s_procs CrashDemo_middle !! 1%nat) as [p|] eqn:E; [|vm_compute in E; discriminate].
  exists p. split; [reflexivity|]. split; [vm_compute in E; injection E as <-; reflexivity|].
  apply (system_never_fails wc_Map wc_Reduce 2 wc_input ["a.txt"; "b.txt"] wc_fs ["a.txt"; "b.txt"] CrashDemo_middle (SvServe 1 0) 1).
  - apply CrashDemo.wc_mr_job.
  - apply CrashDemo_middle_runs.
  - apply Nat.leb_le. vm_compute. reflexivity.
  - vm_compute. reflexivity.
  - exact I.
  - exact E.
  - vm_compute in E. injection E as <-. reflexivity.
Defined.

(** Worker 0 has crashed in the middle of a write, worker 1 asks for a task,
    and both are declared dead. *)
Definition stuck_events : list sys_event :=
  take 16 CrashDemo.events ++ [SvCheckAlive 900000000; SvCheckAlive 900000001].

Definition stuck : system :=
  match run_system wc_Map wc_Reduce CrashDemo.start stuck_events with Ret s => s | _ => CrashDemo.start end.

Lemma job_can_finish_witness :
  m_IsAlive <$> machines (s_coord stuck) = [false; false] /\
  exists es s', run_system wc_Map wc_Reduce stuck es = Ret s' /\ s_exited s' = true /\
    forall r, 0 <= r < 2 -> is_Some (s_files s' !! out_name r).
Proof.
  split; [vm_compute; reflexivity|].
  apply (job_can_finish wc_Map wc_Reduce 2 ["a.txt"; "b.txt"] wc_fs ["a.txt"; "b.txt"] stuck_events stuck).
  - lia.
  - intros f Hf. exists (wc_input f). by apply (mj_inputs _ _ _ _ _ _ CrashDemo.wc_mr_job).
  - vm_compute. reflexivity.
  - vm_compute. reflexivity.
  - apply Nat.ltb_lt. vm_compute. reflexivity.
Defined.

(** ** A mapper that crashes in the reduce phase *)

(** Workers 0 and 1 map one file each and worker 2 fetches the reduce task;
    then worker 0 crashes and is declared dead, worker 1 maps its file again,
    and worker 2 reads the files of both. *)
Definition reduce_crash_events : list sys_event :=
  [SvStart; SvStart; SvStart] ++ CrashDemo.joins 0 ++ CrashDemo.joins 1 ++ CrashDemo.joins 2 ++
  CrashDemo.fetches_map 0 ++ CrashDemo.fetches_map 1 ++ CrashDemo.works 0 4 ++ CrashDemo.works 1 4 ++
  CrashDemo.fetches_reduce 2 ++
  [SvCrash 0 None; SvHeartbeat 1 300000000; SvHeartbeat 2 300000000; SvCheckAlive 301000000] ++
  CrashDemo.fetches_map 1 ++ CrashDemo.works 1 4 ++ CrashDemo.works 2 5 ++ [SvExit].

(** The map tasks of a machine that dies are run again even when its output
    is already being reduced.  In this run only a machine that has stopped is
    declared dead, no worker fails, and the coordinator reports success; but
    the words of the first file are counted twice. *)
Theorem reduce_phase_crash_duplicates :
  exists s fsq, run_checked wc_Map wc_Reduce truthful (started 1 ["a.txt"; "b.txt"] wc_fs ["a.txt"; "b.txt"])
      reduce_crash_events = Ret s /\
    s_exited s = true /\ (forall p, p ∈ s_procs s -> wp_crashed p = true -> wid p = 0) /\
    mrsequential wc_Map wc_Reduce ["a.txt"; "b.txt"] wc_fs = Ret fsq /\
    fsq !! "mr-out-0" = Some (out_text [("a", "1"); ("cat", "2"); ("dog", "1"); ("the", "2")]) /\
    s_files s !! "mr-out-0" = Some (out_text [("a", "1"); ("cat", "3"); ("dog", "2"); ("the", "4")]).
Proof.
  destruct (run_checked _ _ _ _ _) as [s| |] eqn:E; [|vm_compute in E; discriminate..].
  exists s, (<["mr-out-0" := out_text [("a", "1"); ("cat", "2"); ("dog", "1"); ("the", "2")]]> wc_fs).
  split; [done|]. vm_compute in E. injection E as <-. split_and!; [reflexivity| |vm_compute; reflexivity..].
  intros p Hp Hc. cbn in Hp. repeat (apply elem_of_cons in Hp as [->|Hp]; [done|]). by apply not_elem_of_nil in Hp.
Qed.
