(* ===== verification/GoSlice.v ===== *)
(** * Go slices

    A slice is a prefix of an array that other slices may share.  [append]
    writes in place when the capacity suffices and moves to a fresh array
    otherwise; how much larger the fresh array is, is up to the runtime. *)

From S2P Require Import Prelude.

Record slice (A : Type) := mkSlice { arr : list A; len : nat }.
Arguments mkSlice {A}.
Arguments arr {A}.
Arguments len {A}.

(** The spare elements of a fresh array that holds so many elements. *)
Class AppendGrowth := spare : nat -> nat.

Section slice.
Context {A : Type}.
Implicit Types (s : slice A) (xs : list A).

Definition cap s : nat := length (arr s).
Definition elems s : list A := take (len s) (arr s).
Definition slice_ok s : Prop := (len s <= cap s)%nat.

(** A slice literal. *)
Definition of_list xs : slice A := mkSlice xs (length xs).

(** [s[:k]]; [k] may reach up to the capacity. *)
Definition slice_to s (k : Z) : outcome (slice A) :=
  if decide (0 <= k <= Z.of_nat (cap s)) then Ret (mkSlice (arr s) (Z.to_nat k)) else Panic IndexOutOfRange.

(** The elements of [s[k:]]. *)
Definition elems_from s (k : Z) : outcome (list A) :=
  if decide (0 <= k <= Z.of_nat (len s)) then Ret (drop (Z.to_nat k) (elems s)) else Panic IndexOutOfRange.

Definition slice_idx s (i : Z) : outcome A := idx (elems s) i.

(** [append(s, xs...)]: the result, and the array of [s] afterwards. *)
Definition append `{!AppendGrowth} (zero : A) s xs : slice A * list A :=
  let n := (len s + length xs)%nat in
  if decide (n <= cap s)%nat then
    let a := take (len s) (arr s) ++ xs ++ drop n (arr s) in (mkSlice a n, a)
  else (mkSlice (elems s ++ xs ++ replicate (spare n) zero) n, arr s).

Lemma elems_of_list xs : elems (of_list xs) = xs.
Proof. unfold elems, of_list. cbn. by rewrite take_ge. Qed.

Lemma slice_ok_of_list xs : slice_ok (of_list xs).
Proof. unfold slice_ok, cap. cbn. lia. Qed.

Lemma length_elems s : slice_ok s -> length (elems s) = len s.
Proof. unfold slice_ok, cap, elems. intros. rewrite length_take. lia. Qed.

Lemma slice_to_ok s k :
  0 <= k <= Z.of_nat (len s) -> slice_ok s ->
  exists s', slice_to s k = Ret s' /\ elems s' = take (Z.to_nat k) (elems s) /\ slice_ok s' /\
    arr s' = arr s /\ len s' = Z.to_nat k.
Proof.
  intros Hk Hs. unfold slice_to. rewrite decide_True by (unfold slice_ok in Hs; lia).
  eexists. split; [done|]. unfold elems, slice_ok, cap in *. cbn. rewrite take_take.
  split_and!; [f_equal; lia|lia|done|done].
Qed.

Lemma append_elems `{!AppendGrowth} zero s xs :
  slice_ok s -> elems (append zero s xs).1 = elems s ++ xs /\ slice_ok (append zero s xs).1 /\
    len (append zero s xs).1 = (len s + length xs)%nat.
Proof.
  intros Hs. unfold append. case_decide as Hc; cbn; unfold elems, slice_ok, cap in *; cbn.
  - split_and!; [|rewrite !length_app, length_drop, length_take; lia|done].
    rewrite app_assoc, take_app_le by (rewrite length_app, length_take; lia).
    apply take_ge. rewrite length_app, length_take. lia.
  - split_and!; [|rewrite !length_app, length_take, length_replicate; lia|done].
    rewrite app_assoc, take_app_le by (rewrite length_app, length_take; lia).
    apply take_ge. rewrite length_app, length_take. lia.
Qed.

(** What [append] does to a slice that shares the array: the elements below
    the length of the appended slice are kept, the following ones may be
    overwritten. *)
Lemma append_shared `{!AppendGrowth} zero s xs (n : nat) :
  slice_ok s -> (n <= cap s)%nat ->
  let a := (append zero s xs).2 in
  length a = cap s /\ take (len s) a = take (len s) (arr s).
Proof.
  intros Hs Hn. unfold append, slice_ok, cap in *. case_decide as Hc; cbn; [|done].
  rewrite !length_app, length_drop, length_take. split; [lia|].
  rewrite take_app_le by (rewrite length_take; lia). rewrite take_take. f_equal. lia.
Qed.
End slice.
