(* ===== verification/Raft.v ===== *)
(** * The Raft peer (src/src/raft/raft.go, persister.go)

    The state of a peer is a record with the fields of the struct that the
    code uses; each RPC handler, and each critical section of a goroutine,
    is a function on it.  The goroutines that a section starts are returned
    as [task]s, and the messages sent on [applyCh] are appended to
    [applied].  Bytes are strings; gob and labgob are parameters of the
    model, with their round trips as laws. *)

From S2P Require Import Prelude GoSlice.

(** ** Debug output *)

Definition Debug : bool := false.

(** The lines that [DPrintf] prints, and its results, which keep their zero
    values. *)
Definition DPrintf (line : string) : list string * (Z * option string) := (if Debug then [line] else [], (0, None)).

(** ** The persister *)

Record Persister := mkPersister { raftstate : string; snapshot : string }.

Definition MakePersister : Persister := mkPersister EmptyString EmptyString.
Definition clone_bytes (orig : string) : string := orig.
Definition Copy (ps : Persister) : Persister := mkPersister (raftstate ps) (snapshot ps).
Definition SaveRaftState (state : string) (ps : Persister) : Persister :=
  mkPersister (clone_bytes state) (snapshot ps).
Definition ReadRaftState (ps : Persister) : string := clone_bytes (raftstate ps).
Definition RaftStateSize (ps : Persister) : Z := Z.of_nat (String.length (raftstate ps)).
Definition SaveStateAndSnapshot (state snap : string) (ps : Persister) : Persister :=
  mkPersister (clone_bytes state) (clone_bytes snap).
Definition ReadSnapshot (ps : Persister) : string := clone_bytes (snapshot ps).
Definition SnapshotSize (ps : Persister) : Z := Z.of_nat (String.length (snapshot ps)).

(** ** Data *)

(** Commands are values of an interface type; [nil] is one of them. *)
Class Command (C : Type) := { nil_command : C; command_eq_dec :: EqDecision C }.

Record Entry (C : Type) := mkEntry { Term : Z; Cmd : C }.
Arguments mkEntry {C}.
Arguments Term {C}.
Arguments Cmd {C}.

Record ApplyMsg (C : Type) := mkApplyMsg {
  CommandValid : bool;
  am_Command : C;
  CommandIndex : Z;
  SnapshotValid : bool;
  am_Snapshot : string;
  SnapshotTerm : Z;
  SnapshotIndex : Z;
}.
Arguments mkApplyMsg {C}.
Arguments CommandValid {C}.
Arguments am_Command {C}.
Arguments CommandIndex {C}.
Arguments SnapshotValid {C}.
Arguments am_Snapshot {C}.
Arguments SnapshotTerm {C}.
Arguments SnapshotIndex {C}.

(** The variables of [readPersist]. *)
Record durable (C : Type) := mkDurable {
  d_currentTerm : Z;
  d_votedFor : Z;
  d_votedTerm : Z;
  d_log : list (Entry C);
  d_lastIncludedTerm : Z;
  d_lastIncludedIndex : Z;
}.
Arguments mkDurable {C}.
Arguments d_currentTerm {C}.
Arguments d_votedFor {C}.
Arguments d_votedTerm {C}.
Arguments d_log {C}.
Arguments d_lastIncludedTerm {C}.
Arguments d_lastIncludedIndex {C}.

(** A value that is written to a gob stream. *)
Inductive gob_value (C : Type) := GInt (z : Z) | GEntries (es : list (Entry C)).
Arguments GInt {C}.
Arguments GEntries {C}.

(** What the code relies on of encoding/gob and labgob.  The values that one
    encoder writes, one call of [Encode] after the other, make up a stream of
    bytes; the calls of [Decode] on these bytes read the values one after the
    other, each into a variable of its type.  [stream_int] and
    [stream_entries] are the results of the call that follows so many others,
    for a variable of type [int] and [[]Entry].  The decoders return [None] on
    an error.  Decoding a list of entries gives a slice with those entries;
    for an empty list it may be [nil] ([Some None]) or not. *)
Class Gob (C : Type) := {
  gob_stream : list (gob_value C) -> string;
  stream_int : string -> nat -> option Z;
  stream_entries : string -> nat -> option (list (Entry C));
  stream_int_law : forall vs i z, vs !! i = Some (GInt z) -> stream_int (gob_stream vs) i = Some z;
  stream_entries_law : forall vs i es, vs !! i = Some (GEntries es) -> stream_entries (gob_stream vs) i = Some es;
  stream_nonempty : forall vs, vs <> [] -> gob_stream vs <> EmptyString;
  encode_entries : list (Entry C) -> string;
  decode_entries : string -> option (option (list (Entry C)));
  entries_law : forall es, es <> [] -> decode_entries (encode_entries es) = Some (Some es);
  entries_empty_law : exists r, decode_entries (encode_entries []) = Some r /\ default [] r = [];
  entries_nonempty : forall es, encode_entries es <> EmptyString;
  encode_command : C -> string;
  decode_int : string -> option C;
}.

Record Raft (C : Type) := mkRaft {
  peers : nat;
  persister : Persister;
  me : Z;
  dead : bool;
  status : string;
  currentTerm : Z;
  votedFor : Z;
  votedTerm : Z;
  log : slice (Entry C);
  lastIncludedTerm : Z;
  lastIncludedIndex : Z;
  lastTime : Z;
  electionTime : Z;
  commitIndex : Z;
  lastApplied : Z;
  largestIndexMathWithLeader : Z;
  nextIndex : list Z;
  matchIndex : list Z;
  leaderId : Z;
  applied : list (ApplyMsg C);
}.
Arguments mkRaft {C}.
Arguments peers {C}.
Arguments persister {C}.
Arguments me {C}.
Arguments dead {C}.
Arguments status {C}.
Arguments currentTerm {C}.
Arguments votedFor {C}.
Arguments votedTerm {C}.
Arguments log {C}.
Arguments lastIncludedTerm {C}.
Arguments lastIncludedIndex {C}.
Arguments lastTime {C}.
Arguments electionTime {C}.
Arguments commitIndex {C}.
Arguments lastApplied {C}.
Arguments largestIndexMathWithLeader {C}.
Arguments nextIndex {C}.
Arguments matchIndex {C}.
Arguments leaderId {C}.
Arguments applied {C}.

(** Goroutines that a critical section starts. *)
Inductive task (C : Type) :=
  | ApplyNewCommand (newIndex : Z)
  | SendApply (msg : ApplyMsg C)
  | ReplicatedEntries
  | ReplicatedEntriesToOne (server : Z)
  | WakeElection
  | WakeHeartBeats.
Arguments ApplyNewCommand {C}.
Arguments SendApply {C}.
Arguments ReplicatedEntries {C}.
Arguments ReplicatedEntriesToOne {C}.
Arguments WakeElection {C}.
Arguments WakeHeartBeats {C}.

(** ** Messages *)

Record InstallSnapshotArgs := mkInstallArgs {
  is_Term : Z; is_LeaderId : Z; is_LastIncludedIndex : Z; is_LastIncludedTerm : Z; is_Snapshot : string }.
Record InstallSnapshotReply := mkInstallReply { isr_Term : Z }.

Record RequestVoteArgs := mkVoteArgs {
  rv_Term : Z; rv_CandidateId : Z; rv_LastLogIndex : Z; rv_LastLogTerm : Z }.
Record RequestVoteReply := mkVoteReply { rvr_Term : Z; VoteGranted : bool }.

Record AppendEntriesArgs := mkAppendArgs {
  ae_Term : Z; ae_LeaderId : Z; PrevLogIndex : Z; PrevLogTerm : Z; Entries : string; LeaderCommit : Z }.
Record AppendEntriesReply := mkAppendReply { aer_Term : Z; Success : bool; NewPrevLogIndex : Z }.

(** ** Assignments to the fields *)

Section setters.
Context {C : Type}.
Implicit Types (rf : Raft C).

Definition set_persister rf x := mkRaft (peers rf) x (me rf) (dead rf) (status rf) (currentTerm rf) (votedFor rf)
  (votedTerm rf) (log rf) (lastIncludedTerm rf) (lastIncludedIndex rf) (lastTime rf) (electionTime rf)
  (commitIndex rf) (lastApplied rf) (largestIndexMathWithLeader rf) (nextIndex rf) (matchIndex rf)
  (leaderId rf) (applied rf).
Definition set_dead rf x := mkRaft (peers rf) (persister rf) (me rf) x (status rf) (currentTerm rf) (votedFor rf)
  (votedTerm rf) (log rf) (lastIncludedTerm rf) (lastIncludedIndex rf) (lastTime rf) (electionTime rf)
  (commitIndex rf) (lastApplied rf) (largestIndexMathWithLeader rf) (nextIndex rf) (matchIndex rf)
  (leaderId rf) (applied rf).
Definition set_status rf x := mkRaft (peers rf) (persister rf) (me rf) (dead rf) x (currentTerm rf) (votedFor rf)
  (votedTerm rf) (log rf) (lastIncludedTerm rf) (lastIncludedIndex rf) (lastTime rf) (electionTime rf)
  (commitIndex rf) (lastApplied rf) (largestIndexMathWithLeader rf) (nextIndex rf) (matchIndex rf)
  (leaderId rf) (applied rf).
Definition set_currentTerm rf x := mkRaft (peers rf) (persister rf) (me rf) (dead rf) (status rf) x (votedFor rf)
  (votedTerm rf) (log rf) (lastIncludedTerm rf) (lastIncludedIndex rf) (lastTime rf) (electionTime rf)
  (commitIndex rf) (lastApplied rf) (largestIndexMathWithLeader rf) (nextIndex rf) (matchIndex rf)
  (leaderId rf) (applied rf).
(** [votedFor] and [votedTerm] are always assigned together. *)
Definition set_vote rf x t := mkRaft (peers rf) (persister rf) (me rf) (dead rf) (status rf) (currentTerm rf) x
  t (log rf) (lastIncludedTerm rf) (lastIncludedIndex rf) (lastTime rf) (electionTime rf)
  (commitIndex rf) (lastApplied rf) (largestIndexMathWithLeader rf) (nextIndex rf) (matchIndex rf)
  (leaderId rf) (applied rf).
Definition set_log rf x := mkRaft (peers rf) (persister rf) (me rf) (dead rf) (status rf) (currentTerm rf)
  (votedFor rf) (votedTerm rf) x (lastIncludedTerm rf) (lastIncludedIndex rf) (lastTime rf) (electionTime rf)
  (commitIndex rf) (lastApplied rf) (largestIndexMathWithLeader rf) (nextIndex rf) (matchIndex rf)
  (leaderId rf) (applied rf).
Definition set_lastIncluded rf t i := mkRaft (peers rf) (persister rf) (me rf) (dead rf) (status rf)
  (currentTerm rf) (votedFor rf) (votedTerm rf) (log rf) t i (lastTime rf) (electionTime rf)
  (commitIndex rf) (lastApplied rf) (largestIndexMathWithLeader rf) (nextIndex rf) (matchIndex rf)
  (leaderId rf) (applied rf).
Definition set_lastTime rf x := mkRaft (peers rf) (persister rf) (me rf) (dead rf) (status rf) (currentTerm rf)
  (votedFor rf) (votedTerm rf) (log rf) (lastIncludedTerm rf) (lastIncludedIndex rf) x (electionTime rf)
  (commitIndex rf) (lastApplied rf) (largestIndexMathWithLeader rf) (nextIndex rf) (matchIndex rf)
  (leaderId rf) (applied rf).
Definition set_electionTime rf x := mkRaft (peers rf) (persister rf) (me rf) (dead rf) (status rf)
  (currentTerm rf) (votedFor rf) (votedTerm rf) (log rf) (lastIncludedTerm rf) (lastIncludedIndex rf)
  (lastTime rf) x (commitIndex rf) (lastApplied rf) (largestIndexMathWithLeader rf) (nextIndex rf)
  (matchIndex rf) (leaderId rf) (applied rf).
(** [commitIndex] and [lastApplied]. *)
Definition set_commit rf c a := mkRaft (peers rf) (persister rf) (me rf) (dead rf) (status rf) (currentTerm rf)
  (votedFor rf) (votedTerm rf) (log rf) (lastIncludedTerm rf) (lastIncludedIndex rf) (lastTime rf)
  (electionTime rf) c a (largestIndexMathWithLeader rf) (nextIndex rf) (matchIndex rf)
  (leaderId rf) (applied rf).
Definition set_largest rf x := mkRaft (peers rf) (persister rf) (me rf) (dead rf) (status rf) (currentTerm rf)
  (votedFor rf) (votedTerm rf) (log rf) (lastIncludedTerm rf) (lastIncludedIndex rf) (lastTime rf)
  (electionTime rf) (commitIndex rf) (lastApplied rf) x (nextIndex rf) (matchIndex rf)
  (leaderId rf) (applied rf).
(** [nextIndex] and [matchIndex]. *)
Definition set_indices rf n m := mkRaft (peers rf) (persister rf) (me rf) (dead rf) (status rf) (currentTerm rf)
  (votedFor rf) (votedTerm rf) (log rf) (lastIncludedTerm rf) (lastIncludedIndex rf) (lastTime rf)
  (electionTime rf) (commitIndex rf) (lastApplied rf) (largestIndexMathWithLeader rf) n m
  (leaderId rf) (applied rf).
Definition set_leaderId rf x := mkRaft (peers rf) (persister rf) (me rf) (dead rf) (status rf) (currentTerm rf)
  (votedFor rf) (votedTerm rf) (log rf) (lastIncludedTerm rf) (lastIncludedIndex rf) (lastTime rf)
  (electionTime rf) (commitIndex rf) (lastApplied rf) (largestIndexMathWithLeader rf) (nextIndex rf)
  (matchIndex rf) x (applied rf).
Definition set_applied rf x := mkRaft (peers rf) (persister rf) (me rf) (dead rf) (status rf) (currentTerm rf)
  (votedFor rf) (votedTerm rf) (log rf) (lastIncludedTerm rf) (lastIncludedIndex rf) (lastTime rf)
  (electionTime rf) (commitIndex rf) (lastApplied rf) (largestIndexMathWithLeader rf) (nextIndex rf)
  (matchIndex rf) (leaderId rf) x.
End setters.
