(* ===== verification/RaftGob.v ===== *)
(** * A concrete serialization of Raft's state

    Commands that are integers or [nil], and an instance of the gob interface
    of [Raft] for them, on which the theorems about peers are evaluated. *)

From S2P Require Import Prelude Codec GoSlice Raft.

Abbreviation cmd := (option Z).

#[export] Instance cmd_command : Command cmd := {| nil_command := None; command_eq_dec := _ |}.

#[export] Instance no_spare : AppendGrowth := fun n => n.

Definition entry_pair (e : Entry cmd) : Z * cmd := (Term e, Cmd e).
Definition pair_entry (p : Z * cmd) : Entry cmd := mkEntry p.1 p.2.

Lemma pair_entries (es : list (Entry cmd)) : pair_entry <$> (entry_pair <$> es) = es.
Proof. rewrite <- list_fmap_compose. induction es as [|[t c] es IH]; cbn; [done|]. f_equal. exact IH. Qed.

(** A stream is the list of its values. *)
Definition value_code (v : gob_value cmd) : Z + list (Z * cmd) :=
  match v with GInt z => inl z | GEntries es => inr (entry_pair <$> es) end.

Definition bits_stream (vs : list (gob_value cmd)) : string := put (value_code <$> vs).

Definition bits_value (s : string) (i : nat) : option (Z + list (Z * cmd)) :=
  l ← (get_bits s : option (list (Z + list (Z * cmd)))); l !! i.
Definition bits_stream_int (s : string) (i : nat) : option Z :=
  match bits_value s i with Some (inl z) => Some z | _ => None end.
Definition bits_stream_entries (s : string) (i : nat) : option (list (Entry cmd)) :=
  match bits_value s i with Some (inr es) => Some (pair_entry <$> es) | _ => None end.

Lemma bits_value_stream vs i v : vs !! i = Some v -> bits_value (bits_stream vs) i = Some (value_code v).
Proof. intros Hi. unfold bits_value, bits_stream. rewrite get_put. cbn. by rewrite list_lookup_fmap, Hi. Qed.

Lemma bits_stream_int_law vs i z : vs !! i = Some (GInt z) -> bits_stream_int (bits_stream vs) i = Some z.
Proof. intros Hi%bits_value_stream. unfold bits_stream_int. by rewrite Hi. Qed.

Lemma bits_stream_entries_law vs i es :
  vs !! i = Some (GEntries es) -> bits_stream_entries (bits_stream vs) i = Some es.
Proof. intros Hi%bits_value_stream. unfold bits_stream_entries. rewrite Hi. cbn. by rewrite pair_entries. Qed.

Definition bits_encode_entries (es : list (Entry cmd)) : string := put (entry_pair <$> es).

Definition bits_decode_entries (s : string) : option (option (list (Entry cmd))) :=
  l ← (get_bits s : option (list (Z * cmd)));
  Some (match l with [] => None | _ => Some (pair_entry <$> l) end).

Lemma bits_entries_law es : es <> [] -> bits_decode_entries (bits_encode_entries es) = Some (Some es).
Proof.
  intros Hne. unfold bits_decode_entries, bits_encode_entries. rewrite get_put. cbn.
  destruct es as [|e es]; [done|]. do 2 f_equal. exact (pair_entries (e :: es)).
Qed.

Lemma bits_entries_empty : exists r, bits_decode_entries (bits_encode_entries []) = Some r /\ default [] r = [].
Proof. exists None. unfold bits_decode_entries, bits_encode_entries. by rewrite get_put. Qed.

#[export] Instance bits_gob : Gob cmd := {|
  gob_stream := bits_stream;
  stream_int := bits_stream_int;
  stream_entries := bits_stream_entries;
  stream_int_law := bits_stream_int_law;
  stream_entries_law := bits_stream_entries_law;
  stream_nonempty vs _ := put_nonempty _;
  encode_entries := bits_encode_entries;
  decode_entries := bits_decode_entries;
  entries_law := bits_entries_law;
  entries_empty_law := bits_entries_empty;
  entries_nonempty es := put_nonempty _;
  encode_command := put;
  decode_int s := match get_bits s with Some (Some z) => Some (Some z) | _ => None end;
|}.

