(* ===== verification/RaftOps.v ===== *)
(** * The operations of a Raft peer (src/src/raft/raft.go)

    One definition per function; a function that releases the lock while it
    waits for an RPC is split at that point into the section that builds the
    arguments and the section that handles the reply.  [now] is the value of
    [time.Now()]. *)

From S2P Require Import Prelude GoSlice Raft.

Section ops.
Context {C : Type} `{!Command C, !Gob C, !AppendGrowth}.
Implicit Types (rf : Raft C).

Definition zero_entry : Entry C := mkEntry 0 nil_command.

Definition getRelativeIndex rf (absoluteIndex : Z) : Z := absoluteIndex - lastIncludedIndex rf.
Definition getAbsoluteIndex rf (relativeIndex : Z) : Z := relativeIndex + lastIncludedIndex rf.

(** [len(rf.log)]. *)
Definition log_len rf : Z := Z.of_nat (len (log rf)).

Definition go_min (a b : Z) : Z := if a >? b then b else a.
Definition go_max (a b : Z) : Z := if a >? b then a else b.

Definition serialEntries (entries : list (Entry C)) : string := encode_entries entries.

(** The result is [None] for a [nil] slice. *)
Definition d_serialEntries (receivedBytes : string) : outcome (option (list (Entry C))) :=
  if String.eqb receivedBytes EmptyString then Ret None
  else match decode_entries receivedBytes with Some r => Ret r | None => Panic Fatal end.

Definition GetState rf : Z * bool := (currentTerm rf, String.eqb (status rf) "leader").

(** ** Persistence *)

(** [labgob.NewEncoder] on an empty buffer, and [Encode]: the values written so
    far. *)
Definition lab_NewEncoder : list (gob_value C) := [].
Definition lab_Encode (v : gob_value C) (e : list (gob_value C)) : list (gob_value C) := e ++ [v].

(** [labgob.NewDecoder]: the bytes and the number of values read. *)
Record Decoder := mkDecoder { dc_bytes : string; dc_read : nat }.

Definition lab_NewDecoder (data : string) : Decoder := mkDecoder data 0.
Definition lab_Decode_int (d : Decoder) : option (Z * Decoder) :=
  (fun z => (z, mkDecoder (dc_bytes d) (S (dc_read d)))) <$> stream_int (dc_bytes d) (dc_read d).
Definition lab_Decode_entries (d : Decoder) : option (list (Entry C) * Decoder) :=
  (fun es => (es, mkDecoder (dc_bytes d) (S (dc_read d)))) <$> stream_entries (dc_bytes d) (dc_read d).

Definition persist rf : Raft C :=
  let e := lab_NewEncoder in
  let e := lab_Encode (GInt (currentTerm rf)) e in
  let e := lab_Encode (GInt (votedFor rf)) e in
  let e := lab_Encode (GInt (votedTerm rf)) e in
  let e := lab_Encode (GEntries (elems (log rf))) e in
  let e := lab_Encode (GInt (lastIncludedTerm rf)) e in
  let e := lab_Encode (GInt (lastIncludedIndex rf)) e in
  let data := gob_stream e in
  set_persister rf (SaveRaftState data (persister rf)).

(** The calls of [Decode] in [readPersist]; [None] when one of them fails. *)
Definition decode_durable (data : string) : option (durable C) :=
  let d := lab_NewDecoder data in
  '(currentTerm, d) ← lab_Decode_int d;
  '(votedFor, d) ← lab_Decode_int d;
  '(votedTerm, d) ← lab_Decode_int d;
  '(restoredLog, d) ← lab_Decode_entries d;
  '(lastIncludedTerm, d) ← lab_Decode_int d;
  '(lastIncludedIndex, d) ← lab_Decode_int d;
  Some (mkDurable currentTerm votedFor votedTerm restoredLog lastIncludedTerm lastIncludedIndex).

Definition readPersist rf (data : string) : outcome (Raft C) :=
  if String.eqb data EmptyString then Ret rf
  else match decode_durable data with
       | None => Panic Fatal
       | Some d =>
           Ret (set_lastIncluded (set_log (set_vote (set_currentTerm rf (d_currentTerm d))
             (d_votedFor d) (d_votedTerm d)) (of_list (d_log d))) (d_lastIncludedTerm d) (d_lastIncludedIndex d))
       end.

(** ** Snapshots *)

Definition CondInstallSnapshot rf (lastTerm lastIndex : Z) (snap : string) : outcome (Raft C * bool) :=
  if (lastIndex <=? commitIndex rf) || (lastIndex <=? lastIncludedIndex rf) then Ret (rf, false)
  else match decode_int snap with
       | None => Panic Fatal
       | Some cmd =>
           let rf := set_log rf (of_list [mkEntry lastTerm cmd]) in
           let rf := set_lastIncluded rf lastTerm lastIndex in
           let rf := set_commit rf lastIndex lastIndex in
           Ret (persist rf, true)
       end.

(** The body of the goroutine that [Snapshot] starts.  [d_serialEntries] of a
    [nil] slice would leave a log without entries. *)
Definition Snapshot rf (index : Z) : outcome (Raft C) :=
  if index <=? lastIncludedIndex rf then Ret rf
  else
    e ← slice_idx (log rf) (getRelativeIndex rf index);
    tail ← elems_from (log rf) (getRelativeIndex rf index);
    restored ← d_serialEntries (serialEntries tail);
    let rf := set_log rf (of_list (default [] restored)) in
    let rf := set_lastIncluded rf (Term e) index in
    Ret (persist rf).

Definition InstallSnapshot rf (args : InstallSnapshotArgs) (now : Z) :
    Raft C * InstallSnapshotReply * list (task C) :=
  let reply := mkInstallReply (currentTerm rf) in
  if is_Term args <? currentTerm rf then (rf, reply, [])
  else
    let rf := if currentTerm rf <? is_Term args then persist (set_currentTerm rf (is_Term args)) else rf in
    let rf := set_leaderId (set_lastTime (set_status rf "follower") now) (is_LeaderId args) in
    let applyMsg := mkApplyMsg false nil_command 0 true (is_Snapshot args) (is_LastIncludedTerm args)
                      (is_LastIncludedIndex args) in
    (rf, reply, [SendApply applyMsg]).

(** ** Voting *)

Definition isAdvanceThanCandidate rf (LastLogTerm LastLogIndex : Z) : outcome bool :=
  let tail := log_len rf - 1 in
  e ← slice_idx (log rf) tail;
  if LastLogTerm <? Term e then Ret true
  else if Term e <? LastLogTerm then Ret false
  else Ret (LastLogIndex <? getAbsoluteIndex rf tail).

Definition RequestVote rf (args : RequestVoteArgs) (now : Z) : outcome (Raft C * RequestVoteReply) :=
  let reply := mkVoteReply (currentTerm rf) false in
  let granted := mkVoteReply (currentTerm rf) true in
  if rv_Term args =? currentTerm rf then
    adv ← isAdvanceThanCandidate rf (rv_LastLogTerm args) (rv_LastLogIndex args);
    if negb adv && (votedTerm rf <? rv_Term args) then
      let rf := set_vote rf (rv_CandidateId args) (rv_Term args) in
      let rf := set_status (set_lastTime rf now) "follower" in
      let rf := set_largest (set_leaderId rf (rv_CandidateId args)) 0 in
      Ret (persist rf, granted)
    else Ret (rf, reply)
  else if currentTerm rf <? rv_Term args then
    let rf := set_status (set_currentTerm rf (rv_Term args)) "follower" in
    adv ← isAdvanceThanCandidate rf (rv_LastLogTerm args) (rv_LastLogIndex args);
    if negb adv then
      let rf := set_lastTime (set_vote rf (rv_CandidateId args) (rv_Term args)) now in
      let rf := set_largest (set_leaderId rf (rv_CandidateId args)) 0 in
      Ret (persist rf, granted)
    else Ret (persist rf, reply)
  else Ret (rf, reply).

(** ** Appending *)

(** The loop that steps back over the entries of the conflicting term [t]. *)
Fixpoint back_loop rf (t : Z) (fuel : nat) (newPrev : Z) : outcome Z :=
  match fuel with
  | 0%nat => NoFuel
  | S fuel =>
      if 0 <? newPrev then
        e ← slice_idx (log rf) (getRelativeIndex rf newPrev);
        if Term e =? t then back_loop rf t fuel (newPrev - 1) else Ret newPrev
      else Ret newPrev
  end.

Definition isMatchPrevLog rf (prevIndex prevTerm : Z) : outcome (bool * Z) :=
  if getAbsoluteIndex rf (log_len rf) <=? prevIndex then
    Ret (false, getAbsoluteIndex rf (log_len rf) - 1)
  else if prevIndex <=? lastIncludedIndex rf then Ret (true, lastIncludedIndex rf)
  else
    e ← slice_idx (log rf) (getRelativeIndex rf prevIndex);
    if negb (Term e =? prevTerm) then
      newPrev ← back_loop rf (Term e) (S (Z.to_nat prevIndex)) prevIndex;
      Ret (false, newPrev)
    else Ret (true, prevIndex).

(** Storing the entries of a leader.  [append] on a prefix of [rf.log] may
    overwrite the array that [rf.log] itself uses. *)
Definition store_entries rf (prevIndex : Z) (restored : list (Entry C)) : outcome (Raft C) :=
  if 0 <? getRelativeIndex rf (prevIndex + 1) then
    pre ← slice_to (log rf) (getRelativeIndex rf (prevIndex + 1));
    let '(newLog, a) := append zero_entry pre restored in
    let rf := set_log rf (mkSlice a (len (log rf))) in
    let newLast := getAbsoluteIndex rf (Z.of_nat (len newLog) - 1) in
    if largestIndexMathWithLeader rf <? newLast then
      Ret (persist (set_largest (set_log rf newLog) newLast))
    else Ret rf
  else Ret rf.

Definition AppendEntries rf (args : AppendEntriesArgs) (now : Z) :
    outcome (Raft C * AppendEntriesReply * list (task C)) :=
  let term := currentTerm rf in
  if ae_Term args <? currentTerm rf then Ret (rf, mkAppendReply term false 0, [])
  else
    let rf := if currentTerm rf <? ae_Term args then persist (set_currentTerm rf (ae_Term args)) else rf in
    let rf := set_status (set_lastTime rf now) "follower" in
    '(ok, newPrev) ← isMatchPrevLog rf (PrevLogIndex args) (PrevLogTerm args);
    if negb ok then Ret (rf, mkAppendReply term false newPrev, [])
    else
      restored ← d_serialEntries (Entries args);
      rf ← match restored with
           | Some es => store_entries rf (PrevLogIndex args) es
           | None => Ret rf
           end;
      let newIndex := go_min (LeaderCommit args) (PrevLogIndex args) in
      let ts := if commitIndex rf <? newIndex then [ApplyNewCommand newIndex] else [] in
      Ret (rf, mkAppendReply term true 0, ts).

(** ** Clients *)

Definition Kill rf : Raft C := set_dead rf true.
Definition killed rf : bool := dead rf.

Definition Start rf (command : C) : Raft C * (Z * Z * bool) * list (task C) :=
  if killed rf || negb (String.eqb (status rf) "leader") then (rf, (-1, -1, false), [])
  else
    let rf := set_log rf (append zero_entry (log rf) [mkEntry (currentTerm rf) command]).1 in
    let rf := persist rf in
    (rf, (getAbsoluteIndex rf (log_len rf - 1), currentTerm rf, true), [ReplicatedEntries]).

(** ** Applying *)

Definition command_msg (c : C) (i : Z) : ApplyMsg C := mkApplyMsg true c i false EmptyString 0 0.

(** The loop that sends [n] commands from index [i] on. *)
Fixpoint apply_loop rf (n : nat) (i : Z) : outcome (Raft C) :=
  match n with
  | 0%nat => Ret rf
  | S n =>
      e ← slice_idx (log rf) (getRelativeIndex rf i);
      apply_loop (set_applied rf (applied rf ++ [command_msg (Cmd e) i])) n (i + 1)
  end.

Definition applyNewCommand rf (newIndex : Z) : outcome (Raft C) :=
  let LastIndex := getAbsoluteIndex rf (log_len rf - 1) in
  let rf := set_commit rf (commitIndex rf) (go_max (lastApplied rf) (lastIncludedIndex rf)) in
  rf ← apply_loop rf (Z.to_nat (go_min newIndex LastIndex - lastApplied rf)) (lastApplied rf + 1);
  Ret (set_commit rf newIndex newIndex).

(** Whether enough of the peers [js] match index [i]. *)
Fixpoint count_loop rf (i : Z) (js : list nat) (others : nat) : outcome bool :=
  match js with
  | [] => Ret false
  | j :: js =>
      if Z.of_nat j =? me rf then count_loop rf i js others
      else
        m ← idx (matchIndex rf) (Z.of_nat j);
        let others := if i <=? m then S others else others in
        if decide (peers rf / 2 <= others)%nat then Ret true else count_loop rf i js others
  end.

(** The loop over the [n] indices from [i] downwards. *)
Fixpoint commit_loop rf (n : nat) (i : Z) : outcome (option Z) :=
  match n with
  | 0%nat => Ret None
  | S n =>
      flag ← count_loop rf i (seq 0 (peers rf)) 0;
      if flag : bool then Ret (Some i) else commit_loop rf n (i - 1)
  end.

Definition leaderApply rf : outcome (Raft C) :=
  if negb (String.eqb (status rf) "leader") then Ret rf
  else
    let last := getAbsoluteIndex rf (log_len rf - 1) in
    r ← commit_loop rf (Z.to_nat (last - commitIndex rf)) last;
    match r with
    | None => Ret rf
    | Some newIndex =>
        let rf := set_commit rf newIndex (lastApplied rf) in
        rf ← apply_loop rf (Z.to_nat (newIndex - lastApplied rf)) (lastApplied rf + 1);
        Ret (set_commit rf (commitIndex rf) newIndex)
    end.

(** ** Elections *)

(** The local variables of one pass of [ticker]. *)
Record election := mkElection {
  el_args : RequestVoteArgs;
  el_total : nat;
  el_count : nat;
  el_finished : nat;
}.

Definition majority (el : election) : nat := (el_total el / 2 + 1)%nat.

(** Up to the point where the vote requests are sent; [None] when the peer is
    no candidate any more. *)
Definition start_election rf (now time : Z) : outcome (option (Raft C * election)) :=
  if negb (String.eqb (status rf) "candidate") then Ret None
  else
    let rf := set_currentTerm rf (currentTerm rf + 1) in
    let rf := persist (set_vote rf (me rf) (currentTerm rf)) in
    let rf := set_electionTime (set_lastTime rf now) time in
    e ← slice_idx (log rf) (log_len rf - 1);
    let args := mkVoteArgs (currentTerm rf) (me rf) (getAbsoluteIndex rf (log_len rf - 1)) (Term e) in
    Ret (Some (rf, mkElection args (peers rf) 1 1)).

(** The section of a vote goroutine that handles a reply; [false] when the
    goroutine returns. *)
Definition vote_reply rf (el : election) (reply : RequestVoteReply) : Raft C * election * bool :=
  if negb (String.eqb (status rf) "candidate") then (rf, el, false)
  else if VoteGranted reply then
    (rf, mkElection (el_args el) (el_total el) (S (el_count el)) (el_finished el), true)
  else if currentTerm rf <? rvr_Term reply then
    (set_status (persist (set_currentTerm rf (rvr_Term reply))) "follower", el, true)
  else (rf, el, true).

(** The last section of a vote goroutine. *)
Definition vote_finished (el : election) : election :=
  mkElection (el_args el) (el_total el) (el_count el) (S (el_finished el)).

(** The condition on which [ticker] keeps waiting. *)
Definition election_waits rf (el : election) (now : Z) : bool :=
  String.eqb (status rf) "candidate" && bool_decide (el_count el < majority el)%nat &&
  negb (bool_decide (el_finished el = el_total el)) && (now - lastTime rf <=? electionTime rf).

Definition becomeLeaderInit rf : Raft C :=
  set_indices (set_status rf "leader")
    (replicate (peers rf) (getAbsoluteIndex rf (log_len rf))) (replicate (peers rf) 0).

(** After the wait. *)
Definition finish_election rf (el : election) : Raft C * list (task C) :=
  if String.eqb (status rf) "candidate" && bool_decide (majority el <= el_count el)%nat
  then (becomeLeaderInit rf, [WakeHeartBeats]) else (rf, []).

(** The goroutine that restarts an election that takes too long. *)
Definition election_timer rf : list (task C) :=
  if String.eqb (status rf) "candidate" then [WakeElection] else [].

(** One pass of [checkState]. *)
Definition checkState rf (now : Z) : Raft C * list (task C) :=
  if String.eqb (status rf) "follower" && (electionTime rf <? now - lastTime rf)
  then (set_status rf "candidate", [WakeElection]) else (rf, []).

(** ** The leader's requests *)

Definition heartbeat_args rf (server : Z) : outcome (option AppendEntriesArgs) :=
  if negb (String.eqb (status rf) "leader") then Ret None
  else
    n ← idx (nextIndex rf) server;
    if n <=? lastIncludedIndex rf then Ret None
    else
      e ← slice_idx (log rf) (getRelativeIndex rf (n - 1));
      Ret (Some (mkAppendArgs (currentTerm rf) (me rf) (n - 1) (Term e) EmptyString (commitIndex rf))).

Definition heartbeat_reply rf (server : Z) (reply : AppendEntriesReply) (now : Z) :
    outcome (Raft C * list (task C)) :=
  if negb (String.eqb (status rf) "leader") then Ret (rf, [])
  else if negb (Success reply) then
    if currentTerm rf <? aer_Term reply then
      Ret (set_status (set_lastTime (persist (set_currentTerm rf (aer_Term reply))) now) "follower", [])
    else
      ns ← idx_set (nextIndex rf) server (NewPrevLogIndex reply + 1);
      Ret (set_indices rf ns (matchIndex rf), [])
  else
    n ← idx (nextIndex rf) server;
    Ret (rf, if n <? getAbsoluteIndex rf (log_len rf) then [ReplicatedEntriesToOne server] else []).

Definition snapshot_args rf (server : Z) : outcome (option InstallSnapshotArgs) :=
  if negb (String.eqb (status rf) "leader") then Ret None
  else
    n ← idx (nextIndex rf) server;
    if lastIncludedIndex rf <? n then Ret None
    else
      e ← slice_idx (log rf) 0;
      Ret (Some (mkInstallArgs (currentTerm rf) (me rf) (lastIncludedIndex rf) (lastIncludedTerm rf)
                   (encode_command (Cmd e)))).

Definition snapshot_reply rf (server : Z) (reply : InstallSnapshotReply) : outcome (Raft C) :=
  if negb (String.eqb (status rf) "leader") then Ret rf
  else if currentTerm rf <? isr_Term reply then
    Ret (set_status (persist (set_currentTerm rf (isr_Term reply))) "follower")
  else
    ns ← idx_set (nextIndex rf) server (getAbsoluteIndex rf (log_len rf));
    Ret (set_indices rf ns (matchIndex rf)).

(** The arguments and [sendLogLastIndex]. *)
Definition replicate_args rf (server : Z) : outcome (option (AppendEntriesArgs * Z)) :=
  if negb (String.eqb (status rf) "leader") then Ret None
  else
    n ← idx (nextIndex rf) server;
    if n <=? lastIncludedIndex rf then Ret None
    else
      e ← slice_idx (log rf) (getRelativeIndex rf (n - 1));
      es ← elems_from (log rf) (getRelativeIndex rf n);
      Ret (Some (mkAppendArgs (currentTerm rf) (me rf) (n - 1) (Term e) (serialEntries es) 0,
                 getAbsoluteIndex rf (log_len rf) - 1)).

Definition replicate_reply rf (server : Z) (sendLogLastIndex : Z) (reply : AppendEntriesReply) (now : Z) :
    outcome (Raft C) :=
  if negb (String.eqb (status rf) "leader") then Ret rf
  else if negb (Success reply) then
    if currentTerm rf <? aer_Term reply then
      Ret (set_status (set_lastTime (persist (set_currentTerm rf (aer_Term reply))) now) "follower")
    else
      ns ← idx_set (nextIndex rf) server (NewPrevLogIndex reply + 1);
      Ret (set_indices rf ns (matchIndex rf))
  else
    ns ← idx_set (nextIndex rf) server (getAbsoluteIndex rf (log_len rf));
    ms ← idx_set (matchIndex rf) server sendLogLastIndex;
    leaderApply (set_indices rf ns ms).

(** The peers that [replicatedEntries] and [sendHeartBeats] address. *)
Definition other_peers rf : list Z :=
  filter (fun i => i <> me rf) (Z.of_nat <$> seq 0 (peers rf)).

(** ** Creation *)

Definition Make (peers : nat) (me : Z) (persister : Persister) (now electionTime : Z) : outcome (Raft C) :=
  let rf := mkRaft peers persister me false "follower" 0 0 0 (of_list [zero_entry]) 0 0 now electionTime
              0 0 0 [] [] 0 [] in
  readPersist rf (ReadRaftState persister).

(** ** What is persisted *)

(** The part of the state that is persisted, and the bytes that [persist]
    writes for it. *)
Definition durable_of rf : durable C :=
  mkDurable (currentTerm rf) (votedFor rf) (votedTerm rf) (elems (log rf)) (lastIncludedTerm rf)
    (lastIncludedIndex rf).
Definition encode_durable (d : durable C) : string :=
  gob_stream [GInt (d_currentTerm d); GInt (d_votedFor d); GInt (d_votedTerm d); GEntries (d_log d);
    GInt (d_lastIncludedTerm d); GInt (d_lastIncludedIndex d)].

Lemma durable_nonempty d : encode_durable d <> EmptyString.
Proof. by apply stream_nonempty. Qed.

(** What is written by [persist] is read back by [readPersist]. *)
Lemma durable_law d : decode_durable (encode_durable d) = Some d.
Proof.
  unfold decode_durable, lab_Decode_int, lab_Decode_entries, lab_NewDecoder, encode_durable. cbn [dc_bytes dc_read].
  rewrite (stream_int_law _ 0 (d_currentTerm d)) by done. cbn.
  rewrite (stream_int_law _ 1 (d_votedFor d)) by done. cbn.
  rewrite (stream_int_law _ 2 (d_votedTerm d)) by done. cbn.
  rewrite (stream_entries_law _ 3 (d_log d)) by done. cbn.
  rewrite (stream_int_law _ 4 (d_lastIncludedTerm d)) by done. cbn.
  rewrite (stream_int_law _ 5 (d_lastIncludedIndex d)) by done. cbn. by destruct d.
Qed.

End ops.
