(* ===== verification/RaftVote.v ===== *)
(** * Terms and votes of one peer

    Every operation of a peer, and a restart from its persister, keeps the
    term and vote on stable storage equal to those in memory; terms never
    decrease, and a peer votes at most once per term, also across crashes. *)

From S2P Require Import Prelude GoSlice Raft RaftOps.

(** The vote that an operation casts: a term and a candidate. *)
Abbreviation vote := (Z * Z)%type.

Section vote.
Context {C : Type} `{!Command C, !Gob C, !AppendGrowth}.
Implicit Types (rf : Raft C).

(** What a restart would read back. *)
Definition stored rf : option (durable C) :=
  if String.eqb (ReadRaftState (persister rf)) EmptyString
  then Some (mkDurable 0 0 0 [zero_entry] 0 0)
  else decode_durable (ReadRaftState (persister rf)).

Lemma stored_persist rf : stored (persist rf) = Some (durable_of rf).
Proof.
  assert (ReadRaftState (persister (persist rf)) = encode_durable (durable_of rf)) as Hr by done.
  unfold stored. rewrite Hr. destruct (String.eqb_spec (encode_durable (durable_of rf)) EmptyString) as [E|_].
  - by apply durable_nonempty in E.
  - apply durable_law.
Qed.

(** The term and the vote. *)
Definition ballot rf : Z * Z * Z := (currentTerm rf, votedFor rf, votedTerm rf).
Definition stored_ballot rf : option (Z * Z * Z) :=
  (fun d => (d_currentTerm d, d_votedFor d, d_votedTerm d)) <$> stored rf.

Record vote_inv rf : Prop := {
  vi_term : votedTerm rf <= currentTerm rf;
  vi_stored : stored_ballot rf = Some (ballot rf);
}.

Lemma vote_inv_persist rf : votedTerm rf <= currentTerm rf -> vote_inv (persist rf).
Proof. intros Hle. split; [done|]. unfold stored_ballot. by rewrite stored_persist. Qed.

(** What never changes. *)
Definition identity rf : Z * nat := (me rf, peers rf).

(** Changes that concern neither the ballot nor the persister. *)
Definition same_ballot rf rf' : Prop :=
  ballot rf' = ballot rf /\ persister rf' = persister rf /\ identity rf' = identity rf.

Lemma vote_inv_same rf rf' : same_ballot rf rf' -> vote_inv rf -> vote_inv rf'.
Proof.
  intros (Hb & Hp & _) [Ht Hs]. unfold ballot in Hb. injection Hb as H1 H2 H3. split; [lia|].
  unfold stored_ballot, stored, ballot in *. rewrite Hp, Hs. congruence.
Qed.

(** ** Steps *)

(** How an operation changes the ballot. *)
Record ballot_step rf (v : option vote) rf' : Prop := {
  bs_inv : vote_inv rf';
  bs_term : currentTerm rf <= currentTerm rf';
  bs_vote : match v with
            | None => votedTerm rf' = votedTerm rf /\ votedFor rf' = votedFor rf
            | Some (t, c) => votedTerm rf < t /\ votedTerm rf' = t /\ votedFor rf' = c /\ currentTerm rf' = t
            end;
  bs_identity : identity rf' = identity rf;
}.

Lemma ballot_step_same rf rf' : vote_inv rf -> same_ballot rf rf' -> ballot_step rf None rf'.
Proof.
  intros Hi Hs. split; [by eapply vote_inv_same|..]; destruct Hs as ([= H1 H2 H3] & _ & H4); [lia|done|done].
Qed.

(** A change that is persisted. *)
Lemma ballot_step_persist rf rf' :
  vote_inv rf -> currentTerm rf <= currentTerm rf' -> votedTerm rf' = votedTerm rf ->
  votedFor rf' = votedFor rf -> identity rf' = identity rf -> ballot_step rf None (persist rf').
Proof.
  intros [Ht _] H1 H2 H3 H4. split; [apply vote_inv_persist; lia|done|done|done].
Qed.

Lemma ballot_step_then rf v rf1 rf2 : ballot_step rf v rf1 -> same_ballot rf1 rf2 -> ballot_step rf v rf2.
Proof.
  intros [Hi Ht Hv Hid] Hs. split; [by eapply vote_inv_same|..]; destruct Hs as ([= H1 H2 H3] & _ & H4);
    [lia| |congruence]. rewrite H1, H2, H3. done.
Qed.

Ltac same := repeat split.

Lemma RequestVote_ballot rf args now rf' reply :
  vote_inv rf -> RequestVote rf args now = Ret (rf', reply) ->
  ballot_step rf (if VoteGranted reply then Some (rv_Term args, rv_CandidateId args) else None) rf'.
Proof.
  intros Hi. pose proof (vi_term rf Hi) as Hle. unfold RequestVote.
  destruct (Z.eqb_spec (rv_Term args) (currentTerm rf)) as [Heq|Hne].
  - intros (adv & _ & Hr)%bind_ret_inv. destruct adv; cbn [negb andb] in Hr.
    { injection Hr as <- <-. by apply ballot_step_same. }
    destruct (Z.ltb_spec (votedTerm rf) (rv_Term args)) as [Hlt|_]; injection Hr as <- <-;
      [|by apply ballot_step_same].
    split; cbn; [apply vote_inv_persist; cbn; lia|lia|lia|done].
  - destruct (Z.ltb_spec (currentTerm rf) (rv_Term args)) as [Hlt|_];
      [|intros [= <- <-]; by apply ballot_step_same].
    intros (adv & _ & Hr)%bind_ret_inv. destruct adv; injection Hr as <- <-.
    + apply ballot_step_persist; cbn; [done|lia|done|done|done].
    + split; cbn; [apply vote_inv_persist; cbn; lia|lia|lia|done].
Qed.

Lemma store_entries_ballot rf prev es rf' :
  vote_inv rf -> store_entries rf prev es = Ret rf' -> ballot_step rf None rf'.
Proof.
  intros Hi. unfold store_entries. destruct (0 <? _); [|intros [= <-]; by apply ballot_step_same].
  intros (pre & _ & Hr)%bind_ret_inv. destruct (append _ _ _) as [newLog a].
  destruct (_ <? _); injection Hr as <-; [|by apply ballot_step_same].
  apply ballot_step_persist; cbn; [done|lia|done|done|done].
Qed.

(** The first lines of a handler that meets the term [t] of a leader. *)
Lemma meet_term_ballot rf t :
  vote_inv rf -> ballot_step rf None (if currentTerm rf <? t then persist (set_currentTerm rf t) else rf).
Proof.
  intros Hi. destruct (Z.ltb_spec (currentTerm rf) t); [|by apply ballot_step_same].
  apply ballot_step_persist; cbn; [done|lia|done|done|done].
Qed.

Lemma ballot_step_trans rf rf1 v rf2 :
  ballot_step rf None rf1 -> ballot_step rf1 v rf2 -> ballot_step rf v rf2.
Proof.
  intros [_ Ht [Hv1 Hv2] Hid] [Hi' Ht' Hv' Hid']. split; [done|lia| |congruence]. destruct v as [[t c]|]; [|naive_solver congruence].
  destruct Hv' as (? & ? & ? & ?). split_and!; [lia|done..].
Qed.

Lemma AppendEntries_ballot rf args now rf' reply ts :
  vote_inv rf -> AppendEntries rf args now = Ret (rf', reply, ts) -> ballot_step rf None rf'.
Proof.
  intros Hi. unfold AppendEntries. destruct (_ <? _); [intros [= <- _ _]; by apply ballot_step_same|].
  set (rf1 := if _ : bool then _ else _).
  assert (ballot_step rf None (set_status (set_lastTime rf1 now) "follower")) as H1.
  { eapply ballot_step_then; [by apply meet_term_ballot|same]. }
  intros ([ok newPrev] & _ & Hr)%bind_ret_inv. destruct ok; cbn [negb] in Hr; [|by injection Hr as <- _ _].
  apply bind_ret_inv in Hr as (restored & _ & Hr). apply bind_ret_inv in Hr as (rf2 & Hs & [= <- _ _]).
  eapply ballot_step_trans; [exact H1|]. destruct restored as [es|].
  - eapply store_entries_ballot; [apply H1|done].
  - injection Hs as <-. apply ballot_step_same; [apply H1|same].
Qed.

Lemma InstallSnapshot_ballot rf args now rf' reply ts :
  vote_inv rf -> InstallSnapshot rf args now = (rf', reply, ts) -> ballot_step rf None rf'.
Proof.
  intros Hi. unfold InstallSnapshot. destruct (_ <? _); [intros [= <- _ _]; by apply ballot_step_same|].
  intros [= <- _ _]. eapply ballot_step_then; [by apply meet_term_ballot|same].
Qed.

Lemma CondInstallSnapshot_ballot rf t i snap rf' b :
  vote_inv rf -> CondInstallSnapshot rf t i snap = Ret (rf', b) -> ballot_step rf None rf'.
Proof.
  intros Hi. unfold CondInstallSnapshot. destruct (_ || _); [intros [= <- _]; by apply ballot_step_same|].
  destruct (decode_int snap); [|done]. intros [= <- _]. apply ballot_step_persist; cbn; [done|lia|done|done|done].
Qed.

Lemma Snapshot_ballot rf i rf' : vote_inv rf -> Snapshot rf i = Ret rf' -> ballot_step rf None rf'.
Proof.
  intros Hi. unfold Snapshot. destruct (_ <=? _); [intros [= <-]; by apply ballot_step_same|].
  intros Hr. inv_ret. apply ballot_step_persist; cbn; [done|lia|done|done|done].
Qed.

Lemma Start_ballot rf c rf' r ts : vote_inv rf -> Start rf c = (rf', r, ts) -> ballot_step rf None rf'.
Proof.
  intros Hi. unfold Start. destruct (_ || _); [intros [= <- _ _]; by apply ballot_step_same|].
  intros [= <- _ _]. apply ballot_step_persist; cbn; [done|lia|done|done|done].
Qed.

Lemma apply_loop_same rf n i rf' : apply_loop rf n i = Ret rf' -> same_ballot rf rf'.
Proof.
  revert rf i. induction n as [|n IH]; intros rf i; cbn [apply_loop]; [intros [= <-]; same|].
  intros (e & _ & Hr)%bind_ret_inv. by apply IH in Hr.
Qed.

Lemma applyNewCommand_ballot rf i rf' :
  vote_inv rf -> applyNewCommand rf i = Ret rf' -> ballot_step rf None rf'.
Proof.
  intros Hi. unfold applyNewCommand. intros (rf1 & Hl & [= <-])%bind_ret_inv.
  apply apply_loop_same in Hl. by apply ballot_step_same.
Qed.

Lemma leaderApply_same rf rf' : leaderApply rf = Ret rf' -> same_ballot rf rf'.
Proof.
  unfold leaderApply. destruct (negb _); [intros [= <-]; same|].
  intros (r & _ & Hr)%bind_ret_inv. destruct r as [i|]; [|injection Hr as <-; same].
  apply bind_ret_inv in Hr as (rf1 & Hl & [= <-]). by apply apply_loop_same in Hl.
Qed.

Lemma start_election_ballot rf now time rf' el :
  vote_inv rf -> start_election rf now time = Ret (Some (rf', el)) ->
  ballot_step rf (Some (currentTerm rf + 1, me rf)) rf' /\
  rv_Term (el_args el) = currentTerm rf + 1 /\ rv_CandidateId (el_args el) = me rf /\
  el_count el = 1%nat /\ el_total el = peers rf.
Proof.
  intros Hi. pose proof (vi_term rf Hi). unfold start_election. destruct (negb _); [done|].
  intros (e & _ & [= <- <-])%bind_ret_inv. cbn. split; [|done].
  apply (ballot_step_then _ _
    (persist (set_vote (set_currentTerm rf (currentTerm rf + 1)) (me rf) (currentTerm rf + 1)))); [|same].
  split; cbn; [apply vote_inv_persist; cbn; lia|lia|lia|done].
Qed.

Lemma vote_reply_ballot rf el reply rf' el' b :
  vote_inv rf -> vote_reply rf el reply = (rf', el', b) -> ballot_step rf None rf'.
Proof.
  intros Hi. unfold vote_reply. destruct (negb _); [intros [= <- _ _]; by apply ballot_step_same|].
  destruct (VoteGranted reply); [intros [= <- _ _]; by apply ballot_step_same|].
  destruct (Z.ltb_spec (currentTerm rf) (rvr_Term reply)); intros [= <- _ _]; [|by apply ballot_step_same].
  apply (ballot_step_then _ _ (persist (set_currentTerm rf (rvr_Term reply)))); [|same].
  apply ballot_step_persist; cbn; [done|lia|done|done|done].
Qed.

Lemma step_down_ballot rf t now :
  vote_inv rf -> currentTerm rf < t ->
  ballot_step rf None (set_status (set_lastTime (persist (set_currentTerm rf t)) now) "follower").
Proof.
  intros Hi Ht. apply (ballot_step_then _ _ (persist (set_currentTerm rf t))); [|same]. apply ballot_step_persist; cbn; [done|lia|done|done|done].
Qed.

Lemma heartbeat_reply_ballot rf server reply now rf' ts :
  vote_inv rf -> heartbeat_reply rf server reply now = Ret (rf', ts) -> ballot_step rf None rf'.
Proof.
  intros Hi. unfold heartbeat_reply. destruct (negb _); [intros [= <- _]; by apply ballot_step_same|].
  destruct (negb _).
  - destruct (Z.ltb_spec (currentTerm rf) (aer_Term reply)).
    + intros [= <- _]. by apply step_down_ballot.
    + intros (ns & _ & [= <- _])%bind_ret_inv. by apply ballot_step_same.
  - intros (n & _ & [= <- _])%bind_ret_inv. by apply ballot_step_same.
Qed.

Lemma snapshot_reply_ballot rf server reply rf' :
  vote_inv rf -> snapshot_reply rf server reply = Ret rf' -> ballot_step rf None rf'.
Proof.
  intros Hi. unfold snapshot_reply. destruct (negb _); [intros [= <-]; by apply ballot_step_same|].
  destruct (Z.ltb_spec (currentTerm rf) (isr_Term reply)).
  - intros [= <-]. apply (ballot_step_then _ _ (persist (set_currentTerm rf (isr_Term reply)))); [|same].
    apply ballot_step_persist; cbn; [done|lia|done|done|done].
  - intros (ns & _ & [= <-])%bind_ret_inv. by apply ballot_step_same.
Qed.

Lemma replicate_reply_ballot rf server last reply now rf' :
  vote_inv rf -> replicate_reply rf server last reply now = Ret rf' -> ballot_step rf None rf'.
Proof.
  intros Hi. unfold replicate_reply. destruct (negb _); [intros [= <-]; by apply ballot_step_same|].
  destruct (negb _).
  - destruct (Z.ltb_spec (currentTerm rf) (aer_Term reply)).
    + intros [= <-]. by apply step_down_ballot.
    + intros (ns & _ & [= <-])%bind_ret_inv. by apply ballot_step_same.
  - intros (ns & _ & Hr)%bind_ret_inv. apply bind_ret_inv in Hr as (ms & _ & Hr).
    apply leaderApply_same in Hr. by apply ballot_step_same.
Qed.

(** A restart reads the ballot back. *)
Lemma Make_ballot rf now time rf' :
  vote_inv rf -> Make (peers rf) (me rf) (Copy (persister rf)) now time = Ret rf' -> ballot_step rf None rf'.
Proof.
  intros Hi. unfold Make, readPersist. destruct (vi_stored rf Hi). pose proof (vi_stored rf Hi) as Hs.
  unfold stored_ballot, stored in Hs. cbn [Copy ReadRaftState clone_bytes raftstate] in *.
  change (ReadRaftState (Copy (persister rf))) with (ReadRaftState (persister rf)).
  assert (persister rf' = Copy (persister rf) -> identity rf' = identity rf -> ballot rf' = ballot rf ->
    ballot_step rf None rf') as Hdone.
  { intros Hp Hid Hb. apply ballot_step_same; [done|]. split_and!; [done| |done]. rewrite Hp. by destruct (persister rf). }
  destruct (String.eqb _ _) eqn:E.
  - intros [= <-]. apply Hdone; [done|done|]. cbn in Hs. unfold ballot in *. cbn. congruence.
  - destruct (decode_durable _) as [d|] eqn:Ed; [|done]. intros [= <-]. apply Hdone; [done|done|].
    cbn in Hs. unfold ballot in *. cbn. congruence.
Qed.
End vote.

(** ** Runs of one peer *)

Section runs.
Context {C : Type} `{!Command C, !Gob C, !AppendGrowth}.
Implicit Types (rf : Raft C).

(** Everything that can happen at a peer: RPCs, calls of the service, replies,
    timers, and a crash followed by a restart. *)
Inductive op :=
  | OpRequestVote (args : RequestVoteArgs) (now : Z)
  | OpAppendEntries (args : AppendEntriesArgs) (now : Z)
  | OpInstallSnapshot (args : InstallSnapshotArgs) (now : Z)
  | OpCondInstallSnapshot (lastTerm lastIndex : Z) (snap : string)
  | OpSnapshot (index : Z)
  | OpStart (command : C)
  | OpApplyNewCommand (newIndex : Z)
  | OpStartElection (now time : Z)
  | OpVoteReply (el : election) (reply : RequestVoteReply)
  | OpFinishElection (el : election)
  | OpCheckState (now : Z)
  | OpHeartbeatReply (server : Z) (reply : AppendEntriesReply) (now : Z)
  | OpSnapshotReply (server : Z) (reply : InstallSnapshotReply)
  | OpReplicateReply (server last : Z) (reply : AppendEntriesReply) (now : Z)
  | OpKill
  | OpRestart (now time : Z).

(** The new state and the vote that was cast. *)
Definition peer_exec rf (o : op) : outcome (Raft C * option vote) :=
  match o with
  | OpRequestVote args now =>
      '(rf, reply) ← RequestVote rf args now;
      Ret (rf, if VoteGranted reply then Some (rv_Term args, rv_CandidateId args) else None)
  | OpAppendEntries args now => '(rf, _, _) ← AppendEntries rf args now; Ret (rf, None)
  | OpInstallSnapshot args now => Ret ((InstallSnapshot rf args now).1.1, None)
  | OpCondInstallSnapshot t i snap => '(rf, _) ← CondInstallSnapshot rf t i snap; Ret (rf, None)
  | OpSnapshot i => rf ← Snapshot rf i; Ret (rf, None)
  | OpStart c => Ret ((Start rf c).1.1, None)
  | OpApplyNewCommand i => rf ← applyNewCommand rf i; Ret (rf, None)
  | OpStartElection now time =>
      r ← start_election rf now time;
      Ret (match r with
           | Some (rf, el) => (rf, Some (rv_Term (el_args el), rv_CandidateId (el_args el)))
           | None => (rf, None)
           end)
  | OpVoteReply el reply => Ret ((vote_reply rf el reply).1.1, None)
  | OpFinishElection el => Ret ((finish_election rf el).1, None)
  | OpCheckState now => Ret ((checkState rf now).1, None)
  | OpHeartbeatReply server reply now => '(rf, _) ← heartbeat_reply rf server reply now; Ret (rf, None)
  | OpSnapshotReply server reply => rf ← snapshot_reply rf server reply; Ret (rf, None)
  | OpReplicateReply server last reply now => rf ← replicate_reply rf server last reply now; Ret (rf, None)
  | OpKill => Ret (Kill rf, None)
  | OpRestart now time => rf ← Make (peers rf) (me rf) (Copy (persister rf)) now time; Ret (rf, None)
  end.

Lemma peer_exec_ballot rf o rf' v :
  vote_inv rf -> peer_exec rf o = Ret (rf', v) -> ballot_step rf v rf'.
Proof.
  intros Hi. destruct o; cbn [peer_exec]; intros He.
  - apply bind_ret_inv in He as ([rf1 reply] & He & [= <- <-]). by eapply RequestVote_ballot.
  - apply bind_ret_inv in He as ([[rf1 reply] ts] & He & [= <- <-]). by eapply AppendEntries_ballot.
  - injection He as <- <-. destruct (InstallSnapshot rf args now) as [[rf1 reply] ts] eqn:E.
    by eapply InstallSnapshot_ballot.
  - apply bind_ret_inv in He as ([rf1 b] & He & [= <- <-]). by eapply CondInstallSnapshot_ballot.
  - apply bind_ret_inv in He as (rf1 & He & [= <- <-]). by eapply Snapshot_ballot.
  - injection He as <- <-. destruct (Start rf command) as [[rf1 r] ts] eqn:E. by eapply Start_ballot.
  - apply bind_ret_inv in He as (rf1 & He & [= <- <-]). by eapply applyNewCommand_ballot.
  - apply bind_ret_inv in He as ([[rf1 el]|] & He & [= <- <-]); [|by apply ballot_step_same].
    apply start_election_ballot in He as (Hb & -> & -> & _); done.
  - injection He as <- <-. destruct (vote_reply rf el reply) as [[rf1 el1] b] eqn:E. by eapply vote_reply_ballot.
  - injection He as <- <-. apply ballot_step_same; [done|]. unfold finish_election. by destruct (_ && _).
  - injection He as <- <-. apply ballot_step_same; [done|]. unfold checkState. by destruct (_ && _).
  - apply bind_ret_inv in He as ([rf1 ts] & He & [= <- <-]). by eapply heartbeat_reply_ballot.
  - apply bind_ret_inv in He as (rf1 & He & [= <- <-]). by eapply snapshot_reply_ballot.
  - apply bind_ret_inv in He as (rf1 & He & [= <- <-]). by eapply replicate_reply_ballot.
  - injection He as <- <-. by apply ballot_step_same.
  - apply bind_ret_inv in He as (rf1 & He & [= <- <-]). by eapply Make_ballot.
Qed.

(** The votes cast in a run, in order. *)
Fixpoint peer_run rf (ops : list op) : outcome (Raft C * list vote) :=
  match ops with
  | [] => Ret (rf, [])
  | o :: ops =>
      '(rf, v) ← peer_exec rf o;
      '(rf, vs) ← peer_run rf ops;
      Ret (rf, option_list v ++ vs)
  end.

Lemma peer_run_app rf ops1 ops2 rf1 vs1 rf2 vs2 :
  peer_run rf ops1 = Ret (rf1, vs1) -> peer_run rf1 ops2 = Ret (rf2, vs2) -> peer_run rf (ops1 ++ ops2) = Ret (rf2, vs1 ++ vs2).
Proof.
  intros H1 H2. revert rf vs1 H1. induction ops1 as [|o ops1 IH]; intros rf vs1; cbn [peer_run app]; [by intros [= -> <-]|].
  intros ([rf0 v] & -> & Hr)%bind_ret_inv. apply bind_ret_inv in Hr as ([rf3 vs3] & Hr & [= <- <-]).
  cbn [mbind outcome_bind]. rewrite (IH rf0 vs3 Hr). cbn. by rewrite app_assoc.
Qed.

Lemma peer_run_ballot rf ops rf' vs :
  vote_inv rf -> peer_run rf ops = Ret (rf', vs) ->
  vote_inv rf' /\ currentTerm rf <= currentTerm rf' /\ votedTerm rf <= votedTerm rf' /\
  identity rf' = identity rf /\
  StronglySorted Z.lt vs.*1 /\ Forall (fun v => votedTerm rf < v.1 <= votedTerm rf') vs.
Proof.
  revert rf vs. induction ops as [|o ops IH]; intros rf vs Hi; cbn [peer_run].
  { intros [= <- <-]. split_and!; [done|lia|lia|done|constructor|constructor]. }
  intros ([rf1 v] & He & Hr)%bind_ret_inv. apply bind_ret_inv in Hr as ([rf2 vs2] & Hr & [= <- <-]).
  destruct (peer_exec_ballot _ _ _ _ Hi He) as [Hi1 Ht1 Hv1 Hid1].
  destruct (IH rf1 vs2 Hi1 Hr) as (Hi2 & Ht2 & Hm2 & Hid2 & Hs2 & Hf2).
  destruct v as [[t c]|]; cbn.
  - destruct Hv1 as (H1 & H2 & H3 & H4). split_and!; [done|lia|lia|congruence|..].
    + constructor; [done|]. apply Forall_fmap. eapply Forall_impl; [exact Hf2|]. cbn. lia.
    + constructor; [cbn; lia|]. eapply Forall_impl; [exact Hf2|]. cbn. lia.
  - destruct Hv1 as [H1 H2]. split_and!; [done|lia|lia|congruence|done|].
    eapply Forall_impl; [exact Hf2|]. cbn. lia.
Qed.

(** A new peer. *)
Definition fresh_peer (n : nat) (i : Z) : Raft C :=
  mkRaft n MakePersister i false "follower" 0 0 0 (of_list [zero_entry]) 0 0 0 0 0 0 0 [] [] 0 [].

Lemma Make_fresh n i now time :
  Make n i MakePersister now time = Ret (set_electionTime (set_lastTime (fresh_peer n i) now) time).
Proof. done. Qed.

Lemma fresh_peer_inv n i : vote_inv (fresh_peer n i).
Proof. split; [cbn; lia|done]. Qed.
End runs.
Arguments op : clear implicits.
