(* ===== verification/RaftPersist.v ===== *)
(** * What a restart finds

    Every operation of a peer that changes a persisted field saves it before
    the lock is released, with one exception: a request whose entries are not
    kept may still overwrite the array of the log. *)

From S2P Require Import Prelude GoSlice Raft RaftOps RaftVote.

Section persistence.
Context {C : Type} `{!Command C, !Gob C, !AppendGrowth}.
Implicit Types (rf : Raft C).

(** A restart would read the state in memory. *)
Definition synced rf : Prop := stored rf = Some (durable_of rf).

Lemma synced_persist rf : synced (persist rf).
Proof. exact (stored_persist rf). Qed.

(** Changes that concern neither the persisted fields nor the persister. *)
Definition same_durable rf rf' : Prop := durable_of rf' = durable_of rf /\ persister rf' = persister rf.

Lemma synced_same rf rf' : same_durable rf rf' -> synced rf -> synced rf'.
Proof. intros [Hd Hp] Hs. unfold synced, stored in *. by rewrite Hp, Hd. Qed.

Ltac synced := first [done | by apply synced_persist | by eapply synced_same; [|first [eassumption | apply synced_persist]]].

(** A request with entries that reach not beyond
    [largestIndexMathWithLeader]. *)
Definition refuses rf (o : op C) : bool :=
  match o with
  | OpAppendEntries args _ =>
      match d_serialEntries (Entries args) with
      | Ret (Some es) => PrevLogIndex args + Z.of_nat (length es) <=? largestIndexMathWithLeader rf
      | _ => false
      end
  | _ => false
  end.

Lemma store_entries_synced rf prev es rf' :
  largestIndexMathWithLeader rf < prev + Z.of_nat (length es) -> synced rf ->
  store_entries rf prev es = Ret rf' -> synced rf'.
Proof.
  intros Hl Hs. unfold store_entries. destruct (Z.ltb_spec 0 (getRelativeIndex rf (prev + 1))) as [Hpos|_]; [|by intros [= <-]].
  unfold slice_to. case_decide as Hk; [|done]. cbn [mbind outcome_bind].
  set (pre := mkSlice _ _). destruct (append_elems zero_entry pre es) as (_ & _ & Hlen).
  { unfold slice_ok, pre, cap in *. cbn. lia. }
  destruct (append zero_entry pre es) as [newLog a]. cbn [fst] in Hlen. cbn [largestIndexMathWithLeader set_log].
  unfold getAbsoluteIndex, getRelativeIndex in *. cbn [lastIncludedIndex set_log].
  destruct (Z.ltb_spec (largestIndexMathWithLeader rf) (Z.of_nat (len newLog) - 1 + lastIncludedIndex rf)) as [_|Hge].
  - intros [= <-]. apply synced_persist.
  - unfold pre in Hlen. cbn [len] in Hlen. lia.
Qed.

Lemma meet_term_synced rf t : synced rf -> synced (if currentTerm rf <? t then persist (set_currentTerm rf t) else rf).
Proof. intros Hs. destruct (_ <? _); synced. Qed.

Lemma AppendEntries_synced rf args now rf' reply ts :
  refuses rf (OpAppendEntries args now) = false -> synced rf ->
  AppendEntries rf args now = Ret (rf', reply, ts) -> synced rf'.
Proof.
  intros Hr Hs. unfold AppendEntries. destruct (_ <? _); [by intros [= <- _ _]|].
  set (rf1 := set_status _ _).
  assert (synced rf1) as H1 by (eapply synced_same; [|apply (meet_term_synced rf (ae_Term args) Hs)]; done).
  assert (largestIndexMathWithLeader rf1 = largestIndexMathWithLeader rf) as El by (unfold rf1; by destruct (_ <? _)).
  intros ([ok newPrev] & _ & Hk)%bind_ret_inv. destruct ok; cbn [negb] in Hk; [|by injection Hk as <- _ _].
  cbn [refuses] in Hr. apply bind_ret_inv in Hk as (restored & Hd & Hk). rewrite Hd in Hr.
  apply bind_ret_inv in Hk as (rf2 & Hst & [= <- _ _]). destruct restored as [es|]; [|by injection Hst as <-].
  eapply store_entries_synced; [|exact H1|exact Hst]. rewrite El. lia.
Qed.

Lemma apply_loop_durable rf n i rf' : apply_loop rf n i = Ret rf' -> same_durable rf rf'.
Proof.
  revert rf i. induction n as [|n IH]; intros rf i; cbn [apply_loop]; [by intros [= <-]|].
  intros (e & _ & Hr)%bind_ret_inv. by apply IH in Hr.
Qed.

Lemma leaderApply_synced rf rf' : synced rf -> leaderApply rf = Ret rf' -> synced rf'.
Proof.
  intros Hs. unfold leaderApply. destruct (negb _); [by intros [= <-]|].
  intros (r & _ & Hr)%bind_ret_inv. destruct r as [i|]; [|by injection Hr as <-].
  apply bind_ret_inv in Hr as (rf1 & Hl%apply_loop_durable & [= <-]). eapply synced_same; [|exact Hs]. by destruct Hl.
Qed.

(** A restart of a peer that is synced. *)
Lemma Make_restores rf now time : synced rf ->
  Make (peers rf) (me rf) (Copy (persister rf)) now time =
  Ret (mkRaft (peers rf) (persister rf) (me rf) false "follower" (currentTerm rf) (votedFor rf) (votedTerm rf)
    (of_list (elems (log rf))) (lastIncludedTerm rf) (lastIncludedIndex rf) now time 0 0 0 [] [] 0 []).
Proof.
  intros Hs. unfold Make, readPersist. unfold synced, stored in Hs. destruct (persister rf) as [st sn].
  cbn [Copy ReadRaftState clone_bytes raftstate snapshot] in *. destruct (String.eqb st EmptyString).
  - apply (inj Some) in Hs. unfold durable_of in Hs. injection Hs as H1 H2 H3 H4 H5 H6. by rewrite <- H1, <- H2, <- H3, <- H4, <- H5, <- H6.
  - by rewrite Hs.
Qed.

Lemma Make_synced rf now time rf' :
  synced rf -> Make (peers rf) (me rf) (Copy (persister rf)) now time = Ret rf' -> synced rf'.
Proof.
  intros Hs. rewrite (Make_restores rf now time Hs). intros [= <-]. eapply synced_same; [|exact Hs]. split; [|done].
  unfold durable_of. cbn [log]. by rewrite elems_of_list.
Qed.

(** Every operation but a request that is refused. *)
Lemma peer_exec_synced rf o rf' v : refuses rf o = false -> synced rf -> peer_exec rf o = Ret (rf', v) -> synced rf'.
Proof.
  intros Hr Hs. destruct o; cbn [peer_exec]; intros He.
  - apply bind_ret_inv in He as ([rf1 reply] & He & [= <- <-]). unfold RequestVote in He.
    destruct (_ =? _); [|destruct (_ <? _); [|by injection He as <- _]];
      (apply bind_ret_inv in He as (adv & _ & He); destruct adv; cbn [negb andb] in He; try destruct (_ <? _); injection He as <- _; synced).
  - apply bind_ret_inv in He as ([[rf1 reply] ts] & He & [= <- <-]). by eapply AppendEntries_synced.
  - injection He as <- <-. unfold InstallSnapshot. destruct (_ <? _); [done|].
    eapply synced_same; [|apply (meet_term_synced rf (is_Term args) Hs)]. done.
  - apply bind_ret_inv in He as ([rf1 b] & He & [= <- <-]). unfold CondInstallSnapshot in He.
    destruct (_ || _); [by injection He as <- _|]. destruct (decode_int snap); [|done]. injection He as <- _. synced.
  - apply bind_ret_inv in He as (rf1 & He & [= <- <-]). unfold Snapshot in He.
    destruct (_ <=? _); [by injection He as <-|]. inv_ret. synced.
  - injection He as <- <-. unfold Start. destruct (_ || _); synced.
  - apply bind_ret_inv in He as (rf1 & He & [= <- <-]). apply bind_ret_inv in He as (rf2 & Hl%apply_loop_durable & [= <-]).
    eapply synced_same; [|exact Hs]. by destruct Hl.
  - apply bind_ret_inv in He as ([[rf1 el]|] & He & [= <- <-]); [|done]. unfold start_election in He.
    destruct (negb _); [done|]. apply bind_ret_inv in He as (e & _ & [= <- _]). synced.
  - injection He as <- <-. unfold vote_reply. destruct (negb _); [done|]. destruct (VoteGranted reply); [done|].
    destruct (_ <? _); synced.
  - injection He as <- <-. unfold finish_election. destruct (_ && _); synced.
  - injection He as <- <-. unfold checkState. destruct (_ && _); synced.
  - apply bind_ret_inv in He as ([rf1 ts] & He & [= <- <-]). unfold heartbeat_reply in He.
    destruct (negb _); [by injection He as <- _|]. destruct (negb _); [destruct (_ <? _)|]; inv_ret; synced.
  - apply bind_ret_inv in He as (rf1 & He & [= <- <-]). unfold snapshot_reply in He.
    destruct (negb _); [by injection He as <-|]. destruct (_ <? _); inv_ret; synced.
  - apply bind_ret_inv in He as (rf1 & He & [= <- <-]). unfold replicate_reply in He.
    destruct (negb _); [by injection He as <-|]. destruct (negb _); [destruct (_ <? _); inv_ret; synced|].
    apply bind_ret_inv in He as (ns & _ & He). apply bind_ret_inv in He as (ms & _ & He).
    eapply leaderApply_synced; [|exact He]. synced.
  - injection He as <- <-. synced.
  - apply bind_ret_inv in He as (rf1 & He & [= <- <-]). by eapply Make_synced.
Qed.

(** No request of the run is refused. *)
Fixpoint no_refusal rf (ops : list (op C)) : bool :=
  match ops with
  | [] => true
  | o :: ops => negb (refuses rf o) && match peer_exec rf o with Ret (rf, _) => no_refusal rf ops | _ => true end
  end.

Lemma peer_run_synced rf ops rf' vs : no_refusal rf ops = true -> synced rf -> peer_run rf ops = Ret (rf', vs) -> synced rf'.
Proof.
  revert rf vs. induction ops as [|o ops IH]; intros rf vs Hn Hs; cbn [peer_run]; [by intros [= <- _]|].
  intros ([rf1 v] & He & Hr)%bind_ret_inv. apply bind_ret_inv in Hr as ([rf2 vs2] & Hr & [= <- _]).
  cbn [no_refusal] in Hn. rewrite He in Hn. apply andb_true_iff in Hn as [H1%negb_true_iff H2].
  eapply IH; [exact H2| |exact Hr]. by eapply peer_exec_synced.
Qed.

Lemma fresh_peer_synced n i : synced (fresh_peer n i).
Proof. done. Qed.
End persistence.
