(* ===== verification/RaftElection.v ===== *)
(** * Elections in a cluster

    The peers of a cluster, the passes of their [ticker]s ([contest]s) and
    the vote requests and replies between them.  Requests and replies are
    delivered in any order, once, or lost; peers crash and restart; every
    other operation of a peer may happen at any time.  [cl_votes] and
    [cl_leaders] record the votes cast and the elections won. *)

From S2P Require Import Prelude GoSlice Raft RaftOps RaftVote.

(** A pass of the ticker loop of [ct_owner]: it is open until the loop has
    finished waiting, and dead once its process has crashed. *)
Record contest := mkContest { ct_owner : nat; ct_el : election; ct_open : bool; ct_live : bool }.

(** Messages [(k, d, x)] belong to the contest [k] and the peer [d]. *)
Abbreviation tagged A := (nat * nat * A)%type.

Section cluster.
Context {C : Type} `{!Command C, !Gob C, !AppendGrowth}.

Record cluster := mkCluster {
  cl_peers : list (Raft C);
  cl_contests : list contest;
  cl_requests : list (tagged bool);
  cl_replies : list (tagged RequestVoteReply);
  cl_votes : list (nat * vote);
  cl_leaders : list (nat * Z * Z);
}.

(** The flag of a request says whether its goroutine has sent it. *)
Inductive cl_event :=
  | EvLocal (s : nat) (o : op C)
  | EvStart (s : nat) (now time : Z)
  | EvSend (i : nat)
  | EvRequest (i : nat) (now : Z)
  | EvLostRequest (i : nat)
  | EvReply (i : nat)
  | EvLostReply (i : nat)
  | EvFinish (k : nat) (now : Z).

(** The operations that are not part of an election. *)
Definition is_local (o : op C) : bool :=
  match o with
  | OpRequestVote _ _ | OpStartElection _ _ | OpVoteReply _ _ | OpFinishElection _ => false
  | _ => true
  end.

Definition is_restart (o : op C) : bool := match o with OpRestart _ _ => true | _ => false end.

Definition update_contest (cl : cluster) (k : nat) (ct : contest) : list contest :=
  <[k := ct]> (cl_contests cl).

Definition kill_contests (s : nat) (cts : list contest) : list contest :=
  (fun ct => if decide (ct_owner ct = s) then mkContest s (ct_el ct) (ct_open ct) false else ct) <$> cts.

(** The contests of [s] whose loop is running. *)
Definition busy (cl : cluster) (s : nat) : bool :=
  existsb (fun ct => bool_decide (ct_owner ct = s) && ct_open ct && ct_live ct) (cl_contests cl).

Definition count_finished (cl : cluster) (k : nat) : list contest :=
  match cl_contests cl !! k with
  | Some ct => update_contest cl k (mkContest (ct_owner ct) (vote_finished (ct_el ct)) (ct_open ct) (ct_live ct))
  | None => cl_contests cl
  end.

Definition local_step (cl : cluster) (s : nat) (o : op C) : outcome cluster :=
  match cl_peers cl !! s with
  | Some rf =>
      if is_local o then
        '(rf, _) ← peer_exec rf o;
        Ret (mkCluster (<[s := rf]> (cl_peers cl))
               (if is_restart o then kill_contests s (cl_contests cl) else cl_contests cl)
               (cl_requests cl) (cl_replies cl) (cl_votes cl) (cl_leaders cl))
      else Ret cl
  | None => Ret cl
  end.

Definition start_step (cl : cluster) (s : nat) (now time : Z) : outcome cluster :=
  match cl_peers cl !! s with
  | Some rf =>
      if busy cl s then Ret cl
      else
        r ← start_election rf now time;
        match r with
        | None => Ret cl
        | Some (rf, el) =>
            let k := length (cl_contests cl) in
            Ret (mkCluster (<[s := rf]> (cl_peers cl)) (cl_contests cl ++ [mkContest s el true true])
                   (cl_requests cl ++ ((fun d => (k, d, false)) <$> filter (fun d => d <> s) (seq 0 (el_total el))))
                   (cl_replies cl)
                   (cl_votes cl ++ [(s, (rv_Term (el_args el), rv_CandidateId (el_args el)))]) (cl_leaders cl))
        end
  | None => Ret cl
  end.

(** A vote goroutine only sends while its peer is a candidate. *)
Definition send_step (cl : cluster) (i : nat) : cluster :=
  match cl_requests cl !! i with
  | Some (k, d, _) =>
      match ct ← cl_contests cl !! k; cl_peers cl !! ct_owner ct with
      | Some rf =>
          let reqs := if String.eqb (status rf) "candidate" then <[i := (k, d, true)]> (cl_requests cl)
                      else delete i (cl_requests cl) in
          mkCluster (cl_peers cl) (cl_contests cl) reqs (cl_replies cl) (cl_votes cl) (cl_leaders cl)
      | None => cl
      end
  | None => cl
  end.

Definition request_step (cl : cluster) (i : nat) (now : Z) : outcome cluster :=
  match cl_requests cl !! i with
  | Some (k, d, true) =>
      match cl_contests cl !! k, cl_peers cl !! d with
      | Some ct, Some rf =>
          let args := el_args (ct_el ct) in
          '(rf, reply) ← RequestVote rf args now;
          Ret (mkCluster (<[d := rf]> (cl_peers cl)) (cl_contests cl) (delete i (cl_requests cl))
                 (cl_replies cl ++ [(k, d, reply)])
                 (cl_votes cl ++ if VoteGranted reply then [(d, (rv_Term args, rv_CandidateId args))] else [])
                 (cl_leaders cl))
      | _, _ => Ret cl
      end
  | _ => Ret cl
  end.

Definition reply_step (cl : cluster) (i : nat) : cluster :=
  match cl_replies cl !! i with
  | Some (k, d, reply) =>
      match cl_contests cl !! k with
      | Some ct =>
          match cl_peers cl !! ct_owner ct with
          | Some rf =>
              let reps := delete i (cl_replies cl) in
              if ct_live ct then
                let '(rf, el, more) := vote_reply rf (ct_el ct) reply in
                let el := if more : bool then vote_finished el else el in
                mkCluster (<[ct_owner ct := rf]> (cl_peers cl))
                  (update_contest cl k (mkContest (ct_owner ct) el (ct_open ct) (ct_live ct)))
                  (cl_requests cl) reps (cl_votes cl) (cl_leaders cl)
              else mkCluster (cl_peers cl) (cl_contests cl) (cl_requests cl) reps (cl_votes cl) (cl_leaders cl)
          | None => cl
          end
      | None => cl
      end
  | None => cl
  end.

Definition finish_step (cl : cluster) (k : nat) (now : Z) : cluster :=
  match cl_contests cl !! k with
  | Some ct =>
      match cl_peers cl !! ct_owner ct with
      | Some rf =>
          if ct_open ct && ct_live ct && negb (election_waits rf (ct_el ct) now) then
            let rf' := (finish_election rf (ct_el ct)).1 in
            let won := String.eqb (status rf) "candidate" && String.eqb (status rf') "leader" in
            mkCluster (<[ct_owner ct := rf']> (cl_peers cl))
              (update_contest cl k (mkContest (ct_owner ct) (ct_el ct) false (ct_live ct)))
              (cl_requests cl) (cl_replies cl) (cl_votes cl)
              (cl_leaders cl ++
                 if won then [(ct_owner ct, rv_Term (el_args (ct_el ct)), currentTerm rf')] else [])
          else cl
      | None => cl
      end
  | None => cl
  end.

Definition lost_request (cl : cluster) (i : nat) : cluster :=
  match cl_requests cl !! i with
  | Some (k, _, true) =>
      mkCluster (cl_peers cl) (count_finished cl k) (delete i (cl_requests cl)) (cl_replies cl)
        (cl_votes cl) (cl_leaders cl)
  | _ => cl
  end.

Definition lost_reply (cl : cluster) (i : nat) : cluster :=
  match cl_replies cl !! i with
  | Some (k, _, _) =>
      mkCluster (cl_peers cl) (count_finished cl k) (cl_requests cl) (delete i (cl_replies cl))
        (cl_votes cl) (cl_leaders cl)
  | None => cl
  end.

Definition cl_step (cl : cluster) (e : cl_event) : outcome cluster :=
  match e with
  | EvLocal s o => local_step cl s o
  | EvStart s now time => start_step cl s now time
  | EvSend i => Ret (send_step cl i)
  | EvRequest i now => request_step cl i now
  | EvLostRequest i => Ret (lost_request cl i)
  | EvReply i => Ret (reply_step cl i)
  | EvLostReply i => Ret (lost_reply cl i)
  | EvFinish k now => Ret (finish_step cl k now)
  end.

Fixpoint cl_run (cl : cluster) (evs : list cl_event) : outcome cluster :=
  match evs with
  | [] => Ret cl
  | e :: evs => cl ← cl_step cl e; cl_run cl evs
  end.

Definition new_cluster (n : nat) : cluster :=
  mkCluster ((fun i => fresh_peer n (Z.of_nat i)) <$> seq 0 n) [] [] [] [] [].

(** ** The invariant *)

(** The peers that the messages of a contest belong to. *)
Definition dests {A} (k : nat) (l : list (tagged A)) : list nat :=
  (fun x => x.1.2) <$> filter (fun x => x.1.1 = k) l.

Lemma dests_app {A} k (l1 l2 : list (tagged A)) : dests k (l1 ++ l2) = dests k l1 ++ dests k l2.
Proof. unfold dests. by rewrite filter_app, fmap_app. Qed.

Lemma dests_delete {A} k (l : list (tagged A)) i j d x :
  l !! i = Some (j, d, x) ->
  dests k l ≡ₚ (if decide (j = k) then [d] else []) ++ dests k (delete i l).
Proof.
  intros Hi. trans (dests k ((j, d, x) :: delete i l)).
  - unfold dests. do 2 f_equiv. by apply delete_Permutation.
  - unfold dests. rewrite filter_cons. cbn. by case_decide.
Qed.

Lemma dests_insert {A} k (l : list (tagged A)) i j d x y :
  l !! i = Some (j, d, x) -> dests k (<[i := (j, d, y)]> l) = dests k l.
Proof.
  revert i. induction l as [|a l IH]; intros [|i] Hi; [done..| |];
    cbn [insert list_insert].
  - injection Hi as ->. unfold dests. rewrite !filter_cons. cbn. by case_decide.
  - specialize (IH i Hi). unfold dests in *. rewrite !filter_cons.
    case_decide; [apply (f_equal (cons a.1.2)); exact IH|exact IH].
Qed.

Definition el_term (ct : contest) : Z := rv_Term (el_args (ct_el ct)).

(** A vote of [v] for the owner of a contest, in its term. *)
Definition backs (votes : list (nat * vote)) (ct : contest) (v : nat) : Prop :=
  (v, (el_term ct, Z.of_nat (ct_owner ct))) ∈ votes.

(** The votes counted by a contest come from distinct peers, and no message of
    a peer that was counted is still under way. *)
Record contest_ok (n : nat) (cl : cluster) (k : nat) (ct : contest) : Prop := {
  co_candidate : rv_CandidateId (el_args (ct_el ct)) = Z.of_nat (ct_owner ct);
  co_total : el_total (ct_el ct) = n;
  co_owner : (ct_owner ct < n)%nat;
  co_counted : exists vs, el_count (ct_el ct) = length vs /\
    NoDup (vs ++ dests k (cl_requests cl) ++ dests k (cl_replies cl)) /\
    Forall (fun v => (v < n)%nat /\ backs (cl_votes cl) ct v) vs;
  co_pending : Forall (fun d => (d < n)%nat) (dests k (cl_requests cl) ++ dests k (cl_replies cl));
  co_granted : forall d reply, (k, d, reply) ∈ cl_replies cl -> VoteGranted reply = true ->
    backs (cl_votes cl) ct d;
}.

(** A majority of the peers voted for [s] in the term [t]. *)
Definition elected (n : nat) (votes : list (nat * vote)) (s : nat) (t : Z) : Prop :=
  exists vs, NoDup vs /\ (n / 2 + 1 <= length vs)%nat /\
    Forall (fun v => (v < n)%nat /\ (v, (t, Z.of_nat s)) ∈ votes) vs.

Record cluster_ok (n : nat) (cl : cluster) : Prop := {
  ck_peers : length (cl_peers cl) = n;
  ck_peer : forall s rf, cl_peers cl !! s = Some rf -> vote_inv rf /\ identity rf = (Z.of_nat s, n);
  ck_votes : forall v t c, (v, (t, c)) ∈ cl_votes cl ->
    exists rf, cl_peers cl !! v = Some rf /\ t <= votedTerm rf;
  ck_once : forall v t c1 c2, (v, (t, c1)) ∈ cl_votes cl -> (v, (t, c2)) ∈ cl_votes cl -> c1 = c2;
  ck_contest : forall k ct, cl_contests cl !! k = Some ct -> contest_ok n cl k ct;
  ck_requests : Forall (fun x => (x.1.1 < length (cl_contests cl))%nat) (cl_requests cl);
  ck_replies : Forall (fun x => (x.1.1 < length (cl_contests cl))%nat) (cl_replies cl);
  ck_leaders : forall s t cur, (s, t, cur) ∈ cl_leaders cl -> (s < n)%nat /\ elected n (cl_votes cl) s t;
}.

Lemma elected_mono n votes votes' s t : votes ⊆ votes' -> elected n votes s t -> elected n votes' s t.
Proof.
  intros Hsub (vs & ? & ? & Hf). exists vs. split_and!; [done..|].
  eapply Forall_impl; [exact Hf|]. intros v [? ?]. split; [done|]. by apply Hsub.
Qed.

(** Removing messages and adding votes keeps a contest in order. *)
Lemma contest_ok_mono n cl cl' k ct :
  contest_ok n cl k ct -> cl_votes cl ⊆ cl_votes cl' ->
  dests k (cl_requests cl') ++ dests k (cl_replies cl') ⊆+ dests k (cl_requests cl) ++ dests k (cl_replies cl) ->
  (forall d reply, (k, d, reply) ∈ cl_replies cl' -> VoteGranted reply = true ->
     (k, d, reply) ∈ cl_replies cl \/ backs (cl_votes cl') ct d) ->
  contest_ok n cl' k ct.
Proof.
  intros [Hc Ht Ho (vs & Hcount & Hnd & Hf) Hp Hg] Hv Hsub Hrep. split; [done..| | |].
  - exists vs. split_and!; [done| |].
    + eapply NoDup_sub; [exact Hnd|]. by apply submseteq_skips_l.
    + eapply Forall_impl; [exact Hf|]. intros v [? ?]. split; [done|]. by apply Hv.
  - rewrite Forall_forall in *. intros d Hd. apply Hp. by eapply elem_of_submseteq.
  - intros d reply Hd Hgr. destruct (Hrep d reply Hd Hgr) as [Hold|?]; [|done].
    apply Hv. by eapply Hg.
Qed.

(** A peer takes a step that casts no vote. *)
Lemma peers_update n cl s rf rf' :
  cluster_ok n cl -> cl_peers cl !! s = Some rf -> ballot_step rf None rf' ->
  cluster_ok n (mkCluster (<[s := rf']> (cl_peers cl)) (cl_contests cl) (cl_requests cl) (cl_replies cl)
                  (cl_votes cl) (cl_leaders cl)).
Proof.
  intros [H1 H2 H3 H4 H5 H6 H7 H8] Hs [Hi Ht [Hv _] Hid]. pose proof (lookup_lt_Some _ _ _ Hs) as Hlt.
  split; cbn [cl_peers cl_contests cl_requests cl_replies cl_votes cl_leaders]; try done.
  - by rewrite length_insert.
  - intros s' rf1. destruct (decide (s = s')) as [<-|Hne].
    + rewrite list_lookup_insert_eq by done. intros [= <-]. destruct (H2 s rf Hs). split; [done|congruence].
    + rewrite list_lookup_insert_ne by done. apply H2.
  - intros v t c Hin. destruct (H3 v t c Hin) as (rf1 & Hv1 & Hle). destruct (decide (s = v)) as [<-|Hne].
    + rewrite list_lookup_insert_eq by done. exists rf'. split; [done|]. congruence || (rewrite Hs in Hv1; injection Hv1 as <-; lia).
    + rewrite list_lookup_insert_ne by done. eauto.
  - intros k ct Hk. by destruct (H5 k ct Hk).
Qed.

(** A peer casts a vote. *)
Lemma peers_vote n cl s rf rf' t c :
  cluster_ok n cl -> cl_peers cl !! s = Some rf -> ballot_step rf (Some (t, c)) rf' ->
  cluster_ok n (mkCluster (<[s := rf']> (cl_peers cl)) (cl_contests cl) (cl_requests cl) (cl_replies cl)
                  (cl_votes cl ++ [(s, (t, c))]) (cl_leaders cl)).
Proof.
  intros [H1 H2 H3 H4 H5 H6 H7 H8] Hs [Hi Ht (Hv1 & Hv2 & Hv3 & Hv4) Hid].
  pose proof (lookup_lt_Some _ _ _ Hs) as Hlt.
  assert (forall t' c', (s, (t', c')) ∈ cl_votes cl -> t' < t) as Hold.
  { intros t' c' Hin. destruct (H3 _ _ _ Hin) as (rf1 & Hrf1 & Hle). rewrite Hs in Hrf1. injection Hrf1 as <-. lia. }
  split; cbn [cl_peers cl_contests cl_requests cl_replies cl_votes cl_leaders]; try done.
  - by rewrite length_insert.
  - intros s' rf1. destruct (decide (s = s')) as [<-|Hne].
    + rewrite list_lookup_insert_eq by done. intros [= <-]. destruct (H2 s rf Hs). split; [done|congruence].
    + rewrite list_lookup_insert_ne by done. apply H2.
  - intros v t' c'. destruct (decide (s = v)) as [<-|Hne].
    + rewrite list_lookup_insert_eq by done. intros [Hin%Hold|Hin]%elem_of_app; exists rf'; (split; [done|]); [lia|].
      apply list_elem_of_singleton in Hin. injection Hin as -> ->. lia.
    + rewrite list_lookup_insert_ne by done. intros [Hin|Hin]%elem_of_app; [by apply H3 in Hin|].
      apply list_elem_of_singleton in Hin. congruence.
  - intros v t' c1 c2. rewrite !elem_of_app, !list_elem_of_singleton.
    intros [Ha|Ha] [Hb|Hb]; [by eapply H4| | |congruence].
    + injection Hb as -> -> ->. apply Hold in Ha. lia.
    + injection Ha as -> -> ->. apply Hold in Hb. lia.
  - intros k ct Hk. eapply contest_ok_mono; [by apply H5|cbn; set_solver|done|by left].
  - intros s' t' cur Hin. destruct (H8 _ _ _ Hin). split; [done|]. eapply elected_mono; [|done]. set_solver.
Qed.

(** The contests and messages change. *)
Lemma contests_change n cl cl' :
  cluster_ok n cl -> cl_peers cl' = cl_peers cl -> cl_votes cl' = cl_votes cl ->
  (length (cl_contests cl) <= length (cl_contests cl'))%nat ->
  (forall x, x ∈ cl_requests cl' -> (x.1.1 < length (cl_contests cl'))%nat) ->
  (forall x, x ∈ cl_replies cl' -> (x.1.1 < length (cl_contests cl'))%nat) ->
  (forall k ct, cl_contests cl' !! k = Some ct -> contest_ok n cl' k ct) ->
  (forall s t cur, (s, t, cur) ∈ cl_leaders cl' -> (s < n)%nat /\ elected n (cl_votes cl') s t) ->
  cluster_ok n cl'.
Proof.
  intros [H1 H2 H3 H4 H5 H6 H7 H8] Hp Hv Hlen Hreq Hrep Hc Hl.
  split; rewrite ?Hp, ?Hv in *; try done; by apply Forall_forall.
Qed.

Lemma local_no_vote rf (o : op C) rf' v : is_local o = true -> peer_exec rf o = Ret (rf', v) -> v = None.
Proof. destruct o; try done; cbn; intros _ He; inv_ret; repeat case_match; inv_ret; congruence. Qed.

Lemma kill_contests_lookup s cts k ct :
  kill_contests s cts !! k = Some ct ->
  exists ct', cts !! k = Some ct' /\ ct_owner ct = ct_owner ct' /\ ct_el ct = ct_el ct'.
Proof.
  unfold kill_contests. rewrite list_lookup_fmap. intros (ct' & Hk & ->)%fmap_Some.
  exists ct'. split; [done|]. by case_decide.
Qed.

(** Only the owner and the variables of a contest matter. *)
Lemma contest_ok_ext n cl cl' k ct ct' :
  contest_ok n cl k ct' -> ct_owner ct = ct_owner ct' -> ct_el ct = ct_el ct' ->
  cl_votes cl' = cl_votes cl -> cl_requests cl' = cl_requests cl -> cl_replies cl' = cl_replies cl ->
  contest_ok n cl' k ct.
Proof.
  intros [Hc Ht Ho Hcount Hp Hg] E1 E2 E3 E4 E5. unfold backs, el_term in *.
  split; unfold backs, el_term; rewrite ?E1, ?E2, ?E3, ?E4, ?E5; done.
Qed.

Lemma local_step_ok n cl s o cl' : cluster_ok n cl -> local_step cl s o = Ret cl' -> cluster_ok n cl'.
Proof.
  intros Hok. unfold local_step. destruct (cl_peers cl !! s) as [rf|] eqn:Hs; [|by intros [= <-]].
  destruct (is_local o) eqn:Hlo; [|by intros [= <-]].
  intros ([rf' v] & He & [= <-])%bind_ret_inv.
  rewrite (local_no_vote _ _ _ _ Hlo He) in He.
  apply peer_exec_ballot in He; [|by apply (ck_peer _ _ Hok s)].
  pose proof (peers_update n cl s rf rf' Hok Hs He) as Hok'. destruct (is_restart o); [|done].
  eapply contests_change; [exact Hok'|done|done|..]; cbn [cl_peers cl_contests cl_requests cl_replies cl_votes cl_leaders].
  - unfold kill_contests. by rewrite length_fmap.
  - unfold kill_contests. rewrite length_fmap. apply Forall_forall, Hok.
  - unfold kill_contests. rewrite length_fmap. apply Forall_forall, Hok.
  - intros k ct (ct' & Hk & E1 & E2)%kill_contests_lookup.
    eapply contest_ok_ext; [by apply (ck_contest _ _ Hok)|done..].
  - apply Hok.
Qed.

Lemma dests_bound {A} k (l : list (tagged A)) m :
  Forall (fun x => (x.1.1 < m)%nat) l -> (m <= k)%nat -> dests k l = [].
Proof.
  intros Hf Hk. unfold dests. rewrite list_filter_none; [done|].
  eapply Forall_impl; [exact Hf|]. cbn. lia.
Qed.

Lemma dests_fmap_eq k (ds : list nat) : dests k ((fun d => (k, d, false)) <$> ds) = ds.
Proof.
  unfold dests. rewrite list_filter_all; [|by apply Forall_fmap, Forall_true].
  rewrite <- list_fmap_compose. apply list_fmap_id.
Qed.

Lemma dests_fmap_ne j k (ds : list nat) : j <> k -> dests k ((fun d => (j, d, false)) <$> ds) = [].
Proof.
  intros Hne. unfold dests. rewrite list_filter_none; [done|]. by apply Forall_fmap, Forall_true.
Qed.

Lemma start_step_ok n cl s now time cl' :
  cluster_ok n cl -> start_step cl s now time = Ret cl' -> cluster_ok n cl'.
Proof.
  intros Hok. unfold start_step. destruct (cl_peers cl !! s) as [rf|] eqn:Hs; [|by intros [= <-]].
  destruct (busy cl s); [by intros [= <-]|]. intros (r & He & Hr)%bind_ret_inv.
  destruct r as [[rf' el]|]; [|by injection Hr as <-]. injection Hr as <-.
  destruct (ck_peer _ _ Hok s rf Hs) as [Hi Hid]. unfold identity in Hid. injection Hid as Hme Hpeers.
  apply start_election_ballot in He as (Hb & Hterm & Hcand & Hcount & Htotal); [|done].
  rewrite <- Hterm, <- Hcand in Hb. set (t := rv_Term (el_args el)) in *. set (c := rv_CandidateId (el_args el)) in *.
  pose proof (peers_vote n cl s rf rf' t c Hok Hs Hb) as Hok'. rewrite Hpeers in Htotal.
  set (k0 := length (cl_contests cl)). pose proof (lookup_lt_Some _ _ _ Hs) as Hlt. rewrite (ck_peers _ _ Hok) in Hlt.
  eapply contests_change; [exact Hok'|done|done|..]; cbn [cl_peers cl_contests cl_requests cl_replies cl_votes cl_leaders].
  - rewrite length_app. lia.
  - rewrite length_app. cbn. intros x [Hx|Hx]%elem_of_app.
    + pose proof (ck_requests _ _ Hok) as Hq. rewrite Forall_forall in Hq. specialize (Hq x Hx). lia.
    + apply list_elem_of_fmap in Hx as (d & -> & _). cbn. unfold k0. lia.
  - rewrite length_app. intros x Hx. pose proof (ck_replies _ _ Hok) as Hq. rewrite Forall_forall in Hq.
    specialize (Hq x Hx). lia.
  - intros k ct [Hk|[Hk Hnew]]%lookup_app_Some.
    + pose proof (lookup_lt_Some _ _ _ Hk). eapply contest_ok_mono; [by apply (ck_contest _ _ Hok)|cbn; set_solver| |by left].
      cbn [cl_requests cl_replies]. rewrite dests_app, dests_fmap_ne, app_nil_r by (unfold k0; lia). done.
    + apply list_lookup_singleton_Some in Hnew as [Hk0 <-]. assert (k = k0) as -> by (unfold k0; lia).
      assert (dests k0 (cl_requests cl) = []) as Hd1 by (eapply dests_bound; [apply Hok|done]).
      assert (dests k0 (cl_replies cl) = []) as Hd2 by (eapply dests_bound; [apply Hok|done]).
      split; cbn [ct_owner ct_el cl_requests cl_replies cl_votes]; try done.
      * fold c. by rewrite Hcand.
      * exists [s]. rewrite dests_app, dests_fmap_eq, Hd1, Hd2, app_nil_r. split_and!; [done| |].
        -- cbn. constructor; [|apply NoDup_filter, NoDup_seq]. rewrite list_elem_of_filter. tauto.
        -- apply Forall_singleton. split; [done|]. unfold backs, el_term. cbn. fold t.
           rewrite <- Hme, <- Hcand. set_solver.
      * rewrite dests_app, dests_fmap_eq, Hd1, Hd2, app_nil_r. apply Forall_forall.
        intros d [_ Hd]%list_elem_of_filter. apply elem_of_seq in Hd. lia.
      * intros d reply Hin. assert (d ∈ dests k0 (cl_replies cl)) as Hdd.
        { unfold dests. apply list_elem_of_fmap. exists (k0, d, reply). split; [done|]. by apply list_elem_of_filter. }
        rewrite Hd2 in Hdd. by apply not_elem_of_nil in Hdd.
  - apply Hok'.
Qed.

Lemma elem_of_delete {A} (l : list A) i x : x ∈ delete i l -> x ∈ l.
Proof. intros Hx. eapply elem_of_submseteq; [exact Hx|]. apply submseteq_delete. Qed.

Lemma delete_none {A} (l : list A) i : (length l <= i)%nat -> delete i l = l.
Proof.
  revert i. induction l as [|x l IH]; intros [|i] Hi; cbn in Hi; [done..|lia|].
  apply (f_equal (cons x)), IH. lia.
Qed.

Lemma dests_delete_sub {A} k (l : list (tagged A)) i : dests k (delete i l) ⊆+ dests k l.
Proof.
  destruct (l !! i) as [[[j d] x]|] eqn:Hi.
  - rewrite (dests_delete k l i j d x Hi). by apply submseteq_inserts_l.
  - apply lookup_ge_None in Hi. by rewrite delete_none.
Qed.

(** Dropping a message. *)
Lemma drop_ok n cl cts i j :
  cluster_ok n cl -> length cts = length (cl_contests cl) ->
  (forall k ct, cts !! k = Some ct -> exists ct', cl_contests cl !! k = Some ct' /\
     ct_owner ct = ct_owner ct' /\ el_args (ct_el ct) = el_args (ct_el ct') /\
     el_total (ct_el ct) = el_total (ct_el ct') /\ el_count (ct_el ct) = el_count (ct_el ct')) ->
  cluster_ok n (mkCluster (cl_peers cl) cts (delete i (cl_requests cl)) (delete j (cl_replies cl))
                  (cl_votes cl) (cl_leaders cl)).
Proof.
  intros Hok Hlen Hct. eapply contests_change; [exact Hok|done|done|..];
    cbn [cl_peers cl_contests cl_requests cl_replies cl_votes cl_leaders]; rewrite ?Hlen.
  - done.
  - intros x Hx%elem_of_delete. revert x Hx. apply Forall_forall, Hok.
  - intros x Hx%elem_of_delete. revert x Hx. apply Forall_forall, Hok.
  - intros k ct Hk. destruct (Hct k ct Hk) as (ct' & Hk' & E1 & E2 & E3 & E4).
    eapply (contest_ok_mono n cl).
    + destruct (ck_contest _ _ Hok k ct' Hk') as [G1 G2 G3 G4 G5 G6].
      unfold backs, el_term in *. split; unfold backs, el_term; rewrite ?E1, ?E2, ?E3, ?E4; done.
    + done.
    + cbn [cl_requests cl_replies]. apply submseteq_app; apply dests_delete_sub.
    + cbn. intros d reply Hd%elem_of_delete _. by left.
  - apply Hok.
Qed.

Lemma delete_end {A} (l : list A) : delete (length l) l = l.
Proof. by apply delete_none. Qed.

Lemma contests_refl (cts : list contest) k ct :
  cts !! k = Some ct -> exists ct', cts !! k = Some ct' /\
     ct_owner ct = ct_owner ct' /\ el_args (ct_el ct) = el_args (ct_el ct') /\
     el_total (ct_el ct) = el_total (ct_el ct') /\ el_count (ct_el ct) = el_count (ct_el ct').
Proof. eauto 10. Qed.

Lemma drop_request_ok n cl cts i :
  cluster_ok n cl -> length cts = length (cl_contests cl) ->
  (forall k ct, cts !! k = Some ct -> exists ct', cl_contests cl !! k = Some ct' /\
     ct_owner ct = ct_owner ct' /\ el_args (ct_el ct) = el_args (ct_el ct') /\
     el_total (ct_el ct) = el_total (ct_el ct') /\ el_count (ct_el ct) = el_count (ct_el ct')) ->
  cluster_ok n (mkCluster (cl_peers cl) cts (delete i (cl_requests cl)) (cl_replies cl)
                  (cl_votes cl) (cl_leaders cl)).
Proof.
  intros Hok Hlen Hct. rewrite <- (delete_end (cl_replies cl)). by apply drop_ok.
Qed.

Lemma drop_reply_ok n cl cts i :
  cluster_ok n cl -> length cts = length (cl_contests cl) ->
  (forall k ct, cts !! k = Some ct -> exists ct', cl_contests cl !! k = Some ct' /\
     ct_owner ct = ct_owner ct' /\ el_args (ct_el ct) = el_args (ct_el ct') /\
     el_total (ct_el ct) = el_total (ct_el ct') /\ el_count (ct_el ct) = el_count (ct_el ct')) ->
  cluster_ok n (mkCluster (cl_peers cl) cts (cl_requests cl) (delete i (cl_replies cl))
                  (cl_votes cl) (cl_leaders cl)).
Proof.
  intros Hok Hlen Hct. rewrite <- (delete_end (cl_requests cl)). by apply drop_ok.
Qed.

Lemma count_finished_ok cl k :
  length (count_finished cl k) = length (cl_contests cl) /\
  (forall j ct, count_finished cl k !! j = Some ct -> exists ct', cl_contests cl !! j = Some ct' /\
     ct_owner ct = ct_owner ct' /\ el_args (ct_el ct) = el_args (ct_el ct') /\
     el_total (ct_el ct) = el_total (ct_el ct') /\ el_count (ct_el ct) = el_count (ct_el ct')).
Proof.
  unfold count_finished. destruct (cl_contests cl !! k) as [ct0|] eqn:E; [|split; [done|apply contests_refl]].
  unfold update_contest. rewrite length_insert. split; [done|]. intros j ct Hj.
  destruct (decide (k = j)) as [<-|Hne].
  - rewrite list_lookup_insert_eq in Hj by (by eapply lookup_lt_Some). injection Hj as <-. eauto 10.
  - rewrite list_lookup_insert_ne in Hj by done. by apply contests_refl in Hj.
Qed.

Lemma send_step_ok n cl i : cluster_ok n cl -> cluster_ok n (send_step cl i).
Proof.
  intros Hok. unfold send_step. destruct (cl_requests cl !! i) as [[[k d] b]|] eqn:Hi; [|done].
  destruct (mbind _ _) as [rf|]; [|done].
  destruct (String.eqb _ _); [|apply drop_request_ok; [done|done|apply contests_refl]].
  eapply contests_change; [exact Hok|done|done|..];
    cbn [cl_peers cl_contests cl_requests cl_replies cl_votes cl_leaders]; [done| |apply Forall_forall, Hok| |apply Hok].
  - intros x [j Hj]%list_elem_of_lookup. pose proof (ck_requests _ _ Hok) as Hq. rewrite Forall_forall in Hq.
    destruct (decide (i = j)) as [<-|Hne].
    + rewrite list_lookup_insert_eq in Hj by (by eapply lookup_lt_Some). injection Hj as <-.
      apply list_elem_of_lookup_2 in Hi. by apply (Hq _ Hi).
    + rewrite list_lookup_insert_ne in Hj by done. apply Hq. by eapply list_elem_of_lookup_2.
  - intros j ct Hj. eapply contest_ok_mono; [by apply (ck_contest _ _ Hok)|done| |by left].
    cbn [cl_requests cl_replies]. by rewrite (dests_insert _ _ _ _ _ _ _ Hi).
Qed.

Lemma request_step_ok n cl i now cl' :
  cluster_ok n cl -> request_step cl i now = Ret cl' -> cluster_ok n cl'.
Proof.
  intros Hok. unfold request_step. destruct (cl_requests cl !! i) as [[[k d] []]|] eqn:Hi; [|by intros [= <-]..].
  destruct (cl_contests cl !! k) as [ct|] eqn:Hk; [|by intros [= <-]].
  destruct (cl_peers cl !! d) as [rf|] eqn:Hd; [|by intros [= <-]].
  intros ([rf' reply] & He & [= <-])%bind_ret_inv.
  apply RequestVote_ballot in He; [|by apply (ck_peer _ _ Hok d)].
  set (v := if VoteGranted reply then _ else _) in He. set (new := if VoteGranted reply then _ else _).
  assert (cluster_ok n (mkCluster (<[d := rf']> (cl_peers cl)) (cl_contests cl) (cl_requests cl) (cl_replies cl)
    (cl_votes cl ++ new) (cl_leaders cl))) as Hok'.
  { subst v new. destruct (VoteGranted reply); [by eapply peers_vote|]. rewrite app_nil_r. by eapply peers_update. }
  eapply contests_change; [exact Hok'|done|done|..];
    cbn [cl_peers cl_contests cl_requests cl_replies cl_votes cl_leaders]; [done|..| |apply Hok'].
  - intros x Hx%elem_of_delete. revert x Hx. apply Forall_forall, Hok.
  - intros x [Hx|Hx%list_elem_of_singleton]%elem_of_app.
    + revert x Hx. apply Forall_forall, Hok.
    + subst x. cbn. by eapply lookup_lt_Some.
  - intros j ct' Hj. eapply (contest_ok_mono n _ _ _ _ (ck_contest _ _ Hok' j ct' Hj)); [done|..].
    + cbn [cl_requests cl_replies]. rewrite dests_app. rewrite (dests_delete j _ _ _ _ _ Hi).
      unfold dests at 3. rewrite filter_cons, filter_nil. cbn.
      case_decide; cbn; [|by rewrite app_nil_r].
      rewrite (app_assoc _ _ [d]), (Permutation_app_comm _ [d]). done.
    + cbn. intros d' reply' [?|Hin%list_elem_of_singleton]%elem_of_app Hg; [by left|].
      injection Hin as -> -> ->. right. cbn in Hj. assert (ct' = ct) as -> by congruence. unfold backs, el_term. cbn.
      subst new. rewrite Hg, <- (co_candidate _ _ _ _ (ck_contest _ _ Hok k ct Hk)). set_solver.
Qed.

(** What handling a reply does to the counters. *)
Lemma vote_reply_count (rf : Raft C) el reply rf' el' more :
  vote_reply rf el reply = (rf', el', more) ->
  el_args el' = el_args el /\ el_total el' = el_total el /\
  (el_count el' = el_count el \/ VoteGranted reply = true /\ el_count el' = S (el_count el)).
Proof.
  unfold vote_reply. repeat case_match; intros [= <- <- <-]; auto.
Qed.

Lemma contest_ok_reply n cl i k d reply ct el :
  cluster_ok n cl -> cl_replies cl !! i = Some (k, d, reply) -> cl_contests cl !! k = Some ct ->
  el_args el = el_args (ct_el ct) -> el_total el = el_total (ct_el ct) ->
  (el_count el = el_count (ct_el ct) \/ VoteGranted reply = true /\ el_count el = S (el_count (ct_el ct))) ->
  forall peers cts leaders,
  contest_ok n (mkCluster peers cts (cl_requests cl) (delete i (cl_replies cl)) (cl_votes cl) leaders) k
    (mkContest (ct_owner ct) el (ct_open ct) (ct_live ct)).
Proof.
  intros Hok Hi Hk E1 E2 Hcount peers cts leaders.
  destruct (ck_contest _ _ Hok k ct Hk) as [Hc Ht Ho (vs & Hvs & Hnd & Hf) Hp Hg].
  pose proof (dests_delete k _ _ _ _ _ Hi) as Hperm. rewrite decide_True in Hperm by done.
  unfold backs, el_term in *.
  split; cbn [ct_owner ct_el cl_requests cl_replies cl_votes]; unfold backs, el_term; cbn [ct_owner ct_el];
    rewrite ?E1, ?E2; try done.
  - destruct Hcount as [Heq|[Hgr Heq]].
    + exists vs. rewrite Heq. split_and!; [done| |done]. eapply NoDup_sub; [exact Hnd|].
      do 2 apply submseteq_skips_l. apply dests_delete_sub.
    + exists (vs ++ [d]). rewrite Heq, length_app. cbn. split_and!; [lia| |].
      * rewrite <- app_assoc. eapply NoDup_sub; [exact Hnd|]. apply submseteq_skips_l.
        rewrite Hperm. cbn. by rewrite Permutation_middle.
      * apply Forall_app. split; [done|]. apply Forall_singleton. split.
        -- rewrite Forall_forall in Hp. apply Hp. apply elem_of_app. right. rewrite Hperm. left.
        -- apply (Hg d reply); [|done]. by eapply list_elem_of_lookup_2.
  - rewrite Forall_forall in *. intros x Hx. apply Hp. rewrite elem_of_app in *.
    destruct Hx as [?|Hx]; [by left|right]. eapply elem_of_submseteq; [exact Hx|]. apply dests_delete_sub.
  - intros x r Hx%elem_of_delete. by apply Hg.
Qed.

Lemma update_lookup cl k ct j ct' :
  update_contest cl k ct !! j = Some ct' -> (j = k /\ ct' = ct) \/ (j <> k /\ cl_contests cl !! j = Some ct').
Proof.
  unfold update_contest. intros Hj. destruct (decide (j = k)) as [->|Hne].
  - left. split; [done|]. assert (k < length (cl_contests cl))%nat as Hlt
      by (apply lookup_lt_Some in Hj; by rewrite length_insert in Hj).
    rewrite list_lookup_insert_eq in Hj by done. congruence.
  - right. by rewrite list_lookup_insert_ne in Hj.
Qed.

Lemma reply_step_ok n cl i : cluster_ok n cl -> cluster_ok n (reply_step cl i).
Proof.
  intros Hok. unfold reply_step. destruct (cl_replies cl !! i) as [[[k d] reply]|] eqn:Hi; [|done].
  destruct (cl_contests cl !! k) as [ct|] eqn:Hk; [|done].
  destruct (cl_peers cl !! ct_owner ct) as [rf|] eqn:Hrf; [|done].
  destruct (ct_live ct) eqn:Hlive; [|apply drop_reply_ok; [done|done|apply contests_refl]].
  destruct (vote_reply rf (ct_el ct) reply) as [[rf' el] more] eqn:Hvr.
  destruct (vote_reply_count _ _ _ _ _ _ Hvr) as (E1 & E2 & Hcount).
  apply vote_reply_ballot in Hvr; [|by apply (ck_peer _ _ Hok (ct_owner ct))].
  pose proof (peers_update n cl _ rf rf' Hok Hrf Hvr) as Hok'.
  set (el' := if more then vote_finished el else el).
  assert (el_args el' = el_args (ct_el ct) /\ el_total el' = el_total (ct_el ct) /\
    (el_count el' = el_count (ct_el ct) \/ VoteGranted reply = true /\ el_count el' = S (el_count (ct_el ct))))
    as (E1' & E2' & Hcount') by (subst el'; by destruct more).
  eapply contests_change; [exact Hok'|done|done|..];
    cbn [cl_peers cl_contests cl_requests cl_replies cl_votes cl_leaders]; unfold update_contest; rewrite ?length_insert;
    [done|apply Forall_forall, Hok| | |apply Hok].
  - intros x Hx%elem_of_delete. revert x Hx. apply Forall_forall, Hok.
  - rewrite <- Hlive. intros j ct' [[-> ->]|[Hne Hj]]%update_lookup.
    + by eapply contest_ok_reply.
    + eapply contest_ok_mono; [by apply (ck_contest _ _ Hok)|done| |].
      * cbn [cl_requests cl_replies]. apply submseteq_skips_l, dests_delete_sub.
      * cbn. intros x r Hx%elem_of_delete _. by left.
Qed.

Lemma finish_step_ok n cl k now : cluster_ok n cl -> cluster_ok n (finish_step cl k now).
Proof.
  intros Hok. unfold finish_step. destruct (cl_contests cl !! k) as [ct|] eqn:Hk; [|done].
  destruct (cl_peers cl !! ct_owner ct) as [rf|] eqn:Hrf; [|done]. destruct (_ && _); [|done].
  assert (ballot_step rf None (finish_election rf (ct_el ct)).1) as Hb.
  { apply ballot_step_same; [by apply (ck_peer _ _ Hok (ct_owner ct))|]. unfold finish_election. by destruct (_ && _). }
  pose proof (peers_update n cl _ rf _ Hok Hrf Hb) as Hok'. pose proof (ck_contest _ _ Hok k ct Hk) as Hct.
  eapply contests_change; [exact Hok'|done|done|..];
    cbn [cl_peers cl_contests cl_requests cl_replies cl_votes cl_leaders]; unfold update_contest; rewrite ?length_insert;
    [done|apply Forall_forall, Hok|apply Forall_forall, Hok| |].
  - intros j ct' [[-> ->]|[Hne Hj]]%update_lookup; (eapply contest_ok_ext; [apply (ck_contest _ _ Hok); eassumption|done..]).
  - intros s t cur [Hin|Hin]%elem_of_app; [by apply (ck_leaders _ _ Hok s t cur)|].
    unfold finish_election in Hin. destruct (String.eqb (status rf) "candidate") eqn:Hst; cbn [andb] in Hin; [|by apply not_elem_of_nil in Hin].
    destruct (bool_decide _) eqn:Hmaj.
    2:{ cbn [fst] in Hin. apply String.eqb_eq in Hst. rewrite Hst in Hin. by apply not_elem_of_nil in Hin. }
    cbn in Hin. apply list_elem_of_singleton in Hin. injection Hin as -> -> _. apply bool_decide_eq_true_1 in Hmaj.
    split; [apply Hct|]. destruct (co_counted _ _ _ _ Hct) as (vs & Hvs & Hnd & Hf). exists vs. split_and!.
    + by apply NoDup_app in Hnd as [? _].
    + unfold majority in Hmaj. rewrite (co_total _ _ _ _ Hct), Hvs in Hmaj. done.
    + exact Hf.
Qed.

Lemma cl_step_ok n cl e cl' : cluster_ok n cl -> cl_step cl e = Ret cl' -> cluster_ok n cl'.
Proof.
  intros Hok. destruct e as [s o|s now time|i|i now|i|i|i|k now]; cbn [cl_step].
  - by apply local_step_ok.
  - by apply start_step_ok.
  - intros [= <-]. by apply send_step_ok.
  - by apply request_step_ok.
  - intros [= <-]. unfold lost_request. destruct (cl_requests cl !! i) as [[[k d] []]|]; [|done..].
    destruct (count_finished_ok cl k). by apply drop_request_ok.
  - intros [= <-]. by apply reply_step_ok.
  - intros [= <-]. unfold lost_reply. destruct (cl_replies cl !! i) as [[[k d] r]|]; [|done].
    destruct (count_finished_ok cl k). by apply drop_reply_ok.
  - intros [= <-]. by apply finish_step_ok.
Qed.

Lemma new_cluster_ok n : cluster_ok n (new_cluster n).
Proof.
  split; cbn [cl_peers cl_contests cl_requests cl_replies cl_votes cl_leaders new_cluster].
  - by rewrite length_fmap, length_seq.
  - intros s rf Hs. rewrite list_lookup_fmap in Hs. apply fmap_Some in Hs as (i & Hi & ->).
    apply lookup_seq in Hi as [-> _]. split; [apply fresh_peer_inv|done].
  - intros v t c Hin. by apply not_elem_of_nil in Hin.
  - intros v t c1 c2 Hin. by apply not_elem_of_nil in Hin.
  - intros k ct Hk. done.
  - constructor.
  - constructor.
  - intros s t cur Hin. by apply not_elem_of_nil in Hin.
Qed.

Lemma cl_run_ok n cl evs cl' : cluster_ok n cl -> cl_run cl evs = Ret cl' -> cluster_ok n cl'.
Proof.
  revert cl. induction evs as [|e evs IH]; intros cl Hok; cbn; [by intros [= <-]|].
  intros (cl1 & Hs & Hr)%bind_ret_inv. eapply IH; [by eapply cl_step_ok|done].
Qed.

(** Two majorities of one term share a peer, which voted once. *)
Lemma majorities_meet n cl t s1 s2 :
  cluster_ok n cl -> elected n (cl_votes cl) s1 t -> elected n (cl_votes cl) s2 t -> s1 = s2.
Proof.
  intros Hok (v1 & Hnd1 & Hl1 & Hf1) (v2 & Hnd2 & Hl2 & Hf2).
  destruct (decide (Exists (fun v => v ∈ v2) v1)) as [He|He].
  - apply Exists_exists in He as (v & Hv1 & Hv2). rewrite Forall_forall in Hf1, Hf2.
    destruct (Hf1 v Hv1) as [_ Ha], (Hf2 v Hv2) as [_ Hb].
    apply (ck_once _ _ Hok _ _ _ _ Ha) in Hb. lia.
  - exfalso. assert (NoDup (v1 ++ v2)) as Hnd.
    { apply NoDup_app. split_and!; [done| |done]. intros v Ha Hb. apply He, Exists_exists. eauto. }
    assert (v1 ++ v2 ⊆+ seq 0 n) as Hsub.
    { apply NoDup_submseteq; [done|]. intros v Hv. rewrite Forall_forall in Hf1, Hf2.
      apply elem_of_seq. apply elem_of_app in Hv as [Hv|Hv]; [destruct (Hf1 v Hv)|destruct (Hf2 v Hv)]; lia. }
    apply submseteq_length in Hsub. rewrite length_app, length_seq in Hsub.
    pose proof (Nat.div_mod_eq n 2). pose proof (Nat.mod_upper_bound n 2). lia.
Qed.
End cluster.
Arguments cluster : clear implicits.
Arguments cl_event : clear implicits.
