(* ===== verification/RaftLog.v ===== *)
(** * The log of a Raft peer

    What appending, applying and committing do to the log, the messages to
    the service and the persister. *)

From S2P Require Import Prelude GoSlice Raft RaftOps RaftVote.

Section log.
Context {C : Type} `{!Command C, !Gob C, !AppendGrowth}.
Implicit Types (rf : Raft C).

(** The entry at an absolute index. *)
Definition entry_at rf (i : Z) : option (Entry C) :=
  if decide (lastIncludedIndex rf <= i) then elems (log rf) !! Z.to_nat (i - lastIncludedIndex rf) else None.

Lemma slice_idx_entry rf i e :
  slice_idx (log rf) (getRelativeIndex rf i) = Ret e <-> entry_at rf i = Some e.
Proof.
  unfold slice_idx, getRelativeIndex, entry_at. rewrite idx_ret. case_decide; split; try (intros [? ?]); try done; try lia.
  intros ?. split; [lia|done].
Qed.

Lemma slice_idx_none rf i :
  entry_at rf i = None -> slice_idx (log rf) (getRelativeIndex rf i) = Panic IndexOutOfRange.
Proof.
  unfold slice_idx, getRelativeIndex, entry_at. case_decide.
  - intros ?%lookup_ge_None. apply idx_out_of_range. lia.
  - intros _. apply idx_out_of_range. lia.
Qed.

(** ** Stepping back over a conflicting term *)

(** From [newPrev] down to [q], exclusive, every entry has the term [t]. *)
Definition all_term rf (t q newPrev : Z) : Prop :=
  forall i, q < i <= newPrev -> exists e, entry_at rf i = Some e /\ Term e = t.

Lemma back_loop_spec rf t fuel newPrev :
  0 <= newPrev -> (Z.to_nat newPrev < fuel)%nat ->
  match back_loop rf t fuel newPrev with
  | Ret q => 0 <= q <= newPrev /\ all_term rf t q newPrev /\
      (q = 0 \/ exists e, entry_at rf q = Some e /\ Term e <> t)
  | Panic p => p = IndexOutOfRange /\ exists q, 0 < q <= newPrev /\ all_term rf t q newPrev /\ entry_at rf q = None
  | NoFuel => False
  end.
Proof.
  revert newPrev. induction fuel as [|fuel IH]; intros newPrev H0 Hf; [lia|]. cbn [back_loop].
  destruct (Z.ltb_spec 0 newPrev) as [Hpos|Hpos].
  2:{ split_and!; [lia|lia|intros i Hi; lia|left; lia]. }
  destruct (entry_at rf newPrev) as [e|] eqn:E.
  2:{ rewrite (slice_idx_none _ _ E). cbn. split; [done|]. exists newPrev. split_and!; [lia|lia|intros i Hi; lia|done]. }
  rewrite (proj2 (slice_idx_entry _ _ _) E). cbn [mbind outcome_bind].
  destruct (Z.eqb_spec (Term e) t) as [Ht|Ht].
  2:{ split_and!; [lia|lia|intros i Hi; lia|eauto]. }
  specialize (IH (newPrev - 1) ltac:(lia) ltac:(lia)).
  assert (forall q, all_term rf t q (newPrev - 1) -> all_term rf t q newPrev) as Hext.
  { intros q Hq i Hi. destruct (decide (i = newPrev)) as [->|]; [eauto|]. apply Hq. lia. }
  destruct (back_loop rf t fuel (newPrev - 1)) as [q|p|]; [..|done].
  - destruct IH as (? & ? & ?). split_and!; [lia|lia|auto|done].
  - destruct IH as (-> & q & Hq & Ha & Hn). split; [done|]. exists q. split_and!; [lia|lia|auto|done].
Qed.

(** ** Storing entries *)

Definition log_ok rf : Prop := slice_ok (log rf) /\ (0 < len (log rf))%nat /\ 0 <= lastIncludedIndex rf.

Lemma store_entries_accept rf prev es :
  log_ok rf -> lastIncludedIndex rf <= prev < getAbsoluteIndex rf (log_len rf) ->
  largestIndexMathWithLeader rf < prev + Z.of_nat (length es) ->
  exists rf', store_entries rf prev es = Ret rf' /\
    elems (log rf') = take (Z.to_nat (prev + 1 - lastIncludedIndex rf)) (elems (log rf)) ++ es /\
    stored rf' = Some (durable_of rf') /\ durable_of rf' =
      mkDurable (currentTerm rf) (votedFor rf) (votedTerm rf) (elems (log rf')) (lastIncludedTerm rf) (lastIncludedIndex rf) /\
    commitIndex rf' = commitIndex rf /\ largestIndexMathWithLeader rf' = prev + Z.of_nat (length es) /\
    status rf' = status rf.
Proof.
  intros (Hs & Hlen & Hlast) Hprev Hlarge. unfold getAbsoluteIndex, log_len in Hprev.
  unfold store_entries, getRelativeIndex.
  destruct (Z.ltb_spec 0 (prev + 1 - lastIncludedIndex rf)) as [_|]; [|lia].
  destruct (slice_to_ok (log rf) (prev + 1 - lastIncludedIndex rf)) as (pre & -> & Hpre & Hok & Harr & Hplen); [lia|done|].
  cbn [mbind outcome_bind]. destruct (append_elems zero_entry pre es Hok) as (He & _ & Hl).
  destruct (append zero_entry pre es) as [newLog a] eqn:Eapp. cbn [fst] in He, Hl.
  unfold getAbsoluteIndex. cbn [lastIncludedIndex set_log largestIndexMathWithLeader].
  assert (Z.of_nat (len newLog) - 1 + lastIncludedIndex rf = prev + Z.of_nat (length es)) as -> by lia.
  destruct (Z.ltb_spec (largestIndexMathWithLeader rf) (prev + Z.of_nat (length es))); [|lia].
  eexists. split; [done|]. split; [|split; [by rewrite stored_persist|done]].
  cbn [log set_largest set_log persist set_persister]. by rewrite He, Hpre.
Qed.

(** Entries that do not reach beyond [largestIndexMathWithLeader] are not
    kept; what is behind the previous index may be overwritten all the same. *)
Lemma store_entries_refuse rf prev es :
  log_ok rf -> lastIncludedIndex rf <= prev < getAbsoluteIndex rf (log_len rf) ->
  prev + Z.of_nat (length es) <= largestIndexMathWithLeader rf ->
  exists s, store_entries rf prev es = Ret (set_log rf s) /\ len s = len (log rf) /\
    let k := Z.to_nat (prev + 1 - lastIncludedIndex rf) in take k (elems s) = take k (elems (log rf)).
Proof.
  intros (Hs & Hlen & Hlast) Hprev Hlarge. unfold getAbsoluteIndex, log_len in Hprev.
  unfold store_entries, getRelativeIndex.
  destruct (Z.ltb_spec 0 (prev + 1 - lastIncludedIndex rf)) as [_|]; [|lia].
  destruct (slice_to_ok (log rf) (prev + 1 - lastIncludedIndex rf)) as (pre & -> & Hpre & Hok & Harr & Hplen); [lia|done|].
  cbn [mbind outcome_bind]. destruct (append_elems zero_entry pre es Hok) as (He & _ & Hl).
  destruct (append_shared zero_entry pre es (len pre) Hok Hok) as [_ Hsh].
  destruct (append zero_entry pre es) as [newLog a] eqn:Eapp. cbn [fst snd] in *.
  unfold getAbsoluteIndex. cbn [lastIncludedIndex set_log largestIndexMathWithLeader].
  destruct (Z.ltb_spec (largestIndexMathWithLeader rf) (Z.of_nat (len newLog) - 1 + lastIncludedIndex rf)); [lia|].
  eexists. split; [done|]. split; [done|]. unfold elems. cbn [arr len]. rewrite !take_take, !Nat.min_l by lia.
  by rewrite <- Hplen, Hsh, Harr.
Qed.

Lemma isMatchPrevLog_matches rf prev t :
  prev < getAbsoluteIndex rf (log_len rf) ->
  (lastIncludedIndex rf < prev -> exists e, entry_at rf prev = Some e /\ Term e = t) ->
  exists q, isMatchPrevLog rf prev t = Ret (true, q).
Proof.
  intros Hlt Hm. unfold isMatchPrevLog. destruct (Z.leb_spec (getAbsoluteIndex rf (log_len rf)) prev); [lia|].
  destruct (Z.leb_spec prev (lastIncludedIndex rf)); [by eexists|]. destruct (Hm ltac:(lia)) as (e & He & Ht).
  rewrite (proj2 (slice_idx_entry _ _ _) He). cbn [mbind outcome_bind]. rewrite Ht, Z.eqb_refl. by eexists.
Qed.

Lemma d_serial_entries es : es <> [] -> d_serialEntries (serialEntries es) = Ret (Some es).
Proof.
  intros Hne. unfold d_serialEntries, serialEntries.
  destruct (String.eqb_spec (encode_entries es) EmptyString) as [E|_]; [by apply entries_nonempty in E|].
  by rewrite entries_law.
Qed.

(** ** Applying *)

(** The messages for the entries from index [i] on. *)
Fixpoint messages rf (n : nat) (i : Z) : option (list (ApplyMsg C)) :=
  match n with
  | 0%nat => Some []
  | S n => e ← entry_at rf i; rest ← messages rf n (i + 1); Some (command_msg (Cmd e) i :: rest)
  end.

Lemma messages_ext rf rf' n i :
  log rf' = log rf -> lastIncludedIndex rf' = lastIncludedIndex rf -> messages rf' n i = messages rf n i.
Proof.
  intros Hl Hi. revert i. induction n as [|n IH]; intros i; cbn; [done|]. unfold entry_at. by rewrite Hl, Hi, IH.
Qed.

Lemma apply_loop_spec rf n i ms :
  messages rf n i = Some ms -> apply_loop rf n i = Ret (set_applied rf (applied rf ++ ms)).
Proof.
  revert rf i ms. induction n as [|n IH]; intros rf i ms; cbn [messages apply_loop].
  { intros [= <-]. rewrite app_nil_r. by destruct rf. }
  destruct (entry_at rf i) as [e|] eqn:E; [|done]. cbn [mbind option_bind].
  destruct (messages rf n (i + 1)) as [rest|] eqn:Er; [|done]. intros [= <-].
  rewrite (proj2 (slice_idx_entry _ _ _) E). cbn [mbind outcome_bind].
  rewrite (IH _ _ rest); [|by rewrite <- Er; apply messages_ext]. cbn. by rewrite <- app_assoc.
Qed.

Lemma entry_at_some rf i :
  log_ok rf -> lastIncludedIndex rf <= i < getAbsoluteIndex rf (log_len rf) -> exists e, entry_at rf i = Some e.
Proof.
  intros (Hs & _ & _) Hi. unfold entry_at, getAbsoluteIndex, log_len in *. rewrite decide_True by lia.
  apply lookup_lt_is_Some_2. rewrite length_elems by done. lia.
Qed.

Lemma messages_some rf n i :
  log_ok rf -> lastIncludedIndex rf <= i ->
  n = 0%nat \/ i + Z.of_nat n <= getAbsoluteIndex rf (log_len rf) ->
  exists ms, messages rf n i = Some ms /\ length ms = n /\
    CommandIndex <$> ms = (fun k => i + Z.of_nat k) <$> seq 0 n.
Proof.
  intros Hok. revert i. induction n as [|n IH]; intros i H1 H2; cbn [messages]; [by exists []|].
  destruct (entry_at_some rf i Hok) as [e ->]; [lia|]. destruct (IH (i + 1)) as (ms & -> & Hl & Hi); [lia|lia|].
  cbn. exists (command_msg (Cmd e) i :: ms). split; [done|]. split; [cbn; by rewrite Hl|]. cbn.
  rewrite Hi, <- fmap_S_seq, <- list_fmap_compose. f_equal; [lia|]. apply list_fmap_ext. intros; cbn; lia.
Qed.

(** ** Counting the matching peers *)

(** Whether another peer is known to match index [i]. *)
Definition matches rf (i : Z) (j : nat) : bool :=
  negb (Z.of_nat j =? me rf) &&
  match matchIndex rf !! j with Some m => i <=? m | None => false end.

Definition matching rf (i : Z) (js : list nat) : list nat := filter (fun j => matches rf i j = true) js.

Lemma count_loop_spec rf i js others :
  (forall j, j ∈ js -> (j < length (matchIndex rf))%nat) -> (others < peers rf / 2)%nat ->
  count_loop rf i js others = Ret (bool_decide (peers rf / 2 <= others + length (matching rf i js))%nat).
Proof.
  revert others. induction js as [|j js IH]; intros others Hin Ho; cbn [count_loop].
  { change (matching rf i []) with (@nil nat). cbn [length]. rewrite bool_decide_eq_false_2 by lia. done. }
  unfold matching. rewrite filter_cons. fold (matching rf i js).
  destruct (lookup_lt_is_Some_2 (matchIndex rf) j) as [m Hm]; [apply Hin; left|].
  unfold matches. rewrite Hm. destruct (Z.eqb_spec (Z.of_nat j) (me rf)); cbn [negb andb].
  { rewrite decide_False by done. apply IH; [|done]. intros k Hk. apply Hin. by right. }
  rewrite (idx_lookup _ _ _ Hm). cbn [mbind outcome_bind].
  destruct (i <=? m).
  - rewrite (decide_True (P := true = true)) by done. case_decide as Hc.
    + rewrite bool_decide_eq_true_2 by (cbn [length]; lia). done.
    + rewrite IH; [|intros k Hk; apply Hin; by right|lia]. f_equal. apply bool_decide_ext. cbn [length]. lia.
  - rewrite (decide_False (P := false = true)) by done. rewrite decide_False by lia.
    rewrite IH; [done|intros k Hk; apply Hin; by right|done].
Qed.

(** A majority, the leader included, has the log up to index [i]. *)
Definition replicated rf (i : Z) : Prop :=
  (peers rf / 2 <= length (matching rf i (seq 0 (peers rf))))%nat.

Lemma commit_loop_spec rf n i :
  (2 <= peers rf)%nat -> length (matchIndex rf) = peers rf ->
  ensures (commit_loop rf n i) (fun r =>
    match r with
    | Some k => i - Z.of_nat n < k <= i /\ replicated rf k /\ forall j, k < j <= i -> ~ replicated rf j
    | None => forall j, i - Z.of_nat n < j <= i -> ~ replicated rf j
    end).
Proof.
  intros Hp Hlen. revert i. induction n as [|n IH]; intros i; cbn [commit_loop].
  { apply ensures_ret. intros j Hj. lia. }
  rewrite count_loop_spec.
  2:{ intros j Hj%elem_of_seq. lia. }
  2:{ assert (2 / 2 <= peers rf / 2)%nat as Hd by (apply Nat.Div0.div_le_mono; lia). change (2 / 2)%nat with 1%nat in Hd. lia. }
  cbn [mbind outcome_bind plus]. case_bool_decide as Hr.
  - apply ensures_ret. split_and!; [lia|lia|done|intros j Hj; lia].
  - eapply ensures_mono; [apply IH|]. intros [k|] Hk; cbn beta in *.
    + destruct Hk as (H1 & H2 & H3). split_and!; [lia|lia|done|]. intros j Hj.
      destruct (decide (j = i)) as [->|]; [done|]. apply H3. lia.
    + intros j Hj. destruct (decide (j = i)) as [->|]; [done|]. apply Hk. lia.
Qed.

(** ** Committing and applying *)

(** The search of [leaderApply] for an index to commit. *)
Lemma leaderApply_search rf :
  (2 <= peers rf)%nat -> length (matchIndex rf) = peers rf -> status rf = "leader" ->
  commitIndex rf < getAbsoluteIndex rf (log_len rf) ->
  (leaderApply rf = Ret rf /\ forall j, commitIndex rf < j < getAbsoluteIndex rf (log_len rf) -> ~ replicated rf j) \/
  (exists k, commitIndex rf < k < getAbsoluteIndex rf (log_len rf) /\ replicated rf k /\
     (forall j, k < j < getAbsoluteIndex rf (log_len rf) -> ~ replicated rf j) /\
     leaderApply rf = (rf ← apply_loop (set_commit rf k (lastApplied rf)) (Z.to_nat (k - lastApplied rf)) (lastApplied rf + 1);
                       Ret (set_commit rf (commitIndex rf) k))).
Proof.
  intros Hp Hm Hst Hci. unfold leaderApply. rewrite Hst.
  set (last := getAbsoluteIndex rf (log_len rf - 1)).
  assert (getAbsoluteIndex rf (log_len rf) = last + 1) as Hlast by (unfold last, getAbsoluteIndex; lia).
  destruct (commit_loop_spec rf (Z.to_nat (last - commitIndex rf)) last Hp Hm) as (r & Hr & Hspec).
  replace (last - Z.of_nat (Z.to_nat (last - commitIndex rf))) with (commitIndex rf) in Hspec by lia.
  change (negb _) with false. rewrite Hr. cbn [mbind outcome_bind]. destruct r as [k|].
  - right. destruct Hspec as (Hk & Hrep & Hmax). exists k. split_and!; [lia|lia|done| |done]. intros j Hj. apply Hmax. lia.
  - left. split; [done|]. intros j Hj. apply Hspec. lia.
Qed.

Lemma leaderApply_cases rf :
  log_ok rf -> (2 <= peers rf)%nat -> length (matchIndex rf) = peers rf ->
  status rf = "leader" -> lastIncludedIndex rf <= lastApplied rf + 1 -> lastApplied rf <= commitIndex rf ->
  commitIndex rf < getAbsoluteIndex rf (log_len rf) ->
  (leaderApply rf = Ret rf /\ forall j, commitIndex rf < j < getAbsoluteIndex rf (log_len rf) -> ~ replicated rf j) \/
  (exists k ms, commitIndex rf < k < getAbsoluteIndex rf (log_len rf) /\ replicated rf k /\
     (forall j, k < j < getAbsoluteIndex rf (log_len rf) -> ~ replicated rf j) /\
     messages rf (Z.to_nat (k - lastApplied rf)) (lastApplied rf + 1) = Some ms /\
     leaderApply rf = Ret (set_applied (set_commit rf k k) (applied rf ++ ms))).
Proof.
  intros Hlog Hp Hm Hst Hla Hlc Hci. destruct (leaderApply_search rf Hp Hm Hst Hci) as [?|(k & Hk & Hrep & Hmax & ->)]; [by left|right].
  destruct (messages_some rf (Z.to_nat (k - lastApplied rf)) (lastApplied rf + 1) Hlog) as (ms & Hms & _); [lia|lia|].
  exists k, ms. rewrite (apply_loop_spec _ _ _ ms) by (rewrite <- Hms; by apply messages_ext). by split_and!; [lia|lia|..].
Qed.

(** The entries to apply were cut off. *)
Lemma apply_loop_panics rf n i :
  (0 < n)%nat -> i < lastIncludedIndex rf -> apply_loop rf n i = Panic IndexOutOfRange.
Proof.
  intros Hn Hi. destruct n as [|n]; [lia|]. cbn [apply_loop]. rewrite slice_idx_none; [done|].
  unfold entry_at. by rewrite decide_False by lia.
Qed.

(** A peer that is alone counts nobody. *)
Lemma commit_loop_alone rf n i : peers rf = 1%nat -> me rf = 0 -> commit_loop rf n i = Ret None.
Proof.
  intros Hp Hme. revert i. induction n as [|n IH]; intros i; [done|]. cbn [commit_loop]. rewrite Hp. cbn [seq count_loop].
  rewrite Hme. apply IH.
Qed.

Lemma leaderApply_alone rf : (peers rf < 2)%nat -> 0 <= me rf < Z.of_nat (peers rf) -> leaderApply rf = Ret rf.
Proof.
  intros Hp Hme. unfold leaderApply. destruct (negb _); [done|]. by rewrite commit_loop_alone by lia.
Qed.

Lemma applyNewCommand_eq rf newIndex :
  log_ok rf ->
  let from := Z.max (lastApplied rf) (lastIncludedIndex rf) in
  let to := Z.min newIndex (getAbsoluteIndex rf (log_len rf - 1)) in
  exists ms, applyNewCommand rf newIndex = Ret (set_applied (set_commit rf newIndex newIndex) (applied rf ++ ms)) /\
    CommandIndex <$> ms = (fun k => from + 1 + Z.of_nat k) <$> seq 0 (Z.to_nat (to - from)) /\
    messages rf (Z.to_nat (to - from)) (from + 1) = Some ms.
Proof.
  intros Hlog from to. unfold applyNewCommand.
  assert (go_max (lastApplied rf) (lastIncludedIndex rf) = from) as ->.
  { unfold go_max, from. destruct (Z.gtb_spec (lastApplied rf) (lastIncludedIndex rf)); lia. }
  assert (go_min newIndex (getAbsoluteIndex rf (log_len rf - 1)) = to) as ->.
  { unfold go_min, to. destruct (Z.gtb_spec newIndex (getAbsoluteIndex rf (log_len rf - 1))); lia. }
  cbn [lastApplied set_commit].
  destruct (messages_some rf (Z.to_nat (to - from)) (from + 1) Hlog) as (ms & Hms & _ & Hidx); [lia| |].
  { destruct (decide (to <= from)); [left; lia|right]. unfold to, getAbsoluteIndex in *. lia. }
  rewrite (apply_loop_spec _ _ _ ms) by (rewrite <- Hms; by apply messages_ext).
  by exists ms.
Qed.
End log.
