(* ===== verification/RaftSpec.v ===== *)
(** * Properties of the Raft implementation

    Votes, elections, persistence, replication and commitment, and the
    behaviours in which the implementation departs from Raft. *)

From S2P Require Import Prelude Codec GoSlice Raft RaftGob RaftOps RaftVote RaftPersist RaftElection RaftLog.

(** ** Elections *)

Section general.
Context {C : Type} `{!Command C, !Gob C, !AppendGrowth}.
Implicit Types (rf : Raft C).

(** C2: at most one peer wins the election of a term.  In every run of a
    cluster, with messages delayed, reordered or lost and peers crashing and
    restarting from their persisted state, two peers that were made leader by
    the votes of the same term are the same peer. *)
Theorem election_winner_unique n evs (cl : cluster C) s1 s2 t cur1 cur2 :
  cl_run (new_cluster n) evs = Ret cl ->
  (s1, t, cur1) ∈ cl_leaders cl -> (s2, t, cur2) ∈ cl_leaders cl -> s1 = s2.
Proof.
  intros Hr H1 H2. pose proof (cl_run_ok n _ _ _ (new_cluster_ok n) Hr) as Hok.
  destruct (ck_leaders _ _ Hok _ _ _ H1) as [_ E1], (ck_leaders _ _ Hok _ _ _ H2) as [_ E2].
  by eapply majorities_meet.
Qed.

(** C14: a peer votes at most once per term, also across crashes and restarts:
    in every run of a new peer the terms of the votes it casts strictly
    increase, its current term never decreases from any point of the run to a
    later one and is never below the term of a vote, and the term and vote on
    stable storage are those in memory. *)
Theorem vote_once_per_term n i ops1 ops2 rf1 vs1 rf vs :
  peer_run (fresh_peer n i) ops1 = Ret (rf1, vs1) -> peer_run rf1 ops2 = Ret (rf, vs) ->
  StronglySorted Z.lt (vs1 ++ vs).*1 /\ Forall (fun v => v.1 <= currentTerm rf) (vs1 ++ vs) /\
  0 <= currentTerm rf1 <= currentTerm rf /\ stored_ballot rf = Some (currentTerm rf, votedFor rf, votedTerm rf).
Proof.
  intros Hr1 Hr2. pose proof (peer_run_app _ _ _ _ _ _ _ Hr1 Hr2) as Hr.
  apply peer_run_ballot in Hr as ([Ht Hst] & _ & _ & _ & Hs & Hf); [|apply fresh_peer_inv].
  apply peer_run_ballot in Hr1 as (Hi1 & Hc1 & _); [|apply fresh_peer_inv]. cbn in Hc1.
  apply peer_run_ballot in Hr2 as (_ & Hc2 & _); [|done].
  split; [done|]. split; [|split; [lia|done]]. eapply Forall_impl; [exact Hf|]. cbn. lia.
Qed.

(** C19: a peer that crashes at any point of its life comes back with exactly
    the term, the vote, the log and the snapshot position that it had in
    memory, and with everything else as in a new peer, provided that no
    [AppendEntries] that it received had entries that reach not beyond its
    [largestIndexMathWithLeader]: such entries may be written into the log
    without being persisted. *)
Theorem restart_restores n i ops rf vs now time :
  peer_run (fresh_peer n i) ops = Ret (rf, vs) -> no_refusal (fresh_peer n i) ops = true ->
  exists rf', Make (peers rf) (me rf) (Copy (persister rf)) now time = Ret rf' /\
    (currentTerm rf', votedFor rf', votedTerm rf') = (currentTerm rf, votedFor rf, votedTerm rf) /\
    elems (log rf') = elems (log rf) /\
    (lastIncludedTerm rf', lastIncludedIndex rf') = (lastIncludedTerm rf, lastIncludedIndex rf) /\
    (me rf', peers rf', persister rf') = (me rf, peers rf, persister rf) /\
    (dead rf', status rf', commitIndex rf', lastApplied rf', applied rf') = (false, "follower", 0, 0, []) /\
    (largestIndexMathWithLeader rf', nextIndex rf', matchIndex rf', leaderId rf') = (0, [], [], 0) /\
    (lastTime rf', electionTime rf') = (now, time).
Proof.
  intros Hr Hn. pose proof (peer_run_synced _ _ _ _ Hn (fresh_peer_synced n i) Hr) as Hs.
  rewrite (Make_restores rf now time Hs). eexists. split; [done|]. cbn [log]. by rewrite elems_of_list.
Qed.

(** ** Replication *)


(** C20: when the previous entry of a request exists but has another term, the
    peer steps back over the entries of its conflicting term: the index it
    returns is the last one below with a different term, or 0.  But when a
    snapshot was taken ([0 < lastIncludedIndex]) and every entry back to the
    snapshot has the conflicting term, the loop runs past the front of the
    log and the process panics. *)
Theorem isMatchPrevLog_backs_off rf prev t e :
  log_ok rf -> lastIncludedIndex rf < prev -> entry_at rf prev = Some e -> Term e <> t ->
  (exists q, isMatchPrevLog rf prev t = Ret (false, q) /\ 0 <= q < prev /\
     all_term rf (Term e) q prev /\ (q = 0 \/ exists e', entry_at rf q = Some e' /\ Term e' <> Term e)) \/
  (isMatchPrevLog rf prev t = Panic IndexOutOfRange /\ 0 < lastIncludedIndex rf /\
     all_term rf (Term e) (lastIncludedIndex rf - 1) prev).
Proof.
  intros (Hs & Hlen & Hlast) Hprev He Ht. unfold isMatchPrevLog.
  assert (prev < getAbsoluteIndex rf (log_len rf)) as Hlt.
  { unfold entry_at in He. rewrite decide_True in He by lia. apply lookup_lt_Some in He.
    rewrite length_elems in He by done. unfold getAbsoluteIndex, log_len. lia. }
  destruct (Z.leb_spec (getAbsoluteIndex rf (log_len rf)) prev); [lia|].
  destruct (Z.leb_spec prev (lastIncludedIndex rf)); [lia|].
  rewrite (proj2 (slice_idx_entry _ _ _) He). cbn [mbind outcome_bind].
  destruct (Z.eqb_spec (Term e) t); [done|]. cbn [negb].
  pose proof (back_loop_spec rf (Term e) (S (Z.to_nat prev)) prev ltac:(lia) ltac:(lia)) as Hb.
  destruct (back_loop rf (Term e) (S (Z.to_nat prev)) prev) as [q|p|]; [..|done]; cbn [mbind outcome_bind].
  - left. exists q. destruct Hb as (Hq & Hall & Hor). split_and!; [done|lia| |done|done].
    destruct Hor as [->|(e' & He' & Hne)]; [lia|]. destruct (decide (q = prev)) as [->|]; [congruence|lia].
  - right. destruct Hb as (-> & q & Hq & Hall & Hn). split; [done|].
    assert (q < lastIncludedIndex rf) as Hql.
    { destruct (decide (lastIncludedIndex rf <= q)); [|lia].
      destruct (entry_at_some rf q) as [? ?]; [by split_and!|lia|congruence]. }
    split; [lia|]. intros i Hi. apply Hall. lia.
Qed.

(** ** Commitment *)

(** C18: [leaderApply] of a leader looks for the greatest index beyond the
    commit index that a majority, the leader included, is known to store.  When
    there is none, or the leader is alone, it does nothing.  Otherwise it
    commits that index and sends the service the entries after the last applied
    one, each once and in order, except when these entries were cut off by a
    snapshot, as after a restart: then it panics. *)
Theorem leaderApply_commits rf :
  log_ok rf -> 0 <= me rf < Z.of_nat (peers rf) -> length (matchIndex rf) = peers rf ->
  status rf = "leader" -> lastApplied rf <= commitIndex rf ->
  commitIndex rf < getAbsoluteIndex rf (log_len rf) ->
  (leaderApply rf = Ret rf /\
     ((peers rf < 2)%nat \/ forall j, commitIndex rf < j < getAbsoluteIndex rf (log_len rf) -> ~ replicated rf j)) \/
  (exists k, commitIndex rf < k < getAbsoluteIndex rf (log_len rf) /\ replicated rf k /\
     (forall j, k < j < getAbsoluteIndex rf (log_len rf) -> ~ replicated rf j) /\
     if decide (lastApplied rf + 1 < lastIncludedIndex rf) then leaderApply rf = Panic IndexOutOfRange
     else exists rf' ms, leaderApply rf = Ret rf' /\ (commitIndex rf', lastApplied rf') = (k, k) /\
       applied rf' = applied rf ++ ms /\
       messages rf (Z.to_nat (k - lastApplied rf)) (lastApplied rf + 1) = Some ms).
Proof.
  intros Hlog Hme Hm Hst Hlc Hci. destruct (decide (peers rf < 2)%nat) as [Hp|Hp].
  { left. split; [by apply leaderApply_alone|by left]. }
  case_decide as Hcut.
  - destruct (leaderApply_search rf) as [[? ?]|(k & Hk & Hrep & Hmax & ->)]; [lia|done..|left; auto|right].
    exists k. split_and!; [apply Hk..|done|done|]. by rewrite apply_loop_panics by (cbn; lia).
  - destruct (leaderApply_cases rf) as [[? ?]|(k & ms & Hk & Hrep & Hmax & Hms & ->)]; [done|lia|done|done|lia|done|done|left; auto|right].
    exists k. split_and!; [apply Hk..|done|done|]. eexists _, ms. by split.
Qed.

(** [applyNewCommand] sends the service the entries after the last applied
    one, or after the snapshot, up to the new index or the end of the log,
    each once and in order. *)
Theorem applyNewCommand_sends rf newIndex :
  log_ok rf -> 0 <= newIndex ->
  let from := Z.max (lastApplied rf) (lastIncludedIndex rf) in
  let to := Z.min newIndex (getAbsoluteIndex rf (log_len rf - 1)) in
  exists rf' ms, applyNewCommand rf newIndex = Ret rf' /\ applied rf' = applied rf ++ ms /\
    CommandIndex <$> ms = (fun k => from + 1 + Z.of_nat k) <$> seq 0 (Z.to_nat (to - from)) /\
    messages rf (Z.to_nat (to - from)) (from + 1) = Some ms /\
    lastApplied rf' = newIndex /\ commitIndex rf' = newIndex.
Proof.
  intros Hlog Hn from to. destruct (applyNewCommand_eq rf newIndex Hlog) as (ms & -> & Hidx & Hms).
  eexists _, ms. by split_and!.
Qed.
End general.

(** ** Concrete runs *)

(** Peer 0 campaigns in term 1 and the vote of peer 1 is delayed; peer 2
    campaigns in term 1, fails, and wins term 2 with the vote of peer 0; peer
    0 times out, and before it has started a new election the delayed vote of
    term 1 arrives. *)
Definition split_events : list (cl_event cmd) :=
  [ EvLocal 0 (OpCheckState 1); EvStart 0 1 400; EvSend 0; EvRequest 0 2;
    EvLocal 2 (OpCheckState 1); EvStart 2 1 400; EvFinish 1 402;
    EvStart 2 402 400; EvSend 3; EvRequest 3 403; EvReply 1; EvFinish 2 403;
    EvLocal 0 (OpCheckState 900); EvReply 0; EvFinish 0 900 ].

Definition split_cluster : cluster cmd :=
  match cl_run (new_cluster 3) split_events with Ret cl => cl | _ => new_cluster 3 end.

Lemma split_run : cl_run (new_cluster 3) split_events = Ret split_cluster.
Proof. vm_compute. reflexivity. Qed.

Lemma election_winner_unique_witness :
  (2%nat, 2, 2) ∈ cl_leaders split_cluster /\
  forall s cur, (s, 2, cur) ∈ cl_leaders split_cluster -> s = 2%nat.
Proof.
  assert ((2%nat, 2, 2) ∈ cl_leaders split_cluster) as Hin.
  { apply (list_elem_of_lookup_2 _ 0). vm_compute. reflexivity. }
  split; [exact Hin|]. intros s cur Hs.
  exact (election_winner_unique 3 split_events split_cluster s 2 2 cur 2 split_run Hs Hin).
Defined.

(** The implementation does not check, when it counts votes, that its term
    is still the term of the election.  There is a run of three peers in
    which two of them are leaders of the same term at the same time: one won
    the votes of term 2, the other counted the votes of term 1 after it had
    moved to term 2. *)
Theorem two_leaders_in_one_term :
  exists rf0 rf2, cl_peers split_cluster !! 0%nat = Some rf0 /\ cl_peers split_cluster !! 2%nat = Some rf2 /\
    GetState rf0 = (2, true) /\ GetState rf2 = (2, true).
Proof.
  destruct (cl_peers split_cluster !! 0%nat) as [rf0|] eqn:E0; [|vm_compute in E0; discriminate].
  destruct (cl_peers split_cluster !! 2%nat) as [rf2|] eqn:E2; [|vm_compute in E2; discriminate].
  exists rf0, rf2. split; [done|]. split; [done|].
  vm_compute in E0. injection E0 as <-. vm_compute in E2. injection E2 as <-. by split.
Qed.

(** A peer that votes, hears from a leader, crashes, and votes again. *)
Definition vote_ops : list (op cmd) :=
  [ OpRequestVote (mkVoteArgs 1 2 0 0) 5; OpRequestVote (mkVoteArgs 1 1 0 0) 6; OpRestart 7 400;
    OpRequestVote (mkVoteArgs 1 1 0 0) 8; OpCheckState 900; OpStartElection 900 400 ].

Lemma vote_once_per_term_witness :
  exists rf1 rf, peer_run (fresh_peer 3 0) (take 3 vote_ops) = Ret (rf1, [(1, 2)]) /\
    peer_run rf1 (drop 3 vote_ops) = Ret (rf, [(2, 0)]) /\ currentTerm rf1 <= currentTerm rf.
Proof.
  destruct (peer_run (fresh_peer 3 0) (take 3 vote_ops)) as [[rf1 vs1]| |] eqn:E1; [|vm_compute in E1; discriminate..].
  destruct (peer_run rf1 (drop 3 vote_ops)) as [[rf vs]| |] eqn:E2;
    [|vm_compute in E1; injection E1 as <- <-; vm_compute in E2; discriminate..].
  exists rf1, rf. destruct (vote_once_per_term 3 0 (take 3 vote_ops) (drop 3 vote_ops) rf1 vs1 rf vs E1 E2) as (_ & _ & [_ Hle] & _).
  vm_compute in E1. injection E1 as <- <-. vm_compute in E2. injection E2 as <- <-.
  split; [reflexivity|]. split; [reflexivity|exact Hle].
Defined.

(** A follower that received five entries from the leader of term 1. *)
Definition entries_1 : list (Entry cmd) := (fun k => mkEntry 1 (Some k)) <$> [11; 12; 13; 14; 15].
Definition append_1 : AppendEntriesArgs := mkAppendArgs 1 0 0 0 (serialEntries entries_1) 0.

Definition follower : Raft cmd :=
  match peer_run (fresh_peer 3 1) [OpAppendEntries append_1 5] with
  | Ret (rf, _) => rf
  | _ => fresh_peer 3 1
  end.


(** A peer that has voted, stored entries, and taken a snapshot. *)
Definition life : list (op cmd) := vote_ops ++ [OpAppendEntries (mkAppendArgs 2 1 0 0 (serialEntries entries_1) 0) 950; OpSnapshot 3].

Lemma restart_restores_witness :
  exists rf rf' vs, peer_run (fresh_peer 3 0) life = Ret (rf, vs) /\ Make (peers rf) (me rf) (Copy (persister rf)) 999 400 = Ret rf' /\
    (currentTerm rf', votedFor rf', votedTerm rf') = (2, 0, 2) /\ elems (log rf') = drop 2 entries_1 /\ lastIncludedIndex rf' = 3.
Proof.
  destruct (peer_run (fresh_peer 3 0) life) as [[rf vs]| |] eqn:E; [|vm_compute in E; discriminate..].
  assert (no_refusal (fresh_peer 3 0) life = true) as Hn by (vm_compute; reflexivity).
  destruct (restart_restores 3 0 life rf vs 999 400 E Hn) as (rf' & Hm & Hb & Hl & Hi & _).
  exists rf, rf', vs. split; [reflexivity|]. split; [exact Hm|]. rewrite Hb, Hl. injection Hi as _ ->.
  vm_compute in E. injection E as <- _. split; [reflexivity|]. split; reflexivity.
Defined.

(** The leader of term 2, for which the follower did not vote, replaces its
    third entry. *)
Definition append_2 : AppendEntriesArgs := mkAppendArgs 2 2 2 1 (serialEntries [mkEntry 2 (Some 99)]) 0.

(** [largestIndexMathWithLeader] keeps the value it had with the previous
    leader unless the follower voted for the new one.  A follower that holds
    five entries of the leader of term 1 then acknowledges an entry of the
    leader of term 2 without storing it: the stale entries behind it stay in
    its log, nothing is persisted, and after a restart the acknowledged entry
    is gone. *)
Theorem acknowledged_entry_lost :
  exists rf reply ts rf', AppendEntries follower append_2 9 = Ret (rf, reply, ts) /\ Success reply = true /\
    (exists e, entry_at rf 5 = Some e /\ Term e = 1) /\
    Make 3 1 (Copy (persister rf)) 10 400 = Ret rf' /\
    entry_at rf' 3 = Some (mkEntry 1 (Some 13)).
Proof.
  destruct (AppendEntries follower append_2 9) as [[[rf reply] ts]| |] eqn:E; [|vm_compute in E; discriminate..].
  destruct (Make 3 1 (Copy (persister rf)) 10 400) as [rf'| |] eqn:E';
    [|vm_compute in E; injection E as <- <- <-; vm_compute in E'; discriminate..].
  exists rf, reply, ts, rf'. split; [done|]. vm_compute in E. injection E as <- <- <-.
  split; [done|]. split; [by eexists|]. split; [exact E'|].
  vm_compute in E'. injection E' as <-. by vm_compute.
Qed.

(** Two requests of one leader: the second was sent before the first was
    answered, and repeats its entry. *)
Definition earlier : AppendEntriesArgs := mkAppendArgs 1 0 0 0 (serialEntries (take 1 entries_1)) 0.
Definition later : AppendEntriesArgs := mkAppendArgs 1 0 0 0 (serialEntries (take 2 entries_1)) 0.

(** [largestIndexMathWithLeader] is not persisted.  A follower that has
    acknowledged two entries and restarts is cut back to the first one by a
    request of the same leader that was delayed: it reports success, and the
    acknowledged entry is gone also from the persister. *)
Theorem restart_forgets_acknowledged :
  exists rf1 ts1 rf2 rf3 ts3 t2 t3, AppendEntries (fresh_peer 3 1) later 5 = Ret (rf1, mkAppendReply t2 true 0, ts1) /\
    entry_at rf1 2 = Some (mkEntry 1 (Some 12)) /\
    Make 3 1 (Copy (persister rf1)) 6 400 = Ret rf2 /\ elems (log rf2) = elems (log rf1) /\
    AppendEntries rf2 earlier 7 = Ret (rf3, mkAppendReply t3 true 0, ts3) /\
    entry_at rf3 2 = None /\ stored rf3 = Some (durable_of rf3).
Proof.
  destruct (AppendEntries (fresh_peer 3 1) later 5) as [[[rf1 r1] ts1]| |] eqn:E1; [|vm_compute in E1; discriminate..].
  destruct (Make 3 1 (Copy (persister rf1)) 6 400) as [rf2| |] eqn:E2;
    [|vm_compute in E1; injection E1 as <- <- <-; vm_compute in E2; discriminate..].
  destruct (AppendEntries rf2 earlier 7) as [[[rf3 r3] ts3]| |] eqn:E3;
    [|vm_compute in E1; injection E1 as <- <- <-; vm_compute in E2; injection E2 as <-; vm_compute in E3; discriminate..].
  exists rf1, ts1, rf2, rf3, ts3, 0, 1. vm_compute in E1. injection E1 as <- <- <-. split; [done|]. split; [done|].
  split; [exact E2|]. vm_compute in E2. injection E2 as <-. split; [done|].
  vm_compute in E3. injection E3 as <- <- <-. split; [done|]. by vm_compute.
Qed.

(** The follower after its service has taken a snapshot up to index 3. *)
Definition snap_follower : Raft cmd :=
  match peer_run (fresh_peer 3 1) [OpAppendEntries append_1 5; OpSnapshot 3] with
  | Ret (rf, _) => rf
  | _ => fresh_peer 3 1
  end.

Lemma isMatchPrevLog_backs_off_witness :
  isMatchPrevLog snap_follower 5 2 = Panic IndexOutOfRange /\ 0 < lastIncludedIndex snap_follower /\
  all_term snap_follower 1 (lastIncludedIndex snap_follower - 1) 5.
Proof.
  destruct (isMatchPrevLog_backs_off snap_follower 5 2 (mkEntry 1 (Some 15))) as [(q & Hq & _)|Hp].
  - split; [|split]; [|vm_compute; lia|vm_compute; discriminate].
    unfold slice_ok. vm_compute. lia.
  - vm_compute. reflexivity.
  - vm_compute. reflexivity.
  - discriminate.
  - vm_compute in Hq. discriminate.
  - exact Hp.
Defined.

Lemma applyNewCommand_sends_witness :
  exists rf' ms, applyNewCommand follower 3 = Ret rf' /\ applied rf' = ms /\
    CommandIndex <$> ms = [1; 2; 3] /\ lastApplied rf' = 3.
Proof.
  destruct (applyNewCommand_sends follower 3) as (rf' & ms & Hr & Ha & Hi & _ & Hl & _).
  - split; [|split]; [|vm_compute; lia|vm_compute; discriminate]. unfold slice_ok. vm_compute. lia.
  - lia.
  - exists rf', ms. split; [exact Hr|]. split; [exact Ha|]. split; [|exact Hl].
    rewrite Hi. vm_compute. reflexivity.
Defined.

(** Peer 0 receives two entries of the leader of term 1 and then becomes the
    leader of term 2. *)
Definition leader_ops : list (op cmd) :=
  [ OpAppendEntries (mkAppendArgs 1 1 0 0 (serialEntries [mkEntry 1 (Some 11); mkEntry 1 (Some 12)]) 0) 5;
    OpCheckState 900; OpStartElection 900 400; OpFinishElection (mkElection (mkVoteArgs 2 0 2 1) 3 2 2) ].

Definition new_leader : Raft cmd :=
  match peer_run (fresh_peer 3 0) leader_ops with Ret (rf, _) => rf | _ => fresh_peer 3 0 end.

(** The leader after peer 1 has stored its log. *)
Definition matched_leader : Raft cmd := set_indices new_leader (nextIndex new_leader) [0; 2; 0].

Lemma leaderApply_commits_witness :
  exists rf', leaderApply matched_leader = Ret rf' /\ commitIndex rf' = 2 /\ replicated matched_leader 2.
Proof.
  destruct (leaderApply_commits matched_leader) as [[Hr _]|(k & _ & Hrep & _ & Hor)].
  - split; [|split]; [|vm_compute; lia|vm_compute; discriminate]. unfold slice_ok. vm_compute. lia.
  - vm_compute. split; [discriminate|reflexivity].
  - vm_compute. reflexivity.
  - vm_compute. reflexivity.
  - vm_compute. discriminate.
  - vm_compute. reflexivity.
  - vm_compute in Hr. discriminate.
  - case_decide as Hd; [vm_compute in Hd; discriminate|]. destruct Hor as (rf' & ms & Hr & Hc & _). exists rf'. split; [exact Hr|].
    injection Hc as Hc _. vm_compute in Hr. injection Hr as <-. vm_compute in Hc. subst k. split; [reflexivity|exact Hrep].
Defined.

(** A leader commits by counting replicas of any entry.  There is a run
    of a peer that becomes leader of term 2 and, on the success reply of one
    of two followers, commits two entries of term 1 although its log holds no
    entry of its own term; Raft forbids this because such entries can still
    be overwritten. *)
Theorem leader_commits_old_term :
  exists rf, peer_run (fresh_peer 3 0) (leader_ops ++ [OpReplicateReply 1 2 (mkAppendReply 2 true 0) 901]) =
      Ret (rf, [(2, 0)]) /\
    GetState rf = (2, true) /\ commitIndex rf = 2 /\
    Forall (fun e => Term e < 2) (elems (log rf)) /\ CommandIndex <$> applied rf = [1; 2].
Proof.
  destruct (peer_run (fresh_peer 3 0) (leader_ops ++ [OpReplicateReply 1 2 (mkAppendReply 2 true 0) 901]))
    as [[rf vs]| |] eqn:E; [|vm_compute in E; discriminate..].
  exists rf. vm_compute in E. injection E as <- <-. split; [reflexivity|].
  split; [reflexivity|]. split; [reflexivity|]. split; [|reflexivity]. repeat constructor.
Qed.

(** A peer stores five entries, takes a snapshot up to the third, restarts and
    wins the next election. *)
Definition restarted_ops : list (op cmd) :=
  [ OpAppendEntries append_1 5; OpSnapshot 3; OpRestart 7 400; OpCheckState 900; OpStartElection 900 400;
    OpFinishElection (mkElection (mkVoteArgs 2 0 5 1) 3 2 2) ].

(** A restart sets [lastApplied] and [commitIndex] to 0; [applyNewCommand]
    corrects this for a log that begins with a snapshot, [leaderApply] does
    not.  The leader panics as soon as a follower confirms its log. *)
Theorem restarted_leader_panics :
  exists rf vs, peer_run (fresh_peer 3 0) restarted_ops = Ret (rf, vs) /\ GetState rf = (2, true) /\
    replicate_reply rf 1 5 (mkAppendReply 2 true 0) 901 = Panic IndexOutOfRange.
Proof.
  destruct (peer_run (fresh_peer 3 0) restarted_ops) as [[rf vs]| |] eqn:E; [|vm_compute in E; discriminate..].
  exists rf, vs. split; [done|]. vm_compute in E. injection E as <- <-. by split; vm_compute.
Qed.
