(* ===== verification/RaftReign.v ===== *)
(** * Replication in a cluster between two elections (src/src/raft/raft.go)

    The peers of a cluster, the [AppendEntries] and [InstallSnapshot] requests
    and replies between them and the goroutines that they have started.  Every
    peer may run [Start], [sendHeartBeatToOne], [sendInstallSnapshotToOne] and
    its goroutines at any time; requests and replies are delivered in any
    order, once, or lost.  No peer campaigns and no service takes a snapshot in
    the runs of this model: they are the runs between two elections. *)

From S2P Require Import Prelude GoSlice Raft RaftOps.

(** Why a request was sent: [sendHeartBeatToOne], or [replicatedEntriesToOne]
    with its [sendLogLastIndex]. *)
Inductive purpose := Heartbeat | Replication (sendLogLastIndex : Z).

Record request := mkRequest { rq_from : nat; rq_to : nat; rq_purpose : purpose; rq_args : AppendEntriesArgs }.

(** A reply on its way back from [rs_to] to the goroutine of [rs_from]. *)
Record response := mkResponse { rs_from : nat; rs_to : nat; rs_purpose : purpose; rs_reply : AppendEntriesReply }.

(** The same for [sendInstallSnapshotToOne]. *)
Inductive snapshot_message :=
  | SnapshotRequest (from to : nat) (args : InstallSnapshotArgs)
  | SnapshotReply (from to : nat) (reply : InstallSnapshotReply).

Section reign.
Context {C : Type} `{!Command C, !Gob C, !AppendGrowth}.

Record reign := mkReign {
  rg_peers : list (Raft C);
  rg_requests : list request;
  rg_responses : list response;
  rg_snapshots : list snapshot_message;
  rg_tasks : list (nat * task C);
}.

Definition put_peer (g : reign) (s : nat) (rf : Raft C) : reign :=
  mkReign (<[s := rf]> (rg_peers g)) (rg_requests g) (rg_responses g) (rg_snapshots g) (rg_tasks g).
Definition add_request (g : reign) (rq : request) : reign :=
  mkReign (rg_peers g) (rg_requests g ++ [rq]) (rg_responses g) (rg_snapshots g) (rg_tasks g).
Definition add_response (g : reign) (rs : response) : reign :=
  mkReign (rg_peers g) (rg_requests g) (rg_responses g ++ [rs]) (rg_snapshots g) (rg_tasks g).
Definition add_tasks (g : reign) (s : nat) (ts : list (task C)) : reign :=
  mkReign (rg_peers g) (rg_requests g) (rg_responses g) (rg_snapshots g) (rg_tasks g ++ (pair s <$> ts)).
Definition lose_request (g : reign) (i : nat) : reign :=
  mkReign (rg_peers g) (delete i (rg_requests g)) (rg_responses g) (rg_snapshots g) (rg_tasks g).
Definition drop_response (g : reign) (i : nat) : reign :=
  mkReign (rg_peers g) (rg_requests g) (delete i (rg_responses g)) (rg_snapshots g) (rg_tasks g).
Definition drop_task (g : reign) (i : nat) : reign :=
  mkReign (rg_peers g) (rg_requests g) (rg_responses g) (rg_snapshots g) (delete i (rg_tasks g)).

Definition add_snapshot (g : reign) (m : snapshot_message) : reign :=
  mkReign (rg_peers g) (rg_requests g) (rg_responses g) (rg_snapshots g ++ [m]) (rg_tasks g).
Definition drop_snapshot (g : reign) (i : nat) : reign :=
  mkReign (rg_peers g) (rg_requests g) (rg_responses g) (delete i (rg_snapshots g)) (rg_tasks g).

(** [sendHeartBeats] addresses the other peers. *)
Definition heartbeat_step (g : reign) (s d : nat) : outcome reign :=
  match rg_peers g !! s with
  | Some rf =>
      if decide (Z.of_nat d ∈ other_peers rf) then
        r ← heartbeat_args rf (Z.of_nat d);
        match r with
        | Some args => Ret (add_request g (mkRequest s d Heartbeat args))
        | None => Ret g
        end
      else Ret g
  | None => Ret g
  end.

(** [sendHeartBeats] and [replicatedEntries] also start this goroutine for
    the other peers. *)
Definition snapshot_step (g : reign) (s d : nat) : outcome reign :=
  match rg_peers g !! s with
  | Some rf =>
      if decide (Z.of_nat d ∈ other_peers rf) then
        r ← snapshot_args rf (Z.of_nat d);
        match r with
        | Some args => Ret (add_snapshot g (SnapshotRequest s d args))
        | None => Ret g
        end
      else Ret g
  | None => Ret g
  end.

(** The handler runs, or the goroutine goes on with the reply. *)
Definition deliver_snapshot (g : reign) (m : snapshot_message) (now : Z) : outcome reign :=
  match m with
  | SnapshotRequest from to args =>
      match rg_peers g !! to with
      | Some rf =>
          let '(rf, reply, ts) := InstallSnapshot rf args now in
          Ret (add_tasks (add_snapshot (put_peer g to rf) (SnapshotReply from to reply)) to ts)
      | None => Ret g
      end
  | SnapshotReply from to reply =>
      match rg_peers g !! from with
      | Some rf => rf ← snapshot_reply rf (Z.of_nat to) reply; Ret (put_peer g from rf)
      | None => Ret g
      end
  end.

(** A goroutine of peer [s] runs up to the point where it waits for a reply. *)
Definition run_task (g : reign) (s : nat) (t : task C) : outcome reign :=
  match rg_peers g !! s with
  | Some rf =>
      match t with
      | ApplyNewCommand newIndex => rf ← applyNewCommand rf newIndex; Ret (put_peer g s rf)
      | ReplicatedEntries => Ret (add_tasks g s (ReplicatedEntriesToOne <$> other_peers rf))
      | ReplicatedEntriesToOne server =>
          r ← replicate_args rf server;
          match r with
          | Some (args, last) => Ret (add_request g (mkRequest s (Z.to_nat server) (Replication last) args))
          | None => Ret g
          end
      | SendApply msg => Ret (put_peer g s (set_applied rf (applied rf ++ [msg])))
      | WakeElection | WakeHeartBeats => Ret g
      end
  | None => Ret g
  end.

(** The handler of peer [rq_to] runs. *)
Definition deliver (g : reign) (rq : request) (now : Z) : outcome reign :=
  match rg_peers g !! rq_to rq with
  | Some rf =>
      '(rf, reply, ts) ← AppendEntries rf (rq_args rq) now;
      Ret (add_tasks (add_response (put_peer g (rq_to rq) rf)
             (mkResponse (rq_from rq) (rq_to rq) (rq_purpose rq) reply)) (rq_to rq) ts)
  | None => Ret g
  end.

(** The goroutine that sent the request goes on with the reply. *)
Definition handle_response (g : reign) (rs : response) (now : Z) : outcome reign :=
  match rg_peers g !! rs_from rs with
  | Some rf =>
      match rs_purpose rs with
      | Heartbeat =>
          '(rf, ts) ← heartbeat_reply rf (Z.of_nat (rs_to rs)) (rs_reply rs) now;
          Ret (add_tasks (put_peer g (rs_from rs) rf) (rs_from rs) ts)
      | Replication last =>
          rf ← replicate_reply rf (Z.of_nat (rs_to rs)) last (rs_reply rs) now;
          Ret (put_peer g (rs_from rs) rf)
      end
  | None => Ret g
  end.

Inductive rg_event :=
  | RgStart (s : nat) (command : C)
  | RgHeartbeat (s d : nat)
  | RgSnapshot (s d : nat)
  | RgInstall (i : nat) (now : Z)
  | RgLoseSnapshot (i : nat)
  | RgTask (i : nat)
  | RgDeliver (i : nat) (now : Z)
  | RgReply (i : nat) (now : Z)
  | RgLoseRequest (i : nat)
  | RgLoseReply (i : nat).

Definition rg_step (g : reign) (e : rg_event) : outcome reign :=
  match e with
  | RgStart s command =>
      match rg_peers g !! s with
      | Some rf => let '(rf, _, ts) := Start rf command in Ret (add_tasks (put_peer g s rf) s ts)
      | None => Ret g
      end
  | RgHeartbeat s d => heartbeat_step g s d
  | RgSnapshot s d => snapshot_step g s d
  | RgInstall i now =>
      match rg_snapshots g !! i with Some m => deliver_snapshot (drop_snapshot g i) m now | None => Ret g end
  | RgLoseSnapshot i => Ret (drop_snapshot g i)
  | RgTask i =>
      match rg_tasks g !! i with Some (s, t) => run_task (drop_task g i) s t | None => Ret g end
  | RgDeliver i now =>
      match rg_requests g !! i with Some rq => deliver (lose_request g i) rq now | None => Ret g end
  | RgReply i now =>
      match rg_responses g !! i with Some rs => handle_response (drop_response g i) rs now | None => Ret g end
  | RgLoseRequest i => Ret (lose_request g i)
  | RgLoseReply i => Ret (drop_response g i)
  end.

Fixpoint rg_run (g : reign) (es : list rg_event) : outcome reign :=
  match es with
  | [] => Ret g
  | e :: es => g ← rg_step g e; rg_run g es
  end.
End reign.
Arguments reign : clear implicits.
Arguments rg_event : clear implicits.
