(* ===== verification/RaftShared.v ===== *)
(** * The logs of a leader and its followers

    What a follower shares with the leader of its term, and what the requests
    of that leader do to it. *)

From S2P Require Import Prelude GoSlice Raft RaftOps RaftVote RaftLog RaftReign.

(** Two logs are the same up to index [k]. *)
Definition agree {A} (k : Z) (l1 l2 : list A) : Prop :=
  forall i, 0 <= i <= k -> exists e, l1 !! Z.to_nat i = Some e /\ l2 !! Z.to_nat i = Some e.

Section agree.
Context {A : Type}.
Implicit Types (l : list A).

Lemma agree_mono k k' l1 l2 : k' <= k -> agree k l1 l2 -> agree k' l1 l2.
Proof. intros Hk Ha i Hi. apply Ha. lia. Qed.

Lemma agree_prefix k l1 l2 l3 : l2 `prefix_of` l3 -> agree k l1 l2 -> agree k l1 l3.
Proof. intros Hp Ha i Hi. destruct (Ha i Hi) as (e & H1 & H2). exists e. split; [done|]. by eapply prefix_lookup_Some. Qed.

Lemma agree_take k j l : k <= j -> j < Z.of_nat (length l) -> agree k (take (Z.to_nat (j + 1)) l) l.
Proof.
  intros Hk Hj i Hi. destruct (lookup_lt_is_Some_2 l (Z.to_nat i)) as [e He]; [lia|]. exists e.
  split; [|done]. by rewrite lookup_take_lt by lia.
Qed.

Lemma agree_lt k l1 l2 : 0 <= k -> agree k l1 l2 -> k < Z.of_nat (length l1) /\ k < Z.of_nat (length l2).
Proof. intros Hk Ha. destruct (Ha k ltac:(lia)) as (e & H1%lookup_lt_Some & H2%lookup_lt_Some). lia. Qed.

Lemma agree_takes k l1 l2 : 0 <= k -> agree k l1 l2 -> take (Z.to_nat (k + 1)) l1 = take (Z.to_nat (k + 1)) l2.
Proof.
  intros Hk Ha. apply list_eq. intros i. destruct (decide (i < Z.to_nat (k + 1))%nat) as [Hi|Hi].
  - rewrite !lookup_take_lt by done. destruct (Ha (Z.of_nat i) ltac:(lia)) as (e & H1 & H2).
    rewrite Nat2Z.id in H1, H2. congruence.
  - by rewrite !lookup_take_ge by lia.
Qed.

(** A prefix that has the length of another. *)
Lemma prefix_take l1 l2 : l1 `prefix_of` l2 -> l1 = take (length l1) l2.
Proof. intros [l ->]. by rewrite take_app_length. Qed.
End agree.

Section shared.
Context {C : Type} `{!Command C, !Gob C, !AppendGrowth}.
Implicit Types (rf : Raft C) (lg : list (Entry C)).

(** Entries of the same index and term have the same logs before them. *)
Definition log_matching (l1 l2 : list (Entry C)) : Prop :=
  forall i e1 e2, 0 <= i -> l1 !! Z.to_nat i = Some e1 -> l2 !! Z.to_nat i = Some e2 -> Term e1 = Term e2 -> agree i l1 l2.

Lemma log_matching_take j lg : j < Z.of_nat (length lg) -> log_matching (take (Z.to_nat (j + 1)) lg) lg.
Proof.
  intros Hj i e1 e2 Hi H1 _ _. apply agree_take; [|done].
  apply lookup_lt_Some in H1. rewrite length_take in H1. lia.
Qed.

(** The elements that an [append] which is not kept overwrites. *)
Lemma append_overwrites (s pre : slice (Entry C)) es :
  slice_ok s -> arr pre = arr s -> (len pre + length es <= len s)%nat ->
  let s' := mkSlice (append zero_entry pre es).2 (len s) in
  elems s' = take (len pre) (elems s) ++ es ++ drop (len pre + length es) (elems s) /\ slice_ok s'.
Proof.
  intros Hs Harr Hlen s'. unfold s', append, slice_ok, cap, elems in *. rewrite Harr, decide_True by lia. cbn [arr len snd].
  split; [|rewrite !length_app, length_take, length_drop; lia].
  rewrite take_take, Nat.min_l by lia. rewrite !(app_assoc _ es).
  assert (length (take (len pre) (arr s) ++ es) = (len pre + length es)%nat) as Hl by (rewrite length_app, length_take; lia).
  rewrite take_app_ge by lia. f_equal. rewrite skipn_firstn_comm. by rewrite Hl.
Qed.

(** The first entries are replaced by those of another log. *)
Lemma agree_overwritten last k (lg l : list (Entry C)) :
  last < Z.of_nat (length lg) -> 0 <= last -> last < Z.of_nat (length l) -> k <= last \/ agree k l lg ->
  agree k (take (Z.to_nat (last + 1)) lg ++ drop (Z.to_nat (last + 1)) l) lg.
Proof.
  intros Hlg H0 Hl Hk i Hi. destruct (decide (i <= last)) as [Hle|Hgt].
  - destruct (lookup_lt_is_Some_2 lg (Z.to_nat i)) as [e He]; [lia|]. exists e. split; [|done].
    rewrite lookup_app_l, lookup_take_lt by (rewrite ?length_take; lia). done.
  - destruct Hk as [Hk|Hk]; [lia|]. destruct (Hk i Hi) as (e & H1 & H2). exists e. split; [|done].
    rewrite lookup_app_r, length_take, lookup_drop by (rewrite length_take; lia). rewrite <- H1. f_equal. lia.
Qed.

Lemma lookup_overwritten last i (lg l : list (Entry C)) e :
  last < Z.of_nat (length lg) -> 0 <= last -> last < Z.of_nat i ->
  (take (Z.to_nat (last + 1)) lg ++ drop (Z.to_nat (last + 1)) l) !! i = Some e -> l !! i = Some e.
Proof.
  intros Hlg H0 Hi. rewrite lookup_app_r, length_take, lookup_drop by (rewrite length_take; lia). intros <-. f_equal. lia.
Qed.

(** Storing entries of the leader's log [lg]: either the log becomes the prefix
    that the request reaches to, or that prefix replaces the first entries. *)
Lemma store_entries_cases rf prev es lg :
  log_ok rf -> lastIncludedIndex rf = 0 -> 0 <= prev -> agree prev (elems (log rf)) lg ->
  take (Z.to_nat (prev + 1)) lg ++ es `prefix_of` lg ->
  largestIndexMathWithLeader rf < log_len rf ->
  let last := prev + Z.of_nat (length es) in
  (largestIndexMathWithLeader rf < last /\ exists s, slice_ok s /\ elems s = take (Z.to_nat (last + 1)) lg /\
     store_entries rf prev es = Ret (persist (set_largest (set_log rf s) last))) \/
  (last <= largestIndexMathWithLeader rf /\ exists s, slice_ok s /\
     elems s = take (Z.to_nat (last + 1)) lg ++ drop (Z.to_nat (last + 1)) (elems (log rf)) /\
     store_entries rf prev es = Ret (set_log rf s)).
Proof.
  intros (Hs & Hlen & _) Hl0 Hprev Hag Hpre Hlarge last. unfold log_len in Hlarge.
  destruct (agree_lt _ _ _ Hprev Hag) as [Hp1 Hp2]. rewrite length_elems in Hp1 by done.
  assert (take (Z.to_nat (prev + 1)) lg ++ es = take (Z.to_nat (last + 1)) lg) as Htake.
  { rewrite (prefix_take _ _ Hpre) at 1. f_equal. rewrite length_app, length_take. lia. }
  unfold store_entries, getRelativeIndex, getAbsoluteIndex. rewrite Hl0.
  destruct (Z.ltb_spec 0 (prev + 1 - 0)) as [_|]; [|lia].
  destruct (slice_to_ok (log rf) (prev + 1 - 0)) as (pre & -> & Hpe & Hok & Harr & Hplen); [lia|done|].
  cbn [mbind outcome_bind]. destruct (append_elems zero_entry pre es Hok) as (He & Hnok & Hl).
  pose proof (append_overwrites (log rf) pre es Hs Harr) as Hover.
  destruct (append zero_entry pre es) as [newLog a] eqn:Eapp. cbn [fst snd] in *.
  cbn [lastIncludedIndex set_log largestIndexMathWithLeader]. rewrite Hl0.
  replace (Z.of_nat (len newLog) - 1 + 0) with last by lia.
  destruct (Z.ltb_spec (largestIndexMathWithLeader rf) last) as [Hlt|Hge].
  - left. split; [done|]. exists newLog. split_and!; [done| |done].
    rewrite He, Hpe, Z.sub_0_r, (agree_takes _ _ _ Hprev Hag). exact Htake.
  - right. split; [done|]. destruct Hover as [He2 Hok2]; [lia|]. exists (mkSlice a (len (log rf))). split_and!; [done| |done].
    rewrite He2, <- Htake, <- app_assoc, Hplen, Z.sub_0_r, (agree_takes _ _ _ Hprev Hag). do 3 f_equal. lia.
Qed.

(** ** A follower of the leader of term [T] with the log [lg] *)

Record follower_ok (T : Z) lg rf : Prop := {
  fo_status : status rf <> "leader";
  fo_term : currentTerm rf <= T;
  fo_snap : lastIncludedIndex rf = 0;
  fo_log : log_ok rf;
  fo_largest : largestIndexMathWithLeader rf < log_len rf;
  fo_zero : agree 0 (elems (log rf)) lg;
  fo_own : forall i e, elems (log rf) !! i = Some e -> Term e = T ->
    Z.of_nat i <= largestIndexMathWithLeader rf /\ agree (Z.of_nat i) (elems (log rf)) lg;
  fo_match : log_matching (elems (log rf)) lg;
}.

(** The entries after index [b] are of the leader's own term. *)
Definition own_after (b T : Z) lg : Prop := forall i e, lg !! i = Some e -> b < Z.of_nat i -> Term e = T.

(** A request that the leader has sent. *)
Record request_ok (T b : Z) lg (c : Z) (p : purpose) (args : AppendEntriesArgs) : Prop := {
  rk_term : ae_Term args = T;
  rk_prev : 0 <= PrevLogIndex args < Z.of_nat (length lg);
  rk_prev_term : exists e, lg !! Z.to_nat (PrevLogIndex args) = Some e /\ PrevLogTerm args = Term e;
  rk_commit : 0 <= LeaderCommit args <= c;
  rk_entries : match p with
    | Heartbeat => Entries args = EmptyString
    | Replication last => exists es, Entries args = serialEntries es /\
        take (Z.to_nat (PrevLogIndex args + 1)) lg ++ es `prefix_of` lg /\
        last = PrevLogIndex args + Z.of_nat (length es) /\ b <= last
    end;
}.

(** Entries that a request adds do not cut off what is shared. *)
Lemma agree_stored T b lg rf last k :
  follower_ok T lg rf -> own_after b T lg -> b <= last -> largestIndexMathWithLeader rf < last ->
  0 <= last < Z.of_nat (length lg) ->
  agree k (elems (log rf)) lg -> agree k (take (Z.to_nat (last + 1)) lg) lg.
Proof.
  intros Hf Hown Hb Hlt Hlen Ha. destruct (decide (k <= last)) as [Hk|Hk]; [by apply agree_take; lia|].
  exfalso. destruct (Ha k) as (e & H1 & H2); [lia|].
  pose proof (Hown _ _ H2 ltac:(lia)) as Ht. destruct (fo_own _ _ _ Hf _ _ H1 Ht). lia.
Qed.

(** Changes that leave the log alone. *)
Lemma follower_same T lg rf rf' :
  follower_ok T lg rf -> status rf' = "follower" -> currentTerm rf' <= T -> lastIncludedIndex rf' = lastIncludedIndex rf ->
  log rf' = log rf -> largestIndexMathWithLeader rf' = largestIndexMathWithLeader rf -> follower_ok T lg rf'.
Proof.
  intros [H1 H2 H3 H4 H5 H6 H7 H8] Hst Ht Hi He Hla. split; unfold log_ok, log_len in *; rewrite ?He, ?Hla, ?Hi; try done. congruence.
Qed.

Lemma follower_stored T lg rf rf' last :
  follower_ok T lg rf -> 0 <= last < Z.of_nat (length lg) -> status rf' = "follower" -> currentTerm rf' <= T ->
  lastIncludedIndex rf' = lastIncludedIndex rf -> slice_ok (log rf') ->
  elems (log rf') = take (Z.to_nat (last + 1)) lg -> largestIndexMathWithLeader rf' = last -> follower_ok T lg rf'.
Proof.
  intros [H1 H2 H3 (Hs & Hl & _) H5 H6 H7 H8] Hlast Hst Ht Hi Hsl He Hla.
  assert (log_len rf' = last + 1) as Hlen by (unfold log_len; rewrite <- length_elems, He, length_take by done; lia).
  split; rewrite ?He, ?Hla; try done; try congruence.
  - unfold log_ok, log_len in *. split_and!; [done|lia..].
  - lia.
  - apply agree_take; lia.
  - intros i e Hi2 _. apply lookup_lt_Some in Hi2. rewrite length_take in Hi2. split; [lia|]. apply agree_take; lia.
  - apply log_matching_take. lia.
Qed.

Lemma follower_overwritten T lg rf s last :
  follower_ok T lg rf -> 0 <= last < Z.of_nat (length lg) -> last <= largestIndexMathWithLeader rf -> slice_ok s ->
  elems s = take (Z.to_nat (last + 1)) lg ++ drop (Z.to_nat (last + 1)) (elems (log rf)) ->
  follower_ok T lg (set_log rf s) /\ (forall k, k <= last \/ agree k (elems (log rf)) lg -> agree k (elems s) lg).
Proof.
  intros [H1 H2 H3 (Hs & Hl & _) H5 H6 H7 H8] Hlast Hle Hsl He. unfold log_len in H5.
  assert (len s = len (log rf)) as Hlen.
  { rewrite <- (length_elems s), <- (length_elems (log rf)), He, length_app, length_take, length_drop, length_elems by done. lia. }
  assert (forall k, k <= last \/ agree k (elems (log rf)) lg -> agree k (elems s) lg) as Hk.
  { intros k Hk. rewrite He. apply agree_overwritten; try lia; [rewrite length_elems by done; lia|done]. }
  split; [|done]. split; unfold log_ok, log_len; cbn; rewrite ?Hlen; try done.
  - split_and!; [done|done|lia].
  - auto.
  - intros i e Hi Ht. destruct (decide (Z.of_nat i <= last)); [split; [lia|auto]|].
    rewrite He in Hi. apply lookup_overwritten in Hi; [|lia..]. destruct (H7 i e Hi Ht). auto.
  - intros i e1 e2 Hi E1 E2 Ht. apply Hk. destruct (decide (i <= last)); [by left|right].
    rewrite He in E1. apply lookup_overwritten in E1; [|lia..]. by apply (H8 i e1 e2).
Qed.

(** The test of the previous entry. *)
Lemma match_prev_cases T lg rf prev t e :
  follower_ok T lg rf -> 0 <= prev -> lg !! Z.to_nat prev = Some e -> t = Term e ->
  (exists q, isMatchPrevLog rf prev t = Ret (false, q) /\ 0 <= q < prev /\ ~ agree prev (elems (log rf)) lg) \/
  (exists q, isMatchPrevLog rf prev t = Ret (true, q) /\ agree prev (elems (log rf)) lg).
Proof.
  intros Hf Hprev He Ht. pose proof (fo_log _ _ _ Hf) as Hlog. pose proof Hlog as (Hs & Hl & _).
  pose proof (fo_snap _ _ _ Hf) as Hsnap. unfold isMatchPrevLog.
  destruct (Z.leb_spec (getAbsoluteIndex rf (log_len rf)) prev) as [Hle|Hlt].
  { left. eexists. split; [done|]. unfold getAbsoluteIndex, log_len in *. split; [lia|].
    intros Ha. destruct (agree_lt _ _ _ Hprev Ha) as [Hx _]. rewrite length_elems in Hx by done. lia. }
  destruct (Z.leb_spec prev (lastIncludedIndex rf)).
  { right. eexists. split; [done|]. eapply agree_mono; [|apply (fo_zero _ _ _ Hf)]. lia. }
  destruct (entry_at_some rf prev Hlog) as [e' He']; [lia|]. rewrite (proj2 (slice_idx_entry _ _ _) He').
  cbn [mbind outcome_bind]. destruct (Z.eqb_spec (Term e') t) as [Et|Et]; cbn [negb].
  - right. eexists. split; [done|]. unfold entry_at in He'. rewrite decide_True, Hsnap, Z.sub_0_r in He' by lia.
    apply (fo_match _ _ _ Hf prev e' e); congruence.
  - assert (~ agree prev (elems (log rf)) lg) as Hna.
    { intros Ha. destruct (Ha prev ltac:(lia)) as (e2 & H1 & H2). unfold entry_at in He'.
      rewrite decide_True, Hsnap, Z.sub_0_r in He' by lia. congruence. }
    left. pose proof (back_loop_spec rf (Term e') (S (Z.to_nat prev)) prev ltac:(lia) ltac:(lia)) as Hb.
    destruct (back_loop rf (Term e') (S (Z.to_nat prev)) prev) as [q|p|]; [| |done]; cbn [mbind outcome_bind].
    + exists q. destruct Hb as (Hq & _ & Hor). split; [done|]. split; [|done].
      destruct Hor as [->|(e2 & He2 & Hne)]; [lia|]. destruct (decide (q = prev)) as [->|]; [congruence|lia].
    + exfalso. destruct Hb as (_ & q & Hq & _ & Hn). destruct (entry_at_some rf q Hlog) as [? ?]; [lia|congruence].
Qed.

(** What the handler changes besides log and term. *)
Definition same_service rf rf' : Prop :=
  (peers rf', me rf', dead rf') = (peers rf, me rf, dead rf) /\
  (commitIndex rf', lastApplied rf', applied rf') = (commitIndex rf, lastApplied rf, applied rf).

(** The goroutine that a request starts. *)
Definition apply_tasks rf (args : AppendEntriesArgs) : list (task C) :=
  let newIndex := go_min (LeaderCommit args) (PrevLogIndex args) in
  if commitIndex rf <? newIndex then [ApplyNewCommand newIndex] else [].

Record handled (T : Z) lg (p : purpose) (args : AppendEntriesArgs) rf rf' (reply : AppendEntriesReply) (ts : list (task C)) : Prop := {
  hd_follower : follower_ok T lg rf';
  hd_same : same_service rf rf';
  hd_kept : forall k, agree k (elems (log rf)) lg -> agree k (elems (log rf')) lg;
  hd_term : aer_Term reply <= T;
  hd_failed : Success reply = false -> 0 <= NewPrevLogIndex reply < PrevLogIndex args;
  hd_agrees : agree (PrevLogIndex args) (elems (log rf)) lg -> Success reply = true;
  hd_success : Success reply = true -> agree (PrevLogIndex args) (elems (log rf')) lg;
  hd_stored : forall last, Success reply = true -> p = Replication last -> agree last (elems (log rf')) lg;
  hd_tasks : ts = if Success reply then apply_tasks rf args else [];
}.

(** The entries of a request arrive. *)
Lemma entries_arrive es : exists r, d_serialEntries (serialEntries es) = Ret r /\ default [] r = es /\ (es <> [] -> r <> None).
Proof.
  unfold d_serialEntries, serialEntries. destruct (String.eqb_spec (encode_entries es) EmptyString) as [E|_].
  { by apply entries_nonempty in E. }
  destruct (decide (es = [])) as [->|Hne].
  - destruct entries_empty_law as (r & -> & Hr). by exists r.
  - rewrite entries_law by done. by exists (Some es).
Qed.

Lemma store_handled T b lg c rf args last es :
  follower_ok T lg rf -> own_after b T lg -> request_ok T b lg c (Replication last) args ->
  status rf = "follower" -> Entries args = serialEntries es ->
  take (Z.to_nat (PrevLogIndex args + 1)) lg ++ es `prefix_of` lg ->
  last = PrevLogIndex args + Z.of_nat (length es) -> agree (PrevLogIndex args) (elems (log rf)) lg ->
  exists rf', store_entries rf (PrevLogIndex args) es = Ret rf' /\ follower_ok T lg rf' /\ same_service rf rf' /\
    (forall k, agree k (elems (log rf)) lg -> agree k (elems (log rf')) lg) /\ agree last (elems (log rf')) lg.
Proof.
  intros Hf Hown Hrq Hst Hes Hpre Hlast Ha. pose proof (rk_prev _ _ _ _ _ _ Hrq) as Hprev.
  assert (last < Z.of_nat (length lg)) as Hlt.
  { apply prefix_length in Hpre. rewrite length_app, length_take in Hpre. lia. }
  pose proof (fo_term _ _ _ Hf) as Hterm. pose proof (rk_entries _ _ _ _ _ _ Hrq) as (_ & _ & _ & _ & Hb).
  destruct (store_entries_cases rf (PrevLogIndex args) es lg) as [(Hl & s & Hs & He & ->)|(Hl & s & Hs & He & ->)];
    try apply Hf; try done; try lia; eexists; (split; [done|]); rewrite <- Hlast in *.
  - split; [eapply (follower_stored T lg rf _ last); cbn; try done; lia|]. split; [done|].
    cbn [persist set_persister set_largest set_log log]. rewrite He.
    split; [|apply agree_take; lia]. intros k Hk. by apply (agree_stored T b lg rf); [..|lia|].
  - destruct (follower_overwritten T lg rf s last) as [Hf' Hk]; [done|lia|done..|]. split; [done|]. split; [done|].
    split; [by auto|]. apply Hk. by left.
Qed.

Lemma AppendEntries_handled T b lg c p rf args now :
  follower_ok T lg rf -> own_after b T lg -> request_ok T b lg c p args ->
  exists rf' reply ts, AppendEntries rf args now = Ret (rf', reply, ts) /\ handled T lg p args rf rf' reply ts.
Proof.
  intros Hf Hown Hrq. pose proof (rk_term _ _ _ _ _ _ Hrq) as HT. pose proof (fo_term _ _ _ Hf) as Hterm.
  pose proof (rk_prev _ _ _ _ _ _ Hrq) as Hprev. destruct (rk_prev_term _ _ _ _ _ _ Hrq) as (e & He & Het).
  unfold AppendEntries. rewrite HT. destruct (Z.ltb_spec T (currentTerm rf)) as [|_]; [lia|].
  set (rf1 := set_status (set_lastTime _ now) "follower").
  assert (log rf1 = log rf /\ lastIncludedIndex rf1 = lastIncludedIndex rf /\ status rf1 = "follower" /\ currentTerm rf1 <= T /\
    largestIndexMathWithLeader rf1 = largestIndexMathWithLeader rf /\ same_service rf rf1) as (E1 & E2 & E3 & E4 & E5 & E6).
  { subst rf1. destruct (Z.ltb_spec (currentTerm rf) T); cbn; by split_and!. }
  assert (follower_ok T lg rf1) as Hf1.
  { apply (follower_same T lg rf); rewrite ?E1; try done. }
  destruct (match_prev_cases T lg rf1 _ _ e Hf1 (proj1 Hprev) He Het) as [(q & -> & Hq & Hna)|(q & -> & Ha)]; cbn [mbind outcome_bind negb].
  - rewrite E1 in Hna. eexists _, _, _. split; [done|]. split; try done. intros k. by rewrite E1.
  - assert (exists r, d_serialEntries (Entries args) = Ret r /\ exists rf',
      match r with Some es => store_entries rf1 (PrevLogIndex args) es | None => Ret rf1 end = Ret rf' /\
      follower_ok T lg rf' /\ same_service rf1 rf' /\ (forall k, agree k (elems (log rf1)) lg -> agree k (elems (log rf')) lg) /\
      (forall last, p = Replication last -> agree last (elems (log rf')) lg)) as (r & Hr & rf' & Hm & Hf' & Hsame & Hkept & Hst).
    { destruct p as [|last].
      - rewrite (rk_entries _ _ _ _ _ _ Hrq). exists None. split; [done|]. by exists rf1.
      - destruct (rk_entries _ _ _ _ _ _ Hrq) as (es & Hes & Hpre & Hlast & Hb). rewrite Hes.
        destruct (entries_arrive es) as (r & Hr & Hd & Hne). exists r. split; [done|]. destruct r as [es'|].
        + cbn in Hd. subst es'. destruct (store_handled T b lg c rf1 args last es) as (rf' & ? & ? & ? & ? & ?); try done.
          exists rf'. split_and!; try done. by intros ? [= <-].
        + exists rf1. split_and!; try done. intros ? [= <-]. cbn in Hd. subst es. cbn in Hlast. by replace last with (PrevLogIndex args) by lia. }
    rewrite Hr. cbn [mbind outcome_bind]. rewrite Hm. cbn [mbind outcome_bind]. eexists _, _, _. split; [done|].
    destruct E6 as [E6 E7], Hsame as [E8 E9]. split; try done; cbn.
    + split; congruence.
    + intros k Hk. apply Hkept. by rewrite E1.
    + intros _. by apply Hkept.
    + auto.
    + unfold apply_tasks. injection E9 as E9 _ _. injection E7 as E7 _ _. by rewrite E9, E7.
Qed.
End shared.
