(* ===== verification/RaftReignInv.v ===== *)
(** * The invariant of replication under one leader

    While peer [l] leads term [T] and nobody campaigns: what the leader, the
    followers, the messages and the goroutines satisfy, and that every step
    keeps it and succeeds.  [b] is the last index of the leader's log when it
    was elected; what was committed or applied before is not beyond [c0]. *)

From S2P Require Import Prelude GoSlice Raft RaftOps RaftVote RaftLog RaftReign RaftShared.

(** ** What a peer has applied *)

Section applied.
Context {C : Type} `{!Command C, !Gob C, !AppendGrowth}.
Implicit Types (rf : Raft C) (lg : list (Entry C)) (ms : list (ApplyMsg C)).

(** The messages are commands of the log [lg] up to index [c], an index is
    sent after the one before it, and all indices up to [la] were sent. *)
Record applied_ok lg (c : Z) ms (la : Z) : Prop := {
  ap_message : forall m, m ∈ ms -> CommandValid m = true /\ 1 <= CommandIndex m <= c /\
    exists e, lg !! Z.to_nat (CommandIndex m) = Some e /\ am_Command m = Cmd e;
  ap_order : forall pre m post, ms = pre ++ m :: post -> 1 < CommandIndex m ->
    exists m', m' ∈ pre /\ CommandIndex m' = CommandIndex m - 1;
  ap_covered : forall i, 1 <= i <= la -> exists m, m ∈ ms /\ CommandIndex m = i;
}.

Lemma applied_mono lg lg' c c' ms la la' :
  lg `prefix_of` lg' -> c <= c' -> la' <= la -> applied_ok lg c ms la -> applied_ok lg' c' ms la'.
Proof.
  intros Hp Hc Hla [H1 H2 H3]. split; [|done|].
  - intros m Hm. destruct (H1 m Hm) as (? & ? & e & He & ?). split_and!; [done|lia|lia|].
    exists e. split; [by eapply prefix_lookup_Some|done].
  - intros i Hi. apply H3. lia.
Qed.

Lemma applied_snoc lg c ms la m e :
  applied_ok lg c ms la -> 0 <= la < c -> lg !! Z.to_nat (la + 1) = Some e -> m = command_msg (Cmd e) (la + 1) ->
  applied_ok lg c (ms ++ [m]) (la + 1).
Proof.
  intros [H1 H2 H3] Hla He ->. split.
  - intros m [Hm|Hm%list_elem_of_singleton]%elem_of_app; [auto|]. subst m. cbn. split_and!; [done|lia|lia|eauto].
  - intros pre m post Hms Hm. destruct post as [|x post _] using rev_ind.
    + apply app_inj_tail in Hms as [<- <-]. cbn in *. destruct (H3 la) as (m' & ? & ?); [lia|]. exists m'. split; [done|lia].
    + rewrite app_comm_cons, app_assoc in Hms. apply app_inj_tail in Hms as [-> _]. by apply (H2 pre m post).
  - intros i Hi. destruct (decide (i = la + 1)) as [->|Hne].
    + eexists. split; [apply elem_of_app; right; by apply list_elem_of_singleton|done].
    + destruct (H3 i) as (m' & ? & ?); [lia|]. exists m'. split; [apply elem_of_app; by left|done].
Qed.

Lemma applied_messages lg c ms la rf n new :
  applied_ok lg c ms la -> lastIncludedIndex rf = 0 -> 0 <= la -> la + Z.of_nat n <= c ->
  agree (la + Z.of_nat n) (elems (log rf)) lg -> messages rf n (la + 1) = Some new ->
  applied_ok lg c (ms ++ new) (la + Z.of_nat n).
Proof.
  intros Hap Hl0. revert ms la new Hap. induction n as [|n IH]; intros ms la new Hap Hla Hc Hag Hm; cbn [messages] in Hm.
  - injection Hm as <-. rewrite app_nil_r. by replace (la + Z.of_nat 0) with la by lia.
  - destruct (entry_at rf (la + 1)) as [e|] eqn:E; [|done]. cbn [mbind option_bind] in Hm.
    destruct (messages rf n (la + 1 + 1)) as [rest|] eqn:Er; [|done]. injection Hm as <-.
    rewrite (app_assoc _ [_] _ : ms ++ command_msg (Cmd e) (la + 1) :: rest = (ms ++ [command_msg (Cmd e) (la + 1)]) ++ rest).
    replace (la + Z.of_nat (S n)) with (la + 1 + Z.of_nat n) in * by lia.
    apply IH; try done; try lia. eapply applied_snoc; [done|lia| |done].
    unfold entry_at in E. rewrite decide_True, Hl0, Z.sub_0_r in E by lia.
    destruct (Hag (la + 1)) as (e' & H1 & H2); [lia|]. congruence.
Qed.
End applied.

(** ** The invariant *)

Section invariant.
Context {C : Type} `{!Command C, !Gob C, !AppendGrowth}.
Context (n l : nat) (T b c0 : Z).
Implicit Types (rf rl : Raft C) (lg : list (Entry C)) (g : reign C) (sh : nat -> Z -> Prop).

Record leader_ok rl : Prop := {
  ld_status : status rl = "leader";
  ld_dead : dead rl = false;
  ld_term : currentTerm rl = T;
  ld_me : me rl = Z.of_nat l;
  ld_peers : peers rl = n;
  ld_snap : lastIncludedIndex rl = 0;
  ld_log : log_ok rl;
  ld_base : 0 <= b < log_len rl;
  ld_own : own_after b T (elems (log rl));
  ld_next : length (nextIndex rl) = n /\ forall j x, nextIndex rl !! j = Some x -> 1 <= x <= log_len rl;
  ld_match : length (matchIndex rl) = n;
  ld_commit : lastApplied rl = commitIndex rl /\ 0 <= commitIndex rl < log_len rl;
  ld_applied : applied_ok (elems (log rl)) (commitIndex rl) (applied rl) (lastApplied rl);
}.

(** A follower and what it has applied, when the leader has committed [c]. *)
Definition member_ok lg (c : Z) rf : Prop :=
  follower_ok T lg rf /\ (0 <= lastApplied rf /\ commitIndex rf = lastApplied rf) /\ applied_ok lg c (applied rf) (lastApplied rf).

(** Peer [j] has the leader's log up to index [k]. *)
Definition shares (g : reign C) lg (j : nat) (k : Z) : Prop :=
  exists rf, rg_peers g !! j = Some rf /\ agree k (elems (log rf)) lg.

Definition other (j : nat) : Prop := (j < n)%nat /\ j <> l.

Definition sent_ok lg (c : Z) (rq : request) : Prop :=
  rq_from rq = l /\ other (rq_to rq) /\ request_ok T b lg c (rq_purpose rq) (rq_args rq).

Definition reply_ok lg sh (rs : response) : Prop :=
  rs_from rs = l /\ other (rs_to rs) /\ aer_Term (rs_reply rs) <= T /\
  (Success (rs_reply rs) = false -> 0 <= NewPrevLogIndex (rs_reply rs) < Z.of_nat (length lg)) /\
  (forall last, Success (rs_reply rs) = true -> rs_purpose rs = Replication last -> 0 <= last /\ sh (rs_to rs) last).

Definition task_ok (c : Z) sh (st : nat * task C) : Prop :=
  match st.2 with
  | ApplyNewCommand k => other st.1 /\ 0 <= k <= c /\ sh st.1 k
  | ReplicatedEntries => st.1 = l
  | ReplicatedEntriesToOne d => st.1 = l /\ exists j, d = Z.of_nat j /\ other j
  | _ => False
  end.

(** What the leader knows of the others is true. *)
Definition match_ok rl sh : Prop := forall j m, other j -> matchIndex rl !! j = Some m -> sh j m.

(** A majority, the leader included, has what was committed. *)
Definition commit_ok rl sh : Prop :=
  commitIndex rl <= c0 \/
  exists js, NoDup js /\ (n / 2 <= length js)%nat /\ forall j, j ∈ js -> other j /\ sh j (commitIndex rl).

Record inv rl g : Prop := {
  iv_peers : length (rg_peers g) = n;
  iv_l : rg_peers g !! l = Some rl;
  iv_leader : leader_ok rl;
  iv_members : forall j rf, j <> l -> rg_peers g !! j = Some rf -> member_ok (elems (log rl)) (Z.max c0 (commitIndex rl)) rf;
  iv_requests : Forall (sent_ok (elems (log rl)) (commitIndex rl)) (rg_requests g);
  iv_responses : Forall (reply_ok (elems (log rl)) (shares g (elems (log rl)))) (rg_responses g);
  iv_tasks : Forall (task_ok (commitIndex rl) (shares g (elems (log rl)))) (rg_tasks g);
  iv_match : match_ok rl (shares g (elems (log rl)));
  iv_commit : commit_ok rl (shares g (elems (log rl)));
  iv_snapshots : rg_snapshots g = [];
}.

(** ** What only grows *)

(** The leader's log grows by entries of its own term. *)
Definition grows lg lg' : Prop := lg' = lg \/ exists command, lg' = lg ++ [mkEntry T command].

Lemma grows_prefix lg lg' : grows lg lg' -> lg `prefix_of` lg'.
Proof. intros [->|[x ->]]; [done|by apply prefix_app_r]. Qed.

Lemma follower_grows lg lg' rf : grows lg lg' -> follower_ok T lg rf -> follower_ok T lg' rf.
Proof.
  intros Hg Hf. pose proof (grows_prefix _ _ Hg) as Hp. pose proof Hf as [H1 H2 H3 H4 H5 H6 H7 H8]. split; try done.
  - by eapply agree_prefix.
  - intros i e Hi Ht. destruct (H7 i e Hi Ht). split; [done|]. by eapply agree_prefix.
  - destruct Hg as [->|[x ->]]; [done|]. intros i e1 e2 Hi E1 E2 Ht.
    apply lookup_app_Some in E2 as [E2|[Hge E2]]; [by eapply agree_prefix, H8|]. exfalso.
    apply list_lookup_singleton_Some in E2 as [_ <-]. cbn in Ht. destruct (H7 _ _ E1 Ht) as [_ Ha].
    destruct (agree_lt _ _ _ (Nat2Z.is_nonneg _) Ha). lia.
Qed.

Lemma member_grows lg lg' c c' rf : grows lg lg' -> c <= c' -> member_ok lg c rf -> member_ok lg' c' rf.
Proof.
  intros Hg Hc (H1 & H2 & H3). split; [by eapply follower_grows|]. split; [done|].
  eapply applied_mono; [by apply grows_prefix|done|reflexivity|done].
Qed.

Lemma sent_grows lg lg' c c' rq : grows lg lg' -> c <= c' -> sent_ok lg c rq -> sent_ok lg' c' rq.
Proof.
  intros Hg%grows_prefix Hc (H1 & H2 & [H3 H4 H5 H6 H7]). split_and!; [done|apply H2..|]. pose proof (prefix_length _ _ Hg).
  split; [done|lia| |lia|].
  - destruct H5 as (e & He & ?). exists e. split; [by eapply prefix_lookup_Some|done].
  - destruct (rq_purpose rq); [done|]. destruct H7 as (es & ? & Hp & ? & ?). exists es. split_and!; try done.
    destruct Hg as [x ->]. rewrite take_app_le by lia. by apply prefix_app_r.
Qed.

Lemma reply_grows lg lg' sh sh' rs :
  grows lg lg' -> (forall j k, sh j k -> sh' j k) -> reply_ok lg sh rs -> reply_ok lg' sh' rs.
Proof.
  intros Hg%grows_prefix Hs (H1 & H2 & H3 & H4 & H5). pose proof (prefix_length _ _ Hg).
  split_and!; [done|apply H2..|done| |].
  - intros Hf. specialize (H4 Hf). lia.
  - intros last Hl Hp. destruct (H5 last Hl Hp). auto.
Qed.

Lemma task_grows c c' sh sh' st : c <= c' -> (forall j k, sh j k -> sh' j k) -> task_ok c sh st -> task_ok c' sh' st.
Proof. unfold task_ok. destruct st as [s []]; cbn; try done. intros Hc Hs (H1 & H2 & H3). split_and!; [apply H1..|lia|lia|auto]. Qed.

Lemma commit_grows rl rl' sh sh' : commitIndex rl' = commitIndex rl -> (forall j k, sh j k -> sh' j k) -> commit_ok rl sh -> commit_ok rl' sh'.
Proof.
  intros Hc Hs [Hle|(js & H1 & H2 & H3)]; [left; by rewrite Hc|right]. exists js. split_and!; [done..|].
  intros j Hj. destruct (H3 j Hj). rewrite Hc. auto.
Qed.

(** The leader's log and commit index do not go back. *)
Definition advances rl rl' : Prop := elems (log rl) `prefix_of` elems (log rl') /\ commitIndex rl <= commitIndex rl'.

#[export] Instance advances_refl : Reflexive advances.
Proof. by split. Qed.
#[export] Instance advances_trans : Transitive advances.
Proof. intros r1 r2 r3 [? ?] [? ?]. split; [by etrans|lia]. Qed.

(** ** Changing one part of the state *)

Lemma member_lookup rl g j : inv rl g -> other j ->
  exists rf, rg_peers g !! j = Some rf /\ member_ok (elems (log rl)) (Z.max c0 (commitIndex rl)) rf.
Proof.
  intros Hi [Hj Hne]. destruct (lookup_lt_is_Some_2 (rg_peers g) j) as [rf Hrf]; [by rewrite (iv_peers _ _ Hi)|].
  exists rf. split; [done|]. by apply (iv_members _ _ Hi j).
Qed.

Lemma shares_mono g lg j k k' : k' <= k -> shares g lg j k -> shares g lg j k'.
Proof. intros Hk (rf & ? & ?). exists rf. split; [done|]. by eapply agree_mono. Qed.

Lemma inv_member rl g j rf rf' :
  inv rl g -> j <> l -> rg_peers g !! j = Some rf -> member_ok (elems (log rl)) (Z.max c0 (commitIndex rl)) rf' ->
  (forall k, agree k (elems (log rf)) (elems (log rl)) -> agree k (elems (log rf')) (elems (log rl))) ->
  inv rl (put_peer g j rf').
Proof.
  intros [H1 H2 H3 H4 H5 H6 H7 H8 H9 H10] Hj Hrf Hm Hk.
  assert (forall i k, shares g (elems (log rl)) i k -> shares (put_peer g j rf') (elems (log rl)) i k) as Hs.
  { intros i k (rf1 & Hi & Ha). unfold shares. cbn. destruct (decide (j = i)) as [<-|Hne].
    - exists rf'. rewrite list_lookup_insert_eq by by eapply lookup_lt_Some. split; [done|]. apply Hk. by simplify_eq.
    - exists rf1. by rewrite list_lookup_insert_ne. }
  split; cbn; try done.
  - by rewrite length_insert.
  - by rewrite list_lookup_insert_ne.
  - intros i rf1 Hi. rewrite list_lookup_insert_Some. intros [(<- & <- & _)|[_ ?]]; [done|by eapply H4].
  - eapply Forall_impl; [exact H6|]. intros rs. apply reply_grows; [by left|done].
  - eapply Forall_impl; [exact H7|]. intros st. by apply task_grows.
  - intros i m Hi Hmi. apply Hs. by apply H8.
  - by eapply commit_grows.
Qed.

Lemma shares_leader rl rl' g : rg_peers g !! l = Some rl -> grows (elems (log rl)) (elems (log rl')) ->
  forall j k, shares g (elems (log rl)) j k -> shares (put_peer g l rl') (elems (log rl')) j k.
Proof.
  intros Hl Hg%grows_prefix j k (rf & Hj & Ha). unfold shares. cbn. destruct (decide (l = j)) as [<-|Hne].
  - exists rl'. rewrite list_lookup_insert_eq by by eapply lookup_lt_Some. split; [done|]. assert (rf = rl) as -> by congruence.
    intros i Hi. destruct (Ha i Hi) as (e & _ & He). exists e. by split; eapply prefix_lookup_Some.
  - exists rf. rewrite list_lookup_insert_ne by done. split; [done|]. by eapply agree_prefix.
Qed.

Lemma inv_leader rl g rl' :
  inv rl g -> leader_ok rl' -> grows (elems (log rl)) (elems (log rl')) -> commitIndex rl <= commitIndex rl' ->
  match_ok rl' (shares g (elems (log rl))) ->
  commitIndex rl' = commitIndex rl \/ commit_ok rl' (shares g (elems (log rl))) -> inv rl' (put_peer g l rl').
Proof.
  intros [H1 H2 H3 H4 H5 H6 H7 H8 H9 H10] Hld Hg Hc Hm Hcm. pose proof (shares_leader _ _ _ H2 Hg) as Hs.
  split; cbn; try done.
  - by rewrite length_insert.
  - apply list_lookup_insert_eq. by eapply lookup_lt_Some.
  - intros j rf Hj. rewrite list_lookup_insert_ne by done. intros Hrf. eapply member_grows; [done| |by eapply H4]. lia.
  - eapply Forall_impl; [exact H5|]. intros rq. by apply sent_grows.
  - eapply Forall_impl; [exact H6|]. intros rs. by apply reply_grows.
  - eapply Forall_impl; [exact H7|]. intros st. by apply task_grows.
  - intros j m Hj Hjm. apply Hs. by apply Hm.
  - destruct Hcm as [Hcm|Hcm]; [by apply (commit_grows rl rl' _ _ Hcm Hs)|by apply (commit_grows rl' rl' _ _ eq_refl Hs)].
Qed.

Lemma inv_request rl g rq : inv rl g -> sent_ok (elems (log rl)) (commitIndex rl) rq -> inv rl (add_request g rq).
Proof. intros [H1 H2 H3 H4 H5 H6 H7 H8 H9 H10] Hrq. split; try done. cbn. apply Forall_app. by rewrite Forall_singleton. Qed.

Lemma inv_response rl g rs : inv rl g -> reply_ok (elems (log rl)) (shares g (elems (log rl))) rs -> inv rl (add_response g rs).
Proof. intros [H1 H2 H3 H4 H5 H6 H7 H8 H9 H10] Hrs. split; try done. cbn. apply Forall_app. by rewrite Forall_singleton. Qed.

Lemma inv_tasks rl g s ts : inv rl g -> Forall (fun t => task_ok (commitIndex rl) (shares g (elems (log rl))) (s, t)) ts ->
  inv rl (add_tasks g s ts).
Proof. intros [H1 H2 H3 H4 H5 H6 H7 H8 H9 H10] Hts. split; try done. cbn. apply Forall_app. split; [done|]. by apply Forall_fmap. Qed.

Lemma inv_lose_request rl g i : inv rl g -> inv rl (lose_request g i).
Proof. intros [H1 H2 H3 H4 H5 H6 H7 H8 H9 H10]. split; try done. by apply Forall_delete. Qed.

Lemma inv_drop_response rl g i : inv rl g -> inv rl (drop_response g i).
Proof. intros [H1 H2 H3 H4 H5 H6 H7 H8 H9 H10]. split; try done. by apply Forall_delete. Qed.

Lemma inv_drop_task rl g i : inv rl g -> inv rl (drop_task g i).
Proof. intros [H1 H2 H3 H4 H5 H6 H7 H8 H9 H10]. split; try done. by apply Forall_delete. Qed.
End invariant.
