(* ===== verification/RaftReignSteps.v ===== *)
(** * Every step of a reign succeeds and keeps the invariant *)

From S2P Require Import Prelude GoSlice Raft RaftOps RaftVote RaftLog RaftReign RaftShared RaftReignInv.

Section steps.
Context {C : Type} `{!Command C, !Gob C, !AppendGrowth}.
Context (n l : nat) (T b c0 : Z).
Implicit Types (rf rl : Raft C) (lg : list (Entry C)) (g : reign C).

Abbreviation inv := (inv n l T b c0).
Abbreviation leader_ok := (leader_ok n l T b).
Abbreviation member_ok := (member_ok T).
Abbreviation other := (other n l).

(** ** The leader's requests *)

Lemma elem_other_peers rl d : leader_ok rl -> Z.of_nat d ∈ other_peers rl <-> other d.
Proof.
  intros Hl. unfold other_peers, RaftReignInv.other. rewrite list_elem_of_filter, (ld_me _ _ _ _ _ Hl), (ld_peers _ _ _ _ _ Hl).
  rewrite list_elem_of_fmap. split.
  - intros (Hne & k & Hk & Hin%elem_of_seq). lia.
  - intros [Hlt Hne]. split; [lia|]. exists d. split; [done|]. apply elem_of_seq. lia.
Qed.

Lemma leader_length rl : leader_ok rl -> Z.of_nat (length (elems (log rl))) = log_len rl.
Proof. intros Hl. unfold log_len. rewrite length_elems; [done|]. apply (ld_log _ _ _ _ _ Hl). Qed.

(** The next index of another peer, and the entry before it. *)
Lemma leader_next rl j : leader_ok rl -> other j ->
  exists x e, idx (nextIndex rl) (Z.of_nat j) = Ret x /\ nextIndex rl !! j = Some x /\ 1 <= x <= log_len rl /\
    (x <=? lastIncludedIndex rl) = false /\ slice_idx (log rl) (getRelativeIndex rl (x - 1)) = Ret e /\
    elems (log rl) !! Z.to_nat (x - 1) = Some e.
Proof.
  intros Hl [Hj _]. destruct (ld_next _ _ _ _ _ Hl) as [Hlen Hx].
  destruct (lookup_lt_is_Some_2 (nextIndex rl) j) as [x Hnx]; [lia|]. specialize (Hx j x Hnx).
  pose proof (ld_snap _ _ _ _ _ Hl) as Hs. pose proof (leader_length rl Hl) as Hll.
  destruct (lookup_lt_is_Some_2 (elems (log rl)) (Z.to_nat (x - 1))) as [e He]; [lia|].
  exists x, e. split_and!; [by apply idx_lookup|done|lia|lia|lia| |done].
  unfold slice_idx, getRelativeIndex. rewrite Hs, Z.sub_0_r. apply idx_ret. split; [lia|done].
Qed.

Lemma leader_heartbeat rl d : leader_ok rl -> other d ->
  exists x args, nextIndex rl !! d = Some x /\ heartbeat_args rl (Z.of_nat d) = Ret (Some args) /\
    PrevLogIndex args = x - 1 /\ LeaderCommit args = commitIndex rl /\
    request_ok T b (elems (log rl)) (commitIndex rl) Heartbeat args.
Proof.
  intros Hl Hd. destruct (leader_next rl d Hl Hd) as (x & e & Hi & Hnx & Hx & Hle & Hsl & He).
  unfold heartbeat_args. rewrite (ld_status _ _ _ _ _ Hl). change (negb _) with false. cbn iota. rewrite Hi. cbn [mbind outcome_bind].
  rewrite Hle, Hsl. cbn [mbind outcome_bind]. eexists x, _. split; [done|]. split; [done|]. split; [done|]. split; [done|].
  pose proof (leader_length rl Hl). pose proof (ld_commit _ _ _ _ _ Hl).
  split; cbn; [apply Hl|lia|by exists e|lia|done].
Qed.

Lemma leader_replicate rl d : leader_ok rl -> other d ->
  exists x args, nextIndex rl !! d = Some x /\ replicate_args rl (Z.of_nat d) = Ret (Some (args, log_len rl - 1)) /\
    PrevLogIndex args = x - 1 /\ request_ok T b (elems (log rl)) (commitIndex rl) (Replication (log_len rl - 1)) args.
Proof.
  intros Hl Hd. destruct (leader_next rl d Hl Hd) as (x & e & Hi & Hnx & Hx & Hle & Hsl & He).
  pose proof (leader_length rl Hl) as Hll. pose proof (ld_commit _ _ _ _ _ Hl). pose proof (ld_base _ _ _ _ _ Hl).
  pose proof (ld_snap _ _ _ _ _ Hl) as Hs.
  unfold replicate_args. rewrite (ld_status _ _ _ _ _ Hl). change (negb _) with false. cbn iota. rewrite Hi. cbn [mbind outcome_bind].
  rewrite Hle, Hsl. cbn [mbind outcome_bind].
  unfold elems_from, getRelativeIndex, getAbsoluteIndex. rewrite Hs, Z.sub_0_r, Z.add_0_r, decide_True by (unfold log_len in *; lia).
  cbn [mbind outcome_bind]. eexists x, _. split; [done|]. split; [done|]. split; [done|].
  split; cbn; [apply Hl|lia|by exists e|lia|]. eexists. split; [done|].
  replace (x - 1 + 1) with x by lia. rewrite take_drop, length_drop. split_and!; [done|lia|lia].
Qed.

Lemma follower_silent rf d : status rf <> "leader" ->
  heartbeat_args rf d = Ret None /\ replicate_args rf d = Ret None.
Proof.
  intros Hs. unfold heartbeat_args, replicate_args. destruct (String.eqb_spec (status rf) "leader") as [E|_]; [done|]. done.
Qed.

Lemma heartbeat_step_ok rl g s d : inv rl g -> ensures (heartbeat_step g s d) (inv rl).
Proof.
  intros Hi. unfold heartbeat_step. destruct (rg_peers g !! s) as [rf|] eqn:Es; [|by apply ensures_ret].
  destruct (decide (s = l)) as [->|Hne].
  - rewrite (iv_l _ _ _ _ _ _ _ Hi) in Es. injection Es as <-. pose proof (iv_leader _ _ _ _ _ _ _ Hi) as Hl.
    case_decide as Hd; [|by apply ensures_ret]. apply (elem_other_peers rl d Hl) in Hd.
    destruct (leader_heartbeat rl d Hl Hd) as (x & args & _ & -> & _ & _ & Hrq). cbn [mbind outcome_bind].
    apply ensures_ret. by apply inv_request.
  - case_decide; [|by apply ensures_ret]. destruct (iv_members _ _ _ _ _ _ _ Hi s rf Hne Es) as (Hf & _).
    rewrite (proj1 (follower_silent rf _ (fo_status _ _ _ Hf))). by apply ensures_ret.
Qed.

(** No log is cut off, so nobody needs a snapshot. *)
Lemma snapshot_step_ok rl g s d : inv rl g -> ensures (snapshot_step g s d) (inv rl).
Proof.
  intros Hi. unfold snapshot_step. destruct (rg_peers g !! s) as [rf|] eqn:Es; [|by apply ensures_ret].
  case_decide as Hd; [|by apply ensures_ret]. unfold snapshot_args. destruct (decide (s = l)) as [->|Hne].
  - rewrite (iv_l _ _ _ _ _ _ _ Hi) in Es. injection Es as <-. pose proof (iv_leader _ _ _ _ _ _ _ Hi) as Hl.
    apply (elem_other_peers rl d Hl) in Hd. destruct (leader_next rl d Hl Hd) as (x & e & -> & _ & Hx & _).
    rewrite (ld_status _ _ _ _ _ Hl), (ld_snap _ _ _ _ _ Hl). change (negb _) with false. cbn [mbind outcome_bind].
    destruct (Z.ltb_spec 0 x); [|lia]. by apply ensures_ret.
  - destruct (iv_members _ _ _ _ _ _ _ Hi s rf Hne Es) as (Hf & _).
    destruct (String.eqb_spec (status rf) "leader") as [E|_]; [by destruct (fo_status _ _ _ Hf)|]. by apply ensures_ret.
Qed.

(** ** Clients *)

Lemma Start_leader rl command : leader_ok rl ->
  exists rl', Start rl command = (rl', (log_len rl, T, true), [ReplicatedEntries]) /\ leader_ok rl' /\
    elems (log rl') = elems (log rl) ++ [mkEntry T command] /\ nextIndex rl' = nextIndex rl /\
    matchIndex rl' = matchIndex rl /\ commitIndex rl' = commitIndex rl.
Proof.
  intros Hl. pose proof Hl as [H1 H2 H3 H4 H5 H6 (Hs & Hlen & Hl0) H8 H9 H10 H11 H12 H13].
  unfold Start, killed. rewrite H1, H2. change (false || negb _) with false. cbn iota.
  destruct (append_elems zero_entry (log rl) [mkEntry (currentTerm rl) command] Hs) as (He & Hok & Hll).
  set (lg' := (append zero_entry (log rl) [mkEntry (currentTerm rl) command]).1) in *. rewrite H3 in He.
  assert (log_len (set_log rl lg') = log_len rl + 1) as Hlog by (unfold log_len; cbn in *; lia).
  exists (persist (set_log rl lg')). split; [|split; [|split; [exact He|done]]].
  { fold lg'. assert (getAbsoluteIndex (persist (set_log rl lg')) (log_len (persist (set_log rl lg')) - 1) = log_len rl) as ->.
    { unfold getAbsoluteIndex. change (log_len (persist _)) with (log_len (set_log rl lg')). cbn. lia. }
    cbn. by rewrite H3. }
  assert (elems (log rl) `prefix_of` elems lg') as Hp by (rewrite He; by apply prefix_app_r).
  split; try done; change (log_len (persist _)) with (log_len (set_log rl lg')); rewrite ?Hlog.
  - unfold log_ok. cbn. split_and!; [done|lia|lia].
  - lia.
  - intros i e Hi Hb. cbn in Hi. rewrite He in Hi. apply lookup_app_Some in Hi as [Hi|[_ Hi]]; [by apply (H9 i)|].
    by apply list_lookup_singleton_Some in Hi as [_ <-].
  - cbn. destruct H10 as [Hnl Hx]. split; [done|]. intros j x Hj. specialize (Hx j x Hj). lia.
  - cbn. lia.
  - cbn. by eapply applied_mono.
Qed.

Lemma client_step_ok rl g s command : inv rl g -> ensures (rg_step g (RgStart s command)) (fun g' => exists rl', advances rl rl' /\ inv rl' g').
Proof.
  intros Hi. cbn [rg_step]. destruct (rg_peers g !! s) as [rf|] eqn:Es; [|apply ensures_ret; exists rl; by split].
  destruct (decide (s = l)) as [->|Hne].
  - rewrite (iv_l _ _ _ _ _ _ _ Hi) in Es. injection Es as <-.
    destruct (Start_leader rl command (iv_leader _ _ _ _ _ _ _ Hi)) as (rl' & -> & Hl' & He & Hnx & Hmx & Hcx).
    apply ensures_ret. exists rl'. split; [split; [rewrite He; by apply prefix_app_r|lia]|]. apply inv_tasks; [|by repeat constructor].
    apply (inv_leader _ _ _ _ _ rl); try done; [right; by exists command|lia| |by left].
    intros j m Hj Hm. apply (iv_match _ _ _ _ _ _ _ Hi); [done|congruence].
  - destruct (iv_members _ _ _ _ _ _ _ Hi s rf Hne Es) as (Hf & ?). unfold Start.
    destruct (String.eqb_spec (status rf) "leader") as [E|_]; [by destruct (fo_status _ _ _ Hf)|].
    rewrite orb_true_r. apply ensures_ret. exists rl. split; [done|]. apply inv_tasks; [|constructor].
    by apply (inv_member _ _ _ _ _ _ _ _ rf).
Qed.

(** ** The followers *)

Lemma handled_member lg c p args rf rf' reply ts :
  member_ok lg c rf -> handled T lg p args rf rf' reply ts -> member_ok lg c rf'.
Proof.
  intros (Hf & Hla & Ha) [H1 [_ H2] _ _ _ _ _ _ _]. injection H2 as Hcm Hl Hap. split; [done|]. by rewrite Hcm, Hl, Hap.
Qed.

Lemma deliver_ok rl g rq now : inv rl g -> sent_ok n l T b (elems (log rl)) (commitIndex rl) rq ->
  ensures (deliver g rq now) (inv rl).
Proof.
  intros Hi (Hfrom & Hto & Hrq). destruct (member_lookup _ _ _ _ _ _ _ _ Hi Hto) as (rf & Hrf & Hm).
  pose proof (iv_leader _ _ _ _ _ _ _ Hi) as Hl. unfold deliver. rewrite Hrf.
  destruct (AppendEntries_handled T b _ _ _ rf _ now (proj1 Hm) (ld_own _ _ _ _ _ Hl) Hrq) as (rf' & reply & ts & -> & Hh).
  cbn [mbind outcome_bind]. apply ensures_ret. pose proof (handled_member _ _ _ _ _ _ _ _ Hm Hh) as Hm'.
  destruct Hh as [_ _ Hkept Hterm Hfail _ Hsucc Hst Hts]. pose proof (rk_prev _ _ _ _ _ _ Hrq). pose proof (rk_commit _ _ _ _ _ _ Hrq).
  assert (forall k, agree k (elems (log rf')) (elems (log rl)) -> shares (put_peer g (rq_to rq) rf') (elems (log rl)) (rq_to rq) k) as Hs.
  { intros k Hk. exists rf'. cbn. rewrite list_lookup_insert_eq by by eapply lookup_lt_Some. done. }
  assert (inv rl (put_peer g (rq_to rq) rf')) as Hi' by (by eapply inv_member; [exact Hi|apply Hto|..]).
  apply inv_tasks; [apply inv_response; [done|]|].
  - unfold reply_ok. cbn. split_and!; [done|apply Hto..|done|intros Hf; specialize (Hfail Hf); lia|].
    intros last Hsu Hp. split; [|by eapply Hs, Hst]. pose proof (rk_entries _ _ _ _ _ _ Hrq) as Hes. rewrite Hp in Hes.
    destruct Hes as (es & _ & _ & ? & _). lia.
  - subst ts. destruct (Success reply); [|constructor]. unfold apply_tasks. case_match; constructor; [|constructor].
    assert (0 <= go_min (LeaderCommit (rq_args rq)) (PrevLogIndex (rq_args rq)) <= commitIndex rl /\
      go_min (LeaderCommit (rq_args rq)) (PrevLogIndex (rq_args rq)) <= PrevLogIndex (rq_args rq)) as [? ?].
    { unfold go_min. destruct (Z.gtb_spec (LeaderCommit (rq_args rq)) (PrevLogIndex (rq_args rq))); lia. }
    split; [done|]. split; [done|]. apply Hs. eapply agree_mono; [done|]. by apply Hsucc.
Qed.

Lemma apply_member lg c rf k : member_ok lg c rf -> 0 <= k <= c -> agree k (elems (log rf)) lg ->
  exists rf', applyNewCommand rf k = Ret rf' /\ member_ok lg c rf' /\ log rf' = log rf /\ lastApplied rf' = k /\ commitIndex rf' = k.
Proof.
  intros (Hf & [Hla _] & Hap) Hk Ha. pose proof (fo_log _ _ _ Hf) as Hlog. pose proof (fo_snap _ _ _ Hf) as Hs.
  destruct (applyNewCommand_eq rf k Hlog) as (ms & -> & _ & Hms). eexists. split; [done|]. split; [|done].
  destruct (agree_lt _ _ _ (proj1 Hk) Ha) as [Hlen _]. rewrite length_elems in Hlen by apply Hlog.
  rewrite Hs, Z.max_l, Z.min_l in Hms by (unfold getAbsoluteIndex, log_len; lia).
  split; [by destruct Hf; split|]. split; [cbn; split; [lia|done]|]. cbn.
  destruct (decide (k <= lastApplied rf)) as [Hle|Hgt].
  - replace (Z.to_nat (k - lastApplied rf)) with 0%nat in Hms by lia. injection Hms as <-. rewrite app_nil_r.
    by eapply applied_mono.
  - replace k with (lastApplied rf + Z.of_nat (Z.to_nat (k - lastApplied rf))) at 1 by lia.
    eapply applied_messages; try done; [lia|]. by replace (_ + Z.of_nat _) with k by lia.
Qed.

Lemma run_task_ok rl g s t : inv rl g -> task_ok n l (commitIndex rl) (shares g (elems (log rl))) (s, t) ->
  ensures (run_task g s t) (inv rl).
Proof.
  intros Hi Ht. pose proof (iv_leader _ _ _ _ _ _ _ Hi) as Hl. unfold run_task.
  destruct t as [k| | |d| |]; cbn in Ht; try done.
  - destruct Ht as (Hs & Hk & rf & Hrf & Ha). destruct (member_lookup _ _ _ _ _ _ _ _ Hi Hs) as (rf2 & Hrf2 & Hm).
    simplify_eq. rewrite Hrf. destruct (apply_member _ _ rf k Hm ltac:(lia) Ha) as (rf' & -> & Hm' & Hlog & _).
    cbn [mbind outcome_bind]. apply ensures_ret. apply (inv_member _ _ _ _ _ _ _ _ rf); try done; [apply Hs|]. by rewrite Hlog.
  - subst s. rewrite (iv_l _ _ _ _ _ _ _ Hi). apply ensures_ret. apply inv_tasks; [done|]. apply Forall_fmap, Forall_forall.
    intros d Hd. split; [done|]. assert (exists j, d = Z.of_nat j) as [j ->].
    { apply list_elem_of_filter in Hd as [_ (j & -> & _)%list_elem_of_fmap]. by exists j. }
    exists j. split; [done|]. by apply (elem_other_peers rl j Hl).
  - destruct Ht as [-> (j & -> & Hj)]. rewrite (iv_l _ _ _ _ _ _ _ Hi).
    destruct (leader_replicate rl j Hl Hj) as (x & args & _ & -> & _ & Hrq). cbn [mbind outcome_bind].
    apply ensures_ret. apply inv_request; [done|]. rewrite Nat2Z.id. by split_and!.
Qed.

(** ** Replies *)

Lemma leader_indices rl j x ms : leader_ok rl -> 1 <= x <= log_len rl -> length ms = n ->
  leader_ok (set_indices rl (<[j := x]> (nextIndex rl)) ms).
Proof.
  intros [H1 H2 H3 H4 H5 H6 H7 H8 H9 [H10 Hx] H11 H12 H13] Hj Hms. split; try done. cbn. split; [by rewrite length_insert|].
  intros i y [[_ ->]|Hy]%lookup_insert_cases; [done|by apply (Hx i)].
Qed.

Lemma leader_backs_off rl d q ns : leader_ok rl -> other d -> 0 <= q < log_len rl ->
  idx_set (nextIndex rl) (Z.of_nat d) (q + 1) = Ret ns -> leader_ok (set_indices rl ns (matchIndex rl)).
Proof.
  intros Hl [Hd _] Hq. destruct (ld_next _ _ _ _ _ Hl) as [Hlen _]. rewrite idx_set_ok by lia. intros [= <-].
  rewrite Nat2Z.id. apply leader_indices; [done|lia|apply Hl].
Qed.

(** The majority that [leaderApply] counts. *)
Lemma replicated_commit rl (sh : nat -> Z -> Prop) k :
  leader_ok rl -> (forall j k k', k' <= k -> sh j k -> sh j k') -> match_ok n l rl sh -> replicated rl k ->
  exists js, NoDup js /\ (n / 2 <= length js)%nat /\ forall j, j ∈ js -> other j /\ sh j k.
Proof.
  intros Hl Hmono Hm Hr. unfold replicated in Hr. rewrite (ld_peers _ _ _ _ _ Hl) in Hr. exists (matching rl k (seq 0 n)).
  split_and!; [apply NoDup_filter, NoDup_seq|done|].
  intros j [Hj Hin%elem_of_seq]%list_elem_of_filter. unfold matches in Hj. rewrite (ld_me _ _ _ _ _ Hl) in Hj.
  apply andb_true_iff in Hj as [Hne Hle]. destruct (matchIndex rl !! j) as [m|] eqn:E; [|done].
  assert (other j) as Ho by (split; lia). split; [done|]. apply (Hmono j m); [lia|]. by apply Hm.
Qed.

Lemma leader_confirms rl d last : leader_ok rl -> other d ->
  idx_set (nextIndex rl) (Z.of_nat d) (getAbsoluteIndex rl (log_len rl)) = Ret (<[d := log_len rl]> (nextIndex rl)) /\
  idx_set (matchIndex rl) (Z.of_nat d) last = Ret (<[d := last]> (matchIndex rl)) /\
  leader_ok (set_indices rl (<[d := log_len rl]> (nextIndex rl)) (<[d := last]> (matchIndex rl))).
Proof.
  intros Hl [Hd _]. destruct (ld_next _ _ _ _ _ Hl) as [Hlen _]. pose proof (ld_match _ _ _ _ _ Hl) as Hml.
  pose proof (ld_base _ _ _ _ _ Hl). unfold getAbsoluteIndex. rewrite (ld_snap _ _ _ _ _ Hl), Z.add_0_r, !idx_set_ok, Nat2Z.id by lia.
  split_and!; [done..|]. apply leader_indices; [done|lia|by rewrite length_insert].
Qed.

Lemma match_confirmed rl sh d last ns : match_ok n l rl sh -> sh d last ->
  match_ok n l (set_indices rl ns (<[d := last]> (matchIndex rl))) sh.
Proof. intros Hm Hs j m Hj. cbn. intros [[<- ->]|Hjm]%lookup_insert_cases; [done|by apply Hm]. Qed.

Context (Hn : (2 <= n)%nat).

Lemma leaderApply_leader rl sh :
  leader_ok rl -> (forall j k k', k' <= k -> sh j k -> sh j k') -> match_ok n l rl sh ->
  exists rl', leaderApply rl = Ret rl' /\ leader_ok rl' /\ log rl' = log rl /\ commitIndex rl <= commitIndex rl' /\
    nextIndex rl' = nextIndex rl /\ matchIndex rl' = matchIndex rl /\
    (commitIndex rl' = commitIndex rl \/ commit_ok n l c0 rl' sh) /\
    (forall j, commitIndex rl' < j < log_len rl -> ~ replicated rl j).
Proof.
  intros Hl Hmono Hm. pose proof Hl as [H1 H2 H3 H4 H5 H6 H7 H8 H9 H10 H11 [H12 H12'] H13].
  assert (getAbsoluteIndex rl (log_len rl) = log_len rl) as Habs by (unfold getAbsoluteIndex; lia).
  destruct (leaderApply_cases rl) as [[-> Hno]|(k & ms & Hk & Hrep & Hmax & Hms & ->)]; try done; try lia.
  - exists rl. split_and!; try done. + by left. + intros j Hj. apply Hno. lia.
  - rewrite Habs in *. eexists. split; [done|]. split; [|split_and!; try done; [cbn; lia|]].
    + split; try done; cbn [commitIndex lastApplied applied log set_applied set_commit]; [change (log_len (set_applied _ _)) with (log_len rl); lia|].
      replace k with (lastApplied rl + Z.of_nat (Z.to_nat (k - lastApplied rl))) at 2 by lia.
      eapply applied_messages; [by eapply applied_mono; [reflexivity| |reflexivity|exact H13]; lia|done|lia|lia| |done].
      intros i Hi. pose proof (leader_length rl Hl). destruct (lookup_lt_is_Some_2 (elems (log rl)) (Z.to_nat i)) as [e He]; [lia|eauto].
    + right. right. by apply (replicated_commit rl).
Qed.

Lemma handle_response_ok rl g rs now : inv rl g -> reply_ok n l T (elems (log rl)) (shares g (elems (log rl))) rs ->
  ensures (handle_response g rs now) (fun g' => exists rl', advances rl rl' /\ inv rl' g').
Proof.
  intros Hi (Hfrom & Hto & Hterm & Hfail & Hst). pose proof (iv_leader _ _ _ _ _ _ _ Hi) as Hl.
  rewrite (leader_length rl Hl) in Hfail. pose proof (ld_next _ _ _ _ _ Hl) as [Hlen _].
  unfold handle_response. rewrite Hfrom, (iv_l _ _ _ _ _ _ _ Hi).
  unfold heartbeat_reply, replicate_reply. rewrite (ld_status _ _ _ _ _ Hl), (ld_term _ _ _ _ _ Hl).
  change (negb (String.eqb "leader" "leader")) with false. cbn iota.
  destruct (Z.ltb_spec T (aer_Term (rs_reply rs))) as [|_]; [lia|].
  assert (forall x, exists ns, idx_set (nextIndex rl) (Z.of_nat (rs_to rs)) x = Ret ns) as Hset.
  { intros x. destruct Hto. eexists. apply idx_set_ok. lia. }
  assert (forall ns, Success (rs_reply rs) = false -> idx_set (nextIndex rl) (Z.of_nat (rs_to rs)) (NewPrevLogIndex (rs_reply rs) + 1) = Ret ns ->
    inv (set_indices rl ns (matchIndex rl)) (put_peer g l (set_indices rl ns (matchIndex rl)))) as Hback.
  { intros ns Hs Hns. apply (inv_leader _ _ _ _ _ rl); try done; [|by left|apply Hi|by left].
    eapply leader_backs_off; [done|exact Hto| |exact Hns]. by apply Hfail. }
  destruct (Hset (NewPrevLogIndex (rs_reply rs) + 1)) as [ns Hns].
  destruct (rs_purpose rs) as [|last]; destruct (Success (rs_reply rs)) eqn:Hs; cbn [negb]; rewrite ?Hns; cbn [mbind outcome_bind].
  - destruct (leader_next rl (rs_to rs) Hl Hto) as (x & e & -> & _). cbn [mbind outcome_bind]. apply ensures_ret. exists rl. split; [done|].
    apply inv_tasks; [apply (inv_leader _ _ _ _ _ rl); try done; [by left|apply Hi|by left]|].
    destruct (_ <? _); constructor; [|constructor]. split; [done|]. by exists (rs_to rs).
  - apply ensures_ret. eexists. split; [|apply inv_tasks; [by apply Hback|constructor]]. by split.
  - destruct (Hst last eq_refl eq_refl) as [Hlast Hsh]. destruct (leader_confirms rl (rs_to rs) last Hl Hto) as (-> & -> & Hl1).
    cbn [mbind outcome_bind]. pose proof (match_confirmed rl _ (rs_to rs) last (<[rs_to rs := log_len rl]> (nextIndex rl)) (iv_match _ _ _ _ _ _ _ Hi) Hsh) as Hm1.
    destruct (leaderApply_leader _ (shares g (elems (log rl))) Hl1) as (rl' & -> & Hl' & Hlog & Hc & Hnx & Hmx & Hcm & _);
      [intros; by eapply shares_mono|done|].
    apply ensures_ret. exists rl'. split; [split; [by rewrite Hlog|done]|]. apply (inv_leader _ _ _ _ _ rl); try done.
    + rewrite Hlog. by left.
    + intros j m Hj. rewrite Hmx. by apply Hm1.
  - apply ensures_ret. eexists. split; [|by apply Hback]. by split.
Qed.

(** ** Runs *)

Lemma rg_step_inv rl g e : inv rl g -> ensures (rg_step g e) (fun g' => exists rl', advances rl rl' /\ inv rl' g').
Proof.
  intros Hi. assert (forall o : outcome (reign C), ensures o (inv rl) -> ensures o (fun g' => exists rl', advances rl rl' /\ inv rl' g')) as Hex
    by (intros o Ho; eapply ensures_mono; [exact Ho|]; intros g' ?; exists rl; by split).
  destruct e as [s command|s d|s d|i now|i|i|i now|i now|i|i]; cbn [rg_step].
  - by apply (client_step_ok rl).
  - apply Hex. by apply heartbeat_step_ok.
  - apply Hex. by apply snapshot_step_ok.
  - rewrite (iv_snapshots _ _ _ _ _ _ _ Hi). apply ensures_ret. exists rl. by split.
  - apply Hex, ensures_ret. destruct g. cbn. unfold drop_snapshot. cbn.
    pose proof (iv_snapshots _ _ _ _ _ _ _ Hi) as Hs. cbn in Hs. by subst.
  - destruct (rg_tasks g !! i) as [[s t]|] eqn:E; [|apply ensures_ret; exists rl; by split]. apply Hex, run_task_ok.
    + by apply inv_drop_task.
    + apply (Forall_lookup_1 _ _ _ _ (iv_tasks _ _ _ _ _ _ _ Hi) E).
  - destruct (rg_requests g !! i) as [rq|] eqn:E; [|apply ensures_ret; exists rl; by split]. apply Hex, deliver_ok.
    + by apply inv_lose_request.
    + apply (Forall_lookup_1 _ _ _ _ (iv_requests _ _ _ _ _ _ _ Hi) E).
  - destruct (rg_responses g !! i) as [rs|] eqn:E; [|apply ensures_ret; exists rl; by split]. apply (handle_response_ok rl).
    + by apply inv_drop_response.
    + apply (Forall_lookup_1 _ _ _ _ (iv_responses _ _ _ _ _ _ _ Hi) E).
  - apply ensures_ret. exists rl. split; [done|]. by apply inv_lose_request.
  - apply ensures_ret. exists rl. split; [done|]. by apply inv_drop_response.
Qed.

Lemma rg_run_inv rl g es : inv rl g -> ensures (rg_run g es) (fun g' => exists rl', advances rl rl' /\ inv rl' g').
Proof.
  revert rl g. induction es as [|e es IH]; intros rl g Hi; cbn [rg_run]; [apply ensures_ret; exists rl; by split|].
  eapply ensures_bind; [by apply (rg_step_inv rl)|]. intros g1 (rl1 & Ha1 & Hi1).
  eapply ensures_mono; [by apply (IH rl1)|]. intros g2 (rl2 & Ha2 & Hi2). exists rl2. split; [by etrans|done].
Qed.
End steps.
