(* ===== verification/RaftReignLive.v ===== *)
(** * Under one leader every command can be applied

    From every state of a reign there is a continuation in which the leader
    repairs the logs of the others, commits what it has and lets them apply
    it. *)

From S2P Require Import Prelude GoSlice Raft RaftOps RaftVote RaftLog RaftReign RaftShared RaftReignInv RaftReignSteps.

Section live.
Context {C : Type} `{!Command C, !Gob C, !AppendGrowth}.
Context (n l : nat) (T b c0 : Z) (Hn : (2 <= n)%nat).
Implicit Types (rf rl : Raft C) (lg : list (Entry C)) (g : reign C).

Abbreviation inv := (inv n l T b c0).
Abbreviation leader_ok := (leader_ok n l T b).
Abbreviation member_ok := (member_ok T).
Abbreviation other := (other n l).

(** ** Steps one after the other *)

Definition reaches g g' : Prop := exists es, rg_run g es = Ret g'.

Lemma rg_run_app g es1 es2 g1 : rg_run g es1 = Ret g1 -> rg_run g (es1 ++ es2) = rg_run g1 es2.
Proof.
  revert g. induction es1 as [|e es1 IH]; intros g; cbn [rg_run app]; [by intros [= ->]|].
  intros (g2 & -> & Hr)%bind_ret_inv. cbn. auto.
Qed.

#[local] Instance rg_reaches_refl : Reflexive reaches.
Proof. intros g. by exists []. Qed.
#[local] Instance rg_reaches_trans : Transitive reaches.
Proof. intros g1 g2 g3 [es1 H1] [es2 H2]. exists (es1 ++ es2). by rewrite (rg_run_app _ _ _ _ H1). Qed.

Lemma rg_reaches_step g e g' : rg_step g e = Ret g' -> reaches g g'.
Proof. intros Hs. exists [e]. cbn. by rewrite Hs. Qed.

Lemma lose_new_request g rq : lose_request (add_request g rq) (length (rg_requests g)) = g.
Proof. destruct g. unfold lose_request, add_request. cbn. by rewrite delete_middle, app_nil_r. Qed.

Lemma drop_new_task g s t : drop_task (add_tasks g s [t]) (length (rg_tasks g)) = g.
Proof. destruct g. unfold drop_task, add_tasks. cbn. by rewrite delete_middle, app_nil_r. Qed.

Lemma runs_new_task g s t g' : run_task g s t = Ret g' -> reaches (add_tasks g s [t]) g'.
Proof.
  intros Hr. apply (rg_reaches_step _ (RgTask (length (rg_tasks g)))). cbn [rg_step]. rewrite drop_new_task. cbn.
  by rewrite lookup_app_r, Nat.sub_diag by lia.
Qed.

(** ** A request and its reply *)

(** A request is delivered, and its reply goes back: the goroutine of the
    leader continues in a state that differs by what the follower did. *)
Lemma request_trip rl g j p args : inv rl g -> other j -> request_ok T b (elems (log rl)) (commitIndex rl) p args ->
  exists rf rf' reply ts, rg_peers g !! j = Some rf /\ handled T (elems (log rl)) p args rf rf' reply ts /\
    let g1 := add_tasks (put_peer g j rf') j ts in
    inv rl g1 /\ reply_ok n l T (elems (log rl)) (shares g1 (elems (log rl))) (mkResponse l j p reply) /\
    forall g', handle_response g1 (mkResponse l j p reply) 0 = Ret g' -> reaches (add_request g (mkRequest l j p args)) g'.
Proof.
  intros Hi Hj Hrq. destruct (member_lookup _ _ _ _ _ _ _ _ Hi Hj) as (rf & Hrf & Hm).
  assert (sent_ok n l T b (elems (log rl)) (commitIndex rl) (mkRequest l j p args)) as Hsent by done.
  pose proof (deliver_ok n l T b c0 rl g _ 0 Hi Hsent) as (g2 & Hd & Hi2).
  pose proof Hd as Hd'. unfold deliver in Hd'. cbn [rq_to rq_args rq_from rq_purpose] in Hd'. rewrite Hrf in Hd'.
  destruct (AppendEntries_handled T b _ _ _ rf args 0 (proj1 Hm) (ld_own _ _ _ _ _ (iv_leader _ _ _ _ _ _ _ Hi)) Hrq)
    as (rf' & reply & ts & Hae & Hh).
  rewrite Hae in Hd'. cbn [mbind outcome_bind] in Hd'. injection Hd' as <-.
  exists rf, rf', reply, ts. split; [done|]. split; [done|]. cbn zeta.
  set (g1 := add_tasks (put_peer g j rf') j ts). 
  set (g2 := add_tasks (add_response (put_peer g j rf') (mkResponse l j p reply)) j ts) in Hd, Hi2.
  assert (drop_response g2 (length (rg_responses g)) = g1) as Hdrop.
  { unfold g1, g2, drop_response, add_tasks, add_response, put_peer. cbn. by rewrite delete_middle, app_nil_r. }
  split; [|split].
  - rewrite <- Hdrop. by apply inv_drop_response.
  - pose proof (iv_responses _ _ _ _ _ _ _ Hi2) as Hrs. unfold g2 in Hrs. cbn [rg_responses add_tasks add_response] in Hrs.
    apply Forall_app in Hrs as [_ Hrs]. exact (proj1 (Forall_singleton _ _) Hrs).
  - intros g' Hg'. trans g2.
    + apply (rg_reaches_step _ (RgDeliver (length (rg_requests g)) 0)). cbn [rg_step]. rewrite lose_new_request. cbn [rg_requests add_request].
      by rewrite lookup_app_r, Nat.sub_diag by lia.
    + apply (rg_reaches_step _ (RgReply (length (rg_responses g)) 0)). cbn [rg_step]. rewrite Hdrop. unfold g2.
      cbn [rg_responses add_tasks add_response put_peer]. by rewrite lookup_app_r, Nat.sub_diag by lia.
Qed.

(** ** Repairing the log of one follower *)

(** Steps that concern peer [j] only: log and commit index of the leader do
    not go back, and what it knows of the others and they themselves stay. *)
Record only (j : nat) rl g rl' g' : Prop := {
  on_inv : inv rl' g';
  on_log : elems (log rl') = elems (log rl);
  on_next : forall i, i <> j -> nextIndex rl' !! i = nextIndex rl !! i;
  on_match : forall i, i <> j -> matchIndex rl' !! i = matchIndex rl !! i;
  on_peers : forall i, i <> j -> i <> l -> rg_peers g' !! i = rg_peers g !! i;
}.

Lemma only_trans j rl g rl1 g1 rl2 g2 : only j rl g rl1 g1 -> only j rl1 g1 rl2 g2 -> only j rl g rl2 g2.
Proof.
  intros [A1 A2 A3 A4 A5] [B1 B2 B3 B4 B5]. split; [done|congruence|..]; intros i Hi; [rewrite B3; auto|rewrite B4; auto|].
  intros Hl. rewrite B5; auto.
Qed.

Lemma leader_of rl rl' g : rg_peers g !! l = Some rl' -> inv rl g -> rl' = rl.
Proof. intros H1 Hi. pose proof (iv_l _ _ _ _ _ _ _ Hi). congruence. Qed.

(** The reply to a request that failed moves the next index back. *)
Lemma failed_response rl g j p reply : inv rl g -> other j ->
  reply_ok n l T (elems (log rl)) (shares g (elems (log rl))) (mkResponse l j p reply) -> Success reply = false ->
  exists g' rl', handle_response g (mkResponse l j p reply) 0 = Ret g' /\ only j rl g rl' g' /\
    nextIndex rl' !! j = Some (NewPrevLogIndex reply + 1).
Proof.
  intros Hi Hj Hrs Hs. pose proof (iv_leader _ _ _ _ _ _ _ Hi) as Hl. destruct (ld_next _ _ _ _ _ Hl) as [Hlen _].
  destruct (handle_response_ok n l T b c0 Hn rl g _ 0 Hi Hrs) as (g' & Hg' & rl' & _ & Hi').
  exists g', rl'. split; [done|]. destruct Hrs as (_ & _ & Hterm & _). cbn [rs_reply] in Hterm.
  unfold handle_response, heartbeat_reply, replicate_reply in Hg'. cbn [rs_from rs_to rs_purpose rs_reply] in Hg'.
  rewrite (iv_l _ _ _ _ _ _ _ Hi), (ld_status _ _ _ _ _ Hl), (ld_term _ _ _ _ _ Hl), Hs in Hg'.
  change (negb (String.eqb "leader" "leader")) with false in Hg'. cbn [negb] in Hg'.
  destruct (Z.ltb_spec T (aer_Term reply)) as [|_]; [lia|]. destruct Hj as [Hj Hjl].
  rewrite idx_set_ok, Nat2Z.id in Hg' by lia. cbn [mbind outcome_bind] in Hg'.
  set (rl1 := set_indices rl _ _) in Hg'.
  assert (rg_peers g' = <[l := rl1]> (rg_peers g)) as Hp by (destruct p; by injection Hg' as <-).
  assert (rl1 = rl') as <-.
  { apply (leader_of _ _ g'); [|done]. rewrite Hp. apply list_lookup_insert_eq. eapply lookup_lt_Some, Hi. }
  split; [split; [done..| | |]|].
  - intros i Hne. cbn. by rewrite list_lookup_insert_ne.
  - done.
  - intros i _ Hne. by rewrite Hp, list_lookup_insert_ne.
  - cbn. apply list_lookup_insert_eq. lia.
Qed.

(** A heartbeat is answered: the next index moves back, or the goroutine that
    replicates the missing entries is started. *)
Lemma heartbeat_round rl g j x : inv rl g -> other j -> nextIndex rl !! j = Some x -> x < log_len rl ->
  exists rl' g', only j rl g rl' g' /\
    ((exists y, nextIndex rl' !! j = Some y /\ y < x /\ reaches g g') \/
     (nextIndex rl' !! j = Some x /\ reaches g (add_tasks g' l [ReplicatedEntriesToOne (Z.of_nat j)]))).
Proof.
  intros Hi Hj Hx Hlt. pose proof (iv_leader _ _ _ _ _ _ _ Hi) as Hl.
  destruct (leader_heartbeat n l T b rl j Hl Hj) as (x' & args & Hx' & Hargs & Hprev & _ & Hrq). assert (x' = x) as -> by congruence.
  assert (reaches g (add_request g (mkRequest l j Heartbeat args))) as Hsend.
  { apply (rg_reaches_step _ (RgHeartbeat l j)). cbn [rg_step]. unfold heartbeat_step. rewrite (iv_l _ _ _ _ _ _ _ Hi).
    rewrite decide_True by by apply (elem_other_peers n l T b rl). rewrite Hargs. done. }
  destruct (request_trip rl g j Heartbeat args Hi Hj Hrq) as (rf & rf' & reply & ts & Hrf & Hh & Hi1 & Hrs & Htrip).
  set (g1 := add_tasks (put_peer g j rf') j ts) in *.
  assert (only j rl g rl g1) as Ho1 by (split; [done..|]; intros i Hij _; unfold g1; cbn; by rewrite list_lookup_insert_ne).
  destruct (Success reply) eqn:Hs.
  - exists rl, g1. split; [done|]. right. split; [done|]. etrans; [exact Hsend|]. apply Htrip.
    unfold handle_response, heartbeat_reply. cbn [rs_from rs_purpose rs_reply rs_to]. rewrite (iv_l _ _ _ _ _ _ _ Hi1), (ld_status _ _ _ _ _ Hl), Hs.
    change (negb (String.eqb "leader" "leader")) with false. cbn [negb]. rewrite (idx_lookup _ _ _ Hx). cbn [mbind outcome_bind].
    unfold getAbsoluteIndex. rewrite (ld_snap _ _ _ _ _ Hl), Z.add_0_r. destruct (Z.ltb_spec x (log_len rl)); [|lia].
    f_equal. f_equal. unfold put_peer. rewrite list_insert_id by apply Hi1. by destruct g1.
  - destruct (failed_response rl g1 j _ reply Hi1 Hj Hrs Hs) as (g' & rl' & Hg' & Ho & Hnx).
    exists rl', g'. split; [by eapply only_trans|]. left. eexists. split; [done|].
    pose proof (hd_failed _ _ _ _ _ _ _ _ Hh Hs). split; [lia|]. etrans; [exact Hsend|by apply Htrip].
Qed.

Lemma replicated_ext rl rl' k : leader_ok rl -> leader_ok rl' -> matchIndex rl' = matchIndex rl -> replicated rl' k -> replicated rl k.
Proof.
  intros Hl Hl' Hm. unfold replicated, matching, matches.
  by rewrite (ld_peers _ _ _ _ _ Hl), (ld_peers _ _ _ _ _ Hl'), (ld_me _ _ _ _ _ Hl), (ld_me _ _ _ _ _ Hl'), Hm.
Qed.

(** The leader knows that peer [j] has its whole log, and has committed what a
    majority has. *)
Definition caught_up rl (j : nat) : Prop :=
  nextIndex rl !! j = Some (log_len rl) /\ matchIndex rl !! j = Some (log_len rl - 1).
Definition commits_all rl : Prop := forall k, commitIndex rl < k < log_len rl -> ~ replicated rl k.

Lemma confirmed_response rl g j reply : inv rl g -> other j ->
  reply_ok n l T (elems (log rl)) (shares g (elems (log rl))) (mkResponse l j (Replication (log_len rl - 1)) reply) ->
  Success reply = true ->
  exists g' rl', handle_response g (mkResponse l j (Replication (log_len rl - 1)) reply) 0 = Ret g' /\ only j rl g rl' g' /\
    caught_up rl' j /\ commits_all rl'.
Proof.
  intros Hi Hj Hrs Hs. pose proof (iv_leader _ _ _ _ _ _ _ Hi) as Hl. set (last := log_len rl - 1) in *.
  destruct (handle_response_ok n l T b c0 Hn rl g _ 0 Hi Hrs) as (g' & Hg' & rl' & _ & Hi').
  exists g', rl'. split; [done|]. destruct Hrs as (_ & _ & _ & _ & Hst). cbn [rs_reply rs_purpose rs_to] in Hst.
  destruct (Hst last Hs eq_refl) as [_ Hsh].
  unfold handle_response, replicate_reply in Hg'. cbn [rs_from rs_to rs_purpose rs_reply] in Hg'.
  rewrite (iv_l _ _ _ _ _ _ _ Hi), (ld_status _ _ _ _ _ Hl), Hs in Hg'.
  change (negb (String.eqb "leader" "leader")) with false in Hg'. cbn [negb] in Hg'.
  destruct (leader_confirms n l T b rl j last Hl Hj) as (Ens & Ems & Hl1). rewrite Ens in Hg'. cbn [mbind outcome_bind] in Hg'.
  rewrite Ems in Hg'. cbn [mbind outcome_bind] in Hg'. set (rl1 := set_indices rl _ _) in Hg', Hl1.
  destruct (leaderApply_leader n l T b c0 Hn rl1 (shares g (elems (log rl))) Hl1) as (rl2 & Ha & Hl2 & Hlog & _ & Hnx & Hmx & _ & Hmax);
    [intros; by eapply shares_mono|apply match_confirmed; [apply Hi|done]|].
  rewrite Ha in Hg'. cbn [mbind outcome_bind] in Hg'. injection Hg' as <-.
  assert (rl2 = rl') as <-.
  { apply (leader_of _ _ (put_peer g l rl2)); [|done]. cbn. apply list_lookup_insert_eq. eapply lookup_lt_Some, Hi. }
  destruct (ld_next _ _ _ _ _ Hl) as [Hlen _]. pose proof (ld_match _ _ _ _ _ Hl) as Hml. destruct Hj as [Hj Hjl].
  assert (log_len rl2 = log_len rl) as Hll by (unfold log_len; by rewrite Hlog).
  split; [split; [done| | | |]|split; [split|]].
  - by rewrite Hlog.
  - intros i Hne. rewrite Hnx. cbn. by rewrite list_lookup_insert_ne.
  - intros i Hne. rewrite Hmx. cbn. by rewrite list_lookup_insert_ne.
  - intros i _ Hne. cbn. by rewrite list_lookup_insert_ne.
  - rewrite Hnx, Hll. cbn. apply list_lookup_insert_eq. lia.
  - rewrite Hmx, Hll. cbn. apply list_lookup_insert_eq. lia.
  - intros k Hk Hr. rewrite Hll in Hk. apply (Hmax k Hk). by apply (replicated_ext rl1 rl2).
Qed.

Lemma replicate_round rl g j x : inv rl g -> other j -> nextIndex rl !! j = Some x ->
  exists rl' g', only j rl g rl' g' /\ reaches (add_tasks g l [ReplicatedEntriesToOne (Z.of_nat j)]) g' /\
    ((exists y, nextIndex rl' !! j = Some y /\ y < x) \/ caught_up rl' j /\ commits_all rl').
Proof.
  intros Hi Hj Hx. pose proof (iv_leader _ _ _ _ _ _ _ Hi) as Hl.
  destruct (leader_replicate n l T b rl j Hl Hj) as (x' & args & Hx' & Hargs & Hprev & Hrq). assert (x' = x) as -> by congruence.
  assert (reaches (add_tasks g l [ReplicatedEntriesToOne (Z.of_nat j)]) (add_request g (mkRequest l j (Replication (log_len rl - 1)) args))) as Hsend.
  { apply runs_new_task. unfold run_task. by rewrite (iv_l _ _ _ _ _ _ _ Hi), Hargs, Nat2Z.id. }
  destruct (request_trip rl g j _ args Hi Hj Hrq) as (rf & rf' & reply & ts & Hrf & Hh & Hi1 & Hrs & Htrip).
  set (g1 := add_tasks (put_peer g j rf') j ts) in *.
  assert (only j rl g rl g1) as Ho1 by (split; [done..|]; intros i Hij _; unfold g1; cbn; by rewrite list_lookup_insert_ne).
  destruct (Success reply) eqn:Hs.
  - destruct (confirmed_response rl g1 j reply Hi1 Hj Hrs Hs) as (g' & rl' & Hg' & Ho & Hc).
    exists rl', g'. split; [by eapply only_trans|]. split; [etrans; [exact Hsend|by apply Htrip]|]. by right.
  - destruct (failed_response rl g1 j _ reply Hi1 Hj Hrs Hs) as (g' & rl' & Hg' & Ho & Hnx).
    exists rl', g'. split; [by eapply only_trans|]. split; [etrans; [exact Hsend|by apply Htrip]|].
    left. eexists. split; [done|]. pose proof (hd_failed _ _ _ _ _ _ _ _ Hh Hs). lia.
Qed.

(** The leader finds the last entry that it shares with peer [j] and sends it
    the entries after it. *)
Lemma catch_up rl g j x : inv rl g -> other j -> nextIndex rl !! j = Some x -> x < log_len rl ->
  exists rl' g', only j rl g rl' g' /\ reaches g g' /\ caught_up rl' j /\ commits_all rl'.
Proof.
  remember (Z.to_nat x) as m eqn:Em. revert rl g x Em. induction (lt_wf m) as [m _ IH]; intros rl g x -> Hi Hj Hx Hlt.
  assert (forall rl1 g1 y, only j rl g rl1 g1 -> nextIndex rl1 !! j = Some y -> y < x -> reaches g g1 ->
    exists rl' g', only j rl g rl' g' /\ reaches g g' /\ caught_up rl' j /\ commits_all rl') as Hback.
  { intros rl1 g1 y Ho1 Hy Hyx Hr1. pose proof (on_inv _ _ _ _ _ Ho1) as Hi1. pose proof (iv_leader _ _ _ _ _ _ _ Hi1) as Hl1.
    destruct (ld_next _ _ _ _ _ Hl1) as [_ Hb]. specialize (Hb j y Hy). pose proof (iv_leader _ _ _ _ _ _ _ Hi) as Hl.
    assert (log_len rl1 = log_len rl) as Hll.
    { rewrite <- !(leader_length n l T b) by done. by rewrite (on_log _ _ _ _ _ Ho1). }
    destruct (IH (Z.to_nat y) ltac:(lia) rl1 g1 y eq_refl Hi1 Hj Hy ltac:(lia)) as (rl2 & g2 & Ho2 & Hr2 & Hrest).
    exists rl2, g2. split; [by eapply only_trans|]. split; [by etrans|done]. }
  destruct (heartbeat_round rl g j x Hi Hj Hx Hlt) as (rl1 & g1 & Ho1 & [(y & Hy & Hyx & Hr1)|[Hx1 Hr1]]); [by eapply Hback|].
  destruct (replicate_round rl1 g1 j x (on_inv _ _ _ _ _ Ho1) Hj Hx1) as (rl2 & g2 & Ho2 & Hr2 & [(y & Hy & Hyx)|Hc]).
  - eapply Hback; [by eapply only_trans|done|done|by etrans].
  - exists rl2, g2. split; [by eapply only_trans|]. split; [by etrans|done].
Qed.

(** ** Committing *)

Lemma only_length j rl g rl' g' : inv rl g -> only j rl g rl' g' -> log_len rl' = log_len rl.
Proof.
  intros Hi Ho. rewrite <- (leader_length n l T b rl), <- (leader_length n l T b rl'); [by rewrite (on_log _ _ _ _ _ Ho)|..].
  - apply (iv_leader _ _ _ _ _ _ _ (on_inv _ _ _ _ _ Ho)).
  - apply (iv_leader _ _ _ _ _ _ _ Hi).
Qed.

Lemma catch_all js : NoDup js -> forall rl g, inv rl g ->
  (forall j, j ∈ js -> other j /\ exists x, nextIndex rl !! j = Some x /\ x < log_len rl) ->
  exists rl' g', inv rl' g' /\ reaches g g' /\ elems (log rl') = elems (log rl) /\
    (forall j, j ∈ js -> caught_up rl' j) /\
    (forall i, i ∉ js -> nextIndex rl' !! i = nextIndex rl !! i /\ matchIndex rl' !! i = matchIndex rl !! i) /\
    ((js = [] /\ rl' = rl) \/ commits_all rl').
Proof.
  induction 1 as [|j js Hj Hnd IH]; intros rl g Hi Hjs.
  - exists rl, g. split_and!; try done; [|by left]. by intros j Hj%not_elem_of_nil.
  - destruct (Hjs j) as (Ho & x & Hx & Hlt); [left|].
    destruct (catch_up rl g j x Hi Ho Hx Hlt) as (rl1 & g1 & Ho1 & Hr1 & Hc1 & Hm1).
    pose proof (only_length _ _ _ _ _ Hi Ho1) as Hl1. pose proof (on_inv _ _ _ _ _ Ho1) as Hi1.
    destruct (IH rl1 g1 Hi1) as (rl2 & g2 & Hi2 & Hr2 & Hlog2 & Hc2 & Hsame & Hm2).
    { intros i Hin. destruct (Hjs i) as (Hoi & y & Hy & Hylt); [by right|]. split; [done|]. exists y.
      rewrite (on_next _ _ _ _ _ Ho1), Hl1 by (by intros ->). done. }
    assert (log_len rl2 = log_len rl1) as Hl2.
    { rewrite <- (leader_length n l T b rl1), <- (leader_length n l T b rl2), Hlog2; [done|apply Hi2|apply Hi1]. }
    exists rl2, g2. split; [done|]. split; [by etrans|]. split; [rewrite Hlog2; apply Ho1|]. split; [|split].
    + intros i [->|Hin]%elem_of_cons; [|auto]. destruct (Hsame j Hj) as [E1 E2]. unfold caught_up. by rewrite E1, E2, Hl2.
    + intros i Hin. apply not_elem_of_cons in Hin as [Hij Hin]. destruct (Hsame i Hin) as [-> ->].
      split; [by apply (on_next _ _ _ _ _ Ho1)|by apply (on_match _ _ _ _ _ Ho1)].
    + right. by destruct Hm2 as [[_ ->]|].
Qed.

(** The other peers. *)
Definition the_others : list nat := filter (fun j => j <> l) (seq 0 n).

Lemma elem_others j : j ∈ the_others <-> other j.
Proof. unfold the_others, RaftReignInv.other. rewrite list_elem_of_filter, elem_of_seq. lia. Qed.

Lemma length_other_peers : (l < n)%nat -> (n <= S (length the_others))%nat.
Proof.
  intros Hl. unfold the_others. assert (NoDup (l :: filter (fun j => j <> l) (seq 0 n))) as Hnd.
  { constructor; [|apply NoDup_filter, NoDup_seq]. by intros [? _]%list_elem_of_filter. }
  assert (seq 0 n ⊆ l :: filter (fun j => j <> l) (seq 0 n)) as Hsub.
  { intros j Hj. destruct (decide (j = l)) as [->|]; [left|]. right. by apply list_elem_of_filter. }
  pose proof (submseteq_length _ _ (NoDup_submseteq _ _ (NoDup_seq 0 n) Hsub)) as Hlen.
  rewrite length_seq in Hlen. cbn in Hlen. lia.
Qed.

(** Once all others have the log, it is committed. *)
Lemma commits_log rl g : inv rl g -> (forall j, other j -> caught_up rl j) -> commits_all rl -> commitIndex rl = log_len rl - 1.
Proof.
  intros Hi Hc Hall. pose proof (iv_leader _ _ _ _ _ _ _ Hi) as Hl. destruct (ld_commit _ _ _ _ _ Hl) as [_ Hcm].
  destruct (decide (commitIndex rl < log_len rl - 1)) as [Hlt|]; [|lia]. exfalso. apply (Hall (log_len rl - 1)); [lia|].
  unfold replicated. rewrite (ld_peers _ _ _ _ _ Hl).
  assert (length the_others <= length (matching rl (log_len rl - 1) (seq 0 n)))%nat as Hle.
  { apply submseteq_length, NoDup_submseteq; [apply NoDup_filter, NoDup_seq|]. intros j Hj%elem_others.
    apply list_elem_of_filter. destruct (Hc j Hj) as [_ Hm]. unfold matches. rewrite Hm, (ld_me _ _ _ _ _ Hl).
    destruct Hj. split; [|apply elem_of_seq; lia]. apply andb_true_iff. split; lia. }
  pose proof (length_other_peers (eq_ind _ (fun x => (l < x)%nat) (lookup_lt_Some _ _ _ (iv_l _ _ _ _ _ _ _ Hi)) _ (iv_peers _ _ _ _ _ _ _ Hi))).
  pose proof (Nat.div_lt n 2 ltac:(lia) ltac:(lia)). lia.
Qed.

(** ** Applying *)

Lemma apply_one rl g j : inv rl g -> other j -> caught_up rl j -> commitIndex rl = log_len rl - 1 ->
  exists g', inv rl g' /\ reaches g g' /\ (exists rf, rg_peers g' !! j = Some rf /\ commitIndex rl <= lastApplied rf) /\
    forall i, i <> j -> rg_peers g' !! i = rg_peers g !! i.
Proof.
  intros Hi Hj [Hx Hmx] Hcm. pose proof (iv_leader _ _ _ _ _ _ _ Hi) as Hl.
  destruct (leader_heartbeat n l T b rl j Hl Hj) as (x & args & Hx' & Hargs & Hprev & Hlc & Hrq). assert (x = log_len rl) as -> by congruence.
  assert (reaches g (add_request g (mkRequest l j Heartbeat args))) as Hsend.
  { apply (rg_reaches_step _ (RgHeartbeat l j)). cbn [rg_step]. unfold heartbeat_step. rewrite (iv_l _ _ _ _ _ _ _ Hi).
    rewrite decide_True by by apply (elem_other_peers n l T b rl). rewrite Hargs. done. }
  destruct (request_trip rl g j Heartbeat args Hi Hj Hrq) as (rf & rf' & reply & ts & Hrf & Hh & Hi1 & Hrs & Htrip).
  set (g0 := put_peer g j rf') in *. set (g1 := add_tasks g0 j ts) in *.
  destruct (iv_match _ _ _ _ _ _ _ Hi j _ Hj Hmx) as (rf2 & Hrf2 & Hag). simplify_eq.
  assert (Success reply = true) as Hs by (apply (hd_agrees _ _ _ _ _ _ _ _ Hh); by rewrite Hprev).
  assert (reaches g g1) as Hr1.
  { etrans; [exact Hsend|]. apply Htrip. unfold handle_response, heartbeat_reply. cbn [rs_from rs_purpose rs_reply rs_to].
    rewrite (iv_l _ _ _ _ _ _ _ Hi1), (ld_status _ _ _ _ _ Hl), Hs.
    change (negb (String.eqb "leader" "leader")) with false. cbn [negb]. rewrite (idx_lookup _ _ _ Hx). cbn [mbind outcome_bind].
    unfold getAbsoluteIndex. rewrite (ld_snap _ _ _ _ _ Hl), Z.add_0_r, Z.ltb_irrefl. f_equal. unfold put_peer, add_tasks at 1.
    cbn. rewrite list_insert_id by apply Hi1. by rewrite app_nil_r. }
  pose proof (hd_tasks _ _ _ _ _ _ _ _ Hh) as Hts. rewrite Hs in Hts. unfold apply_tasks in Hts.
  assert (go_min (LeaderCommit args) (PrevLogIndex args) = commitIndex rl) as Hmin by (unfold go_min; rewrite Hlc, Hprev; destruct (Z.gtb_spec (commitIndex rl) (log_len rl - 1)); lia).
  rewrite Hmin in Hts. destruct (hd_same _ _ _ _ _ _ _ _ Hh) as [_ Hsame]. injection Hsame as Hc' Hla' _.
  destruct (iv_members _ _ _ _ _ _ _ Hi j rf (proj2 Hj) Hrf) as (_ & [_ Hcl] & _).
  assert (rg_peers g0 !! j = Some rf') as Hg0 by (cbn; apply list_lookup_insert_eq; by eapply lookup_lt_Some).
  assert (forall i, i <> j -> rg_peers g0 !! i = rg_peers g !! i) as Hsame by (intros i Hij; cbn; by rewrite list_lookup_insert_ne).
  destruct (Z.ltb_spec (commitIndex rf) (commitIndex rl)) as [Hlt|Hge]; subst ts.
  - assert (inv rl g0) as Hi0 by (rewrite <- (drop_new_task g0 j (ApplyNewCommand (commitIndex rl))); by apply inv_drop_task).
    pose proof (iv_tasks _ _ _ _ _ _ _ Hi1) as Ht. apply Forall_app in Ht as [_ Ht]. apply (proj1 (Forall_singleton _ _)) in Ht.
    destruct (run_task_ok n l T b c0 rl g0 j _ Hi0 Ht) as (g2 & Hg2 & Hi2). exists g2. split; [done|].
    split; [etrans; [exact Hr1|by apply runs_new_task]|]. unfold run_task in Hg2. rewrite Hg0 in Hg2.
    pose proof (iv_members _ _ _ _ _ _ _ Hi0 j rf' (proj2 Hj) Hg0) as Hm'. destruct Ht as (_ & Hk & rf3 & Hrf3 & Hag3).
    change (rg_peers g0 !! j = Some rf3) in Hrf3. assert (rf3 = rf') as -> by congruence.
    destruct (apply_member T _ _ rf' (commitIndex rl) Hm' ltac:(lia) Hag3) as (rf4 & Hap & _ & _ & Hla & _). rewrite Hap in Hg2.
    cbn [mbind outcome_bind] in Hg2. injection Hg2 as <-. split.
    + exists rf4. split; [|lia]. apply list_lookup_insert_eq. by eapply lookup_lt_Some.
    + intros i Hij. rewrite <- (Hsame i Hij). cbn [rg_peers put_peer]. by rewrite list_lookup_insert_ne.
  - exists g1. split; [done|]. split; [done|]. split; [|done]. exists rf'. split; [done|]. lia.
Qed.

Lemma all_apply js : NoDup js -> forall rl g, inv rl g -> commitIndex rl = log_len rl - 1 ->
  (forall j, j ∈ js -> other j /\ caught_up rl j) ->
  exists g', inv rl g' /\ reaches g g' /\
    (forall j, j ∈ js -> exists rf, rg_peers g' !! j = Some rf /\ commitIndex rl <= lastApplied rf) /\
    forall i, i ∉ js -> rg_peers g' !! i = rg_peers g !! i.
Proof.
  induction 1 as [|j js Hj Hnd IH]; intros rl g Hi Hc Hjs.
  - exists g. split_and!; try done. by intros j Hj%not_elem_of_nil.
  - destruct (Hjs j) as [Ho Hcu]; [left|]. destruct (apply_one rl g j Hi Ho Hcu Hc) as (g1 & Hi1 & Hr1 & Hp1 & Hs1).
    destruct (IH rl g1 Hi1 Hc) as (g2 & Hi2 & Hr2 & Hp2 & Hs2); [intros i Hin; apply Hjs; by right|].
    exists g2. split; [done|]. split; [by etrans|]. split.
    + intros i [->|Hin]%elem_of_cons; [|auto]. by rewrite (Hs2 j Hj).
    + intros i [Hij Hin]%not_elem_of_cons. rewrite Hs2, Hs1; done.
Qed.

(** ** The whole way of a command *)

Lemma command_applied rl g command : inv rl g ->
  exists es g', rg_run g (RgStart l command :: es) = Ret g' /\ forall j, (j < n)%nat -> exists rf m, rg_peers g' !! j = Some rf /\ m ∈ applied rf /\
    CommandValid m = true /\ CommandIndex m = log_len rl /\ am_Command m = command.
Proof.
  intros Hi. pose proof (iv_leader _ _ _ _ _ _ _ Hi) as Hl.
  destruct (Start_leader n l T b rl command Hl) as (rl1 & Hst & Hl1 & He1 & Hnx1 & _).
  destruct (client_step_ok n l T b c0 rl g l command Hi) as (g1 & Hg1 & rl1' & _ & Hi1).
  assert (rl1' = rl1) as ->.
  { symmetry. apply (leader_of _ _ g1); [|done]. cbn [rg_step] in Hg1. rewrite (iv_l _ _ _ _ _ _ _ Hi), Hst in Hg1. injection Hg1 as <-.
    apply list_lookup_insert_eq. eapply lookup_lt_Some, Hi. }
  assert (log_len rl1 = log_len rl + 1) as Hlen1.
  { rewrite <- (leader_length n l T b rl1), <- (leader_length n l T b rl), He1, length_app by done. cbn. lia. }
  destruct (catch_all the_others) with (rl := rl1) (g := g1) as (rl2 & g2 & Hi2 & Hr2 & He2 & Hc2 & _ & Hm2); [apply NoDup_filter, NoDup_seq|done|..].
  { intros j Hj%elem_others. split; [done|]. rewrite Hnx1. destruct (leader_next n l T b rl j Hl Hj) as (x & _ & _ & Hx & Hxl & _).
    exists x. split; [done|lia]. }
  assert (l < n)%nat as Hln by (rewrite <- (iv_peers _ _ _ _ _ _ _ Hi); eapply lookup_lt_Some, Hi).
  assert (commits_all rl2) as Hall.
  { destruct Hm2 as [[Hnil _]|]; [|done]. pose proof (length_other_peers Hln) as Hlo. rewrite Hnil in Hlo. cbn in Hlo. lia. }
  assert (forall j, other j -> caught_up rl2 j) as Hcu by (intros j Hj; by apply Hc2, elem_others).
  pose proof (commits_log rl2 g2 Hi2 Hcu Hall) as Hcm.
  pose proof (iv_leader _ _ _ _ _ _ _ Hi2) as Hl2.
  assert (log_len rl2 = log_len rl + 1) as Hlen2.
  { rewrite <- Hlen1, <- (leader_length n l T b rl1), <- (leader_length n l T b rl2), He2 by done. done. }
  destruct (all_apply the_others) with (rl := rl2) (g := g2) as (g3 & Hi3 & Hr3 & Hp3 & Hs3);
    [apply NoDup_filter, NoDup_seq|done|done|by intros j Hj%elem_others; auto|].
  assert (reaches g1 g3) as [es Hes] by by etrans.
  exists es, g3. split; [cbn [rg_run]; by rewrite Hg1|].
  assert (elems (log rl2) !! Z.to_nat (log_len rl) = Some (mkEntry T command)) as Hentry.
  { rewrite He2, He1. pose proof (leader_length n l T b rl Hl).
    replace (Z.to_nat (log_len rl)) with (length (elems (log rl))) by lia. by rewrite lookup_app_r, Nat.sub_diag by lia. }
  pose proof (ld_base _ _ _ _ _ Hl) as Hb.
  assert (forall c ms la, applied_ok (elems (log rl2)) c ms la -> commitIndex rl2 <= la ->
    exists m, m ∈ ms /\ CommandValid m = true /\ CommandIndex m = log_len rl /\ am_Command m = command) as Hap.
  { intros cm ms la [A1 _ A3] Hla. destruct (A3 (log_len rl)) as (m & Hm & Hmi); [lia|]. exists m. split; [done|].
    destruct (A1 m Hm) as (Hv & _ & e & He & Hc). rewrite Hmi, Hentry in He. injection He as <-. by split_and!. }
  intros j Hj. destruct (decide (j = l)) as [->|Hne].
  - destruct (Hap _ _ _ (ld_applied _ _ _ _ _ Hl2)) as (m & Hm); [destruct (ld_commit _ _ _ _ _ Hl2); lia|].
    exists rl2, m. split; [apply Hi3|done].
  - assert (other j) as Ho by done. destruct (Hp3 j) as (rf & Hrf & Hla); [by apply elem_others|].
    destruct (iv_members _ _ _ _ _ _ _ Hi3 j rf Hne Hrf) as (_ & _ & Ha). destruct (Hap _ _ _ Ha Hla) as (m & Hm). by exists rf, m.
Qed.
End live.
