(* ===== verification/RaftTakeover.v ===== *)
(** * The start of a reign

    What a leader that has just been elected finds, which is what replication
    relies on, and that the first election of a new cluster ends in such a
    state. *)

From S2P Require Import Prelude GoSlice Raft RaftOps RaftVote RaftElection RaftLog RaftReign RaftShared RaftReignInv.

Section elected.
Context {C : Type} `{!Command C, !Gob C, !AppendGrowth}.
Implicit Types (rf rl : Raft C) (g : reign C).

(** Peer [l] has just won the election of term [T], and no other peer leads or
    is in a later term.  No snapshots have been taken, so that all logs begin
    with the same entry at index 0, and [largestIndexMathWithLeader] is an
    index of the log, wherever it stems from.  What Raft promises of earlier
    terms holds: all entries are of earlier terms, an entry of the same index
    and term in two logs means that they are the same up to it, and what was
    applied is in the leader's log. *)
Record takes_over (n l : nat) (T c0 : Z) (ps : list (Raft C)) (rf0 : Raft C) : Prop := {
  el_size : (2 <= n)%nat;
  el_length : length ps = n;
  el_winner : ps !! l = Some (becomeLeaderInit rf0);
  el_self : (dead rf0, currentTerm rf0, me rf0, peers rf0) = (false, T, Z.of_nat l, n);
  el_logs : forall j rf, ps !! j = Some rf ->
    lastIncludedIndex rf = 0 /\ log_ok rf /\ forall i e, elems (log rf) !! i = Some e -> Term e < T;
  el_followers : forall j rf, j <> l -> ps !! j = Some rf ->
    status rf <> "leader" /\ currentTerm rf <= T /\ largestIndexMathWithLeader rf < log_len rf /\
    agree 0 (elems (log rf)) (elems (log rf0)) /\ log_matching (elems (log rf)) (elems (log rf0));
  el_service : forall j rf, ps !! j = Some rf ->
    0 <= lastApplied rf /\ commitIndex rf = lastApplied rf /\
    applied_ok (elems (log rf0)) (if decide (j = l) then commitIndex rf0 else c0) (applied rf) (lastApplied rf);
  el_commit : commitIndex rf0 <= c0 /\ commitIndex rf0 < log_len rf0;
}.

(** The cluster at that moment. *)
Definition new_reign (ps : list (Raft C)) : reign C := mkReign ps [] [] [] [].

Lemma takes_over_leader n l T c0 ps rf0 : takes_over n l T c0 ps rf0 -> leader_ok n l T (log_len rf0 - 1) (becomeLeaderInit rf0).
Proof.
  intros [H1 H2 H3 H4 H5 H6 H7 H8]. injection H4 as E1 E2 E3 E4. destruct (H5 l _ H3) as (Hs & Hlog & Ht).
  destruct (H7 l _ H3) as (Hla & Hcl & Hap). rewrite decide_True in Hap by done. cbn in Hs, Hla, Hcl.
  pose proof Hlog as (Hok & Hlen & _). cbn in Hok, Hlen.
  split; cbn; try done; change (log_len (becomeLeaderInit rf0)) with (log_len rf0).
  - unfold log_len. lia.
  - intros i e Hi Hb. apply lookup_lt_Some in Hi. cbn in Hi. rewrite length_elems in Hi by done. unfold log_len in Hb. lia.
  - rewrite length_replicate. split; [done|]. intros j x [-> _]%lookup_replicate. unfold getAbsoluteIndex, log_len. lia.
  - by rewrite length_replicate.
  - lia.
Qed.

Lemma takes_over_inv n l T c0 ps rf0 : takes_over n l T c0 ps rf0 -> inv n l T (log_len rf0 - 1) c0 (becomeLeaderInit rf0) (new_reign ps).
Proof.
  intros He. pose proof (takes_over_leader _ _ _ _ _ _ He) as Hl. destruct He as [H1 H2 H3 H4 H5 H6 H7 H8].
  split; cbn [rg_peers rg_requests rg_responses rg_tasks new_reign]; try done.
  - intros j rf Hj Hrf. destruct (H5 j rf Hrf) as (Hs & Hlog & Ht), (H6 j rf Hj Hrf) as (Hst & Hct & Hla & Hag & Hm).
    destruct (H7 j rf Hrf) as (Hp & Hc & Hap). rewrite decide_False in Hap by done. split; [|split; [done|]].
    + split; try done. intros i e Hi Hte. specialize (Ht i e Hi). lia.
    + eapply applied_mono; [reflexivity| |reflexivity|exact Hap]. lia.
  - intros j m [Hj Hne] Hm. cbn in Hm. apply lookup_replicate in Hm as [-> _].
    destruct (lookup_lt_is_Some_2 ps j) as [rf Hrf]; [lia|]. exists rf. split; [done|].
    by destruct (H6 j rf Hne Hrf) as (_ & _ & _ & Hag & _).
  - left. cbn. lia.
Qed.
End elected.

(** ** The first leader of a new cluster *)

Section first.
Context {C : Type} `{!Command C, !Gob C, !AppendGrowth}.
Implicit Types (rf rl : Raft C).

(** Nothing but campaigns has happened. *)
Definition election_only (e : cl_event C) : bool :=
  match e with EvLocal _ (OpCheckState _) => true | EvLocal _ _ => false | _ => true end.

(** A peer that has only taken part in elections. *)
Record untouched (n j : nat) rf : Prop := {
  un_self : (dead rf, me rf, peers rf) = (false, Z.of_nat j, n);
  un_log : log rf = of_list [zero_entry];
  un_snap : lastIncludedIndex rf = 0;
  un_service : (commitIndex rf, lastApplied rf, applied rf, largestIndexMathWithLeader rf) = (0, 0, [], 0);
  un_lead : status rf = "leader" -> (nextIndex rf, matchIndex rf) = (replicate n 1, replicate n 0);
}.

(** Changes of term, vote and timers; a peer that becomes leader is set up. *)
Lemma untouched_same n j rf rf' :
  untouched n j rf -> (dead rf', me rf', peers rf') = (dead rf, me rf, peers rf) ->
  (log rf', lastIncludedIndex rf') = (log rf, lastIncludedIndex rf) ->
  (commitIndex rf', lastApplied rf', applied rf') = (commitIndex rf, lastApplied rf, applied rf) ->
  largestIndexMathWithLeader rf' = 0 \/ largestIndexMathWithLeader rf' = largestIndexMathWithLeader rf ->
  (nextIndex rf', matchIndex rf') = (nextIndex rf, matchIndex rf) ->
  (status rf' = "leader" -> status rf = "leader") -> untouched n j rf'.
Proof.
  intros [H1 H2 H3 H4 H5] E1 E2 E3 E4 E5 E6. injection E2 as Ea Eb. injection E3 as Ec Ed Ee. injection H4 as ? ? ? ?.
  split; [congruence|congruence|congruence| |rewrite E5; auto]. destruct E4; congruence.
Qed.

Lemma RequestVote_untouched n j rf args now rf' reply :
  untouched n j rf -> RequestVote rf args now = Ret (rf', reply) -> untouched n j rf'.
Proof.
  intros Hu. unfold RequestVote. destruct (rv_Term args =? currentTerm rf).
  - intros (adv & _ & Hr)%bind_ret_inv. destruct (negb adv && _); injection Hr as <- _; [|done].
    apply (untouched_same n j rf); try done. by left.
  - destruct (currentTerm rf <? rv_Term args); [|by intros [= <- _]].
    intros (adv & _ & Hr)%bind_ret_inv. destruct (negb adv); injection Hr as <- _; apply (untouched_same n j rf); try done; [by left|by right].
Qed.

Lemma finish_untouched n j rf el : untouched n j rf -> untouched n j (finish_election rf el).1.
Proof.
  intros Hu. unfold finish_election. destruct (_ && _); [|done]. destruct Hu as [H1 H2 H3 H4 H5]. split; try done.
  intros _. cbn. injection H1 as _ _ ->. unfold getAbsoluteIndex, log_len. by rewrite H2, H3.
Qed.

Definition all_untouched (n : nat) (ps : list (Raft C)) : Prop :=
  length ps = n /\ forall j rf, ps !! j = Some rf -> untouched n j rf.

Lemma untouched_put n ps j rf : all_untouched n ps -> untouched n j rf -> all_untouched n (<[j := rf]> ps).
Proof.
  intros [Hl Ha] Hu. split; [by rewrite length_insert|]. intros i rf' [[<- ->]|Hi]%lookup_insert_cases; [done|by apply Ha].
Qed.

Lemma cl_step_untouched n cl e cl' :
  all_untouched n (cl_peers cl) -> election_only e = true -> cl_step cl e = Ret cl' -> all_untouched n (cl_peers cl').
Proof.
  intros Hu He Hs. pose proof Hu as [_ Hall].
  destruct e as [s o|s now time|i|i now|i|i|i|k now]; cbn [cl_step] in Hs.
  - unfold local_step in Hs. destruct (cl_peers cl !! s) as [rf|] eqn:E; [|by injection Hs as <-].
    destruct o; try done. cbn in Hs. injection Hs as <-. cbn. apply untouched_put; [done|]. unfold checkState.
    destruct (_ && _); cbn; [|by apply Hall]. apply (untouched_same n s rf); try done; [by apply Hall|by right].
  - unfold start_step in Hs. destruct (cl_peers cl !! s) as [rf|] eqn:E; [|by injection Hs as <-].
    destruct (busy cl s); [by injection Hs as <-|]. apply bind_ret_inv in Hs as (r & Hr & Hs).
    unfold start_election in Hr. destruct (String.eqb (status rf) "candidate"); cbn [negb] in Hr; [|by injection Hr as <-; injection Hs as <-].
    apply bind_ret_inv in Hr as (e & _ & [= <-]). injection Hs as <-. cbn. apply untouched_put; [done|].
    apply (untouched_same n s rf); try done; [by apply Hall|by right].
  - injection Hs as <-. unfold send_step. destruct (cl_requests cl !! i) as [[[k d] x]|]; [|done]. by case_match.
  - unfold request_step in Hs. destruct (cl_requests cl !! i) as [[[k d] []]|]; [|by injection Hs as <-..].
    destruct (cl_contests cl !! k); [|by injection Hs as <-]. destruct (cl_peers cl !! d) as [rf|] eqn:E; [|by injection Hs as <-].
    apply bind_ret_inv in Hs as ([rf' reply] & Hr & [= <-]). cbn. apply untouched_put; [done|].
    eapply RequestVote_untouched; [by apply Hall|done].
  - injection Hs as <-. unfold lost_request. by destruct (cl_requests cl !! i) as [[[k d] []]|].
  - injection Hs as <-. unfold reply_step. destruct (cl_replies cl !! i) as [[[k d] reply]|]; [|done].
    destruct (cl_contests cl !! k) as [ct|]; [|done]. destruct (cl_peers cl !! ct_owner ct) as [rf|] eqn:E; [|done].
    destruct (ct_live ct); [|done]. unfold vote_reply. destruct (String.eqb (status rf) "candidate"); cbn [negb].
    + destruct (VoteGranted reply); [|destruct (_ <? _)]; cbn; apply untouched_put; try done; [by apply Hall| |by apply Hall].
      apply (untouched_same n _ rf); try done; [by apply Hall|by right].
    + cbn. apply untouched_put; [done|by apply Hall].
  - injection Hs as <-. unfold lost_reply. by destruct (cl_replies cl !! i) as [[[k d] x]|].
  - injection Hs as <-. unfold finish_step. destruct (cl_contests cl !! k) as [ct|]; [|done].
    destruct (cl_peers cl !! ct_owner ct) as [rf|] eqn:E; [|done]. destruct (_ && _); [|done]. cbn.
    apply untouched_put; [done|]. by apply finish_untouched, Hall.
Qed.

Lemma cl_run_untouched n cl evs cl' :
  all_untouched n (cl_peers cl) -> forallb election_only evs = true -> cl_run cl evs = Ret cl' -> all_untouched n (cl_peers cl').
Proof.
  revert cl. induction evs as [|e evs IH]; intros cl Hu He; cbn [cl_run]; [by intros [= <-]|].
  cbn in He. apply andb_true_iff in He as [He Hes]. intros (cl1 & Hs & Hr)%bind_ret_inv.
  apply (IH cl1); [by eapply cl_step_untouched|done..].
Qed.

Lemma new_cluster_untouched n : all_untouched n (cl_peers (new_cluster (C := C) n)).
Proof.
  split; cbn; [by rewrite length_fmap, length_seq|]. intros j rf Hj. rewrite list_lookup_fmap in Hj.
  apply fmap_Some in Hj as (k & [-> _]%lookup_seq & ->). by split.
Qed.

Lemma untouched_leader n l rl T : untouched n l rl -> GetState rl = (T, true) -> becomeLeaderInit rl = rl.
Proof.
  intros [H1 H2 H3 H4 H5] Hg. unfold GetState in Hg. injection Hg as _ Hst%String.eqb_eq. specialize (H5 Hst).
  injection H5 as En Em. injection H1 as _ _ Ep. unfold becomeLeaderInit, getAbsoluteIndex, log_len. rewrite Ep, H2, H3.
  destruct rl. cbn in *. by subst.
Qed.
Lemma untouched_takes_over n l T ps rl :
  (2 <= n)%nat -> all_untouched n ps -> ps !! l = Some rl -> GetState rl = (T, true) -> 0 < T ->
  (forall j rf, j <> l -> ps !! j = Some rf -> (GetState rf).2 = false /\ (GetState rf).1 <= T) ->
  takes_over n l T 0 ps rl.
Proof.
  intros Hn [Hlen Hall] Hl Hg HT Hj. pose proof (Hall l rl Hl) as Hu.
  assert (elems (log rl) = [zero_entry]) as Hlg by (by rewrite (un_log _ _ _ Hu), elems_of_list).
  assert (forall j rf, ps !! j = Some rf -> elems (log rf) = [zero_entry]) as Hlogs.
  { intros j rf Hrf. by rewrite (un_log _ _ _ (Hall j rf Hrf)), elems_of_list. }
  assert (currentTerm rl = T) as HTl by (by injection Hg).
  split; try done.
  - by rewrite (untouched_leader n l rl T).
  - rewrite HTl. destruct Hu as [E _ _ _ _]. by injection E as -> -> ->.
  - intros j rf Hrf. pose proof (Hall j rf Hrf) as [E1 E2 E3 E4 _]. split; [done|]. split.
    + unfold log_ok. rewrite E2, E3. split; [apply slice_ok_of_list|cbn; lia].
    + intros i e. rewrite (Hlogs j rf Hrf). intros [_ <-]%list_lookup_singleton_Some. cbn. lia.
  - intros j rf Hne Hrf. destruct (Hj j rf Hne Hrf) as [Hst Hct]. pose proof (Hall j rf Hrf) as [_ _ _ E4 _].
    injection E4 as _ _ _ ->. pose proof (un_log _ _ _ (Hall j rf Hrf)) as E2. rewrite (Hlogs j rf Hrf), Hlg.
    split; [by intros Hs; cbn in Hst; rewrite Hs in Hst|].
    split; [done|]. split; [unfold log_len; by rewrite E2|]. split; [intros i Hi; exists zero_entry; by replace i with 0 by lia|].
    intros i e1 e2 Hi H1 _ _. apply list_lookup_singleton_Some in H1 as [H1 _]. intros k Hk. exists zero_entry. by replace k with 0 by lia.
  - intros j rf Hrf. pose proof (Hall j rf Hrf) as [_ _ _ E4 _]. injection E4 as -> -> -> _. split; [done|]. split; [done|].
    split; [by intros m Hm%not_elem_of_nil|by intros [|? ?]|lia].
  - destruct Hu as [_ E2 _ E4 _]. injection E4 as -> _ _ _. unfold log_len. rewrite E2. cbn. lia.
Qed.
End first.
