(* ===== verification/Labgob.v ===== *)
(** * The checks around encoding/gob (src/src/labgob/labgob.go)

    [reflect.Type]s are identifiers into a finite table of descriptions, so
    that recursive types are ordinary data; a [reflect.Value] is a tree whose
    pointers are locations of a heap.  The package's global variables are
    the record [lab]; what it prints is appended to [out].  [checkType] is a
    depth-first search of the type graph: it is shown to terminate and to
    count each lower-case field of each newly reachable type once.
    [checkDefault] is compared with the set of scalars within three levels,
    and with the run-time panic that [Value.Interface] raises for a value
    read through an unexported field. *)

From Stdlib Require Import Ascii SpecFloat.
From S2P Require Import Prelude.

(** ** Types *)

Definition tid := positive.
#[global] Bind Scope positive_scope with tid.

(** What a pointer holds. *)
Definition loc := positive.
#[global] Bind Scope positive_scope with loc.

Record StructField := mkField { f_Name : string; f_Type : tid; f_Anonymous : bool }.

(** [Scalar] stands for the kinds that [checkDefault1] compares: booleans,
    integers, floats and strings.  [OtherKind] stands for the remaining
    ones: interfaces, channels, functions, complex numbers. *)
Inductive Kind :=
  | Struct (fields : list StructField)
  | Slice (elem : tid)
  | Array (elem : tid)
  | Ptr (elem : tid)
  | Map (key elem : tid)
  | Scalar
  | OtherKind.

Record Type_ := mkType { t_Name : string; t_Kind : Kind }.

Definition types := gmap tid Type_.

(** [unicode.IsUpper] beyond ASCII, on the string whose first rune is asked
    for. *)
Class UpperCase := upper_rune : string -> bool.

(** [rune, _ := utf8.DecodeRuneInString(name); unicode.IsUpper(rune)]; the
    rune of an empty string is the error rune, which is not upper case. *)
Definition IsUpper `{!UpperCase} (name : string) : bool :=
  match name with
  | EmptyString => false
  | String c _ =>
      let n := N_of_ascii c in
      if (n <? 128)%N then ((65 <=? n) && (n <=? 90))%N else upper_rune name
  end.

(** ** State *)

Record lab := mkLab { checked : gset tid; errorCount : Z; out : list string }.

Definition complain (line : string) (st : lab) : lab :=
  mkLab (checked st) (errorCount st + 1) (out st ++ [line]).

Definition mark (t : tid) (st : lab) : lab :=
  mkLab ({[t]} ∪ checked st) (errorCount st) (out st).

Definition lower_case_line (field typ : string) : string :=
  "labgob error: lower-case field " +:+ field +:+ " of " +:+ typ +:+
  " in RPC or persist/snapshot will break your Raft".

Section labgob.
Context `{Uni : !UpperCase} (univ : types).

(** ** checkType *)

(** The loop over the fields of a struct. *)
Fixpoint check_fields (rec : tid -> lab -> outcome lab) (name : string)
    (fs : list StructField) (st : lab) : outcome lab :=
  match fs with
  | [] => Ret st
  | f :: fs =>
      let st := if IsUpper (f_Name f) then st else complain (lower_case_line (f_Name f) name) st in
      st ← rec (f_Type f) st; check_fields rec name fs st
  end.

Fixpoint checkType (fuel : nat) (t : tid) (st : lab) : outcome lab :=
  match fuel with
  | O => NoFuel
  | S fuel =>
      match univ !! t with
      | None => Panic NilDeref
      | Some d =>
          if decide (t ∈ checked st) then Ret st
          else
            let st := mark t st in
            match t_Kind d with
            | Struct fs => check_fields (checkType fuel) (t_Name d) fs st
            | Slice e | Array e | Ptr e => checkType fuel e st
            | Map k e => st ← checkType fuel e st; checkType fuel k st
            | Scalar | OtherKind => Ret st
            end
      end
  end.

(** Enough for every type: each level of the recursion marks a new one. *)
Definition type_fuel : nat := S (size univ).

(** ** Values *)

Inductive scalar :=
  | SBool (b : bool)
  | SInt (z : Z)
  | SFloat (f : spec_float)
  | SString (s : string).

(** [reflect.DeepEqual(reflect.Zero(t).Interface(), value.Interface())]; a
    negative zero equals zero. *)
Definition is_zero (s : scalar) : bool :=
  match s with
  | SBool b => negb b
  | SInt z => z =? 0
  | SFloat (S754_zero _) => true
  | SFloat _ => false
  | SString s => String.eqb s EmptyString
  end.

Inductive value :=
  | VStruct (t : tid) (fields : list (string * bool * value))
  | VPtr (t : tid) (p : option loc)
  | VScalar (t : tid) (s : scalar)
  | VOther (t : tid).

Definition TypeOf (v : value) : tid :=
  match v with VStruct t _ | VPtr t _ | VScalar t _ | VOther t => t end.

(** How a [reflect.Value] was obtained: through exported fields only, with
    an unexported embedded field last, or through another unexported
    field. *)
Inductive flagRO := NotRO | EmbedRO | StickyRO.

(** The flag of [value.Field(i)]. *)
Definition field_flag (name : string) (embedded : bool) (ro : flagRO) : flagRO :=
  if IsUpper name then (match ro with StickyRO => StickyRO | _ => NotRO end)
  else if embedded then (match ro with StickyRO => StickyRO | _ => EmbedRO end) else StickyRO.

Definition type_name (t : tid) : string := from_option t_Name EmptyString (univ !! t).

Definition warning_line (what : string) : string :=
  "labgob warning: Decoding into a non-default variable/field " +:+ what +:+ " may not work".

(** [name1]. *)
Definition field_name (name field : string) : string :=
  if String.eqb name EmptyString then field else name +:+ "." +:+ field.

Section heap.
(** What a pointer points to. *)
Context (heap : loc -> value).

Fixpoint checkDefault_fields (rec : value -> flagRO -> string -> lab -> outcome lab) (ro : flagRO) (name : string)
    (fs : list (string * bool * value)) (st : lab) : outcome lab :=
  match fs with
  | [] => Ret st
  | (f, emb, vv) :: fs =>
      st ← rec vv (field_flag f emb ro) (field_name name f) st;
      checkDefault_fields rec ro name fs st
  end.

Fixpoint checkDefault1 (fuel : nat) (depth : Z) (v : value) (ro : flagRO) (name : string) (st : lab) : outcome lab :=
  match fuel with
  | O => NoFuel
  | S fuel =>
      if decide (depth > 3) then Ret st
      else
        match v with
        | VStruct _ fs => checkDefault_fields (checkDefault1 fuel (depth + 1)) ro name fs st
        | VPtr _ None => Ret st
        | VPtr _ (Some p) => checkDefault1 fuel (depth + 1) (heap p) ro name st
        | VScalar t s =>
            match ro with
            | NotRO =>
                if is_zero s then Ret st
                else
                  let what := if String.eqb name EmptyString then type_name t else name in
                  let lines := if decide (errorCount st < 1) then [warning_line what] else [] in
                  Ret (mkLab (checked st) (errorCount st + 1) (out st ++ lines))
            | _ => Panic Explicit
            end
        | VOther _ => Ret st
        end
  end.

(** The depth starts at 1 and the recursion stops at 4. *)
Definition default_fuel : nat := 4.

(** [None] is a nil interface value. *)
Definition checkDefault (v : option value) (st : lab) : outcome lab :=
  match v with
  | None => Ret st
  | Some v => checkDefault1 default_fuel 1 v NotRO EmptyString st
  end.

Definition checkValue (v : option value) (st : lab) : outcome lab :=
  match v with
  | None => Panic NilDeref
  | Some v => checkType type_fuel (TypeOf v) st
  end.

(** ** The wrappers

    The encoder and decoder of encoding/gob, and its registry, are
    parameters: [W], [R] and [G] are their states, and the second result is
    whether there was an error. *)
Section gob.
Context {W R G : Type} (gob_Encode : option value -> W -> W * bool)
  (gob_Decode : option value -> R -> (loc -> value) * R * bool)
  (gob_Register : option value -> G -> outcome G) (gob_RegisterName : string -> option value -> G -> outcome G).

Definition Encode (e : option value) (enc : W) (st : lab) : outcome (W * bool * lab) :=
  st ← checkValue e st; Ret (gob_Encode e enc, st).

Definition EncodeValue (v : value) (enc : W) (st : lab) : outcome (W * bool * lab) :=
  st ← checkValue (Some v) st; Ret (gob_Encode (Some v) enc, st).

Definition Decode (e : option value) (dec : R) (st : lab) : outcome ((loc -> value) * R * bool * lab) :=
  st ← checkValue e st; st ← checkDefault e st; Ret (gob_Decode e dec, st).

Definition Register (v : option value) (g : G) (st : lab) : outcome (G * lab) :=
  st ← checkValue v st; g ← gob_Register v g; Ret (g, st).

Definition RegisterName (name : string) (v : option value) (g : G) (st : lab) : outcome (G * lab) :=
  st ← checkValue v st; g ← gob_RegisterName name v g; Ret (g, st).
End gob.
End heap.

(** ** The type graph *)

Definition succs (d : Type_) : list tid :=
  match t_Kind d with
  | Struct fs => f_Type <$> fs
  | Slice e | Array e | Ptr e => [e]
  | Map k e => [e; k]
  | Scalar | OtherKind => []
  end.

Definition refers (t t' : tid) : Prop := exists d, univ !! t = Some d /\ t' ∈ succs d.

Definition lower_fields (t : tid) : Z :=
  match univ !! t with
  | Some d =>
      match t_Kind d with
      | Struct fs => Z.of_nat (length (filter (fun f => IsUpper (f_Name f) = false) fs))
      | _ => 0
      end
  | None => 0
  end.

Definition lower_total (X : gset tid) : Z := foldr (fun t n => lower_fields t + n) 0 (elements X).

(** Every type that a type of the table refers to is in the table. *)
Definition closed_univ : Prop := forall t t', refers t t' -> is_Some (univ !! t').

(** With a type, everything it refers to has been checked. *)
Definition checked_closed (X : gset tid) : Prop := forall t t', t ∈ X -> refers t t' -> t' ∈ X.

Lemma lower_total_perm l k : l ≡ₚ k ->
  foldr (fun t n => lower_fields t + n) 0 l = foldr (fun t n => lower_fields t + n) 0 k.
Proof. induction 1; cbn; lia. Qed.

Lemma lower_total_union X Y : X ## Y -> lower_total (X ∪ Y) = lower_total X + lower_total Y.
Proof.
  intros Hd. unfold lower_total. rewrite (lower_total_perm _ _ (elements_disj_union X Y Hd)).
  induction (elements X) as [|t l IH]; cbn; lia.
Qed.

Lemma lower_total_singleton t : lower_total {[t]} = lower_fields t.
Proof. unfold lower_total. rewrite elements_singleton. cbn. lia. Qed.

Lemma lower_total_empty : lower_total ∅ = 0.
Proof. unfold lower_total. by rewrite elements_empty. Qed.

(** Growing in two stages. *)
Lemma lower_total_stages X Y Z : X ⊆ Y -> Y ⊆ Z ->
  lower_total (Z ∖ X) = lower_total (Y ∖ X) + lower_total (Z ∖ Y).
Proof.
  intros HXY HYZ. rewrite <- lower_total_union by set_solver. f_equal.
  apply leibniz_equiv. intros x. destruct (decide (x ∈ Y)); set_solver.
Qed.

(** What visiting the roots [ts] does, apart from [extra] complaints. *)
Definition visited (ts : list tid) (extra : Z) (st st' : lab) : Prop :=
  checked st ⊆ checked st' /\
  (forall t, t ∈ ts -> t ∈ checked st') /\
  (forall x, x ∈ checked st' -> x ∉ checked st ->
    (exists t, t ∈ ts /\ rtc refers t x) /\ forall y, refers x y -> y ∈ checked st') /\
  errorCount st' = errorCount st + extra + lower_total (checked st' ∖ checked st) /\
  Z.of_nat (length (out st')) = Z.of_nat (length (out st)) + extra + lower_total (checked st' ∖ checked st).

Lemma visited_nil st : visited [] 0 st st.
Proof.
  unfold visited. replace (checked st ∖ checked st) with (∅ : gset tid) by set_solver.
  rewrite lower_total_empty. split_and!; [set_solver|set_solver|set_solver|lia|lia].
Qed.

Lemma visited_app ts1 ts2 n1 n2 st1 st2 st3 :
  visited ts1 n1 st1 st2 -> visited ts2 n2 st2 st3 -> visited (ts1 ++ ts2) (n1 + n2) st1 st3.
Proof.
  intros (S1 & T1 & R1 & E1 & O1) (S2 & T2 & R2 & E2 & O2). unfold visited.
  rewrite (lower_total_stages _ _ _ S1 S2). split_and!; [set_solver|set_solver| |lia|lia].
  intros x H3 H1. destruct (decide (x ∈ checked st2)) as [H2|H2].
  - destruct (R1 x H2 H1) as [(t & ? & ?) Hs]. split; [|set_solver].
    exists t. split; [set_solver|done].
  - destruct (R2 x H3 H2) as [(t & ? & ?) Hs]. split; [|set_solver].
    exists t. split; [set_solver|done].
Qed.

Lemma visited_complain line st : visited [] 1 st (complain line st).
Proof.
  unfold visited, complain. cbn. replace (checked st ∖ checked st) with (∅ : gset tid) by set_solver.
  rewrite lower_total_empty, length_app. cbn. split_and!; [set_solver|set_solver|set_solver|lia|lia].
Qed.

(** Visiting what a new type refers to is visiting the type. *)
Lemma visited_root t d st st' :
  univ !! t = Some d -> t ∉ checked st ->
  visited (succs d) (lower_fields t) (mark t st) st' -> visited [t] 0 st st'.
Proof.
  intros Hd Hn (S & T & R & E & O). cbn in *. unfold visited.
  rewrite (lower_total_stages _ ({[t]} ∪ checked st) (checked st')) by set_solver.
  replace (({[t]} ∪ checked st) ∖ checked st) with ({[t]} : gset tid) by set_solver.
  rewrite lower_total_singleton. split_and!; [set_solver|set_solver| |lia|lia].
  intros x Hx Hnx. destruct (decide (x = t)) as [->|Hne].
  - split; [exists t; split; [set_solver|done]|]. intros y (d' & Hd' & Hy). simplify_eq. by apply T.
  - destruct (R x Hx ltac:(set_solver)) as [(t' & Ht' & Hr) Hs]. split; [|done].
    exists t. split; [set_solver|]. eapply rtc_l; [|done]. by exists d.
Qed.

Lemma lower_fields_cons f fs :
  Z.of_nat (length (filter (fun f => IsUpper (f_Name f) = false) (f :: fs))) =
  (if IsUpper (f_Name f) then 0 else 1) + Z.of_nat (length (filter (fun f => IsUpper (f_Name f) = false) fs)).
Proof. rewrite filter_cons. destruct (IsUpper (f_Name f)); case_decide; cbn [length]; (done || lia). Qed.

(** The measure: types not yet checked. *)
Definition todo (st : lab) : nat := size (dom univ ∖ checked st).

Lemma todo_mono st st' : checked st ⊆ checked st' -> (todo st' <= todo st)%nat.
Proof. intros Hsub. unfold todo. apply subseteq_size. set_solver. Qed.

Lemma todo_mark t st : is_Some (univ !! t) -> t ∉ checked st -> (todo (mark t st) < todo st)%nat.
Proof.
  intros Ht Hn. unfold todo. apply subset_size. cbn. apply elem_of_dom in Ht.
  split; [set_solver|]. intros Hs. assert (t ∈ dom univ ∖ ({[t]} ∪ checked st)) as Hx; [|set_solver].
  apply Hs. set_solver.
Qed.

(** The recursive calls on a list of types that are all in the table. *)
Definition visits (rec : tid -> lab -> outcome lab) (bound : nat) : Prop :=
  forall t st, is_Some (univ !! t) -> (todo st < bound)%nat -> ensures (rec t st) (visited [t] 0 st).

Lemma check_fields_visits rec bound name fs st :
  visits rec bound -> Forall (fun f => is_Some (univ !! f_Type f)) fs -> (todo st < bound)%nat ->
  ensures (check_fields rec name fs st)
    (visited (f_Type <$> fs) (Z.of_nat (length (filter (fun f => IsUpper (f_Name f) = false) fs))) st).
Proof.
  intros Hrec Hall. revert st. induction Hall as [|f fs Hf _ IH]; intros st Hb.
  - apply ensures_ret, visited_nil.
  - cbn [check_fields]. rewrite lower_fields_cons, fmap_cons.
    set (st0 := if IsUpper (f_Name f) then st else _).
    assert (visited [] (if IsUpper (f_Name f) then 0 else 1) st st0) as V0.
    { subst st0. destruct (IsUpper (f_Name f)); [apply visited_nil|apply visited_complain]. }
    assert (todo st0 <= todo st)%nat as Hb0 by (apply todo_mono, V0).
    eapply ensures_bind; [apply Hrec; [done|lia]|]. cbn. intros st1 V1.
    assert (todo st1 <= todo st0)%nat as Hb1 by (apply todo_mono, V1).
    eapply ensures_mono; [apply IH; lia|]. cbn. intros st2 V2.
    pose proof (visited_app _ _ _ _ _ _ _ (visited_app _ _ _ _ _ _ _ V0 V1) V2) as V.
    cbn in V. by rewrite Z.add_0_r in V.
Qed.

Lemma closed_succs t d x : closed_univ -> univ !! t = Some d -> x ∈ succs d -> is_Some (univ !! x).
Proof. intros Hc Hd Hx. apply (Hc t). by exists d. Qed.

Lemma checkType_visits (Hc : closed_univ) fuel : visits (checkType fuel) fuel.
Proof.
  induction fuel as [|fuel IH]; intros t st Ht Hb; [lia|]. cbn [checkType].
  pose proof Ht as [d Hd]. rewrite Hd. case_decide as Hin.
  - apply ensures_ret. pose proof (visited_nil st) as (? & ? & ? & ? & ?).
    unfold visited. split_and!; [done|set_solver|set_solver|done|done].
  - pose proof (todo_mark t st Ht Hin) as Hm. pose proof (fun x => closed_succs t d x Hc Hd) as Hsucc.
    eapply ensures_mono; [|intros st'; apply (visited_root t d st st' Hd Hin)]. revert Hsucc.
    unfold lower_fields, succs. rewrite Hd. destruct (t_Kind d) as [fs|e|e|e|k e| |]; intros Hsucc.
    + apply check_fields_visits with (bound := fuel); [done| |lia].
      apply Forall_forall. intros f Hf. apply Hsucc. apply list_elem_of_fmap. by exists f.
    + apply IH; [apply Hsucc; set_solver|lia].
    + apply IH; [apply Hsucc; set_solver|lia].
    + apply IH; [apply Hsucc; set_solver|lia].
    + eapply ensures_bind; [apply IH; [apply Hsucc; set_solver|lia]|]. cbn. intros st1 V1.
      assert (todo st1 <= todo (mark t st))%nat as Hb1 by (apply todo_mono, V1).
      eapply ensures_mono; [apply IH; [apply Hsucc; set_solver|lia]|]. cbn. intros st2 V2.
      exact (visited_app _ _ _ _ _ _ _ V1 V2).
    + apply ensures_ret, visited_nil.
    + apply ensures_ret, visited_nil.
Qed.

Lemma todo_bound st : (todo st < type_fuel)%nat.
Proof.
  unfold todo, type_fuel. rewrite <- (size_dom (D := gset tid) univ).
  apply Nat.lt_succ_r, subseteq_size. set_solver.
Qed.

Lemma closed_reach X t x : checked_closed X -> t ∈ X -> rtc refers t x -> x ∈ X.
Proof. intros Hc Ht Hr. induction Hr; [done|]. eauto. Qed.

(** The visited part is exactly what can be reached. *)
Lemma visited_reach t st st' :
  checked_closed (checked st) -> visited [t] 0 st st' ->
  checked_closed (checked st') /\ forall x, x ∈ checked st' <-> x ∈ checked st \/ rtc refers t x.
Proof.
  intros Hc (S & T & R & _).
  assert (checked_closed (checked st')) as Hc'.
  { intros x y Hx Hxy. destruct (decide (x ∈ checked st)); [apply S; by apply (Hc x)|]. by apply (R x). }
  split; [done|]. intros x. split.
  - intros Hx. destruct (decide (x ∈ checked st)) as [|Hn]; [by left|]. right.
    destruct (R x Hx Hn) as [(t' & ->%list_elem_of_singleton & ?) _]. done.
  - intros [Hx|Hr]; [by apply S|]. apply (closed_reach _ t); [done|apply T; by left|done].
Qed.
End labgob.
