(* ===== verification/LabgobSpec.v ===== *)
(** * What labgob's checks find

    The theorems on [checkType] and [checkDefault]. *)

From S2P Require Import Prelude Labgob.

(** ** checkDefault *)

Section default.
Context `{Uni : !UpperCase} (univ : types) (heap : loc -> value).

(** The scalars within so many levels of a value, in the order of the
    traversal: how each was reached, what a warning calls it, and what it
    is. *)
Fixpoint scalars (levels : nat) (v : value) (ro : flagRO) (name : string) : list (flagRO * string * scalar) :=
  match levels with
  | O => []
  | S levels =>
      match v with
      | VStruct _ fs =>
          mjoin ((fun '(f, emb, vv) => scalars levels vv (field_flag f emb ro) (field_name name f)) <$> fs)
      | VPtr _ None => []
      | VPtr _ (Some p) => scalars levels (heap p) ro name
      | VScalar t s => [(ro, if String.eqb name EmptyString then type_name univ t else name, s)]
      | VOther _ => []
      end
  end.

Definition readable (x : flagRO * string * scalar) : bool :=
  match x.1.1 with NotRO => true | _ => false end.

Definition non_default (x : flagRO * string * scalar) : bool := negb (is_zero x.2).

(** The complaints about a list of scalars. *)
Definition report (l : list (flagRO * string * scalar)) (st : lab) : outcome lab :=
  if forallb readable l then
    let bad := filter non_default l in
    Ret (mkLab (checked st) (errorCount st + Z.of_nat (length bad))
      (out st ++ if decide (errorCount st < 1) then warning_line <$> take 1 (snd ∘ fst <$> bad) else []))
  else Panic Explicit.

Lemma report_nil st : report [] st = Ret st.
Proof.
  unfold report. cbn. rewrite Z.add_0_r. destruct st as [c e o]. cbn.
  case_decide; by rewrite app_nil_r.
Qed.

Lemma report_app l k st : 0 <= errorCount st -> report (l ++ k) st = (st' ← report l st; report k st').
Proof.
  intros Hpos. unfold report. rewrite forallb_app. destruct (forallb readable l); [|done]. cbn.
  destruct (forallb readable k); [|done]. f_equal. rewrite filter_app, length_app, fmap_app.
  f_equal; [lia|]. rewrite <- app_assoc. f_equal.
  destruct (filter non_default l) as [|x l'] eqn:E; cbn.
  - rewrite Z.add_0_r. by case_decide.
  - rewrite (decide_False (P := errorCount st + _ < 1)) by lia. rewrite app_nil_r. by case_decide.
Qed.

Lemma report_count l st st' : report l st = Ret st' -> errorCount st <= errorCount st'.
Proof. unfold report. destruct (forallb readable l); [|done]. intros [= <-]. cbn. lia. Qed.

Lemma checkDefault_fields_report rec levels ro name fs st :
  (forall v ro name st, 0 <= errorCount st -> rec v ro name st = report (scalars levels v ro name) st) ->
  0 <= errorCount st ->
  checkDefault_fields rec ro name fs st =
  report (mjoin ((fun '(f, emb, vv) => scalars levels vv (field_flag f emb ro) (field_name name f)) <$> fs)) st.
Proof.
  intros Hrec. revert st. induction fs as [|[[f emb] vv] fs IH]; intros st Hpos.
  - symmetry. apply report_nil.
  - cbn [checkDefault_fields]. rewrite fmap_cons. cbn [mjoin list_join].
    change (mjoin ?x) with (list_join _ x). rewrite report_app, Hrec by done.
    destruct (report (scalars levels vv _ _) st) as [st1| |] eqn:E; [|done|done]. cbn.
    apply IH. apply report_count in E. lia.
Qed.

Lemma checkDefault1_report levels v ro name st :
  (levels <= 3)%nat -> 0 <= errorCount st ->
  checkDefault1 univ heap (S levels) (4 - Z.of_nat levels) v ro name st =
  report (scalars levels v ro name) st.
Proof.
  revert v ro name st. induction levels as [|n IH]; intros v ro name st Hn Hpos.
  - cbn [checkDefault1 scalars]. rewrite decide_True by lia. by rewrite report_nil.
  - cbn [checkDefault1]. rewrite decide_False by lia.
    replace (4 - Z.of_nat (S n) + 1) with (4 - Z.of_nat n) by lia.
    destruct v as [t fs|t [p|]|t s|t]; cbn [scalars].
    + apply checkDefault_fields_report; [|done]. intros. apply IH; [lia|done].
    + apply IH; [lia|done].
    + by rewrite report_nil.
    + unfold report. destruct ro; [|done|done]. cbn [forallb readable fst andb].
      set (x := (NotRO, _, s)). destruct st as [c e o]. cbn [checked errorCount out].
      assert (filter non_default [x] = if is_zero s then [] else [x]) as ->.
      { rewrite filter_cons. case_decide as Hd; unfold non_default in Hd; cbn in Hd; by destruct (is_zero s). }
      destruct (is_zero s); [|done]. cbn [length Z.of_nat]. rewrite Z.add_0_r. case_decide; cbn; by rewrite app_nil_r.
    + by rewrite report_nil.
Qed.
End default.

(** [checkDefault] looks at the scalars within three levels of the value.
    It panics exactly when one of them was read through an unexported field;
    otherwise it adds the number of those that are not zero to [errorCount]
    and prints, if there were no complaints before, one line that names the
    first of them. *)
Theorem checkDefault_reports `{Uni : !UpperCase} (univ : types) (heap : loc -> value) (v : value) (st : lab)
    (Hpos : 0 <= errorCount st) :
  let l := scalars univ heap 3 v NotRO EmptyString in
  (Exists (fun x => readable x = false) l -> checkDefault univ heap (Some v) st = Panic Explicit) /\
  (Forall (fun x => readable x = true) l ->
    checkDefault univ heap (Some v) st =
      Ret (mkLab (checked st) (errorCount st + Z.of_nat (length (filter non_default l)))
        (out st ++ if decide (errorCount st < 1)
                   then warning_line <$> take 1 (snd ∘ fst <$> filter non_default l) else []))).
Proof.
  intros l. unfold checkDefault, default_fuel. rewrite (checkDefault1_report univ heap 3) by (lia || done).
  unfold report. split; intros Hl.
  - destruct (forallb readable (scalars univ heap 3 v NotRO "")) eqn:E; [|done].
    apply Exists_exists in Hl as (x & Hx & Hr). rewrite forallb_forall in E.
    rewrite (E x) in Hr by by apply list_elem_of_In. done.
  - replace (forallb readable _) with true; [done|]. symmetry. apply forallb_forall.
    intros x Hx%list_elem_of_In. by apply (proj1 (Forall_forall _ _) Hl).
Qed.

(** Decoding into a variable whose field [Index] already holds 7. *)
Definition demo_heap : loc -> value := fun _ =>
  VStruct 2 [("Term", false, VScalar 3 (SInt 0)); ("Index", false, VScalar 3 (SInt 7))].

Lemma checkDefault_reports_witness :
  let _ : UpperCase := fun _ => false in
  checkDefault ∅ demo_heap (Some (VPtr 1 (Some 1%positive))) (mkLab ∅ 0 []) =
  Ret (mkLab ∅ 1 [warning_line "Index"]).
Proof.
  intros U. rewrite (proj2 (checkDefault_reports ∅ demo_heap (VPtr 1 (Some 1%positive)) (mkLab ∅ 0 []) ltac:(done))).
  - reflexivity.
  - repeat constructor.
Defined.

(** Decoding into a struct with an unexported scalar field panics in
    [checkDefault], before gob is asked: [Value.Interface] refuses a value
    that was read through such a field. *)
Theorem checkDefault_unexported_panics `{Uni : !UpperCase} (univ : types) (heap : loc -> value)
    (pt t ft : tid) (p : loc) (fs : list (string * bool * value)) (f : string) (s : scalar) (st : lab)
    (Hpos : 0 <= errorCount st) (Hp : heap p = VStruct t fs) (Hf : (f, false, VScalar ft s) ∈ fs)
    (Hlow : IsUpper f = false) :
  checkDefault univ heap (Some (VPtr pt (Some p))) st = Panic Explicit.
Proof.
  unfold checkDefault, default_fuel. rewrite (checkDefault1_report univ heap 3) by (lia || done).
  unfold report. destruct (forallb _ _) eqn:E; [|done]. rewrite forallb_forall in E.
  set (x := (StickyRO, if String.eqb (field_name "" f) "" then type_name univ ft else field_name "" f, s)).
  assert (readable x = true) as Hx; [|done]. apply E, list_elem_of_In. cbn [scalars]. rewrite Hp.
  apply list_elem_of_join. eexists. split; [|apply list_elem_of_fmap; eexists; split; [reflexivity|exact Hf]].
  unfold field_flag. rewrite Hlow. subst x. by left.
Qed.

Lemma checkDefault_unexported_panics_witness :
  let _ : UpperCase := fun _ => false in
  checkDefault ∅ (fun _ => VStruct 2 [("term", false, VScalar 3 (SInt 0))]) (Some (VPtr 1 (Some 1%positive)))
    (mkLab ∅ 0 []) = Panic Explicit.
Proof.
  intros U. eapply (checkDefault_unexported_panics ∅ _ 1 2 3 1 _ "term" (SInt 0)); [done|reflexivity|by left|reflexivity].
Defined.

(** ** checkType *)

(** [checkType] terminates on every type, recursive ones included.  After
    it, the checked types are those checked before and those that can be
    reached from the type, and [errorCount] has grown by the number of
    lower-case fields of the newly checked types, each counted once, with
    one printed line for each. *)
Theorem checkType_counts `{Uni : !UpperCase} (univ : types) (t : tid) (st : lab)
    (Hu : closed_univ univ) (Ht : is_Some (univ !! t)) (Hst : checked_closed univ (checked st)) :
  exists st', checkType univ (type_fuel univ) t st = Ret st' /\
    checked_closed univ (checked st') /\
    (forall x, x ∈ checked st' <-> x ∈ checked st \/ rtc (refers univ) t x) /\
    errorCount st' = errorCount st + lower_total univ (checked st' ∖ checked st) /\
    Z.of_nat (length (out st')) = Z.of_nat (length (out st)) + lower_total univ (checked st' ∖ checked st).
Proof.
  destruct (checkType_visits univ Hu (type_fuel univ) t st Ht (todo_bound univ st)) as (st' & HR & V).
  exists st'. destruct (visited_reach univ t st st' Hst V) as [Hc Hx].
  destruct V as (_ & _ & _ & He & Ho). split_and!; [done|done|done|lia|lia].
Qed.

(** Whether a table is closed can be computed. *)
Lemma closed_check univ :
  forallb (fun '(t, d) => forallb (fun t' => bool_decide (is_Some (univ !! t'))) (succs d)) (map_to_list univ) = true ->
  closed_univ univ.
Proof.
  intros Hall t t' (d & Hd & Hin). rewrite forallb_forall in Hall.
  specialize (Hall (t, d) (proj1 (list_elem_of_In _ _) (proj2 (elem_of_map_to_list univ t d) Hd))). cbn in Hall. rewrite forallb_forall in Hall.
  apply list_elem_of_In in Hin. specialize (Hall t' Hin). by apply bool_decide_eq_true in Hall.
Qed.

(** A list of nodes: [type node struct { Value int; next *node }]. *)
Definition demo_types : types :=
  {[ 1%positive := mkType "node" (Struct [mkField "Value" 2 false; mkField "next" 3 false]);
     2%positive := mkType "int" Scalar; 3%positive := mkType "" (Ptr 1) ]}.

Lemma checkType_counts_witness :
  let _ : UpperCase := fun _ => false in
  exists st', checkType demo_types 4 3 (mkLab ∅ 0 []) = Ret st' /\
    errorCount st' = 1 /\ forall x, x ∈ checked st' <-> rtc (refers demo_types) 3%positive x.
Proof.
  intros U. destruct (checkType_counts demo_types 3 (mkLab ∅ 0 [])) as (st' & HR & _ & Hx & Hn & _).
  - apply closed_check. by vm_compute.
  - by eexists.
  - intros x y Hx. cbn in Hx. set_solver.
  - exists st'. split; [exact HR|]. split.
    + rewrite Hn. injection HR as <-. vm_compute. reflexivity.
    + intros x. rewrite Hx. cbn. set_solver.
Defined.
