(* ===== verification/Labrpc.v ===== *)
(** * The simulated network (src/src/labrpc/labrpc.go)

    The network, the servers and their services as records; servers are
    known by their address, since the code compares pointers.  A call of
    [ClientEnd.Call] runs through the goroutines of the network: its
    progress is a [call], and [call_step] performs one action of them, or an
    operation on the network by somebody else.  Random numbers and the
    choices of [select] are arguments of the actions.  A handler runs in one
    step.

    What reflect tells of types and methods, encoding/gob and the handlers
    are parameters; the warnings that labgob prints on the way are left to
    [Labgob]. *)

From Stdlib Require Import Ascii.
From S2P Require Import Prelude.

(** Two's-complement wrap-around of a signed integer. *)
Definition wrap (bits : Z) (z : Z) : Z := (z + 2 ^ (bits - 1)) `mod` 2 ^ bits - 2 ^ (bits - 1).

(** [strings.LastIndex(s, ".")]. *)
Fixpoint last_dot (s : string) (i acc : Z) : Z :=
  match s with
  | EmptyString => acc
  | String c s => last_dot s (i + 1) (if Ascii.eqb c "."%char then i else acc)
  end.
Definition LastIndex_dot (s : string) : Z := last_dot s 0 (-1).

(** [s[:k]] and [s[k:]]. *)
Definition str_to (s : string) (k : Z) : outcome string :=
  if decide (0 <= k <= Z.of_nat (String.length s)) then Ret (String.substring 0 (Z.to_nat k) s)
  else Panic IndexOutOfRange.
Definition str_from (s : string) (k : Z) : outcome string :=
  if decide (0 <= k <= Z.of_nat (String.length s))
  then Ret (String.substring (Z.to_nat k) (String.length s - Z.to_nat k) s)
  else Panic IndexOutOfRange.

(** Values, types and methods as reflect sees them, and gob.  [gob_decode]
    fills a variable that holds a value; the flags are whether there was no
    error.  A handler changes the state [W] of the servers and fills the
    reply variable. *)
Record Method (V T W : Type) := mkMethod {
  m_Name : string;
  PkgPath : string;
  In : list T;
  NumOut : nat;
  Func : V -> V -> V -> W -> outcome (W * V);
}.
Arguments mkMethod {V T W}.
Arguments m_Name {V T W}.
Arguments PkgPath {V T W}.
Arguments In {V T W}.
Arguments NumOut {V T W}.
Arguments Func {V T W}.

Class Reflect (V T W : Type) := {
  type_of : V -> T;
  type_eq_dec :: EqDecision T;
  is_ptr : T -> bool;
  elem_type : T -> T;
  zero : T -> V;
  indirect_name : V -> string;
  method_set : T -> list (Method V T W);
  gob_encode : V -> string * bool;
  gob_decode : V -> string -> V * bool;
}.

(** The address of a [Server]. *)
Definition addr := positive.
#[global] Bind Scope positive_scope with addr.

Record replyMsg := mkReply { ok : bool; reply : string }.

Section labrpc.
Context {V T W EN SN : Type} `{R : !Reflect V T W} `{Countable EN} `{Countable SN}.

Record reqMsg := mkReq { endname : EN; svcMeth : string; argsType : T; args : string }.

(** ** Services and servers *)

Record Service := mkService { s_name : string; rcvr : V; methods : gmap string (Method V T W) }.

(** Whether a method looks like a handler; [In(2)] is asked for only when
    there are three parameters. *)
Definition suitable (m : Method V T W) : bool :=
  String.eqb (PkgPath m) EmptyString &&
  match In m with
  | [_; _; r] => is_ptr r
  | _ => false
  end &&
  (NumOut m =? 0)%nat.

Definition MakeService (r : V) : Service :=
  mkService (indirect_name r) r
    (foldl (fun ms m => if suitable m then <[m_Name m := m]> ms else ms) ∅ (method_set (type_of r))).

Definition service_dispatch (methname : string) (req : reqMsg) (svc : Service) (w : W) : outcome (W * replyMsg) :=
  match methods svc !! methname with
  | Some m =>
      let '(a, _) := gob_decode (zero (argsType req)) (args req) in
      match In m with
      | [_; t; r] =>
          if decide (t = argsType req) then
            '(w, rv) ← Func m (rcvr svc) a (zero (elem_type r)) w;
            Ret (w, mkReply true (gob_encode rv).1)
          else Panic Explicit
      | _ => Panic Explicit
      end
  | None => Panic Fatal
  end.

Record Server := mkServer { services : gmap string Service; s_count : Z }.

Definition MakeServer : Server := mkServer ∅ 0.
Definition AddService (svc : Service) (rs : Server) : Server :=
  mkServer (<[s_name svc := svc]> (services rs)) (s_count rs).
Definition server_GetCount (rs : Server) : Z := s_count rs.

Definition server_dispatch (req : reqMsg) (rs : Server) (w : W) : outcome (Server * W * replyMsg) :=
  let rs := mkServer (services rs) (wrap 64 (s_count rs + 1)) in
  let dot := LastIndex_dot (svcMeth req) in
  serviceName ← str_to (svcMeth req) dot;
  methodName ← str_from (svcMeth req) (dot + 1);
  match services rs !! serviceName with
  | Some svc => '(w, r) ← service_dispatch methodName req svc w; Ret (rs, w, r)
  | None => Panic Fatal
  end.

(** ** The network *)

Record Network := mkNetwork {
  reliable : bool;
  longDelays : bool;
  longReordering : bool;
  ends : gset EN;
  enabled : gmap EN bool;
  servers : gmap SN (option addr);
  connections : gmap EN (option SN);
  closed : bool;
  count : Z;
  bytes : Z;
}.

Definition MakeNetwork : Network := mkNetwork true false false ∅ ∅ ∅ ∅ false 0 0.

Definition set_flags (rel delays reordering : bool) (rn : Network) : Network :=
  mkNetwork rel delays reordering (ends rn) (enabled rn) (servers rn) (connections rn) (closed rn) (count rn) (bytes rn).
Definition set_maps (es : gset EN) (en : gmap EN bool) (sv : gmap SN (option addr)) (cn : gmap EN (option SN))
    (rn : Network) : Network :=
  mkNetwork (reliable rn) (longDelays rn) (longReordering rn) es en sv cn (closed rn) (count rn) (bytes rn).
Definition set_stats (c b : Z) (rn : Network) : Network :=
  mkNetwork (reliable rn) (longDelays rn) (longReordering rn) (ends rn) (enabled rn) (servers rn) (connections rn)
    (closed rn) c b.

(** Closing a closed channel panics. *)
Definition Cleanup (rn : Network) : outcome Network :=
  if closed rn then Panic Explicit
  else Ret (mkNetwork (reliable rn) (longDelays rn) (longReordering rn) (ends rn) (enabled rn) (servers rn)
    (connections rn) true (count rn) (bytes rn)).
Definition Reliable (yes : bool) (rn : Network) : Network := set_flags yes (longDelays rn) (longReordering rn) rn.
Definition LongReordering (yes : bool) (rn : Network) : Network := set_flags (reliable rn) (longDelays rn) yes rn.
Definition LongDelays (yes : bool) (rn : Network) : Network := set_flags (reliable rn) yes (longReordering rn) rn.

Definition MakeEnd (e : EN) (rn : Network) : outcome Network :=
  if decide (e ∈ ends rn) then Panic Fatal
  else Ret (set_maps ({[e]} ∪ ends rn) (<[e := false]> (enabled rn)) (servers rn) (<[e := None]> (connections rn)) rn).

Definition AddServer (s : SN) (rs : addr) (rn : Network) : Network :=
  set_maps (ends rn) (enabled rn) (<[s := Some rs]> (servers rn)) (connections rn) rn.
Definition DeleteServer (s : SN) (rn : Network) : Network :=
  set_maps (ends rn) (enabled rn) (<[s := None]> (servers rn)) (connections rn) rn.
Definition Connect (e : EN) (s : SN) (rn : Network) : Network :=
  set_maps (ends rn) (enabled rn) (servers rn) (<[e := Some s]> (connections rn)) rn.
Definition Enable (e : EN) (b : bool) (rn : Network) : Network :=
  set_maps (ends rn) (<[e := b]> (enabled rn)) (servers rn) (connections rn) rn.

(** Reading a map at a missing key gives [nil] or [false]. *)
Definition server_at (s : SN) (rn : Network) : option addr := default None (servers rn !! s).
Definition enabled_at (e : EN) (rn : Network) : bool := default false (enabled rn !! e).
Definition server_of (e : EN) (rn : Network) : option SN := default None (connections rn !! e).

Definition GetCount (s : SN) (mem : gmap addr Server) (rn : Network) : outcome Z :=
  match server_at s rn ≫= fun a => mem !! a with
  | Some rs => Ret (server_GetCount rs)
  | None => Panic NilDeref
  end.
Definition GetTotalCount (rn : Network) : Z := count rn.
Definition GetTotalBytes (rn : Network) : Z := bytes rn.

(** What [readEndnameInfo] returns. *)
Record endname_info := mkInfo {
  i_enabled : bool;
  i_servername : option SN;
  i_server : option addr;
  i_reliable : bool;
  i_longreordering : bool;
}.

Definition readEndnameInfo (e : EN) (rn : Network) : endname_info :=
  mkInfo (enabled_at e rn) (server_of e rn)
    (match server_of e rn with Some s => server_at s rn | None => None end) (reliable rn) (longReordering rn).

Definition isServerDead (e : EN) (s : SN) (server : addr) (rn : Network) : bool :=
  negb (enabled_at e rn) || negb (bool_decide (server_at s rn = Some server)).

(** ** A call *)

(** The goroutine that runs the handler: not started, running, waiting to
    hand over its reply, or finished. *)
Inductive handler := HNone | HRun (a : addr) | HReply (r : replyMsg) | HGone.

(** A request whose server was found. *)
Record target := mkTarget { tg_name : SN; tg_server : addr; tg_reliable : bool; tg_longreordering : bool }.

Inductive pc :=
  | PSend                                      (* in Call, before the request is sent *)
  | PRead                                      (* processReq has the request *)
  | PDrop (t : target)                         (* about to drop or execute it *)
  | PWait (t : target)                         (* in the loop *)
  | PCheck (t : target) (r : option replyMsg)  (* after the loop *)
  | PTimer (r : replyMsg) (counted : bool)     (* in an AfterFunc *)
  | PDone (r : replyMsg).                      (* handed to Call *)

Record call := mkCall { at_pc : pc; hnd : handler; executed : list string }.

Record sys := mkSys { net : Network; mem : gmap addr Server; world : W }.

Definition failed : replyMsg := mkReply false EmptyString.

(** Operations on the network, and steps of the servers themselves. *)
Inductive netop :=
  | OReliable (b : bool) | OLongReordering (b : bool) | OLongDelays (b : bool)
  | OMakeEnd (e : EN) | OAddServer (s : SN) (a : addr) | ODeleteServer (s : SN)
  | OConnect (e : EN) (s : SN) | OEnable (e : EN) (b : bool) | OCleanup
  | OServers (m : gmap addr Server) (w : W).

Definition net_op (o : netop) (σ : sys) : outcome sys :=
  let lift f := Ret (mkSys (f (net σ)) (mem σ) (world σ)) in
  match o with
  | OReliable b => lift (Reliable b)
  | OLongReordering b => lift (LongReordering b)
  | OLongDelays b => lift (LongDelays b)
  | OMakeEnd e => rn ← MakeEnd e (net σ); Ret (mkSys rn (mem σ) (world σ))
  | OAddServer s a => lift (AddServer s a)
  | ODeleteServer s => lift (DeleteServer s)
  | OConnect e s => lift (Connect e s)
  | OEnable e b => lift (Enable e b)
  | OCleanup => rn ← Cleanup (net σ); Ret (mkSys rn (mem σ) (world σ))
  | OServers m w => Ret (mkSys (net σ) m w)
  end.

Inductive act :=
  | ASend                (* the network's goroutine takes the request *)
  | ACancel              (* Call sees that the network is gone *)
  | ARead                (* readEndnameInfo *)
  | ADrop (r : Z)        (* the drop of the request, with rand.Int() *)
  | AHandler             (* the handler runs *)
  | ARecv                (* reply = <-ech *)
  | ATick                (* the 100 ms timer *)
  | ADrain               (* <-ech, after the server was found dead *)
  | ACheck (r1 r2 : Z)   (* the end, with rand.Int() and rand.Intn(900) *)
  | AFire                (* an AfterFunc *)
  | AEnv (o : netop).

(** The reply is handed over; its bytes are counted first when it is one of
    the server. *)
Definition count_bytes (counted : bool) (r : replyMsg) (σ : sys) : sys :=
  if counted then
    mkSys (set_stats (count (net σ)) (wrap 64 (bytes (net σ) + Z.of_nat (String.length (reply r)))) (net σ)) (mem σ) (world σ)
  else σ.

Section one_call.
Context (req : reqMsg).

(** [processReq] before the request is executed. *)
Definition begin (i : endname_info) : pc :=
  if i_enabled i then
    match i_servername i, i_server i with
    | Some s, Some a => PDrop (mkTarget s a (i_reliable i) (i_longreordering i))
    | _, _ => PTimer failed false
    end
  else PTimer failed false.

Definition drop_request (t : target) (r : Z) : bool := negb (tg_reliable t) && (r `mod` 1000 <? 100).

(** [processReq] after the loop. *)
Definition finish (t : target) (r : option replyMsg) (r1 r2 : Z) (c : call) (σ : sys) : sys * call :=
  let dead := isServerDead (endname req) (tg_name t) (tg_server t) (net σ) in
  match r with
  | None => (σ, mkCall (PDone failed) (hnd c) (executed c))
  | Some m =>
      if dead then (σ, mkCall (PDone failed) (hnd c) (executed c))
      else if negb (tg_reliable t) && (r1 `mod` 1000 <? 100) then (σ, mkCall (PDone failed) (hnd c) (executed c))
      else if tg_longreordering t && (r2 <? 600) then (σ, mkCall (PTimer m true) (hnd c) (executed c))
      else (count_bytes true m σ, mkCall (PDone m) (hnd c) (executed c))
  end.

Definition call_step (a : act) (σ : sys) (c : call) : option (outcome (sys * call)) :=
  match a, at_pc c with
  | ASend, PSend =>
      let rn := net σ in
      Some (Ret (mkSys (set_stats (wrap 32 (count rn + 1)) (wrap 64 (bytes rn + Z.of_nat (String.length (args req)))) rn)
                   (mem σ) (world σ), mkCall PRead (hnd c) (executed c)))
  | ACancel, PSend =>
      if closed (net σ) then Some (Ret (σ, mkCall (PDone failed) (hnd c) (executed c))) else None
  | ARead, PRead => Some (Ret (σ, mkCall (begin (readEndnameInfo (endname req) (net σ))) (hnd c) (executed c)))
  | ADrop r, PDrop t =>
      if drop_request t r then Some (Ret (σ, mkCall (PDone failed) (hnd c) (executed c)))
      else Some (Ret (σ, mkCall (PWait t) (HRun (tg_server t)) (executed c)))
  | AHandler, p =>
      match hnd c with
      | HRun a =>
          match mem σ !! a with
          | Some rs =>
              Some ('(rs, w, r) ← server_dispatch req rs (world σ);
                    Ret (mkSys (net σ) (<[a := rs]> (mem σ)) w, mkCall p (HReply r) (executed c ++ [reply r])))
          | None => Some (Panic NilDeref)
          end
      | _ => None
      end
  | ARecv, PWait t =>
      match hnd c with
      | HReply r => Some (Ret (σ, mkCall (PCheck t (Some r)) HGone (executed c)))
      | _ => None
      end
  | ATick, PWait t =>
      if isServerDead (endname req) (tg_name t) (tg_server t) (net σ)
      then Some (Ret (σ, mkCall (PCheck t None) (hnd c) (executed c)))
      else Some (Ret (σ, c))
  | ADrain, (PCheck _ None | PDone _) =>
      match hnd c with
      | HReply _ => Some (Ret (σ, mkCall (at_pc c) HGone (executed c)))
      | _ => None
      end
  | ACheck r1 r2, PCheck t r => Some (Ret (finish t r r1 r2 c σ))
  | AFire, PTimer m counted => Some (Ret (count_bytes counted m σ, mkCall (PDone m) (hnd c) (executed c)))
  | AEnv o, _ => Some (σ ← net_op o σ; Ret (σ, c))
  | _, _ => None
  end.

Fixpoint exec (l : list act) (σ : sys) (c : call) : option (outcome (sys * call)) :=
  match l with
  | [] => Some (Ret (σ, c))
  | a :: l =>
      match call_step a σ c with
      | Some (Ret (σ, c)) => exec l σ c
      | r => r
      end
  end.
End one_call.

Definition new_call : call := mkCall PSend HNone [].

(** The two ends of [ClientEnd.Call]: the request it sends, and what it
    makes of the reply with the caller's reply variable. *)
Definition Call_request (e : EN) (meth : string) (a : V) : outcome reqMsg :=
  match gob_encode a with
  | (b, true) => Ret (mkReq e meth (type_of a) b)
  | (_, false) => Panic Explicit
  end.

Definition Call_reply (rep : replyMsg) (rv : V) : outcome (bool * V) :=
  if ok rep then
    match gob_decode rv (reply rep) with
    | (v, true) => Ret (true, v)
    | (_, false) => Panic Fatal
    end
  else Ret (false, rv).
End labrpc.
