(* ===== verification/LabrpcSpec.v ===== *)
(** * What a call of the simulated network promises

    The invariant of a call in progress, and the promises in the comments of
    labrpc.go: a true result means that the server executed the request and
    the reply is its reply; a deleted server gives no positive reply; a call
    returns unless the handler does not; a reliable network delivers. *)

From Stdlib Require Import Ascii.
From S2P Require Import Prelude Codec Labrpc.

Section calls.
Context {V T W EN SN : Type} `{R : !Reflect V T W} `{EqDecision EN} `{!Countable EN} `{EqDecision SN} `{!Countable SN}.
Abbreviation reqMsg := (@reqMsg T EN).
Abbreviation sys := (@sys V T W EN SN _ _ _ _).
Abbreviation call := (@call SN).
Abbreviation act := (@act V T W EN SN).
Implicit Types (req : reqMsg) (σ : sys) (c : call) (a : act) (l : list act).

Lemma server_dispatch_ok req rs (w : W) rs' w' m :
  server_dispatch req rs w = Ret (rs', w', m) -> ok m = true.
Proof.
  unfold server_dispatch, service_dispatch. intros HR. inv_ret.
  repeat (case_scrut; simplify_eq/=; try done); inv_ret; repeat (case_scrut; simplify_eq/=; try done);
    inv_ret; repeat (case_scrut; simplify_eq/=; try done).
Qed.

(** The handler goroutine and the replies it has produced. *)
Definition handler_inv (h : handler) (ex : list string) : Prop :=
  match h with
  | HNone | HRun _ => ex = []
  | HReply r => ex = [reply r] /\ ok r = true
  | HGone => exists b, ex = [b]
  end.

Definition runs_or_replied (t : @target SN) (h : handler) : Prop :=
  h = HRun (tg_server t) \/ exists r, h = HReply r.

Definition call_inv c : Prop :=
  handler_inv (hnd c) (executed c) /\
  match at_pc c with
  | PSend | PRead | PDrop _ => hnd c = HNone
  | PWait t => runs_or_replied t (hnd c)
  | PCheck t None => runs_or_replied t (hnd c) \/ hnd c = HGone
  | PCheck _ (Some r) => hnd c = HGone /\ executed c = [reply r] /\ ok r = true
  | PTimer r true => hnd c = HGone /\ executed c = [reply r] /\ ok r = true
  | PTimer r false => r = failed /\ hnd c = HNone
  | PDone r => r = failed \/ executed c = [reply r] /\ ok r = true /\ hnd c = HGone
  end.

Lemma call_inv_new : call_inv new_call.
Proof. done. Qed.


(** Takes a step apart. *)
Ltac split_pairs :=
  repeat match goal with
  | H : (let '(_, _) := ?x in _) = Ret _ |- _ => destruct x
  | H : match ?x with (_, _) => _ end = Ret _ |- _ => destruct x
  end.
Ltac step_cases Hs :=
  unfold call_step, finish, begin, drop_request in Hs; cbn in Hs;
  repeat match type of Hs with
  | context [match ?x with _ => _ end] => destruct x eqn:?; try discriminate Hs; cbn in Hs
  end; try (injection Hs as Hs); inv_ret; split_pairs; inv_ret; simplify_eq/=.

Lemma call_inv_step req a σ c σ' c' :
  call_inv c -> call_step req a σ c = Some (Ret (σ', c')) -> call_inv c'.
Proof.
  destruct c as [p h ex]. intros [Hh Hp] Hs. unfold call_inv, runs_or_replied in *. cbn in *.
  step_cases Hs.
  all: repeat match goal with
    | H : server_dispatch _ _ _ = Ret (_, _, _) |- _ => apply server_dispatch_ok in H
    end.
  all: try destruct p as [| |? |? |? [?|]|? []|?]; try (clear -Hh Hp; naive_solver); try naive_solver.
  destruct counted; naive_solver.
Qed.

(** What each step preserves holds after a run. *)
Lemma exec_preserves req (P : sys -> call -> Prop) (Q : act -> Prop) l σ c σ' c' :
  (forall a σ c σ' c', Q a -> P σ c -> call_step req a σ c = Some (Ret (σ', c')) -> P σ' c') ->
  Forall Q l -> P σ c -> exec req l σ c = Some (Ret (σ', c')) -> P σ' c'.
Proof.
  intros Hstep HQ. revert σ c. induction HQ as [|a l Ha _ IH]; intros σ c HP; cbn.
  - intros [= -> ->]. done.
  - destruct (call_step req a σ c) as [[[σ1 c1]| |]|] eqn:E; [|done|done|done].
    intros Hx. apply (IH σ1 c1); [|done]. by apply (Hstep a σ c).
Qed.

Lemma exec_inv req l σ c σ' c' :
  call_inv c -> exec req l σ c = Some (Ret (σ', c')) -> call_inv c'.
Proof.
  apply (exec_preserves req (fun _ => call_inv) (fun _ => True)).
  - intros a ? ? ? ? _. apply call_inv_step.
  - by apply Forall_true.
Qed.

Lemma exec_app req l k σ c σ1 c1 :
  exec req l σ c = Some (Ret (σ1, c1)) -> exec req (l ++ k) σ c = exec req k σ1 c1.
Proof.
  revert σ c. induction l as [|a l IH]; intros σ c; cbn.
  - by intros [= -> ->].
  - destruct (call_step req a σ c) as [[[σ2 c2]| |]|]; [apply IH|done|done|done].
Qed.

(** ** A server that was deleted *)

Lemma net_op_server_at (o : netop) σ σ' (s : SN) (x : addr) :
  net_op o σ = Ret σ' -> o <> OAddServer s x ->
  server_at s (net σ) <> Some x -> server_at s (net σ') <> Some x.
Proof.
  unfold net_op, MakeEnd, Cleanup, server_at. intros Hop Hne Hs.
  destruct o; repeat case_scrut; inv_ret; simplify_eq/=; try done.
  - rewrite lookup_insert. case_decide; [|done]. cbn. congruence.
  - rewrite lookup_insert. by case_decide.
Qed.

Definition doomed (t : @target SN) σ c : Prop :=
  server_at (tg_name t) (net σ) <> Some (tg_server t) /\
  (at_pc c = PDrop t \/ at_pc c = PWait t \/ (exists r, at_pc c = PCheck t r) \/ at_pc c = PDone failed).

Lemma doomed_dead req t σ c :
  doomed t σ c -> isServerDead (endname req) (tg_name t) (tg_server t) (net σ) = true.
Proof. intros [Hs _]. unfold isServerDead. rewrite bool_decide_eq_false_2 by done. apply orb_true_r. Qed.

Lemma doomed_step req t a σ c σ' c' :
  a <> AEnv (OAddServer (tg_name t) (tg_server t)) -> doomed t σ c ->
  call_step req a σ c = Some (Ret (σ', c')) -> doomed t σ' c'.
Proof.
  intros Ha Hd Hs. pose proof (doomed_dead req t σ c Hd) as Hdead.
  destruct c as [p h ex], Hd as [Hn Hp]. unfold doomed. cbn in *.
  step_cases Hs; try naive_solver.
  - destruct Hp as [|[|[[? [= -> _]]|]]]; congruence.
  - destruct Hp as [|[|[[? [= -> _]]|]]]; congruence.
  - split; [|done]. eapply net_op_server_at; [done|congruence|done].
Qed.

(** ** A call returns *)

Definition quiet a : Prop := match a with AEnv _ => False | _ => True end.

(** The handler returns on the server at this address. *)
Definition answers req σ (x : addr) : Prop :=
  exists rs, mem σ !! x = Some rs /\ returns (server_dispatch req rs (world σ)).

Definition completes req (n : nat) σ c : Prop :=
  exists l σ' c' r, (length l <= n)%nat /\ Forall quiet l /\ exec req l σ c = Some (Ret (σ', c')) /\ at_pc c' = PDone r.

Lemma completes_step req n a σ c σ' c' :
  quiet a -> call_step req a σ c = Some (Ret (σ', c')) -> completes req n σ' c' -> completes req (S n) σ c.
Proof.
  intros Ha Hs (l & σ2 & c2 & r & Hn & Hl & Hx & Hr). exists (a :: l), σ2, c2, r.
  split_and!; [cbn; lia|by constructor| |done]. cbn. by rewrite Hs.
Qed.

Lemma completes_done req n σ c r : at_pc c = PDone r -> completes req n σ c.
Proof. intros Hr. exists [], σ, c, r. split_and!; [cbn; lia|constructor|done|done]. Qed.

Lemma completes_timer req n σ c r b : at_pc c = PTimer r b -> completes req (S n) σ c.
Proof.
  destruct c as [p h ex]. cbn. intros ->. eapply (completes_step req n AFire); [done|done|].
  by eapply completes_done.
Qed.

Lemma completes_check req n σ c t r : at_pc c = PCheck t r -> completes req (S (S n)) σ c.
Proof.
  destruct c as [p h ex]. cbn. intros ->.
  destruct (call_step req (ACheck 0 0) σ (mkCall (PCheck t r) h ex)) as [[[σ' c']| |]|] eqn:E; try done.
  eapply (completes_step req (S n)); [|exact E|]; [done|]. step_cases E.
  all: first [by eapply completes_timer | by eapply completes_done].
Qed.

Lemma completes_wait req n σ c t :
  at_pc c = PWait t -> runs_or_replied t (hnd c) ->
  (hnd c = HRun (tg_server t) -> answers req σ (tg_server t)) -> completes req (4 + n) σ c.
Proof.
  destruct c as [p h ex]. cbn. intros -> Hh Hans.
  assert (forall σ r ex, completes req (3 + n) σ (mkCall (PWait t) (HReply r) ex)) as Hrep.
  { intros. eapply (completes_step req (2 + n) ARecv); [done|done|]. by eapply completes_check. }
  destruct Hh as [->|[r ->]].
  - destruct (Hans eq_refl) as (rs & Hm & [[rs' w'] r] & Hd).
    eapply (completes_step req (3 + n) AHandler); [done| |apply Hrep].
    cbn. rewrite Hm, Hd. cbn. reflexivity.
  - destruct (Hrep σ r ex) as (l & σ' & c' & r' & Hl & ?). exists l, σ', c', r'. split; [lia|done].
Qed.

Lemma completes_drop req n σ c t :
  at_pc c = PDrop t -> answers req σ (tg_server t) -> completes req (5 + n) σ c.
Proof.
  destruct c as [p h ex]. cbn. intros -> Hans.
  destruct (drop_request t 0) eqn:E.
  - eapply (completes_step req (4 + n) (ADrop 0)); [done|cbn; rewrite E; reflexivity|]. by eapply completes_done.
  - eapply (completes_step req (4 + n) (ADrop 0)); [done|cbn; rewrite E; reflexivity|].
    eapply completes_wait; [done|by left|done].
Qed.

Lemma begin_cases (e : EN) σ :
  begin (readEndnameInfo e (net σ)) = PTimer failed false \/
  exists s x, server_of e (net σ) = Some s /\ server_at s (net σ) = Some x /\ enabled_at e (net σ) = true /\
    begin (readEndnameInfo e (net σ)) = PDrop (mkTarget s x (reliable (net σ)) (longReordering (net σ))).
Proof.
  unfold begin, readEndnameInfo. cbn. destruct (enabled_at e (net σ)); [|by left].
  destruct (server_of e (net σ)) as [s|]; [|by left]. destruct (server_at s (net σ)) as [x|] eqn:E; [|by left].
  right. by exists s, x.
Qed.

Lemma completes_read req n σ c :
  at_pc c = PRead -> (forall s x, server_at s (net σ) = Some x -> answers req σ x) -> completes req (6 + n) σ c.
Proof.
  destruct c as [p h ex]. cbn. intros -> Hans.
  eapply (completes_step req (5 + n) ARead); [done|cbn; reflexivity|].
  destruct (begin_cases (endname req) σ) as [E|(s & x & _ & Hx & _ & E)]; rewrite E.
  - by eapply completes_timer.
  - eapply completes_drop; [done|]. cbn. eauto.
Qed.

(** ** A reliable network *)

Section reliable.
Context (req : reqMsg) (s : SN) (x : addr) (rs rs' : @Server V T W) (w w' : W) (m : replyMsg).
Hypothesis Hdisp : server_dispatch req rs w = Ret (rs', w', m).

(** The end is enabled and connected to the server; nothing is lost. *)
Definition connected σ : Prop :=
  enabled_at (endname req) (net σ) = true /\ server_of (endname req) (net σ) = Some s /\
  server_at s (net σ) = Some x /\ reliable (net σ) = true /\ longReordering (net σ) = false /\ closed (net σ) = false.

Definition direct : @target SN := mkTarget s x true false.

Definition on_way σ c : Prop :=
  connected σ /\
  ( (at_pc c = PSend \/ at_pc c = PRead \/ at_pc c = PDrop direct) /\ hnd c = HNone /\ executed c = [] /\
      mem σ !! x = Some rs /\ world σ = w
  \/ at_pc c = PWait direct /\ hnd c = HRun x /\ executed c = [] /\ mem σ !! x = Some rs /\ world σ = w
  \/ at_pc c = PWait direct /\ hnd c = HReply m /\ executed c = [reply m] /\ mem σ !! x = Some rs' /\ world σ = w'
  \/ (at_pc c = PCheck direct (Some m) \/ at_pc c = PDone m) /\ hnd c = HGone /\ executed c = [reply m] /\
      mem σ !! x = Some rs' /\ world σ = w').

Lemma connected_read σ : connected σ ->
  begin (readEndnameInfo (endname req) (net σ)) = PDrop direct /\
  isServerDead (endname req) s x (net σ) = false.
Proof.
  intros (He & Hs & Hx & Hr & Hl & _). unfold begin, readEndnameInfo, isServerDead. cbn.
  rewrite He, Hs, Hx, Hr, Hl. cbn. by rewrite bool_decide_eq_true_2.
Qed.

Lemma on_way_step a σ c σ' c' :
  quiet a -> on_way σ c -> call_step req a σ c = Some (Ret (σ', c')) -> on_way σ' c'.
Proof.
  intros Ha [Hc Hw] Hs. destruct (connected_read σ Hc) as [Hb Hd]. destruct c as [p h ex]. unfold on_way.
  cbn [at_pc hnd executed] in *.
  destruct Hw as [([->|[->| ->]] & -> & -> & Hm & Hwd)|[(-> & -> & -> & Hm & Hwd)|[(-> & -> & -> & Hm & Hwd)|([->| ->] & -> & -> & Hm & Hwd)]]].
  all: destruct a; try done; unfold call_step, finish in Hs; cbn in Hs; rewrite ?Hb, ?Hd in Hs; simplify_eq/=.
  all: try (split; [exact Hc|tauto]).
  - destruct Hc as (_ & _ & _ & _ & _ & Hcl). by rewrite Hcl in Hs.
  - rewrite Hm, Hdisp in Hs. simplify_eq/=. split; [exact Hc|]. rewrite lookup_insert, decide_True by done. tauto.
Qed.

Lemma on_way_run l σ c σ' c' :
  Forall quiet l -> on_way σ c -> exec req l σ c = Some (Ret (σ', c')) -> on_way σ' c'.
Proof. apply (exec_preserves req on_way quiet). intros ? ? ? ? ?. apply on_way_step. Qed.
End reliable.
End calls.

(** ** The name of a method *)

Lemma last_dot_none s i acc : ~ List.In "."%char (String.list_ascii_of_string s) -> last_dot s i acc = acc.
Proof.
  revert i acc. induction s as [|c s IH]; intros i acc Hn; [done|]. cbn in *.
  destruct (Ascii.eqb_spec c "."%char) as [->|]; [tauto|]. apply IH. tauto.
Qed.

Lemma last_dot_app s k i acc :
  ~ List.In "."%char (String.list_ascii_of_string k) ->
  last_dot (s +:+ String "."%char k) i acc = i + Z.of_nat (String.length s).
Proof.
  intros Hk. revert i acc. induction s as [|c s IH]; intros i acc.
  - change (String.append EmptyString ?x) with x. cbn. rewrite last_dot_none by done. lia.
  - change (String c s +:+ ?x) with (String c (s +:+ x)). cbn [last_dot String.length]. rewrite IH. lia.
Qed.

Lemma substring_prefix s k : String.substring 0 (String.length s) (s +:+ k) = s.
Proof.
  induction s as [|c s IH]; [by destruct k|].
  change (String c s +:+ k) with (String c (s +:+ k)). cbn. by rewrite IH.
Qed.

Lemma substring_all s : String.substring 0 (String.length s) s = s.
Proof. induction s as [|c s IH]; [done|]. cbn. by rewrite IH. Qed.

Lemma substring_suffix s c k n :
  n = String.length k -> String.substring (S (String.length s)) n (s +:+ String c k) = k.
Proof.
  intros ->. induction s as [|d s IH].
  - change (String.append EmptyString ?x) with x. cbn. apply substring_all.
  - change (String d s +:+ ?x) with (String d (s +:+ x)). cbn. apply IH.
Qed.

Lemma string_length_app s k : String.length (s +:+ k) = (String.length s + String.length k)%nat.
Proof.
  induction s as [|c s IH]; [done|]. change (String c s +:+ k) with (String c (s +:+ k)). cbn. by rewrite IH.
Qed.

(** "Service.Method" is split at the last dot. *)
Lemma split_method (sname mname : string) :
  ~ List.In "."%char (String.list_ascii_of_string mname) ->
  let meth := sname +:+ String "."%char mname in
  str_to meth (LastIndex_dot meth) = Ret sname /\ str_from meth (LastIndex_dot meth + 1) = Ret mname.
Proof.
  intros Hn. cbv zeta. unfold LastIndex_dot. rewrite last_dot_app by done.
  unfold str_to, str_from. rewrite string_length_app. cbn [String.length].
  rewrite !decide_True by lia. split; f_equal.
  - replace (Z.to_nat _) with (String.length sname) by lia. apply substring_prefix.
  - replace (Z.to_nat _) with (S (String.length sname)) by lia. apply substring_suffix. lia.
Qed.

(** The request for a method of a registered service runs the method on the
    decoded arguments and a fresh reply. *)
Lemma dispatch_method {V T W EN : Type} `{!Reflect V T W} (e : EN) (rs : Server) (svc : Service) (m : Method V T W)
    (sname mname : string) (recv ta rt : T) (a rv : V) (b : string) (w w' : W) :
  ~ List.In "."%char (String.list_ascii_of_string mname) ->
  services rs !! sname = Some svc -> methods svc !! mname = Some m -> In m = [recv; ta; rt] ->
  (gob_decode (zero ta) b).1 = a -> Func m (rcvr svc) a (zero (elem_type rt)) w = Ret (w', rv) ->
  server_dispatch (mkReq e (sname +:+ String "."%char mname) ta b) rs w =
    Ret (mkServer (services rs) (wrap 64 (s_count rs + 1)), w', mkReply true (gob_encode rv).1).
Proof.
  intros Hdot Hsvc Hm Hin Hdec Hf. unfold server_dispatch. cbn [svcMeth].
  destruct (split_method sname mname Hdot) as [-> ->]. cbn. rewrite Hsvc. unfold service_dispatch.
  rewrite Hm. cbn [args argsType]. destruct (gob_decode (zero ta) b) as [a' ok]. cbn in Hdec. subst a'. rewrite Hin.
  rewrite decide_True by done. by rewrite Hf.
Qed.

(** On a reliable network every complete run hands over the reply of the
    server. *)
Lemma reliable_reply {V T W EN SN : Type} `{!Reflect V T W} `{EqDecision EN} `{!Countable EN}
    `{EqDecision SN} `{!Countable SN} (req : reqMsg) (s : SN) (x : addr) (rs rs' : @Server V T W) (w w' : W)
    (m : replyMsg) (l : list (@act V T W EN SN)) (σ σ' : sys) (c : call) (r : replyMsg) :
  server_dispatch req rs w = Ret (rs', w', m) ->
  connected req s x σ -> mem σ !! x = Some rs -> world σ = w -> Forall quiet l ->
  exec req l σ new_call = Some (Ret (σ', c)) -> at_pc c = PDone r ->
  r = m /\ world σ' = w' /\ executed c = [reply m] /\ mem σ' !! x = Some rs'.
Proof.
  intros Hdisp Hconn Hmem Hw Hl Hrun Hr.
  eapply on_way_run in Hrun as [_ Hw']; [|exact Hdisp|exact Hl|].
  - rewrite Hr in Hw'. destruct Hw' as [([?|[?|?]] & _)|[(? & _)|[(? & _)|([?|[= ->]] & _ & Hex & Hm' & Hwd)]]]; done.
  - split; [exact Hconn|]. left. split_and!; [by left|done|done|done|done].
Qed.

(** ** The theorems *)

(** C26: Whatever happens on the network, a request is executed at most once,
    and a positive result of [Call] carries the reply of that one
    execution. *)
Theorem Call_reply_executed {V T W EN SN : Type} `{!Reflect V T W} `{EqDecision EN} `{!Countable EN}
    `{EqDecision SN} `{!Countable SN} (req : reqMsg) (l : list (@act V T W EN SN)) (σ σ' : sys) (c : call)
    (Hrun : exec req l σ new_call = Some (Ret (σ', c))) :
  (length (executed c) <= 1)%nat /\
  forall r, at_pc c = PDone r -> if ok r then executed c = [reply r] else r = failed.
Proof.
  pose proof (exec_inv req l σ new_call σ' c call_inv_new Hrun) as [Hh Hp]. split.
  - destruct (hnd c); cbn in Hh; [rewrite Hh|rewrite Hh|destruct Hh as [-> _]|destruct Hh as [b ->]]; cbn; lia.
  - intros r Hr. rewrite Hr in Hp. destruct Hp as [->|(? & -> & _)]; done.
Qed.

(** When the server of a request that is being processed has been deleted
    or replaced, the result is negative, unless that very server is added
    again. *)
Theorem Call_deleted_fails {V T W EN SN : Type} `{!Reflect V T W} `{EqDecision EN} `{!Countable EN}
    `{EqDecision SN} `{!Countable SN} (req : reqMsg) (l : list (@act V T W EN SN)) (σ σ' : sys) (c c' : call)
    (t : target) (r : replyMsg)
    (Hpc : at_pc c = PDrop t \/ at_pc c = PWait t \/ exists m, at_pc c = PCheck t m)
    (Hgone : server_at (tg_name t) (net σ) <> Some (tg_server t))
    (Hl : Forall (fun a => a <> AEnv (OAddServer (tg_name t) (tg_server t))) l)
    (Hrun : exec req l σ c = Some (Ret (σ', c'))) (Hr : at_pc c' = PDone r) :
  r = failed.
Proof.
  assert (doomed t σ' c') as [_ Hd].
  { eapply (exec_preserves req (doomed t)); [|exact Hl| |exact Hrun].
    - intros a ? ? ? ? Ha. by apply doomed_step.
    - split; [done|tauto]. }
  rewrite Hr in Hd. destruct Hd as [|[|[[? ?]|]]]; congruence.
Qed.

(** C36: A call can always return: from every point of every run in which the
    handler returns on the servers concerned, at most seven steps of the
    call's own goroutines hand a reply to the caller. *)
Theorem Call_returns {V T W EN SN : Type} `{!Reflect V T W} `{EqDecision EN} `{!Countable EN}
    `{EqDecision SN} `{!Countable SN} (req : reqMsg) (l : list (@act V T W EN SN)) (σ σ' : sys) (c : call)
    (Hrun : exec req l σ new_call = Some (Ret (σ', c)))
    (Hans : forall x, (hnd c = HRun x \/ (exists t, at_pc c = PDrop t /\ tg_server t = x) \/
                       exists s, server_at s (net σ') = Some x) -> answers req σ' x) :
  completes req 7 σ' c.
Proof.
  pose proof (exec_inv req l σ new_call σ' c call_inv_new Hrun) as [_ Hp].
  destruct (at_pc c) as [| |t|t|t r|r b|r] eqn:E.
  - destruct c as [p h ex]. cbn in E, Hp, Hans. subst p.
    eapply (completes_step req 6 ASend); [done|cbn; reflexivity|].
    apply (completes_read req 0); [done|]. intros s x Hx.
    assert (answers req σ' x) as (rs & Hm & Hd) by (apply Hans; right; right; by exists s). by exists rs.
  - apply (completes_read req 1); [done|]. intros s x Hx. apply Hans. right. right. by exists s.
  - apply (completes_drop req 2 σ' c t); [done|]. apply Hans. right. left. by exists t.
  - apply (completes_wait req 3 σ' c t); [done|done|]. intros Hh. apply Hans. by left.
  - by apply (completes_check req 5 σ' c t r).
  - by apply (completes_timer req 6 σ' c r b).
  - by apply (completes_done req 7 σ' c r).
Qed.

(** On a reliable network that nobody touches, every complete run of a
    call to a connected server returns true with the reply that the method
    computes from the arguments, and the method has run exactly once. *)
Theorem Call_reliable {V T W EN SN : Type} `{!Reflect V T W} `{EqDecision EN} `{!Countable EN}
    `{EqDecision SN} `{!Countable SN} (e : EN) (s : SN) (x : addr) (rs : Server) (svc : Service) (m : Method V T W)
    (sname mname : string) (recv rt : T) (a rv rv0 : V) (b b' : string) (w w' : W)
    (l : list (@act V T W EN SN)) (σ σ' : sys) (c : call) (req : reqMsg) (r : replyMsg)
    (Hdot : ~ List.In "."%char (String.list_ascii_of_string mname))
    (Hsvc : services rs !! sname = Some svc) (Hm : methods svc !! mname = Some m)
    (Hin : In m = [recv; type_of a; rt]) (Hf : Func m (rcvr svc) a (zero (elem_type rt)) w = Ret (w', rv))
    (Henc : gob_encode a = (b, true)) (Hdec : gob_decode (zero (type_of a)) b = (a, true))
    (Henc' : gob_encode rv = (b', true)) (Hdec' : gob_decode rv0 b' = (rv, true))
    (Hconn : connected (mkReq e (sname +:+ String "."%char mname) (type_of a) b) s x σ)
    (Hmem : mem σ !! x = Some rs) (Hw : world σ = w)
    (Hreq : Call_request e (sname +:+ String "."%char mname) a = Ret req)
    (Hl : Forall quiet l) (Hrun : exec req l σ new_call = Some (Ret (σ', c))) (Hr : at_pc c = PDone r) :
  Call_reply r rv0 = Ret (true, rv) /\ world σ' = w' /\ executed c = [b'] /\
  mem σ' !! x = Some (mkServer (services rs) (wrap 64 (s_count rs + 1))).
Proof.
  unfold Call_request in Hreq. rewrite Henc in Hreq. injection Hreq as <-.
  pose proof (dispatch_method e rs svc m sname mname recv (type_of a) rt a rv b w w' Hdot Hsvc Hm Hin
    ltac:(by rewrite Hdec) Hf) as Hdisp. rewrite Henc' in Hdisp.
  destruct (reliable_reply _ s x rs _ w w' _ l σ σ' c r Hdisp Hconn Hmem Hw Hl Hrun Hr) as (-> & Hw' & Hex & Hm').
  split; [|done]. unfold Call_reply. cbn. by rewrite Hdec'.
Qed.

(** ** A network with one server

    A service [Counter] whose method [Add] adds its argument to the state of
    the server and replies with the sum. *)
Module Demo.
Definition Add : Method Z bool Z :=
  mkMethod "Add" "" [true; true; true] 0 (fun _ a _ w => Ret (w + a, w + a)).

#[export] Instance reflect : Reflect Z bool Z := {|
  type_of _ := true;
  is_ptr t := t;
  elem_type t := t;
  zero _ := 0;
  indirect_name _ := "Counter";
  method_set _ := [Add];
  gob_encode z := (put z, true);
  gob_decode v s := match get_bits s with Some z => (z, true) | None => (v, false) end;
|}.

Definition svc : Service := MakeService 0.
Definition server : Server := AddService svc MakeServer.
Definition network : @Network nat nat _ _ _ _ := Enable 0%nat true (Connect 0%nat 0%nat (AddServer 0%nat 1%positive MakeNetwork)).
Definition system : @sys Z bool Z nat nat _ _ _ _ := mkSys network {[1%positive := server]} 40.
Definition request : @reqMsg bool nat := mkReq 0%nat "Counter.Add" true (put 2).
Definition actions : list (@act Z bool Z nat nat) := [ASend; ARead; ADrop 5; AHandler; ATick; ARecv; ACheck 5 5].
Definition answered : @call nat := mkCall (PDone (mkReply true (put 42))) HGone [put 42].
Definition after : @sys Z bool Z nat nat _ _ _ _ :=
  mkSys (set_stats 1 (Z.of_nat (String.length (put 2) + String.length (put 42))) network)
    {[1%positive := mkServer (services server) 1]} 42.

Lemma run : exec request actions system new_call = Some (Ret (after, answered)).
Proof. vm_compute. reflexivity. Qed.

(** The server is deleted after its handler has run. *)
Definition gone : @sys Z bool Z nat nat _ _ _ _ := mkSys (DeleteServer 0%nat network) (mem system) 42.
Definition to_counter : @target nat := mkTarget 0%nat 1%positive true false.
Definition waiting : @call nat := mkCall (PWait to_counter) (HReply (mkReply true (put 42))) [put 42].
Definition refused : @call nat := mkCall (PDone failed) HGone [put 42].
Definition late : list (@act Z bool Z nat nat) := [ARecv; ACheck 5 5].

Lemma refuses : exec request late gone waiting = Some (Ret (gone, refused)).
Proof. vm_compute. reflexivity. Qed.
End Demo.
Import Demo.

Lemma Call_reply_executed_witness :
  (length (executed Demo.answered) <= 1)%nat /\
  forall r, at_pc Demo.answered = PDone r -> if ok r then executed Demo.answered = [reply r] else r = failed.
Proof. exact (Call_reply_executed Demo.request Demo.actions Demo.system Demo.after Demo.answered Demo.run). Defined.

Lemma Call_deleted_fails_witness : exists r, at_pc refused = PDone r /\ r = failed.
Proof.
  exists failed. split; [reflexivity|].
  apply (Call_deleted_fails request late gone gone waiting refused to_counter).
  - right. by left.
  - by vm_compute.
  - by repeat constructor.
  - exact refuses.
  - reflexivity.
Defined.

Lemma Call_returns_witness :
  completes Demo.request 7 Demo.system new_call.
Proof.
  apply (Call_returns Demo.request [] Demo.system Demo.system new_call eq_refl).
  intros x [Hx|[(t & Ht & _)|[s Hs]]]; [done|done|].
  exists Demo.server. destruct s as [|s].
  2: { by unfold server_at in Hs; cbn in Hs; rewrite lookup_insert_ne, lookup_empty in Hs. }
  injection Hs as <-. split; [reflexivity|]. eexists. vm_compute. reflexivity.
Defined.

Lemma Call_reliable_witness :
  Call_reply (mkReply true (put 42)) 0 = Ret (true, 42) /\ world Demo.after = 42 /\
  executed Demo.answered = [put 42].
Proof.
  destruct (Call_reliable 0%nat 0%nat 1%positive Demo.server Demo.svc Demo.Add "Counter" "Add" true true 2 42 0
    (put 2) (put 42) 40 42 Demo.actions Demo.system Demo.after Demo.answered Demo.request (mkReply true (put 42)))
    as (H1 & H2 & H3 & _).
  - cbn. intuition discriminate.
  - reflexivity.
  - reflexivity.
  - reflexivity.
  - reflexivity.
  - reflexivity.
  - cbn. reflexivity.
  - reflexivity.
  - cbn. reflexivity.
  - by repeat split.
  - reflexivity.
  - reflexivity.
  - reflexivity.
  - by repeat constructor.
  - exact Demo.run.
  - reflexivity.
  - done.
Defined.
