(* ===== verification/Clerks.v ===== *)
(** * The clients of the shard controller and of the sharded store
      (src/src/shardctrler/client.go, common.go; src/src/shardkv/client.go, common.go)

    A clerk sends calls until one is answered to its liking.  What the calls
    return is a parameter: the result of the [k]-th call of the clerk on an
    end, [None] when [Call] returns false.  The endless loops take fuel, one
    unit per round; a clerk without fuel has not returned yet. *)

From Stdlib Require Import Ascii.
From S2P Require Import Prelude.

(** ** The shard controller's data *)

Definition NShards : Z := 10.

Record Config := mkConfig { Num : Z; Shards : list Z; Groups : gmap Z (list string) }.

(** The zero value. *)
Definition zero_config : Config := mkConfig 0 (replicate (Z.to_nat NShards) 0) ∅.

(** [Shards] is an array of [NShards] elements. *)
Definition config_ok (c : Config) : Prop := Z.of_nat (length (Shards c)) = NShards.

Record QueryArgs := mkQueryArgs { q_Num : Z }.
Record JoinArgs := mkJoinArgs { j_Servers : gmap Z (list string) }.
Record LeaveArgs := mkLeaveArgs { l_GIDs : list Z }.
Record MoveArgs := mkMoveArgs { m_Shard : Z; m_GID : Z }.
Record QueryReply := mkQueryReply { q_WrongLeader : bool; q_Err : string; q_Config : Config }.
(** [JoinReply], [LeaveReply] and [MoveReply] have the same fields. *)
Record CtrlReply := mkCtrlReply { c_WrongLeader : bool; c_Err : string }.

(** ** Trying servers in turn *)

Section retry.
Context {E R : Type}.
(** The [k]-th call, on an end. *)
Context (call : nat -> E -> option R) (accept : R -> bool).

(** One pass over the servers: the number of calls so far, and the reply that
    was accepted. *)
Fixpoint try_each (servers : list E) (k : nat) : nat * option R :=
  match servers with
  | [] => (k, None)
  | srv :: servers =>
      match call k srv with
      | Some reply => if accept reply then (S k, Some reply) else try_each servers (S k)
      | None => try_each servers (S k)
      end
  end.

Fixpoint retry (servers : list E) (fuel k : nat) : outcome (R * nat) :=
  match fuel with
  | O => NoFuel
  | S fuel =>
      match try_each servers k with
      | (k, Some reply) => Ret (reply, k)
      | (k, None) => retry servers fuel k
      end
  end.
End retry.

(** ** The clerk of the shard controller *)

(** What the calls of a clerk return, by method. *)
Class CtrlCalls (E : Type) := {
  call_Query : nat -> E -> QueryArgs -> option QueryReply;
  call_Join : nat -> E -> JoinArgs -> option CtrlReply;
  call_Leave : nat -> E -> LeaveArgs -> option CtrlReply;
  call_Move : nat -> E -> MoveArgs -> option CtrlReply;
}.

Section ctrl_clerk.
Context {E : Type} `{!CtrlCalls E} (servers : list E).

Definition query_ok (r : QueryReply) : bool := negb (q_WrongLeader r).
Definition ctrl_ok (r : CtrlReply) : bool := negb (c_WrongLeader r).

Definition Query (num : Z) (fuel k : nat) : outcome (Config * nat) :=
  '(reply, k) ← retry (fun k srv => call_Query k srv (mkQueryArgs num)) query_ok servers fuel k;
  Ret (q_Config reply, k).

Definition Join (groups : gmap Z (list string)) (fuel k : nat) : outcome nat :=
  '(_, k) ← retry (fun k srv => call_Join k srv (mkJoinArgs groups)) ctrl_ok servers fuel k; Ret k.

Definition Leave (gids : list Z) (fuel k : nat) : outcome nat :=
  '(_, k) ← retry (fun k srv => call_Leave k srv (mkLeaveArgs gids)) ctrl_ok servers fuel k; Ret k.

Definition Move (shard gid : Z) (fuel k : nat) : outcome nat :=
  '(_, k) ← retry (fun k srv => call_Move k srv (mkMoveArgs shard gid)) ctrl_ok servers fuel k; Ret k.
End ctrl_clerk.

(** ** The clerk of the sharded store *)

Definition OK : string := "OK".
Definition ErrNoKey : string := "ErrNoKey".
Definition ErrWrongGroup : string := "ErrWrongGroup".
Definition ErrWrongLeader : string := "ErrWrongLeader".

Record GetArgs := mkGetArgs { g_Key : string }.
Record GetReply := mkGetReply { g_Err : string; g_Value : string }.
Record PutAppendArgs := mkPutAppendArgs { p_Key : string; p_Value : string; p_Op : string }.
Record PutAppendReply := mkPutAppendReply { p_Err : string }.

Definition key2shard (key : string) : Z :=
  let shard := match key with EmptyString => 0 | String c _ => Z.of_N (N_of_ascii c) end in
  shard `mod` NShards.

Class KvCalls (E : Type) := {
  call_Get : nat -> E -> GetArgs -> option GetReply;
  call_PutAppend : nat -> E -> PutAppendArgs -> option PutAppendReply;
}.

Section kv_clerk.
Context {E : Type} `{!CtrlCalls E} `{!KvCalls E}.

Record Clerk := mkClerk { sm : list E; config : Config; make_end : string -> E }.

Definition MakeClerk (ctrlers : list E) (mk : string -> E) : Clerk := mkClerk ctrlers zero_config mk.

(** The loop over the servers of a group: it ends with an accepted reply,
    with a wrong group, or after the last server. *)
Fixpoint try_group {R : Type} (call : nat -> E -> option R) (accept wrong : R -> bool)
    (ends : list E) (k : nat) : nat * option R :=
  match ends with
  | [] => (k, None)
  | srv :: ends =>
      match call k srv with
      | Some reply =>
          if accept reply then (S k, Some reply)
          else if wrong reply then (S k, None)
          else try_group call accept wrong ends (S k)
      | None => try_group call accept wrong ends (S k)
      end
  end.

(** The loop that [Get] and [PutAppend] share: the reply accepted, the clerk
    with its last configuration, and the number of calls. *)
Fixpoint serve {R : Type} (call : nat -> E -> option R) (accept wrong : R -> bool) (key : string)
    (fuel : nat) (ck : Clerk) (k : nat) : outcome (R * Clerk * nat) :=
  match fuel with
  | O => NoFuel
  | S fuel' =>
      let shard := key2shard key in
      gid ← idx (Shards (config ck)) shard;
      let '(k, r) := match Groups (config ck) !! gid with
                     | Some servers => try_group call accept wrong (make_end ck <$> servers) k
                     | None => (k, None)
                     end in
      match r with
      | Some reply => Ret (reply, ck, k)
      | None =>
          '(c, k) ← Query (sm ck) (-1) fuel k;
          serve call accept wrong key fuel' (mkClerk (sm ck) c (make_end ck)) k
      end
  end.

Definition get_done (r : GetReply) : bool := String.eqb (g_Err r) OK || String.eqb (g_Err r) ErrNoKey.
Definition get_wrong (r : GetReply) : bool := String.eqb (g_Err r) ErrWrongGroup.
Definition put_done (r : PutAppendReply) : bool := String.eqb (p_Err r) OK.
Definition put_wrong (r : PutAppendReply) : bool := String.eqb (p_Err r) ErrWrongGroup.

Definition Get (key : string) (fuel : nat) (ck : Clerk) (k : nat) : outcome (string * Clerk * nat) :=
  '(reply, ck, k) ← serve (fun k srv => call_Get k srv (mkGetArgs key)) get_done get_wrong key fuel ck k;
  Ret (g_Value reply, ck, k).

Definition PutAppend (key value op : string) (fuel : nat) (ck : Clerk) (k : nat) : outcome (Clerk * nat) :=
  '(_, ck, k) ← serve (fun k srv => call_PutAppend k srv (mkPutAppendArgs key value op)) put_done put_wrong
                  key fuel ck k;
  Ret (ck, k).

Definition Put (key value : string) := PutAppend key value "Put".
Definition Append (key value : string) := PutAppend key value "Append".
End kv_clerk.

(** ** Lemmas on the loops *)

Section retry_facts.
Context {E R : Type} (call : nat -> E -> option R) (accept : R -> bool).

(** The [k]-th call, on this end, is accepted. *)
Definition accepted (k : nat) (srv : E) : Prop :=
  exists r, call k srv = Some r /\ accept r = true.

#[export] Instance accepted_dec k srv : Decision (accepted k srv).
Proof.
  destruct (call k srv) as [r|] eqn:Hc; [destruct (accept r) eqn:Ha|].
  - left. by exists r.
  - right. intros (r' & Hc' & Ha'). congruence.
  - right. intros (r' & Hc' & Ha'). congruence.
Defined.

Lemma try_each_cases servers k :
  (exists i srv r, servers !! i = Some srv /\ call (k + i) srv = Some r /\ accept r = true /\
     (forall j s, (j < i)%nat -> servers !! j = Some s -> ~ accepted (k + j) s) /\
     try_each call accept servers k = (k + S i, Some r)%nat) \/
  (forall j s, servers !! j = Some s -> ~ accepted (k + j) s) /\
     try_each call accept servers k = (k + length servers, None)%nat.
Proof.
  revert k. induction servers as [|srv servers IH]; intros k; cbn.
  - right. split; [done|]. by rewrite Nat.add_0_r.
  - destruct (decide (accepted k srv)) as [(r & Hc & Ha)|Hn].
    + left. exists 0%nat, srv, r. rewrite Hc, Ha, Nat.add_0_r. split_and!; [done|done|done|lia|]. f_equal. lia.
    + assert (match call k srv with
              | Some reply => if accept reply then (S k, Some reply) else try_each call accept servers (S k)
              | None => try_each call accept servers (S k)
              end = try_each call accept servers (S k)) as ->.
      { destruct (call k srv) as [r|] eqn:Hc; [|done]. destruct (accept r) eqn:Ha; [|done].
        destruct Hn. by exists r. }
      destruct (IH (S k)) as [(i & s & r & Hi & Hc & Ha & Hb & ->)|[Hb ->]].
      * left. exists (S i), s, r. rewrite <- Nat.add_succ_comm. split_and!; [done|done|done| |f_equal; lia].
        intros [|j] s' Hj Hs; cbn in Hs.
        -- rewrite Nat.add_0_r. by simplify_eq.
        -- rewrite <- Nat.add_succ_comm. apply Hb; [lia|done].
      * right. split; [|f_equal; lia]. intros [|j] s' Hs; cbn in Hs.
        -- rewrite Nat.add_0_r. by simplify_eq.
        -- rewrite <- Nat.add_succ_comm. by apply Hb.
Qed.

(** The server of the [k]-th call: the servers take turns. *)
Definition turn (servers : list E) (k : nat) : option E := servers !! (k mod length servers)%nat.

Lemma turn_round servers q j :
  (j < length servers)%nat -> turn servers (q * length servers + j) = servers !! j.
Proof.
  intros Hj. unfold turn. f_equal. rewrite Nat.add_comm, Nat.Div0.mod_add. by apply Nat.mod_small.
Qed.

(** The first accepted call ends the loop. *)
Lemma retry_first servers fuel q i srv r :
  turn servers i = Some srv -> call i srv = Some r -> accept r = true ->
  (q * length servers <= i)%nat ->
  (forall j s, (q * length servers <= j < i)%nat -> turn servers j = Some s -> ~ accepted j s) ->
  (i < (q + fuel) * length servers)%nat ->
  retry call accept servers fuel (q * length servers) = Ret (r, S i).
Proof.
  revert q. induction fuel as [|fuel IH]; intros q Ht Hc Ha Hle Hb Hf; [lia|]. cbn [retry].
  destruct (try_each_cases servers (q * length servers)) as [(i' & s & r' & Hi & Hc' & Ha' & Hb' & ->)|[Hb' ->]].
  - assert (i' < length servers)%nat as Hlt by by eapply lookup_lt_Some.
    assert (turn servers (q * length servers + i') = Some s) as Hturn by by rewrite turn_round.
    destruct (lt_eq_lt_dec i (q * length servers + i')) as [[Hlt'|Heq]|Hgt].
    + destruct (Hb' (i - q * length servers)%nat srv); [lia| |].
      * rewrite <- turn_round with (q := q) by lia.
        by replace (q * length servers + (i - q * length servers))%nat with i by lia.
      * replace (q * length servers + (i - q * length servers))%nat with i by lia. by exists r.
    + subst i. rewrite Hturn in Ht. simplify_eq. do 2 f_equal. lia.
    + destruct (Hb (q * length servers + i')%nat s); [lia|done|]. by exists r'.
  - replace (q * length servers + length servers)%nat with (S q * length servers)%nat by lia.
    assert (S q * length servers <= i)%nat as Hle'.
    { destruct (le_lt_dec (S q * length servers) i) as [|Hlt]; [done|].
      destruct (Hb' (i - q * length servers)%nat srv).
      - rewrite <- turn_round with (q := q) by lia.
        by replace (q * length servers + (i - q * length servers))%nat with i by lia.
      - replace (q * length servers + (i - q * length servers))%nat with i by lia. by exists r. }
    apply IH; [done|done|done|done| |lia]. intros j s Hj. apply Hb. lia.
Qed.

Lemma retry_none servers fuel q :
  (forall j s, (q * length servers <= j)%nat -> turn servers j = Some s -> ~ accepted j s) ->
  retry call accept servers fuel (q * length servers) = NoFuel.
Proof.
  revert q. induction fuel as [|fuel IH]; intros q Hb; [done|]. cbn [retry].
  destruct (try_each_cases servers (q * length servers)) as [(i & s & r & Hi & Hc & Ha & _ & _)|[_ ->]].
  - destruct (Hb (q * length servers + i)%nat s); [lia| |by exists r].
    rewrite turn_round; [done|]. by eapply lookup_lt_Some.
  - replace (q * length servers + length servers)%nat with (S q * length servers)%nat by lia.
    apply IH. intros j s Hj. apply Hb. lia.
Qed.

(** Wherever it starts, an accepted reply is one that some server gave. *)
Lemma retry_sound servers fuel k r k' :
  retry call accept servers fuel k = Ret (r, k') ->
  exists srv, srv ∈ servers /\ call (k' - 1) srv = Some r /\ accept r = true /\ (k < k')%nat.
Proof.
  revert k. induction fuel as [|fuel IH]; intros k; [done|]. cbn [retry].
  destruct (try_each_cases servers k) as [(i & s & r' & Hi & Hc & Ha & _ & ->)|[_ ->]].
  - intros [= -> <-]. exists s. replace (k + S i - 1)%nat with (k + i)%nat by lia.
    split_and!; [by eapply list_elem_of_lookup_2|done|done|lia].
  - intros Hr. destruct (IH _ Hr) as (srv & ? & ? & ? & ?). exists srv. split_and!; [done..|lia].
Qed.

(** A server that always answers. *)
Lemma retry_returns servers k srv fuel :
  srv ∈ servers -> (forall j, accepted j srv) -> returns (retry call accept servers (S fuel) k).
Proof.
  intros Hs Ha. cbn [retry].
  destruct (try_each_cases servers k) as [(i & s & r' & _ & _ & _ & _ & ->)|[Hb _]]; [by eexists|].
  apply list_elem_of_lookup in Hs as [i Hi]. destruct (Hb i srv Hi). apply Ha.
Qed.
End retry_facts.
