(* ===== verification/ClerkSpec.v ===== *)
(** * What the clerks guarantee

    The controller's clerk returns the first reply of a leader, asking the
    servers in turn; the store's clerk returns only what a server of the
    group in charge of the key's shard has answered, never indexes outside
    the shard table, and returns when the controller and the group answer. *)

From S2P Require Import Prelude Clerks.

(** [Query] asks the servers in turn and returns the configuration of the
    first reply that is not from a wrong leader, after exactly the calls up
    to that one; while there is no such reply it does not return. *)
Theorem Query_first_accepted {E : Type} `{!CtrlCalls E} (servers : list E) (num : Z) :
  let ask := fun k srv => call_Query k srv (mkQueryArgs num) in
  (forall i srv r fuel, turn servers i = Some srv -> ask i srv = Some r -> q_WrongLeader r = false ->
     (forall j s, (j < i)%nat -> turn servers j = Some s -> ~ accepted ask query_ok j s) ->
     (i < fuel * length servers)%nat ->
     Query servers num fuel 0 = Ret (q_Config r, S i)) /\
  ((forall j s, turn servers j = Some s -> ~ accepted ask query_ok j s) ->
     forall fuel, Query servers num fuel 0 = NoFuel).
Proof.
  intros ask. split.
  - intros i srv r fuel Ht Hc Hl Hb Hf. unfold Query. fold ask.
    assert (retry ask query_ok servers fuel (0 * length servers) = Ret (r, S i)) as Hr.
    { apply (retry_first ask query_ok servers fuel 0 i srv r); [done|done| |lia| |lia].
      - unfold query_ok. by rewrite Hl.
      - intros j s Hj. apply Hb. lia. }
    change (0 * length servers)%nat with 0%nat in Hr. by rewrite Hr.
  - intros Hb fuel. unfold Query. fold ask.
    assert (retry ask query_ok servers fuel (0 * length servers) = NoFuel) as Hr.
    { apply retry_none. intros j s _. apply Hb. }
    change (0 * length servers)%nat with 0%nat in Hr. by rewrite Hr.
Qed.

Section serve.
Context {E : Type} `{!CtrlCalls E}.

Lemma key2shard_range key : 0 <= key2shard key < NShards.
Proof. unfold key2shard. apply Z.mod_pos_bound. unfold NShards. lia. Qed.

(** The shard of a key is an index of every configuration. *)
Lemma shard_lookup c key :
  config_ok c -> exists gid, idx (Shards c) (key2shard key) = Ret gid.
Proof.
  intros Hc. apply (idx_in_range (Shards c) (key2shard key)).
  pose proof (key2shard_range key). unfold config_ok in Hc. lia.
Qed.

(** All configurations that the controllers may send are tables of the right
    size. *)
Definition queries_ok : Prop := forall k (srv : E) num r, call_Query k srv (mkQueryArgs num) = Some r -> config_ok (q_Config r).

(** A configuration that a controller has sent as the latest one. *)
Definition latest (ctrlers : list E) (c : Config) : Prop :=
  exists k srv r, srv ∈ ctrlers /\ call_Query k srv (mkQueryArgs (-1)) = Some r /\ q_WrongLeader r = false /\ q_Config r = c.

Lemma Query_sound (ctrlers : list E) fuel k c k' :
  Query ctrlers (-1) fuel k = Ret (c, k') -> latest ctrlers c.
Proof.
  unfold Query. intros Hq. apply bind_ret_inv in Hq as ([r k1] & Hr & [= <- <-]).
  apply retry_sound in Hr as (srv & Hs & Hc & Ha & _). exists (k1 - 1)%nat, srv, r.
  split_and!; [done|done| |done]. unfold query_ok in Ha. by destruct (q_WrongLeader r).
Qed.

Lemma retry_no_panic {R} (call : nat -> E -> option R) accept servers fuel k p :
  retry call accept servers fuel k <> Panic p.
Proof.
  revert k. induction fuel as [|fuel IH]; intros k; [done|]. cbn.
  destruct (try_each call accept servers k) as [k1 [r|]]; [done|apply IH].
Qed.

Context {R : Type} (call : nat -> E -> option R) (accept wrong : R -> bool).

Lemma try_group_sound ends k r k' :
  try_group call accept wrong ends k = (k', Some r) ->
  exists srv, srv ∈ ends /\ call (k' - 1) srv = Some r /\ accept r = true.
Proof.
  revert k. induction ends as [|srv ends IH]; intros k; cbn; [done|].
  intros Ht. repeat case_match; simplify_eq.
  - exists srv. replace (S k - 1)%nat with k by lia. split_and!; [by left|done|done].
  - destruct (IH _ Ht) as (s & ? & ? & ?). exists s. split_and!; [by right|done|done].
  - destruct (IH _ Ht) as (s & ? & ? & ?). exists s. split_and!; [by right|done|done].
Qed.

Lemma try_group_returns ends k srv :
  srv ∈ ends -> (forall j, accepted call accept j srv) ->
  (forall j s r, s ∈ ends -> call j s = Some r -> wrong r = false) ->
  exists k' r, try_group call accept wrong ends k = (k', Some r).
Proof.
  intros Hs Ha. revert k. induction ends as [|s ends IH]; intros k Hw; [set_solver|]. cbn.
  apply elem_of_cons in Hs as [<-|Hs].
  - destruct (Ha k) as (r & -> & ->). eauto.
  - destruct (call k s) as [r|] eqn:Hc.
    + destruct (accept r); [eauto|]. rewrite (Hw k s r) by (done || by left). apply IH; [done|].
      intros j s' r' Hs'. apply Hw. by right.
    + apply IH; [done|]. intros j s' r' Hs'. apply Hw. by right.
Qed.

(** What the shared loop of [Get] and [PutAppend] returns. *)
Lemma serve_sound key fuel (ck : Clerk) k r ck' k' :
  serve call accept wrong key fuel ck k = Ret (r, ck', k') ->
  sm ck' = sm ck /\ make_end ck' = make_end ck /\
  (config ck' = config ck \/ latest (sm ck) (config ck')) /\
  exists gid servers srv, idx (Shards (config ck')) (key2shard key) = Ret gid /\
    Groups (config ck') !! gid = Some servers /\ srv ∈ servers /\
    call (k' - 1) (make_end ck srv) = Some r /\ accept r = true.
Proof.
  revert ck k. induction fuel as [|fuel IH]; intros ck k; [done|]. cbn [serve]. intros Hs.
  apply bind_ret_inv in Hs as (gid & Hg & Hs).
  destruct (match Groups (config ck) !! gid with Some _ => _ | None => _ end) as [k1 [r1|]] eqn:Ht.
  - injection Hs as -> -> ->. split_and!; [done|done|by left|].
    destruct (Groups (config ck') !! gid) as [servers|] eqn:Hsv; [|done].
    apply try_group_sound in Ht as (srv & (name & -> & Hn)%list_elem_of_fmap & Hc & Ha).
    by exists gid, servers, name.
  - apply bind_ret_inv in Hs as ([c k2] & Hq & Hs). apply Query_sound in Hq.
    apply IH in Hs as (E1 & E2 & E3 & E4). cbn in *. split_and!; [done|done| |done].
    right. by destruct E3 as [->|].
Qed.

Lemma serve_no_panic key fuel (ck : Clerk) k p :
  queries_ok -> config_ok (config ck) -> serve call accept wrong key fuel ck k <> Panic p.
Proof.
  intros Hq. revert ck k. induction fuel as [|fuel IH]; intros ck k Hc; [done|]. cbn [serve].
  destruct (shard_lookup (config ck) key Hc) as [gid ->]. cbn [mbind outcome_bind].
  destruct (match Groups (config ck) !! gid with Some _ => _ | None => _ end) as [k1 [r1|]]; [done|].
  destruct (Query (sm ck) (-1) (S fuel) k1) as [[c k2]|p'|] eqn:Hqr; [| |done]; cbn [mbind outcome_bind].
  - apply IH. cbn. apply Query_sound in Hqr as (j & srv & r & _ & Hr & _ & <-). by eapply Hq.
  - unfold Query in Hqr. destruct (retry _ _ _ _ _) as [[? ?]|p2|] eqn:Hr; [done| |done].
    by apply retry_no_panic in Hr.
Qed.

(** The controllers agree on [c], one of them always answers, and the group
    that [c] puts in charge answers. *)
Lemma serve_returns key (ck : Clerk) k c ctrl gid servers srv fuel :
  config_ok (config ck) ->
  ctrl ∈ sm ck ->
  (forall j, accepted (fun k s => call_Query k s (mkQueryArgs (-1))) query_ok j ctrl) ->
  (forall j s r, s ∈ sm ck -> call_Query j s (mkQueryArgs (-1)) = Some r -> q_WrongLeader r = false -> q_Config r = c) ->
  idx (Shards c) (key2shard key) = Ret gid -> Groups c !! gid = Some servers -> srv ∈ servers ->
  (forall j, accepted call accept j (make_end ck srv)) ->
  (forall j s r, s ∈ servers -> call j (make_end ck s) = Some r -> wrong r = false) ->
  returns (serve call accept wrong key (2 + fuel) ck k).
Proof.
  intros Hc Hctrl Hacc Hconf Hidx Hgr Hsrv Hans Hwr. cbn [Nat.add]. set (f := S fuel). cbn [serve].
  destruct (shard_lookup (config ck) key Hc) as [gid0 ->]. cbn [mbind outcome_bind].
  destruct (match Groups (config ck) !! gid0 with Some _ => _ | None => _ end) as [k1 [r1|]]; [by eexists|].
  destruct (retry_returns (fun k s => call_Query k s (mkQueryArgs (-1))) query_ok (sm ck) k1 ctrl f Hctrl Hacc)
    as [[q k2] Hq].
  unfold Query. rewrite Hq. cbn [mbind outcome_bind].
  apply retry_sound in Hq as (s & Hs & Hcq & Hok & _).
  assert (q_Config q = c) as ->.
  { apply (Hconf (k2 - 1)%nat s); [done|done|]. unfold query_ok in Hok. by destruct (q_WrongLeader q). }
  subst f. cbn [serve config make_end sm]. rewrite Hidx. cbn [mbind outcome_bind]. rewrite Hgr.
  destruct (try_group_returns (make_end ck <$> servers) k2 (make_end ck srv)) as (k3 & r & ->).
  - apply list_elem_of_fmap. by exists srv.
  - done.
  - intros j s' r (n & -> & Hn)%list_elem_of_fmap. by apply Hwr.
  - by eexists.
Qed.
End serve.

(** C37: [Get] never panics on tables of the right size.  The value it returns
    is the answer of a server of the group that its configuration, its old
    one or one that a controller sent as the latest, puts in charge of the
    key's shard.  It returns within two rounds when the controllers agree on a
    configuration and one of them answers, and a server of the group in charge
    answers while no server of the group refuses the key. *)
Theorem Get_served {E : Type} `{!CtrlCalls E, !KvCalls E} (key : string) (ck : Clerk) (k : nat)
    (Hq : queries_ok) (Hc : config_ok (config ck)) :
  let ask := fun k srv => call_Get k srv (mkGetArgs key) in
  (forall fuel p, Get key fuel ck k <> Panic p) /\
  (forall fuel v ck' k', Get key fuel ck k = Ret (v, ck', k') ->
     (config ck' = config ck \/ latest (sm ck) (config ck')) /\
     exists gid servers srv r, idx (Shards (config ck')) (key2shard key) = Ret gid /\
       Groups (config ck') !! gid = Some servers /\ srv ∈ servers /\
       ask (k' - 1)%nat (make_end ck srv) = Some r /\ (g_Err r = OK \/ g_Err r = ErrNoKey) /\ v = g_Value r) /\
  (forall c ctrl gid servers srv fuel, ctrl ∈ sm ck ->
     (forall j, accepted (fun k s => call_Query k s (mkQueryArgs (-1))) query_ok j ctrl) ->
     (forall j s r, s ∈ sm ck -> call_Query j s (mkQueryArgs (-1)) = Some r -> q_WrongLeader r = false -> q_Config r = c) ->
     idx (Shards c) (key2shard key) = Ret gid -> Groups c !! gid = Some servers -> srv ∈ servers ->
     (forall j, accepted ask get_done j (make_end ck srv)) ->
     (forall j s r, s ∈ servers -> ask j (make_end ck s) = Some r -> get_wrong r = false) ->
     returns (Get key (2 + fuel) ck k)).
Proof.
  intros ask. unfold Get. fold ask. split_and!.
  - intros fuel p. destruct (serve ask get_done get_wrong key fuel ck k) as [[[r ck'] k']|p'|] eqn:Hs; [done| |done].
    by apply serve_no_panic in Hs.
  - intros fuel v ck' k' Hg. apply bind_ret_inv in Hg as ([[r ck1] k1] & Hs & [= <- -> ->]).
    apply serve_sound in Hs as (_ & _ & Hcf & gid & servers & srv & Hi & Hgr & Hin & Hask & Hd).
    split; [done|]. exists gid, servers, srv, r. split_and!; [done..| |done].
    unfold get_done in Hd. apply orb_prop in Hd as [Hd|Hd]; apply String.eqb_eq in Hd; auto.
  - intros c ctrl gid servers srv fuel Hctrl Hacc Hconf Hidx Hgr Hsrv Hans Hwr.
    destruct (serve_returns ask get_done get_wrong key ck k c ctrl gid servers srv fuel) as [[[r ck'] k'] Hr];
      [done..|]. rewrite Hr. by eexists.
Qed.

(** One controller [0] and one group whose server is end [1]. *)
Module Demo.
Definition table : Config := mkConfig 1 (replicate 10 7) {[7 := ["s"]]}.
#[export] Instance ctrl_calls : CtrlCalls nat := {|
  call_Query k _ _ := Some (mkQueryReply (bool_decide (k < 2)%nat) "OK" table);
  call_Join _ _ _ := None;
  call_Leave _ _ _ := None;
  call_Move _ _ _ := None;
|}.
#[export] Instance kv_calls : KvCalls nat := {|
  call_Get _ _ _ := Some (mkGetReply "OK" "v");
  call_PutAppend _ _ _ := None;
|}.
Definition clerk : @Clerk nat := MakeClerk [0%nat] (fun _ => 1%nat).
Lemma tables_ok : queries_ok (E := nat).
Proof. intros k srv num r [= <-]. reflexivity. Qed.
End Demo.
Import Demo.

Lemma Get_served_witness :
  Get "key" 5 clerk 0 = Ret ("v", mkClerk [0%nat] table (fun _ => 1%nat), 4%nat) /\
  exists gid servers srv r, idx (Shards table) (key2shard "key") = Ret gid /\
    Groups table !! gid = Some servers /\ srv ∈ servers /\
    call_Get 3 1%nat (mkGetArgs "key") = Some r /\ (g_Err r = OK \/ g_Err r = ErrNoKey) /\ "v" = g_Value r.
Proof.
  assert (Get "key" 5 clerk 0 = Ret ("v", mkClerk [0%nat] table (fun _ => 1%nat), 4%nat)) as HG
    by (vm_compute; reflexivity).
  split; [exact HG|].
  destruct (Get_served "key" clerk 0 tables_ok eq_refl) as (_ & Hs & _).
  destruct (Hs 5%nat "v" _ 4%nat HG) as (_ & gid & servers & srv & r & Hr).
  exists gid, servers, srv, r. exact Hr.
Defined.

(** The first two calls reach a wrong leader. *)
Lemma Query_first_accepted_witness : Query [0%nat; 1%nat] 5 2 0 = Ret (table, 3%nat).
Proof.
  apply (proj1 (Query_first_accepted [0%nat; 1%nat] 5) 2%nat 0%nat (mkQueryReply false "OK" table) 2%nat);
    [reflexivity|reflexivity|reflexivity| |cbn; lia].
  intros [|[|j]] s Hj _ (r & [= <-] & Hr); [discriminate Hr|discriminate Hr|lia].
Defined.
