(* ===== verification/RaftRpc.v ===== *)
(** * Raft peers on the simulated network (src/src/raft/raft.go over src/src/labrpc/labrpc.go)

    The peers are objects of a heap, and the RPC handlers of [RaftOps] are
    the methods that reflect finds on a [*Raft]: this file instantiates the
    interface of [Labrpc] with them, and so composes the two components.
    [MakeService] keeps exactly the three RPC handlers, and a call on a
    reliable network runs the handler once on the peer's state and returns
    its reply. *)

From Stdlib Require Import Ascii.
From S2P Require Import Prelude Codec GoSlice Raft RaftGob RaftOps Labrpc LabrpcSpec.

(** ** Values and types *)

Inductive rtype :=
  | TNamed (name : string)
  | TPtr (t : rtype)
  | TSlice (t : rtype)
  | TInt
  | TIface.

#[export] Instance rtype_eq_dec : EqDecision rtype.
Proof. solve_decision. Defined.

(** A pointer to a peer, and the messages. *)
Inductive rvalue :=
  | VRaft (a : addr)
  | VVoteArgs (x : RequestVoteArgs) | VVoteReply (x : RequestVoteReply)
  | VAppendArgs (x : AppendEntriesArgs) | VAppendReply (x : AppendEntriesReply)
  | VInstallArgs (x : InstallSnapshotArgs) | VInstallReply (x : InstallSnapshotReply)
  | VOtherValue.

Definition rtype_of (v : rvalue) : rtype :=
  match v with
  | VRaft _ => TPtr (TNamed "Raft")
  | VVoteArgs _ => TPtr (TNamed "RequestVoteArgs")
  | VVoteReply _ => TPtr (TNamed "RequestVoteReply")
  | VAppendArgs _ => TPtr (TNamed "AppendEntriesArgs")
  | VAppendReply _ => TPtr (TNamed "AppendEntriesReply")
  | VInstallArgs _ => TPtr (TNamed "InstallSnapshotArgs")
  | VInstallReply _ => TPtr (TNamed "InstallSnapshotReply")
  | VOtherValue => TIface
  end.

(** A new variable of a type; [reflect.New] of a pointer type gives a pointer
    that gob allocates when it decodes. *)
Definition zero_of (t : rtype) : rvalue :=
  match t with
  | TNamed s | TPtr (TNamed s) =>
      if String.eqb s "RequestVoteArgs" then VVoteArgs (mkVoteArgs 0 0 0 0)
      else if String.eqb s "RequestVoteReply" then VVoteReply (mkVoteReply 0 false)
      else if String.eqb s "AppendEntriesArgs" then VAppendArgs (mkAppendArgs 0 0 0 0 "" 0)
      else if String.eqb s "AppendEntriesReply" then VAppendReply (mkAppendReply 0 false 0)
      else if String.eqb s "InstallSnapshotArgs" then VInstallArgs (mkInstallArgs 0 0 0 0 "")
      else if String.eqb s "InstallSnapshotReply" then VInstallReply (mkInstallReply 0)
      else VOtherValue
  | _ => VOtherValue
  end.

(** What the code relies on of gob for the messages: a message written and
    read into a new variable is the message. *)
Class WireGob := {
  wire_encode : rvalue -> string * bool;
  wire_decode : rvalue -> string -> rvalue * bool;
  wire_law : forall v, (forall a, v <> VRaft a) -> v <> VOtherValue ->
    exists b, wire_encode v = (b, true) /\ wire_decode (zero_of (rtype_of v)) b = (v, true);
}.

(** ** The peers *)

(** A goroutine that a handler or the harness has started. *)
Inductive spawn (C : Type) :=
  | Run (t : task C)
  | DoSnapshot (index : Z).
Arguments Run {C}.
Arguments DoSnapshot {C}.

Record peers_state (C : Type) := mkPeers {
  objs : gmap addr (Raft C);
  clock : Z;
  spawned : list (addr * spawn C);
}.
Arguments mkPeers {C}.
Arguments objs {C}.
Arguments clock {C}.
Arguments spawned {C}.

Section rpc.
Context {C : Type} `{!Command C, !Gob C, !AppendGrowth, !WireGob}.

Definition start_tasks (a : addr) (ts : list (task C)) : list (addr * spawn C) := (fun t => (a, Run t)) <$> ts.

(** The handler of a message, on the peer it is sent to: the new state, the
    reply, and the goroutines. *)
Definition raft_handle (rf : Raft C) (v : rvalue) (now : Z) : outcome (Raft C * rvalue * list (task C)) :=
  match v with
  | VVoteArgs args => '(rf, r) ← RequestVote rf args now; Ret (rf, VVoteReply r, [])
  | VAppendArgs args => '(rf, r, ts) ← AppendEntries rf args now; Ret (rf, VAppendReply r, ts)
  | VInstallArgs args => let '(rf, r, ts) := InstallSnapshot rf args now in Ret (rf, VInstallReply r, ts)
  | _ => Panic TypeAssertion
  end.

(** The method that reflect calls: receiver, arguments and reply. *)
Definition raft_method (recv a _r : rvalue) (w : peers_state C) : outcome (peers_state C * rvalue) :=
  match recv with
  | VRaft p =>
      match objs w !! p with
      | Some rf =>
          '(rf, r, ts) ← raft_handle rf a (clock w);
          Ret (mkPeers (<[p := rf]> (objs w)) (clock w) (spawned w ++ start_tasks p ts), r)
      | None => Panic NilDeref
      end
  | _ => Panic TypeAssertion
  end.

(** A method with other parameters than a handler: reflect refuses to call it
    with these. *)
Definition other_method (name : string) (ins : list rtype) (outs : nat) : Method rvalue rtype (peers_state C) :=
  mkMethod name "" ins outs (fun _ _ _ _ => Panic Explicit).

Definition handler_method (name : string) (arg rep : rtype) : Method rvalue rtype (peers_state C) :=
  mkMethod name "" [TPtr (TNamed "Raft"); TPtr arg; TPtr rep] 0 raft_method.

(** The exported methods of [*Raft], by name. *)
Definition raft_method_set : list (Method rvalue rtype (peers_state C)) :=
  let recv := TPtr (TNamed "Raft") in
  [ handler_method "AppendEntries" (TNamed "AppendEntriesArgs") (TNamed "AppendEntriesReply");
    other_method "CondInstallSnapshot" [recv; TInt; TInt; TSlice TInt] 1;
    other_method "GetState" [recv] 2;
    handler_method "InstallSnapshot" (TNamed "InstallSnapshotArgs") (TNamed "InstallSnapshotReply");
    other_method "Kill" [recv] 0;
    handler_method "RequestVote" (TNamed "RequestVoteArgs") (TNamed "RequestVoteReply");
    other_method "Snapshot" [recv; TInt; TSlice TInt] 0;
    other_method "Start" [recv; TIface] 3 ].

#[export] Instance raft_reflect : Reflect rvalue rtype (peers_state C) := {|
  type_of := rtype_of;
  is_ptr t := match t with TPtr _ => true | _ => false end;
  elem_type t := match t with TPtr t => t | TSlice t => t | _ => t end;
  zero := zero_of;
  indirect_name v := match rtype_of v with TPtr (TNamed s) => s | _ => "" end;
  method_set t := if decide (t = TPtr (TNamed "Raft")) then raft_method_set else [];
  gob_encode := wire_encode;
  gob_decode := wire_decode;
|}.

(** ** The callers *)

Definition sendRequestVote {EN} (e : EN) (args : RequestVoteArgs) : outcome reqMsg :=
  Call_request e "Raft.RequestVote" (VVoteArgs args).
Definition sendAppendEntries {EN} (e : EN) (args : AppendEntriesArgs) : outcome reqMsg :=
  Call_request e "Raft.AppendEntries" (VAppendArgs args).
Definition sendInstallSnapshot {EN} (e : EN) (args : InstallSnapshotArgs) : outcome reqMsg :=
  Call_request e "Raft.InstallSnapshot" (VInstallArgs args).

(** The method that handles a message, and the type of its reply. *)
Definition method_of (v : rvalue) : option (string * rtype) :=
  match v with
  | VVoteArgs _ => Some ("RequestVote", TNamed "RequestVoteReply")
  | VAppendArgs _ => Some ("AppendEntries", TNamed "AppendEntriesReply")
  | VInstallArgs _ => Some ("InstallSnapshot", TNamed "InstallSnapshotReply")
  | _ => None
  end.

Definition raft_service (a : addr) : Service := MakeService (VRaft a).
Definition raft_server (a : addr) : Server := AddService (raft_service a) MakeServer.

Lemma raft_service_methods a mname :
  methods (raft_service a) !! mname =
    if decide (mname = "RequestVote") then Some (handler_method "RequestVote" (TNamed "RequestVoteArgs") (TNamed "RequestVoteReply"))
    else if decide (mname = "InstallSnapshot") then Some (handler_method "InstallSnapshot" (TNamed "InstallSnapshotArgs") (TNamed "InstallSnapshotReply"))
    else if decide (mname = "AppendEntries") then Some (handler_method "AppendEntries" (TNamed "AppendEntriesArgs") (TNamed "AppendEntriesReply"))
    else None.
Proof.
  unfold raft_service, MakeService. cbn [methods method_set raft_reflect type_of].
  rewrite decide_True by done. cbn [raft_method_set foldl]. cbn [suitable].
  unfold suitable; cbn [PkgPath In NumOut handler_method other_method String.eqb is_ptr raft_reflect andb Nat.eqb m_Name].
  rewrite !lookup_insert, lookup_empty. repeat case_decide; congruence.
Qed.

Lemma handle_reply rf v now rf' r ts :
  raft_handle rf v now = Ret (rf', r, ts) ->
  exists mname t, method_of v = Some (mname, t) /\ rtype_of r = TPtr t /\ r <> VOtherValue /\ forall a, r <> VRaft a.
Proof.
  destruct v; cbn; try done; intros Hr.
  - apply bind_ret_inv in Hr as ([? ?] & _ & [= <- <- <-]). by do 2 eexists.
  - apply bind_ret_inv in Hr as ([[? ?] ?] & _ & [= <- <- <-]). by do 2 eexists.
  - destruct (InstallSnapshot _ _ _) as [[? ?] ?]. injection Hr as <- <- <-. by do 2 eexists.
Qed.

(** A message is handled by the method of its name. *)
Lemma method_of_service a v mname t :
  method_of v = Some (mname, t) ->
  methods (raft_service a) !! mname = Some (mkMethod mname "" [TPtr (TNamed "Raft"); rtype_of v; TPtr t] 0 raft_method).
Proof.
  rewrite raft_service_methods. destruct v; try discriminate; intros [= <- <-];
    repeat case_decide; simplify_eq; reflexivity.
Qed.

Lemma method_of_message v mname t :
  method_of v = Some (mname, t) -> (forall a, v <> VRaft a) /\ v <> VOtherValue.
Proof. by destruct v. Qed.

Lemma method_of_dot v mname t :
  method_of v = Some (mname, t) -> ~ List.In "."%char (String.list_ascii_of_string mname).
Proof. destruct v; try discriminate; intros [= <- <-]; cbn; intuition discriminate. Qed.

(** What the server of a peer does with a message. *)
Lemma raft_dispatch {EN} (e : EN) (a : addr) (rs : Server) v mname t b w rf rf' r ts :
  method_of v = Some (mname, t) -> services rs !! "Raft" = Some (raft_service a) ->
  wire_decode (zero_of (rtype_of v)) b = (v, true) ->
  objs w !! a = Some rf -> raft_handle rf v (clock w) = Ret (rf', r, ts) ->
  server_dispatch (mkReq e ("Raft" +:+ String "."%char mname) (rtype_of v) b) rs w =
    Ret (mkServer (services rs) (wrap 64 (s_count rs + 1)),
         mkPeers (<[a := rf']> (objs w)) (clock w) (spawned w ++ start_tasks a ts),
         mkReply true (wire_encode r).1).
Proof.
  intros Hm Hs Hdec Ho Hh.
  refine (dispatch_method e rs (raft_service a) _ "Raft" mname (TPtr (TNamed "Raft")) (rtype_of v) (TPtr t) v r b w _
    (method_of_dot v mname t Hm) Hs (method_of_service a v mname t Hm) eq_refl _ _).
  - cbn. by rewrite Hdec.
  - cbn. unfold raft_method. rewrite Ho, Hh. done.
Qed.
End rpc.

(** ** The composition *)

(** C21: A peer whose message travels over a reliable network reaches the
    handler: every complete run of the call returns true with the reply that
    the handler of that message computes, the peer's state is the one the
    handler leaves, the handler's goroutines have been started, and it has run
    once. *)
Theorem raft_call_delivers {C EN SN : Type} `{!Command C, !Gob C, !AppendGrowth, !WireGob}
    `{EqDecision EN} `{!Countable EN} `{EqDecision SN} `{!Countable SN}
    (e : EN) (s : SN) (x a : addr) (rs : Server) (v : rvalue) (mname : string) (t : rtype) (req : reqMsg)
    (rf rf' : Raft C) (rep : rvalue) (ts : list (task C)) (l : list (@act rvalue rtype (peers_state C) EN SN))
    (σ σ' : sys) (c : call) (r : replyMsg)
    (Hm : method_of v = Some (mname, t)) (Hreq : Call_request e ("Raft" +:+ String "."%char mname) v = Ret req)
    (Hsvc : services rs !! "Raft" = Some (raft_service a)) (Hrf : objs (world σ) !! a = Some rf)
    (Hh : raft_handle rf v (clock (world σ)) = Ret (rf', rep, ts))
    (Hconn : connected req s x σ) (Hmem : mem σ !! x = Some rs)
    (Hl : Forall quiet l) (Hrun : exec req l σ new_call = Some (Ret (σ', c))) (Hr : at_pc c = PDone r) :
  Call_reply r (zero_of t) = Ret (true, rep) /\
  objs (world σ') = <[a := rf']> (objs (world σ)) /\
  spawned (world σ') = spawned (world σ) ++ start_tasks a ts /\ length (executed c) = 1%nat.
Proof.
  destruct (method_of_message v mname t Hm) as [H1 H2]. destruct (wire_law v H1 H2) as (b & Henc & Hdec).
  unfold Call_request in Hreq. cbn [gob_encode raft_reflect] in Hreq. rewrite Henc in Hreq. injection Hreq as <-.
  destruct (handle_reply _ _ _ _ _ _ Hh) as (m2 & t2 & Hm2 & Hrt & H3 & H4). rewrite Hm in Hm2. simplify_eq.
  destruct (wire_law rep H4 H3) as (b' & Henc' & Hdec').
  pose proof (raft_dispatch e a rs v m2 t2 b (world σ) rf rf' rep ts Hm Hsvc Hdec Hrf Hh) as Hdisp.
  rewrite Henc' in Hdisp. cbn [fst] in Hdisp.
  destruct (reliable_reply _ s x rs _ _ _ _ l σ σ' c r Hdisp Hconn Hmem eq_refl Hl Hrun Hr) as (-> & Hw' & Hex & _).
  rewrite Hw', Hex. split_and!; [|done|done|done].
  unfold Call_reply. cbn [ok reply gob_decode raft_reflect]. rewrite Hrt in Hdec'.
  assert (zero_of (TPtr t2) = zero_of t2) as Hz by (destruct v; simplify_eq/=; done).
  rewrite Hz in Hdec'. by rewrite Hdec'.
Qed.

(** ** A concrete serialization of the messages *)

(** A tag, the numbers and the bytes of a message. *)
Definition wire_code (v : rvalue) : Z * list Z * string :=
  match v with
  | VRaft a => (0, [Zpos a], "")
  | VVoteArgs x => (1, [rv_Term x; rv_CandidateId x; rv_LastLogIndex x; rv_LastLogTerm x], "")
  | VVoteReply x => (2, [rvr_Term x; if VoteGranted x then 1 else 0], "")
  | VAppendArgs x => (3, [ae_Term x; ae_LeaderId x; PrevLogIndex x; PrevLogTerm x; LeaderCommit x], Entries x)
  | VAppendReply x => (4, [aer_Term x; if Success x then 1 else 0; NewPrevLogIndex x], "")
  | VInstallArgs x => (5, [is_Term x; is_LeaderId x; is_LastIncludedIndex x; is_LastIncludedTerm x], is_Snapshot x)
  | VInstallReply x => (6, [isr_Term x], "")
  | VOtherValue => (7, [], "")
  end.

Definition wire_uncode (c : Z * list Z * string) : option rvalue :=
  match c with
  | (1, [a; b; c; d], _) => Some (VVoteArgs (mkVoteArgs a b c d))
  | (2, [a; b], _) => Some (VVoteReply (mkVoteReply a (b =? 1)))
  | (3, [a; b; c; d; e], s) => Some (VAppendArgs (mkAppendArgs a b c d s e))
  | (4, [a; b; c], _) => Some (VAppendReply (mkAppendReply a (b =? 1) c))
  | (5, [a; b; c; d], s) => Some (VInstallArgs (mkInstallArgs a b c d s))
  | (6, [a], _) => Some (VInstallReply (mkInstallReply a))
  | _ => None
  end.

Lemma wire_uncode_code v : (forall a, v <> VRaft a) -> v <> VOtherValue -> wire_uncode (wire_code v) = Some v.
Proof.
  intros H1 H2. destruct v as [a|x|x|x|x|x|x|]; cbn; try done.
  - by destruct (H1 a).
  - by destruct x.
  - destruct x as [t []]; done.
  - by destruct x.
  - destruct x as [t [] p]; done.
  - by destruct x.
  - by destruct x.
Qed.

Definition bits_wire_decode (v : rvalue) (s : string) : rvalue * bool :=
  match get_bits s with
  | Some c => match wire_uncode c with Some v' => (v', true) | None => (v, false) end
  | None => (v, false)
  end.

#[export] Program Instance bits_wire : WireGob := {|
  wire_encode v := (put (wire_code v), true);
  wire_decode := bits_wire_decode;
|}.
Next Obligation.
  intros v H1 H2. eexists. split; [done|]. unfold bits_wire_decode. by rewrite get_put, wire_uncode_code.
Qed.

(** Two peers; peer 0 asks peer 1 for its vote. *)
Module Demo.
Definition peer (i : Z) : Raft (option Z) :=
  default (mkRaft 0 MakePersister 0 false "" 0 0 0 (of_list []) 0 0 0 0 0 0 0 [] [] 0 [])
    (match Make 2 i MakePersister 0 300 with Ret rf => Some rf | _ => None end).
Definition vote_request : RequestVoteArgs := mkVoteArgs 1 0 0 0.
Definition network : @Network string Z _ _ _ _ :=
  Enable "e01" true (Connect "e01" 1 (AddServer 1 7%positive MakeNetwork)).
Definition system : @sys rvalue rtype (peers_state (option Z)) string Z _ _ _ _ :=
  mkSys network {[7%positive := raft_server 2]} (mkPeers {[1%positive := peer 0; 2%positive := peer 1]} 500 []).
Definition request : @reqMsg rtype string :=
  mkReq "e01" "Raft.RequestVote" (TPtr (TNamed "RequestVoteArgs")) (put (wire_code (VVoteArgs vote_request))).
Definition actions : list (@act rvalue rtype (peers_state (option Z)) string Z) :=
  [ASend; ARead; ADrop 5; AHandler; ARecv; ACheck 5 5].
Definition result := exec request actions system new_call.
Definition after : @sys rvalue rtype (peers_state (option Z)) string Z _ _ _ _ :=
  match result with Some (Ret (σ, _)) => σ | _ => system end.
Definition done_call : @call Z := match result with Some (Ret (_, c)) => c | _ => new_call end.
Definition voted : Raft (option Z) :=
  match RequestVote (peer 1) vote_request 500 with Ret (rf, _) => rf | _ => peer 1 end.

Lemma run_answers : exec request actions system new_call = Some (Ret (after, done_call)).
Proof.
  assert (match result with Some (Ret _) => true | _ => false end = true) as Hr by (vm_cast_no_check (eq_refl true)).
  unfold after, done_call. change (exec request actions system new_call) with result.
  by destruct result as [[[σ c]| |]|].
Qed.
End Demo.
Import Demo.

(** Peer 1 grants the vote and persists it. *)
Lemma raft_call_delivers_witness :
  exists r, at_pc done_call = PDone r /\
    Call_reply r (VVoteReply (mkVoteReply 0 false)) = Ret (true, VVoteReply (mkVoteReply 0 true)) /\
    objs (world after) = <[2%positive := voted]> (objs (world system)).
Proof.
  assert (exists r, at_pc done_call = PDone r) as [r Hr] by (eexists; vm_compute; reflexivity).
  exists r. split; [exact Hr|].
  destruct (raft_call_delivers "e01" 1 7%positive 2%positive (raft_server 2) (VVoteArgs vote_request) "RequestVote"
    (TNamed "RequestVoteReply") request (peer 1) voted (VVoteReply (mkVoteReply 0 true)) [] actions system after
    done_call r) as (H1 & H2 & _).
  - reflexivity.
  - reflexivity.
  - reflexivity.
  - reflexivity.
  - vm_compute. reflexivity.
  - repeat split; vm_compute; reflexivity.
  - reflexivity.
  - by repeat constructor.
  - exact run_answers.
  - exact Hr.
  - split; [exact H1|exact H2].
Defined.
