(* ===== verification/RaftConfig.v ===== *)
(** * The tester of the Raft peers (src/src/raft/config.go)

    The tester starts, crashes, connects and disconnects peers on the
    simulated network, reads what they apply, and checks elections and
    agreement.  Its state is the record [config]: the network of [Labrpc],
    the peers of [RaftRpc], and the tester's own tables.  Persisters are
    shared by address in the code: [saved] says whether the tester's
    persister is the one that a peer writes to ([Live]) or a copy that nobody
    else holds ([Detached]).

    Random names, the times of the clock and what happens to the peers while
    the tester sleeps are arguments. *)

From S2P Require Import Prelude GoSlice Raft RaftOps Labrpc RaftRpc.

Inductive saved_state :=
  | Live (a : addr)
  | Detached (p : Persister).

(** What [applier] complains about. *)
Inductive apply_error (C : Type) :=
  | Mismatch (index server : Z) (new : C) (other : Z) (old : C)
  | OutOfOrder (server index : Z).
Arguments Mismatch {C}.
Arguments OutOfOrder {C}.

Section config.
Context {C : Type} `{!Command C, !Gob C, !AppendGrowth, !WireGob}.

Abbreviation net_state := (@Network string Z _ _ _ _).

(** A nil map of [logs] is an empty one; [make_config] assigns a map before a
    peer can write to it. *)
Record config := mkConfig {
  net : net_state;
  mem : gmap addr (@Server rvalue rtype (peers_state C));
  peers_of : peers_state C;
  next_addr : addr;
  failed : bool;
  n : nat;
  rafts : list (option addr);
  connected : list bool;
  saved : list (option saved_state);
  endnames : list (option (list string));
  logs : list (gmap Z C);
  start : Z;
  t0 : Z;
  rpcs0 : Z;
  bytes0 : Z;
  maxIndex : Z;
  maxIndex0 : Z;
}.

Definition set_net (x : net_state) (cfg : config) : config :=
  mkConfig x (mem cfg) (peers_of cfg) (next_addr cfg) (failed cfg) (n cfg) (rafts cfg) (connected cfg) (saved cfg)
    (endnames cfg) (logs cfg) (start cfg) (t0 cfg) (rpcs0 cfg) (bytes0 cfg) (maxIndex cfg) (maxIndex0 cfg).
Definition set_mem (m : gmap addr Server) (cfg : config) : config :=
  mkConfig (net cfg) m (peers_of cfg) (next_addr cfg) (failed cfg) (n cfg) (rafts cfg) (connected cfg) (saved cfg)
    (endnames cfg) (logs cfg) (start cfg) (t0 cfg) (rpcs0 cfg) (bytes0 cfg) (maxIndex cfg) (maxIndex0 cfg).
Definition set_peers (x : peers_state C) (cfg : config) : config :=
  mkConfig (net cfg) (mem cfg) x (next_addr cfg) (failed cfg) (n cfg) (rafts cfg) (connected cfg) (saved cfg)
    (endnames cfg) (logs cfg) (start cfg) (t0 cfg) (rpcs0 cfg) (bytes0 cfg) (maxIndex cfg) (maxIndex0 cfg).
Definition set_next (x : addr) (cfg : config) : config :=
  mkConfig (net cfg) (mem cfg) (peers_of cfg) x (failed cfg) (n cfg) (rafts cfg) (connected cfg) (saved cfg)
    (endnames cfg) (logs cfg) (start cfg) (t0 cfg) (rpcs0 cfg) (bytes0 cfg) (maxIndex cfg) (maxIndex0 cfg).
Definition set_rafts (x : list (option addr)) (cfg : config) : config :=
  mkConfig (net cfg) (mem cfg) (peers_of cfg) (next_addr cfg) (failed cfg) (n cfg) x (connected cfg) (saved cfg)
    (endnames cfg) (logs cfg) (start cfg) (t0 cfg) (rpcs0 cfg) (bytes0 cfg) (maxIndex cfg) (maxIndex0 cfg).
Definition set_connected (x : list bool) (cfg : config) : config :=
  mkConfig (net cfg) (mem cfg) (peers_of cfg) (next_addr cfg) (failed cfg) (n cfg) (rafts cfg) x (saved cfg)
    (endnames cfg) (logs cfg) (start cfg) (t0 cfg) (rpcs0 cfg) (bytes0 cfg) (maxIndex cfg) (maxIndex0 cfg).
Definition set_saved (x : list (option saved_state)) (cfg : config) : config :=
  mkConfig (net cfg) (mem cfg) (peers_of cfg) (next_addr cfg) (failed cfg) (n cfg) (rafts cfg) (connected cfg) x
    (endnames cfg) (logs cfg) (start cfg) (t0 cfg) (rpcs0 cfg) (bytes0 cfg) (maxIndex cfg) (maxIndex0 cfg).
Definition set_endnames (x : list (option (list string))) (cfg : config) : config :=
  mkConfig (net cfg) (mem cfg) (peers_of cfg) (next_addr cfg) (failed cfg) (n cfg) (rafts cfg) (connected cfg)
    (saved cfg) x (logs cfg) (start cfg) (t0 cfg) (rpcs0 cfg) (bytes0 cfg) (maxIndex cfg) (maxIndex0 cfg).
Definition set_logs (x : list (gmap Z C)) (mx : Z) (cfg : config) : config :=
  mkConfig (net cfg) (mem cfg) (peers_of cfg) (next_addr cfg) (failed cfg) (n cfg) (rafts cfg) (connected cfg)
    (saved cfg) (endnames cfg) x (start cfg) (t0 cfg) (rpcs0 cfg) (bytes0 cfg) mx (maxIndex0 cfg).

(** The time of the clock that the peers and the tester share. *)
Definition now (cfg : config) : Z := clock (peers_of cfg).

(** ** The network *)

(** The row [names] of a table of endnames at position [j]. *)
Definition name_at (names : option (list string)) (j : Z) : outcome string :=
  match names with
  | Some l => idx l j
  | None => Panic IndexOutOfRange
  end.

(** The outgoing ends of [i], for the [js] that are connected. *)
Definition enable_outgoing (cfg : config) (i : Z) (js : list Z) (rn : net_state) : outcome net_state :=
  for_each (fun j rn =>
    c ← idx (connected cfg) j;
    if c : bool then
      row ← idx (endnames cfg) i; e ← name_at row j; Ret (Enable e true rn)
    else Ret rn) js rn.

Definition enable_incoming (cfg : config) (i : Z) (js : list Z) (rn : net_state) : outcome net_state :=
  for_each (fun j rn =>
    c ← idx (connected cfg) j;
    if c : bool then
      row ← idx (endnames cfg) j; e ← name_at row i; Ret (Enable e true rn)
    else Ret rn) js rn.

Definition connect (i : Z) (cfg : config) : outcome config :=
  cs ← idx_set (connected cfg) i true;
  let cfg := set_connected cs cfg in
  rn ← enable_outgoing cfg i (upto (n cfg)) (net cfg);
  rn ← enable_incoming cfg i (upto (n cfg)) rn;
  Ret (set_net rn cfg).

Definition disable_outgoing (cfg : config) (i : Z) (js : list Z) (rn : net_state) : outcome net_state :=
  for_each (fun j rn =>
    row ← idx (endnames cfg) i;
    match row with
    | Some _ => e ← name_at row j; Ret (Enable e false rn)
    | None => Ret rn
    end) js rn.

Definition disable_incoming (cfg : config) (i : Z) (js : list Z) (rn : net_state) : outcome net_state :=
  for_each (fun j rn =>
    row ← idx (endnames cfg) j;
    match row with
    | Some _ => e ← name_at row i; Ret (Enable e false rn)
    | None => Ret rn
    end) js rn.

Definition disconnect (i : Z) (cfg : config) : outcome config :=
  cs ← idx_set (connected cfg) i false;
  let cfg := set_connected cs cfg in
  rn ← disable_outgoing cfg i (upto (n cfg)) (net cfg);
  rn ← disable_incoming cfg i (upto (n cfg)) rn;
  Ret (set_net rn cfg).

(** ** Crashing and starting *)

(** The contents of a persister. *)
Definition read_saved (s : saved_state) (cfg : config) : outcome Persister :=
  match s with
  | Live a => match objs (peers_of cfg) !! a with Some rf => Ret (persister rf) | None => Panic NilDeref end
  | Detached p => Ret p
  end.

(** [cfg.saved[i] = cfg.saved[i].Copy()], if it is not nil. *)
Definition copy_saved (i : Z) (cfg : config) : outcome config :=
  s ← idx (saved cfg) i;
  match s with
  | Some s =>
      p ← read_saved s cfg;
      ss ← idx_set (saved cfg) i (Some (Detached (Copy p)));
      Ret (set_saved ss cfg)
  | None => Ret cfg
  end.

Definition kill_raft (a : addr) (ps : peers_state C) : outcome (peers_state C) :=
  match objs ps !! a with
  | Some rf => Ret (mkPeers (<[a := Kill rf]> (objs ps)) (clock ps) (spawned ps))
  | None => Panic NilDeref
  end.

(** The peer is killed and forgotten. *)
Definition kill_current (i : Z) (cfg : config) : outcome config :=
  rf ← idx (rafts cfg) i;
  match rf with
  | Some a =>
      ps ← kill_raft a (peers_of cfg);
      rs ← idx_set (rafts cfg) i None;
      Ret (set_rafts rs (set_peers ps cfg))
  | None => Ret cfg
  end.

(** The persister is replaced by a new one with the same contents. *)
Definition renew_saved (i : Z) (cfg : config) : outcome config :=
  s ← idx (saved cfg) i;
  match s with
  | Some s =>
      p ← read_saved s cfg;
      ss ← idx_set (saved cfg) i
             (Some (Detached (SaveStateAndSnapshot (ReadRaftState p) (ReadSnapshot p) (mkPersister EmptyString EmptyString))));
      Ret (set_saved ss cfg)
  | None => Ret cfg
  end.

Definition crash1 (i : Z) (cfg : config) : outcome config :=
  cfg ← disconnect i cfg;
  let cfg := set_net (DeleteServer i (net cfg)) cfg in
  cfg ← copy_saved i cfg;
  cfg ← kill_current i cfg;
  renew_saved i cfg.

(** The fresh ends, connected to the servers [js]. *)
Definition make_ends (names : list string) (js : list Z) (rn : net_state) : outcome net_state :=
  for_each (fun j rn => e ← idx names j; rn ← MakeEnd e rn; Ret (Connect e j rn)) js rn.

(** [names] are the results of [randstring], [time] that of the random
    election time. *)
Definition start1 (i : Z) (names : list string) (time : Z) (cfg : config) : outcome config :=
  cfg ← crash1 i cfg;
  es ← idx_set (endnames cfg) i (Some names);
  let cfg := set_endnames es cfg in
  rn ← make_ends names (upto (n cfg)) (net cfg);
  let cfg := set_net rn cfg in
  s ← idx (saved cfg) i;
  p ← match s with Some s => p ← read_saved s cfg; Ret (Copy p) | None => Ret MakePersister end;
  rf ← Make (n cfg) i p (now cfg) time;
  let a := next_addr cfg in
  let ps := peers_of cfg in
  ss ← idx_set (saved cfg) i (Some (Live a));
  rs ← idx_set (rafts cfg) i (Some a);
  let cfg := set_rafts rs (set_saved ss (set_peers (mkPeers (<[a := rf]> (objs ps)) (clock ps) (spawned ps)) cfg)) in
  let srv := Pos.succ a in
  let cfg := set_mem (<[srv := raft_server a]> (mem cfg)) (set_next (Pos.succ srv) cfg) in
  Ret (set_net (AddServer i srv (net cfg)) cfg).

Definition setunreliable (unrel : bool) (cfg : config) : config := set_net (Reliable (negb unrel) (net cfg)) cfg.
Definition setlongreordering (longrel : bool) (cfg : config) : config :=
  set_net (LongReordering longrel (net cfg)) cfg.
Definition rpcCount (server : Z) (cfg : config) : outcome Z := GetCount server (mem cfg) (net cfg).
Definition rpcTotal (cfg : config) : Z := GetTotalCount (net cfg).
Definition bytesTotal (cfg : config) : Z := GetTotalBytes (net cfg).

(** The state before the peers are started. *)
Definition empty_config (k : nat) (time : Z) (ps : peers_state C) : config :=
  mkConfig MakeNetwork ∅ ps 1%positive false k (replicate k None) (replicate k false) (replicate k None)
    (replicate k None) (replicate k ∅) time 0 0 0 0 0.

(** [names i] and [times i] are the random choices for peer [i]. *)
Definition make_config (k : nat) (unreliable : bool) (names : Z -> list string) (times : Z -> Z) (time : Z)
    : outcome config :=
  let cfg := setunreliable unreliable (empty_config k time (mkPeers ∅ time [])) in
  let cfg := set_net (LongDelays true (net cfg)) cfg in
  cfg ← for_each (fun i cfg =>
          ls ← idx_set (logs cfg) i ∅;
          start1 i (names i) (times i) (set_logs ls (maxIndex cfg) cfg)) (upto k) cfg;
  for_each connect (upto k) cfg.

(** ** Reading what is applied *)

(** The loop over the logs of the servers [js]: the last conflict wins. *)
Fixpoint find_conflict (ls : list (gmap Z C)) (j : Z) (i : Z) (m : ApplyMsg C) (err : option (apply_error C))
    : option (apply_error C) :=
  match ls with
  | [] => err
  | l :: ls =>
      let err := match l !! CommandIndex m with
                 | Some old => if decide (old = am_Command m) then err
                               else Some (Mismatch (CommandIndex m) i (am_Command m) j old)
                 | None => err
                 end in
      find_conflict ls (j + 1) i m err
  end.

Definition checkLogs (i : Z) (m : ApplyMsg C) (cfg : config) : outcome (config * option (apply_error C) * bool) :=
  let err := find_conflict (logs cfg) 0 i m None in
  l ← idx (logs cfg) i;
  let prevok := bool_decide (is_Some (l !! (CommandIndex m - 1))) in
  ls ← idx_set (logs cfg) i (<[CommandIndex m := am_Command m]> l);
  let mx := if maxIndex cfg <? CommandIndex m then CommandIndex m else maxIndex cfg in
  Ret (set_logs ls mx cfg, err, prevok).

(** The check that [applier] and [applierSnap] make of a command; an error
    ends the process. *)
Definition check_command (i : Z) (m : ApplyMsg C) (cfg : config) : outcome config :=
  '(cfg, err, prevok) ← checkLogs i m cfg;
  let err := if (1 <? CommandIndex m) && negb prevok then Some (OutOfOrder i (CommandIndex m)) else err in
  match err with
  | Some _ => Panic Fatal
  | None => Ret cfg
  end.

Definition applier (i : Z) (m : ApplyMsg C) (cfg : config) : outcome config :=
  if CommandValid m then check_command i m cfg else Ret cfg.

Definition SnapShotInterval : Z := 10.

(** One message of [applierSnap]; [lastApplied] is its local variable. *)
Definition applierSnap (i : Z) (m : ApplyMsg C) (last : Z) (cfg : config) : outcome (config * Z) :=
  if SnapshotValid m then
    r ← idx (rafts cfg) i;
    match r with
    | Some a =>
        match objs (peers_of cfg) !! a with
        | Some rf =>
            '(rf, installed) ← CondInstallSnapshot rf (SnapshotTerm m) (SnapshotIndex m) (am_Snapshot m);
            let ps := peers_of cfg in
            let cfg := set_peers (mkPeers (<[a := rf]> (objs ps)) (clock ps) (spawned ps)) cfg in
            if installed : bool then
              match decode_int (am_Snapshot m) with
              | None => Panic Fatal
              | Some v =>
                  ls ← idx_set (logs cfg) i {[SnapshotIndex m := v]};
                  Ret (set_logs ls (maxIndex cfg) cfg, SnapshotIndex m)
              end
            else Ret (cfg, last)
        | None => Panic NilDeref
        end
    | None => Panic NilDeref
    end
  else if CommandValid m && (last <? CommandIndex m) then
    cfg ← check_command i m cfg;
    if (Z.rem (CommandIndex m + 1) SnapShotInterval =? 0) then
      r ← idx (rafts cfg) i;
      match r with
      | Some a =>
          let ps := peers_of cfg in
          Ret (set_peers (mkPeers (objs ps) (clock ps) (spawned ps ++ [(a, DoSnapshot (CommandIndex m))])) cfg,
               CommandIndex m)
      | None => Panic NilDeref
      end
    else Ret (cfg, CommandIndex m)
  else Ret (cfg, last).

(** ** Observing the peers

    The tester reads one peer after the other; [obs i] is the state at the
    moment it looks at peer [i]. *)

Definition get_state (i : Z) (cfg : config) : outcome (Z * bool) :=
  r ← idx (rafts cfg) i;
  match r ≫= fun a => objs (peers_of cfg) !! a with
  | Some rf => Ret (GetState rf)
  | None => Panic NilDeref
  end.

(** The connected leaders by term, in the order of their numbers. *)
Definition find_leaders (obs : Z -> config) (k : nat) : outcome (gmap Z (list Z)) :=
  for_each (fun i m =>
    c ← idx (connected (obs i)) i;
    if c : bool then
      '(term, leader) ← get_state i (obs i);
      Ret (if leader : bool then <[term := default [] (m !! term) ++ [i]]> m else m)
    else Ret m) (upto k) ∅.

(** The loop over the terms: [t.Fatalf] when one has two leaders. *)
Definition last_term (l : list (Z * list Z)) : outcome Z :=
  for_each (fun '(term, ls) last =>
    if (1 <? length ls)%nat then Panic Fatal
    else Ret (if last <? term then term else last)) l (-1).

(** One pass: the leader of the last term, if there is a leader. *)
Definition leader_round `{!RangeOrder (Z * list Z)} (obs : Z -> config) (k : nat) : outcome (option Z) :=
  m ← find_leaders obs k;
  last ← last_term (range_order (map_to_list m));
  if decide (m = ∅) then Ret None
  else l ← idx (default [] (m !! last)) 0; Ret (Some l).

Fixpoint checkOneLeader_loop `{!RangeOrder (Z * list Z)} (obs : nat -> Z -> config) (k iters it : nat) : outcome Z :=
  match iters with
  | O => Panic Fatal
  | S iters =>
      r ← leader_round (obs it) k;
      match r with
      | Some l => Ret l
      | None => checkOneLeader_loop obs k iters (S it)
      end
  end.

(** Ten passes with a sleep before each. *)
Definition checkOneLeader `{!RangeOrder (Z * list Z)} (obs : nat -> Z -> config) (k : nat) : outcome Z :=
  checkOneLeader_loop obs k 10 0.

Definition checkTerms (obs : Z -> config) (k : nat) : outcome Z :=
  for_each (fun i term =>
    c ← idx (connected (obs i)) i;
    if c : bool then
      '(xterm, _) ← get_state i (obs i);
      if term =? -1 then Ret xterm
      else if term =? xterm then Ret term else Panic Fatal
    else Ret term) (upto k) (-1).

Definition checkNoLeader (obs : Z -> config) (k : nat) : outcome unit :=
  for_each (fun i u =>
    c ← idx (connected (obs i)) i;
    if c : bool then
      '(_, is_leader) ← get_state i (obs i);
      if is_leader : bool then Panic Fatal else Ret u
    else Ret u) (upto k) tt.

(** How many servers have a command at an index, and the last of them.
    [applyErr] is always empty: [applier] ends the process before it assigns
    to it. *)
Definition nCommitted (index : Z) (obs : Z -> config) (k : nat) : outcome (Z * C) :=
  for_each (fun i '(count, cmd) =>
    l ← idx (logs (obs i)) i;
    match l !! index with
    | Some cmd1 =>
        if (0 <? count) && negb (bool_decide (cmd = cmd1)) then Panic Fatal
        else Ret (count + 1, cmd1)
    | None => Ret (count, cmd)
    end) (upto k) (0, nil_command).

(** Whether a peer has moved to a later term; a crashed peer is a nil
    pointer. *)
Definition moved_on (startTerm : Z) (obs : Z -> config) (k : nat) : outcome bool :=
  for_each (fun i (b : bool) =>
    if b then Ret b
    else '(t, _) ← get_state i (obs i); Ret (startTerm <? t)) (upto k) false.

(** [wait]: the observations of each pass; [None] when a peer has moved on. *)
Fixpoint wait_loop (index k : Z) (startTerm : Z) (obs : nat -> Z -> config) (m iters it : nat) : outcome bool :=
  match iters with
  | O => Ret true
  | S iters =>
      '(nd, _) ← nCommitted index (obs (2 * it)%nat) m;
      if k <=? nd then Ret true
      else
        b ← if -1 <? startTerm then moved_on startTerm (obs (2 * it + 1)%nat) m else Ret false;
        if b : bool then Ret false else wait_loop index k startTerm obs m iters (S it)
  end.

Definition wait (index k startTerm : Z) (obs : nat -> Z -> config) (m : nat) : outcome (option C) :=
  go ← wait_loop index k startTerm obs m 30 0;
  if go : bool then
    '(nd, cmd) ← nCommitted index (obs 60%nat) m;
    if nd <? k then Panic Fatal else Ret (Some cmd)
  else Ret None.

(** ** Agreement on a command

    [env k d] is what the peers do during the [k]-th sleep, of [d] ms, and
    [acts k i] what they do before the [i]-th access to their state in the
    [k]-th pass over the servers, since the beginning of the pass if it only
    reads: the tester takes its lock anew for each access.  The clock counts
    milliseconds. *)

Definition seconds (s : Z) : Z := s * 1000.

(** [rf.Start(cmd)] on the peer at an address. *)
Definition call_start (a : addr) (cmd : C) (cfg : config) : outcome (config * (Z * Z * bool)) :=
  match objs (peers_of cfg) !! a with
  | Some rf =>
      let '(rf, r, ts) := Start rf cmd in
      let ps := peers_of cfg in
      Ret (set_peers (mkPeers (<[a := rf]> (objs ps)) (clock ps) (spawned ps ++ start_tasks a ts)) cfg, r)
  | None => Panic NilDeref
  end.

(** The loop that looks for a leader: the new [starts], and the index or -1. *)
Fixpoint scan_start (cnt : nat) (act : Z -> config -> config) (i starts : Z) (cmd : C) (cfg : config)
    : outcome (config * Z * Z) :=
  match cnt with
  | O => Ret (cfg, starts, -1)
  | S cnt =>
      let starts := (starts + 1) `mod` Z.of_nat (n cfg) in
      let cfg := act i cfg in
      c ← idx (connected cfg) starts;
      r ← if c : bool then idx (rafts cfg) starts else Ret None;
      match r with
      | Some a =>
          '(cfg, (index1, _, ok)) ← call_start a cmd (act (i + 1) cfg);
          if ok : bool then Ret (cfg, starts, index1) else scan_start cnt act (i + 2) starts cmd cfg
      | None => scan_start cnt act (i + 2) starts cmd cfg
      end
  end.

(** The two seconds in which the servers may agree.  A pass reads the log of
    each server at a moment of its own; [acts] of their number is what is done
    until it is over. *)
Fixpoint await (fuel : nat) (env acts : nat -> Z -> config -> config) (t1 index : Z) (cmd : C) (expected : Z)
    (cfg : config) (k : nat) : outcome (config * nat * bool) :=
  match fuel with
  | O => NoFuel
  | S fuel =>
      if now cfg - t1 <? seconds 2 then
        let servers := length (rafts cfg) in
        '(nd, cmd1) ← nCommitted index (fun i => acts k i cfg) servers;
        let cfg := acts k (Z.of_nat servers) cfg in
        if (0 <? nd) && (expected <=? nd) && bool_decide (cmd1 = cmd) then Ret (cfg, k, true)
        else await fuel env acts t1 index cmd expected (env k 20 cfg) (S k)
      else Ret (cfg, k, false)
  end.

Fixpoint one_loop (fuel inner : nat) (env acts : nat -> Z -> config -> config) (t : Z) (starts : Z) (cmd : C) (expected : Z)
    (retry : bool) (cfg : config) (k : nat) : outcome (config * Z) :=
  match fuel with
  | O => NoFuel
  | S fuel =>
      if now cfg - t <? seconds 10 then
        '(cfg, starts, index) ← scan_start (n cfg) (acts k) 0 starts cmd cfg;
        if negb (index =? -1) then
          '(cfg, k, agreed) ← await inner env acts (now cfg) index cmd expected cfg (S k);
          if agreed : bool then Ret (cfg, index)
          else if retry then one_loop fuel inner env acts t starts cmd expected retry cfg k
          else Panic Fatal
        else one_loop fuel inner env acts t starts cmd expected retry (env k 50 cfg) (S k)
      else Panic Fatal
  end.

(** Ten seconds have at most 201 passes, and the two seconds of [await] at
    most 101. *)
Definition one (env acts : nat -> Z -> config -> config) (cmd : C) (expected : Z) (retry : bool) (cfg : config)
    : outcome (config * Z) :=
  one_loop 202 102 env acts (now cfg) 0 cmd expected retry cfg 0.

(** ** The frame of a test *)

Definition checkTimeout (cfg : config) : outcome unit :=
  if negb (failed cfg) && (seconds 120 <? now cfg - start cfg) then Panic Fatal else Ret tt.

Definition cleanup (cfg : config) : outcome config :=
  ps ← for_each (fun r ps => match r with Some a => kill_raft a ps | None => Ret ps end) (rafts cfg) (peers_of cfg);
  let cfg := set_peers ps cfg in
  rn ← Cleanup (net cfg);
  let cfg := set_net rn cfg in
  _ ← checkTimeout cfg;
  Ret cfg.

Definition begin_test (cfg : config) : config :=
  mkConfig (net cfg) (mem cfg) (peers_of cfg) (next_addr cfg) (failed cfg) (n cfg) (rafts cfg) (connected cfg)
    (saved cfg) (endnames cfg) (logs cfg) (start cfg) (now cfg) (rpcTotal cfg) (bytesTotal cfg) (maxIndex cfg)
    (maxIndex cfg).

(** What [end] prints: the time, the number of peers, calls, bytes and
    agreements. *)
Definition end_test (cfg : config) : outcome (option (Z * Z * Z * Z * Z)) :=
  _ ← checkTimeout cfg;
  Ret (if failed cfg then None
       else Some (now cfg - t0 cfg, Z.of_nat (n cfg), rpcTotal cfg - rpcs0 cfg, bytesTotal cfg - bytes0 cfg,
                  maxIndex cfg - maxIndex0 cfg)).

Definition LogSize (cfg : config) : outcome Z :=
  for_each (fun i logsize =>
    s ← idx (saved cfg) i;
    match s with
    | Some s => p ← read_saved s cfg; Ret (if logsize <? RaftStateSize p then RaftStateSize p else logsize)
    | None => Panic NilDeref
    end) (upto (n cfg)) 0.
End config.
