(* ===== verification/RaftWiring.v ===== *)
(** * The wiring of the tester's network

    Which ends the tester has created, where they lead and which of them are
    enabled, which persister belongs to which peer: the invariant [wired] of
    the tester's state, and that every operation keeps it. *)

From S2P Require Import Prelude GoSlice Raft RaftOps Labrpc RaftRpc RaftConfig.

(** ** Loops that enable ends *)

Section loops.
Abbreviation net_state := (@Network string Z _ _ _ _).
Implicit Types (rn : net_state).

(** Two networks that differ in the enabled ends and the statistics at
    most. *)
Definition same_ends rn rn' : Prop :=
  ends rn' = ends rn /\ servers rn' = servers rn /\ connections rn' = connections rn.

Lemma same_ends_refl rn : same_ends rn rn.
Proof. done. Qed.

Lemma same_ends_trans rn1 rn2 rn3 : same_ends rn1 rn2 -> same_ends rn2 rn3 -> same_ends rn1 rn3.
Proof. intros (? & ? & ?) (? & ? & ?). split_and!; congruence. Qed.

Lemma enabled_at_Enable e e' b rn :
  enabled_at e (Enable e' b rn) = if decide (e' = e) then b else enabled_at e rn.
Proof. unfold enabled_at. cbn. rewrite lookup_insert. by case_decide. Qed.

Definition touched {A} (pick : A -> outcome (option string)) (js : list A) (e : string) : Prop :=
  exists j, j ∈ js /\ pick j = Ret (Some e).

(** A loop that enables or disables the ends that [pick] names. *)
Lemma enable_loop {A} (pick : A -> outcome (option string)) b (body : A -> net_state -> outcome net_state) js rn rn' :
  (forall j rn, body j rn = (o ← pick j; Ret (match o with Some e => Enable e b rn | None => rn end))) ->
  for_each body js rn = Ret rn' ->
  same_ends rn rn' /\ (forall j, j ∈ js -> returns (pick j)) /\
  (forall e, touched pick js e /\ enabled_at e rn' = b \/ ~ touched pick js e /\ enabled_at e rn' = enabled_at e rn).
Proof.
  intros Hbody. apply (for_each_preserves body (fun pre rn' => same_ends rn rn' /\
    (forall j, j ∈ pre -> returns (pick j)) /\
    (forall e, touched pick pre e /\ enabled_at e rn' = b \/ ~ touched pick pre e /\ enabled_at e rn' = enabled_at e rn))).
  - intros pre j post rn1 rn2 _ (Hs & Hr & Ht) Hb. rewrite Hbody in Hb.
    apply bind_ret_inv in Hb as (o & Hp & [= <-]).
    assert (forall e, touched pick (pre ++ [j]) e <-> touched pick pre e \/ o = Some e) as Hsplit.
    { intros e. unfold touched. setoid_rewrite elem_of_app. setoid_rewrite list_elem_of_singleton. split.
      - intros (j' & [Hj| ->] & Hp'); [left; by exists j'|]. right. congruence.
      - intros [(j' & Hj & Hp')| ->]; [exists j'; auto|]. exists j. auto. }
    split_and!.
    + by destruct o.
    + intros j' [Hj| ->%list_elem_of_singleton]%elem_of_app; [by apply Hr|by exists o].
    + intros e. rewrite Hsplit. specialize (Ht e). destruct o as [e'|]; [|naive_solver].
      rewrite enabled_at_Enable. case_decide; naive_solver.
  - split_and!; [done|set_solver|]. intros e. right. split; [|done]. intros (j & Hj & _). set_solver.
Qed.
End loops.

Section wiring.
Context {C : Type} `{!Command C, !Gob C, !AppendGrowth, !WireGob}.
Abbreviation config := (@config C).
Implicit Types (cfg : config).

Lemma idx_nat {A} (l : list A) (i : nat) x : idx l (Z.of_nat i) = Ret x <-> l !! i = Some x.
Proof. rewrite idx_ret, Nat2Z.id. naive_solver lia. Qed.

(** [e] is the name of the current end of server [i] to server [j]. *)
Definition named cfg (i j : nat) (e : string) : Prop :=
  exists row, endnames cfg !! i = Some (Some row) /\ row !! j = Some e.

Definition on_net cfg (i : nat) : Prop := connected cfg !! i = Some true.

Record wired cfg : Prop := {
  wd_rafts : length (rafts cfg) = n cfg;
  wd_connected : length (connected cfg) = n cfg;
  wd_saved : length (saved cfg) = n cfg;
  wd_endnames : length (endnames cfg) = n cfg;
  wd_logs : length (logs cfg) = n cfg;
  wd_row : forall i row, endnames cfg !! i = Some (Some row) -> length row = n cfg;
  wd_end : forall i j e, named cfg i j e -> e ∈ ends (net cfg);
  wd_inj : forall i j i' j' e, named cfg i j e -> named cfg i' j' e -> i = i' /\ j = j';
  wd_leads : forall i j e, named cfg i j e -> server_of e (net cfg) = Some (Z.of_nat j);
  wd_started : forall i, on_net cfg i -> exists row, endnames cfg !! i = Some (Some row);
  wd_enabled : forall e, enabled_at e (net cfg) = true <->
    exists i j, named cfg i j e /\ on_net cfg i /\ on_net cfg j;
  wd_live : forall i a, saved cfg !! i = Some (Some (Live a)) <-> rafts cfg !! i = Some (Some a);
  wd_obj : forall i a, rafts cfg !! i = Some (Some a) -> is_Some (objs (peers_of cfg) !! a);
  wd_alone : forall i i' a, rafts cfg !! i = Some (Some a) -> rafts cfg !! i' = Some (Some a) -> i = i';
  wd_fresh : forall a, is_Some (objs (peers_of cfg) !! a) \/ is_Some (mem cfg !! a) -> (a < next_addr cfg)%positive;
  wd_server : forall (i : nat) x, server_at (Z.of_nat i) (net cfg) = Some x ->
    exists a rs, rafts cfg !! i = Some (Some a) /\ mem cfg !! x = Some rs /\
      services rs !! "Raft" = Some (raft_service a);
  wd_up : forall i a, rafts cfg !! i = Some (Some a) -> exists x, server_at (Z.of_nat i) (net cfg) = Some x;
  wd_mem : forall x rs, mem cfg !! x = Some rs -> exists a, services rs = {["Raft" := raft_service a]};
}.

(** The parts of the state that the ends depend on. *)
Lemma named_ext cfg cfg' : endnames cfg' = endnames cfg -> forall i j e, named cfg' i j e <-> named cfg i j e.
Proof. intros E i j e. unfold named. by rewrite E. Qed.

Lemma named_bound cfg i j e : wired cfg -> named cfg i j e -> (i < n cfg)%nat /\ (j < n cfg)%nat.
Proof.
  intros W (row & Hi & Hj). apply lookup_lt_Some in Hj. rewrite (wd_row _ W _ _ Hi) in Hj.
  apply lookup_lt_Some in Hi. rewrite (wd_endnames _ W) in Hi. done.
Qed.

(** *** The ends that the four loops touch *)

(** The end in row [r j], column [c j]; with [Some cs] only for [j] connected,
    without only for rows that exist. *)
Definition pick_end (cs : option (list bool)) (es : list (option (list string))) (r c : Z -> Z) (j : Z)
    : outcome (option string) :=
  ok ← match cs with Some cs => idx cs j | None => Ret true end;
  if ok : bool then
    row ← idx es (r j);
    match cs, row with
    | None, None => Ret None
    | _, _ => e ← name_at row (c j); Ret (Some e)
    end
  else Ret None.

Lemma upto_nat k j : j ∈ upto k <-> exists m : nat, j = Z.of_nat m /\ (m < k)%nat.
Proof.
  rewrite elem_of_upto. split.
  - intros Hj. exists (Z.to_nat j). lia.
  - intros (m & -> & Hm). lia.
Qed.

Lemma touched_ends cs es (r c : Z -> Z) (r' c' : nat -> nat) k e :
  (forall j : nat, r (Z.of_nat j) = Z.of_nat (r' j) /\ c (Z.of_nat j) = Z.of_nat (c' j)) ->
  touched (pick_end cs es r c) (upto k) e <->
  exists j : nat, (j < k)%nat /\ (forall l, cs = Some l -> l !! j = Some true) /\
    exists row, es !! r' j = Some (Some row) /\ row !! c' j = Some e.
Proof.
  intros Hrc. unfold touched, pick_end. setoid_rewrite upto_nat. split.
  - intros (j & (m & -> & Hm) & Hp). exists m. split; [done|]. destruct (Hrc m) as [Hr Hc]. rewrite Hr, Hc in Hp.
    apply bind_ret_inv in Hp as (ok & Hok & Hp). destruct ok; [|done].
    apply bind_ret_inv in Hp as (row & Hrow%idx_nat & Hp).
    assert (name_at row (Z.of_nat (c' m)) = Ret e) as Hn.
    { destruct cs, row; try done; by apply bind_ret_inv in Hp as (? & ? & [= ->]). }
    split; [intros l ->; by apply idx_nat|]. destruct row as [row|]; [|done]. exists row. split; [done|by apply idx_nat].
  - intros (j & Hj & Hok & row & Hr & He). exists (Z.of_nat j). split; [by exists j|].
    destruct (Hrc j) as [-> ->].
    assert (match cs with Some cs => idx cs (Z.of_nat j) | None => Ret true end = Ret true) as ->.
    { destruct cs as [l|]; [|done]. apply idx_nat. by apply Hok. }
    cbn. rewrite (proj2 (idx_nat es (r' j) (Some row)) Hr). cbn.
    rewrite (proj2 (idx_nat row (c' j) e) He). by destruct cs.
Qed.

(** The ends of server [i]: to, or from, the servers below [k] (that are
    connected). *)
Definition ends_of (cs : option (list bool)) (es : list (option (list string))) (i k : nat) (e : string) : Prop :=
  exists j : nat, (j < k)%nat /\ (forall l, cs = Some l -> l !! j = Some true) /\
    exists row, es !! i = Some (Some row) /\ row !! j = Some e \/ es !! j = Some (Some row) /\ row !! i = Some e.

(** Both loops of [connect] or [disconnect]. *)
Lemma two_loops b cs es (i k : nat) (out inc : Z -> @Network string Z _ _ _ _ -> outcome (@Network string Z _ _ _ _)) rn rn1 rn2 :
  (forall j rn, out j rn = (o ← pick_end cs es (fun _ => Z.of_nat i) id j; Ret (match o with Some e => Enable e b rn | None => rn end))) ->
  (forall j rn, inc j rn = (o ← pick_end cs es id (fun _ => Z.of_nat i) j; Ret (match o with Some e => Enable e b rn | None => rn end))) ->
  for_each out (upto k) rn = Ret rn1 -> for_each inc (upto k) rn1 = Ret rn2 ->
  same_ends rn rn2 /\
  (forall e, ends_of cs es i k e /\ enabled_at e rn2 = b \/ ~ ends_of cs es i k e /\ enabled_at e rn2 = enabled_at e rn) /\
  (forall j, j ∈ upto k -> returns (pick_end cs es (fun _ => Z.of_nat i) id j)).
Proof.
  intros Ho Hi H1 H2. apply (enable_loop _ _ _ _ _ _ Ho) in H1 as (S1 & R1 & T1).
  apply (enable_loop _ _ _ _ _ _ Hi) in H2 as (S2 & R2 & T2).
  split_and!; [by eapply same_ends_trans| |done]. intros e. specialize (T1 e). specialize (T2 e).
  rewrite (touched_ends cs es _ _ (fun _ => i) id) in T1 by (intros; split; reflexivity).
  rewrite (touched_ends cs es _ _ id (fun _ => i)) in T2 by (intros; split; reflexivity).
  unfold ends_of. cbn in T1, T2. naive_solver.
Qed.

Lemma connect_loops (i : nat) cfg rn rn1 rn2 :
  enable_outgoing cfg (Z.of_nat i) (upto (n cfg)) rn = Ret rn1 ->
  enable_incoming cfg (Z.of_nat i) (upto (n cfg)) rn1 = Ret rn2 ->
  same_ends rn rn2 /\
  (forall e, ends_of (Some (connected cfg)) (endnames cfg) i (n cfg) e /\ enabled_at e rn2 = true \/
             ~ ends_of (Some (connected cfg)) (endnames cfg) i (n cfg) e /\ enabled_at e rn2 = enabled_at e rn) /\
  (forall j, j ∈ upto (n cfg) -> returns (pick_end (Some (connected cfg)) (endnames cfg) (fun _ => Z.of_nat i) id j)).
Proof.
  apply two_loops; intros j rn'; unfold pick_end; cbn; (destruct (idx (connected cfg) j) as [[]| |]; [|done..]); cbn;
    (destruct (idx (endnames cfg) _) as [row| |]; [|done..]); cbn; by destruct (name_at row _).
Qed.

Lemma disconnect_loops (i : nat) cfg rn rn1 rn2 :
  disable_outgoing cfg (Z.of_nat i) (upto (n cfg)) rn = Ret rn1 ->
  disable_incoming cfg (Z.of_nat i) (upto (n cfg)) rn1 = Ret rn2 ->
  same_ends rn rn2 /\
  (forall e, ends_of None (endnames cfg) i (n cfg) e /\ enabled_at e rn2 = false \/
             ~ ends_of None (endnames cfg) i (n cfg) e /\ enabled_at e rn2 = enabled_at e rn).
Proof.
  intros H1 H2. enough (same_ends rn rn2 /\ (forall e, ends_of None (endnames cfg) i (n cfg) e /\ enabled_at e rn2 = false \/
    ~ ends_of None (endnames cfg) i (n cfg) e /\ enabled_at e rn2 = enabled_at e rn) /\
    (forall j, j ∈ upto (n cfg) -> returns (pick_end None (endnames cfg) (fun _ => Z.of_nat i) id j))) as (? & ? & _) by done.
  revert H1 H2. apply two_loops; intros j rn'; unfold pick_end; cbn;
    (destruct (idx (endnames cfg) _) as [[row|]| |]; [|done..]); cbn; by destruct (idx row _).
Qed.

(** In a wired state the ends of [i] are those named with it. *)
Lemma ends_of_named cs cfg i e :
  wired cfg -> ends_of cs (endnames cfg) i (n cfg) e <->
  exists j, (forall l, cs = Some l -> l !! j = Some true) /\ (named cfg i j e \/ named cfg j i e).
Proof.
  intros W. unfold ends_of, named. split; [naive_solver|].
  intros (j & Hc & Hn). exists j. split; [|naive_solver].
  destruct Hn as [Hn|Hn]; apply (named_bound cfg _ _ e W) in Hn; lia.
Qed.

(** ** connect and disconnect *)

Lemma wired_reconnect cfg cs rn :
  wired cfg -> length cs = n cfg -> same_ends (net cfg) rn ->
  (forall i, cs !! i = Some true -> exists row, endnames cfg !! i = Some (Some row)) ->
  (forall e, enabled_at e rn = true <-> exists i j, named cfg i j e /\ cs !! i = Some true /\ cs !! j = Some true) ->
  wired (set_net rn (set_connected cs cfg)).
Proof.
  intros [] Hl (He & Hs & Hc) Hst Hen.
  split; cbn; unfold server_of, server_at in *; rewrite ?He, ?Hs, ?Hc; try done.
Qed.

Lemma connect_wired i cfg cfg' : wired cfg -> connect i cfg = Ret cfg' -> wired cfg'.
Proof.
  intros W Hc. unfold connect in Hc. apply bind_ret_inv in Hc as (cs & Hcs & Hc).
  apply idx_set_ret in Hcs as [Hi ->]. set (m := Z.to_nat i) in *. replace i with (Z.of_nat m) in Hc by lia.
  set (cs := <[m := true]> (connected cfg)) in *.
  apply bind_ret_inv in Hc as (rn1 & H1 & Hc). apply bind_ret_inv in Hc as (rn2 & H2 & [= <-]).
  destruct (connect_loops m _ _ _ _ H1 H2) as (Hs & Hen & Hret). cbn [connected set_connected endnames n net] in *.
  assert (m < length (connected cfg))%nat as Hm by lia.
  assert (forall j, cs !! j = Some true <-> j = m \/ on_net cfg j) as Hcs.
  { intros j. subst cs. rewrite list_lookup_insert_Some. unfold on_net. destruct (decide (m = j)) as [<-|Hne].
    - split; [by left|]. intros _. by left.
    - split; [intros [[? _]|[_ ?]]; [done|by right]|]. intros [->|?]; [done|by right]. }
  assert (exists row, endnames cfg !! m = Some (Some row)) as [row Hrow].
  { destruct (Hret (Z.of_nat m)) as [o Ho]; [apply elem_of_upto; rewrite (wd_connected _ W) in Hm; lia|].
    unfold pick_end in Ho. rewrite (proj2 (idx_nat cs m true)) in Ho by (apply Hcs; by left).
    cbn in Ho. apply bind_ret_inv in Ho as (row & Hrow%idx_nat & Ho). destruct row as [row|]; [by exists row|done]. }
  apply wired_reconnect; [done| |done| |].
  - subst cs. rewrite length_insert. apply (wd_connected _ W).
  - intros j [->|Hj]%Hcs; [by exists row|by apply (wd_started _ W)].
  - intros e. specialize (Hen e).
    rewrite (ends_of_named (Some cs) cfg m e W) in Hen. pose proof (wd_enabled _ W e) as Hold.
    setoid_rewrite Hcs. split.
    + intros Ht. destruct Hen as [[(j & Hj & [Hn|Hn]) _]|[_ Heq]].
      * exists m, j. split; [done|]. split; [by left|]. apply Hcs. by apply Hj.
      * exists j, m. split; [done|]. split; [|by left]. apply Hcs. by apply Hj.
      * rewrite Ht in Heq. symmetry in Heq. apply Hold in Heq as (i1 & j1 & ? & ? & ?). exists i1, j1. auto.
    + intros (i1 & j1 & Hn & H3 & H4). destruct Hen as [[_ ?]|[Hno ->]]; [done|].
      apply Hold. exists i1, j1. split; [done|].
      assert (forall l, Some cs = Some l -> l !! i1 = Some true) as Hi1 by (intros l [= <-]; by apply Hcs).
      assert (forall l, Some cs = Some l -> l !! j1 = Some true) as Hj1 by (intros l [= <-]; by apply Hcs).
      destruct H3 as [->|H3]; [destruct Hno; by exists j1; auto|].
      destruct H4 as [->|H4]; [destruct Hno; by exists i1; auto|]. done.
Qed.

Lemma disconnect_wired i cfg cfg' :
  wired cfg -> disconnect i cfg = Ret cfg' ->
  0 <= i < Z.of_nat (n cfg) /\ wired cfg' /\
  cfg' = set_net (net cfg') (set_connected (<[Z.to_nat i := false]> (connected cfg)) cfg) /\
  same_ends (net cfg) (net cfg').
Proof.
  intros W Hc. unfold disconnect in Hc. apply bind_ret_inv in Hc as (cs & Hcs & Hc).
  apply idx_set_ret in Hcs as [Hi ->]. set (m := Z.to_nat i) in *. replace i with (Z.of_nat m) in Hc by lia.
  set (cs := <[m := false]> (connected cfg)) in *.
  apply bind_ret_inv in Hc as (rn1 & H1 & Hc). apply bind_ret_inv in Hc as (rn2 & H2 & [= <-]).
  destruct (disconnect_loops m _ _ _ _ H1 H2) as (Hs & Hen). cbn [connected set_connected endnames n net] in *.
  rewrite (wd_connected _ W) in Hi. split; [done|]. split; [|done].
  assert (forall j, cs !! j = Some true <-> j <> m /\ on_net cfg j) as Hcs.
  { intros j. subst cs. rewrite list_lookup_insert_Some. unfold on_net. destruct (decide (m = j)) as [<-|Hne].
    - split; [intros [(_ & ? & _)|[? _]]; done|]. by intros [? _].
    - split; [intros [[? _]|[_ ?]]; [done|by split]|]. intros [_ ?]. by right. }
  apply wired_reconnect; [done| |done| |].
  - subst cs. rewrite length_insert. apply (wd_connected _ W).
  - intros j [_ Hj]%Hcs. by apply (wd_started _ W).
  - intros e. specialize (Hen e). rewrite (ends_of_named None cfg m e W) in Hen. pose proof (wd_enabled _ W e) as Hold.
    setoid_rewrite Hcs. split.
    + intros Ht. destruct Hen as [[_ ?]|[Hno Heq]]; [congruence|]. rewrite Ht in Heq. symmetry in Heq.
      apply Hold in Heq as (i1 & j1 & Hn & ? & ?). exists i1, j1. split; [done|].
      split; (split; [|done]); intros ->; destruct Hno; eexists; (split; [done|]); eauto.
    + intros (i1 & j1 & Hn & [Hi1 ?] & [Hj1 ?]). destruct Hen as [[(j & _ & [Hn'|Hn']) _]|[_ ->]].
      * destruct (wd_inj _ W _ _ _ _ _ Hn Hn'). congruence.
      * destruct (wd_inj _ W _ _ _ _ _ Hn Hn'). congruence.
      * apply Hold. by exists i1, j1.
Qed.

(** ** Crashing *)

(** What a persister of the tester holds. *)
Definition contents cfg (s : option saved_state) : option Persister :=
  match s with
  | None => None
  | Some (Detached p) => Some p
  | Some (Live a) => persister <$> objs (peers_of cfg) !! a
  end.

Lemma read_saved_contents s cfg p : read_saved s cfg = Ret p <-> contents cfg (Some s) = Some p.
Proof.
  destruct s as [a|q]; cbn; [|split; congruence]. destruct (objs (peers_of cfg) !! a); cbn; split; congruence.
Qed.

(** The table of persisters after the one of [m] was detached. *)
Definition detached (m : nat) cfg : list (option saved_state) :=
  match saved cfg !! m with
  | Some s => <[m := Detached <$> contents cfg s]> (saved cfg)
  | None => saved cfg
  end.

Lemma set_saved_id cfg : set_saved (saved cfg) cfg = cfg.
Proof. by destruct cfg. Qed.

Lemma detach_result i cfg cfg' (f : Persister -> Persister) :
  (forall p, f p = p) ->
  (s ← idx (saved cfg) i;
   match s with
   | Some s => p ← read_saved s cfg; ss ← idx_set (saved cfg) i (Some (Detached (f p))); Ret (set_saved ss cfg)
   | None => Ret cfg
   end) = Ret cfg' ->
  0 <= i /\ cfg' = set_saved (detached (Z.to_nat i) cfg) cfg.
Proof.
  intros Hf (s & Hs & Hc)%bind_ret_inv. apply idx_ret in Hs as [Hi Hs]. split; [done|].
  unfold detached. rewrite Hs. destruct s as [s|].
  - apply bind_ret_inv in Hc as (p & Hp%read_saved_contents & Hc).
    apply bind_ret_inv in Hc as (ss & Hss & [= <-]). apply idx_set_ret in Hss as [_ ->].
    rewrite Hp, Hf. done.
  - injection Hc as <-. cbn. by rewrite list_insert_id, set_saved_id.
Qed.

Lemma copy_saved_result i cfg cfg' :
  copy_saved i cfg = Ret cfg' -> 0 <= i /\ cfg' = set_saved (detached (Z.to_nat i) cfg) cfg.
Proof. apply (detach_result i cfg cfg' Copy). by intros []. Qed.

Lemma renew_saved_result i cfg cfg' :
  renew_saved i cfg = Ret cfg' -> 0 <= i /\ cfg' = set_saved (detached (Z.to_nat i) cfg) cfg.
Proof.
  apply (detach_result i cfg cfg' (fun p => SaveStateAndSnapshot (ReadRaftState p) (ReadSnapshot p) (mkPersister EmptyString EmptyString))).
  by intros [].
Qed.

(** The peers after the one of [m] was killed. *)
Definition killed_peers (m : nat) cfg : peers_state C :=
  match rafts cfg !! m with
  | Some (Some a) => mkPeers (alter Kill a (objs (peers_of cfg))) (clock (peers_of cfg)) (spawned (peers_of cfg))
  | _ => peers_of cfg
  end.

Lemma kill_current_result i cfg cfg' :
  kill_current i cfg = Ret cfg' ->
  cfg' = set_rafts (<[Z.to_nat i := None]> (rafts cfg)) (set_peers (killed_peers (Z.to_nat i) cfg) cfg).
Proof.
  unfold kill_current. intros (r & Hr & Hc)%bind_ret_inv. apply idx_ret in Hr as [Hi Hr].
  unfold killed_peers. rewrite Hr. destruct r as [a|].
  - apply bind_ret_inv in Hc as (ps & Hk & Hc). apply bind_ret_inv in Hc as (rs & Hrs & [= <-]).
    apply idx_set_ret in Hrs as [_ ->]. unfold kill_raft in Hk.
    destruct (objs (peers_of cfg) !! a) as [rf|] eqn:Ea; [|done]. injection Hk as <-.
    do 3 f_equal. apply map_eq. intros b. rewrite lookup_insert, lookup_alter. case_decide; [subst|done].
    by rewrite Ea.
  - injection Hc as <-. rewrite list_insert_id by done. by destruct cfg.
Qed.

(** The state after a crash of [m]. *)
Definition crashed (m : nat) (rn : @Network string Z _ _ _ _) cfg : config :=
  set_saved (detached m cfg) (set_rafts (<[m := None]> (rafts cfg)) (set_peers (killed_peers m cfg)
    (set_net rn (set_connected (<[m := false]> (connected cfg)) cfg)))).

Lemma detached_twice m cfg cfg' :
  (m < length (saved cfg))%nat -> saved cfg' = detached m cfg -> detached m cfg' = detached m cfg.
Proof.
  intros Hm Hs. unfold detached. rewrite Hs. unfold detached.
  destruct (saved cfg !! m) as [s|] eqn:E; [|by rewrite E].
  rewrite list_lookup_insert_eq by done. rewrite list_insert_insert_eq. f_equal.
  destruct (contents cfg s) as [p|]; done.
Qed.

Lemma crash1_result i cfg cfg' :
  wired cfg -> crash1 i cfg = Ret cfg' ->
  exists rn m, i = Z.of_nat m /\ (m < n cfg)%nat /\ cfg' = crashed m (DeleteServer i rn) cfg /\
    wired (set_net rn (set_connected (<[m := false]> (connected cfg)) cfg)) /\ same_ends (net cfg) rn.
Proof.
  intros W Hc. unfold crash1 in Hc. apply bind_ret_inv in Hc as (cfg1 & Hd & Hc).
  destruct (disconnect_wired i cfg cfg1 W Hd) as (Hi & W1 & E1 & Hs1).
  apply bind_ret_inv in Hc as (cfg2 & Hcp & Hc). apply copy_saved_result in Hcp as [_ E2].
  apply bind_ret_inv in Hc as (cfg3 & Hk & Hc). apply kill_current_result in Hk as E3.
  apply renew_saved_result in Hc as [_ E4]. set (m := Z.to_nat i) in *.
  exists (net cfg1), m. split_and!; [lia|lia| |by rewrite <- E1|done].
  assert (detached m (set_net (DeleteServer i (net cfg1)) cfg1) = detached m cfg) as Ed.
  { rewrite E1. unfold detached, contents. reflexivity. }
  assert (detached m cfg3 = detached m cfg) as Ed3.
  { rewrite <- Ed. apply detached_twice.
    - rewrite E1. cbn. rewrite (wd_saved _ W). lia.
    - by rewrite E3, E2. }
  rewrite E4, Ed3, E3, E2, Ed, E1. unfold crashed. reflexivity.
Qed.

Lemma detached_lookup m cfg i :
  (m < length (saved cfg))%nat ->
  detached m cfg !! i = if decide (i = m) then (fun s => Detached <$> contents cfg s) <$> saved cfg !! m else saved cfg !! i.
Proof.
  intros Hm. unfold detached. destruct (saved cfg !! m) as [s|] eqn:E; [|apply lookup_ge_None in E; lia].
  case_decide as Hd; [subst; by rewrite list_lookup_insert_eq|by rewrite list_lookup_insert_ne].
Qed.

Lemma length_detached m cfg : length (detached m cfg) = length (saved cfg).
Proof. unfold detached. destruct (saved cfg !! m); [apply length_insert|done]. Qed.

Lemma killed_peers_obj m cfg a : is_Some (objs (killed_peers m cfg) !! a) <-> is_Some (objs (peers_of cfg) !! a).
Proof.
  unfold killed_peers. destruct (rafts cfg !! m) as [[b|]|]; [|done..]. cbn. apply lookup_alter_is_Some.
Qed.

Lemma server_at_DeleteServer (i : nat) s (rn : @Network string Z _ _ _ _) :
  server_at (Z.of_nat i) (DeleteServer s rn) = if decide (Z.of_nat i = s) then None else server_at (Z.of_nat i) rn.
Proof.
  unfold server_at. cbn. rewrite lookup_insert. repeat case_decide; subst; done.
Qed.

Lemma none_insert (l : list (option addr)) m i a :
  (<[m := None]> l) !! i = Some (Some a) <-> i <> m /\ l !! i = Some (Some a).
Proof. rewrite list_lookup_insert_Some. split; [|intros [? ?]; right; done]. intros [(_ & ? & _)|[? ?]]; done. Qed.

Lemma crashed_wired m rn cfg :
  (m < n cfg)%nat -> wired cfg -> same_ends (net cfg) rn ->
  wired (set_net rn (set_connected (<[m := false]> (connected cfg)) cfg)) ->
  wired (crashed m (DeleteServer (Z.of_nat m) rn) cfg).
Proof.
  intros Hm W Hs W1. unfold crashed.
  split; cbn; rewrite ?length_detached, ?length_insert.
  - apply (wd_rafts _ W).
  - apply (wd_connected _ W).
  - apply (wd_saved _ W).
  - apply (wd_endnames _ W).
  - apply (wd_logs _ W).
  - apply (wd_row _ W).
  - apply (wd_end _ W1).
  - apply (wd_inj _ W).
  - apply (wd_leads _ W1).
  - intros i Hi. apply (wd_started _ W1). exact Hi.
  - apply (wd_enabled _ W1).
  - intros i a. rewrite none_insert, detached_lookup by (by rewrite (wd_saved _ W)).
    rewrite <- (wd_live _ W). case_decide as Hd; [|naive_solver]. subst. split; [|by intros [? _]].
    destruct (saved cfg !! m) as [s|]; [|done]. cbn. by destruct (contents cfg s).
  - intros i a [_ Hi]%none_insert. apply killed_peers_obj. by apply (wd_obj _ W i).
  - intros i i' a [_ Hi]%none_insert [_ Hi']%none_insert. by apply (wd_alone _ W i i' a).
  - intros a Ha. apply (wd_fresh _ W). rewrite killed_peers_obj in Ha. exact Ha.
  - intros i x. rewrite server_at_DeleteServer. case_decide as Hd; [done|]. intros Hx.
    destruct (wd_server _ W1 i x Hx) as (a & rs & Hr & Hx' & Hsv). exists a, rs. split_and!; [|done|done].
    apply none_insert. split; [lia|done].
  - intros i a [Hne Hi]%none_insert. rewrite server_at_DeleteServer, decide_False by lia. by apply (wd_up _ W1 i a).
  - apply (wd_mem _ W).
Qed.

(** ** Starting *)

(** What [make_ends] has done for the ends of the servers in [js]. *)
Definition ends_made (names : list string) (js : list Z) (rn rn' : @Network string Z _ _ _ _) : Prop :=
  servers rn' = servers rn /\
  (forall e, e ∈ ends rn' <-> e ∈ ends rn \/ exists j : nat, Z.of_nat j ∈ js /\ names !! j = Some e) /\
  (forall (j : nat) e, Z.of_nat j ∈ js -> names !! j = Some e ->
     (e ∉ ends rn) /\ server_of e rn' = Some (Z.of_nat j) /\ enabled_at e rn' = false) /\
  (forall e, (forall j : nat, Z.of_nat j ∈ js -> names !! j <> Some e) ->
     server_of e rn' = server_of e rn /\ enabled_at e rn' = enabled_at e rn) /\
  (forall (j j' : nat) e, Z.of_nat j ∈ js -> Z.of_nat j' ∈ js -> names !! j = Some e -> names !! j' = Some e -> j = j').

Lemma make_end_step names js (j : Z) rn rn1 rn2 :
  ends_made names js rn rn1 -> j ∉ js ->
  mbind (fun e => rn ← MakeEnd e rn1; Ret (Connect e j rn)) (idx names j) = Ret rn2 ->
  ends_made names (js ++ [j]) rn rn2.
Proof.
  intros (Hsv & Hin & Hmade & Hother & Hinj) Hj (e & He & Hm)%bind_ret_inv.
  apply idx_ret in He as [Hpos He]. apply bind_ret_inv in Hm as (rn3 & Hm & [= <-]).
  unfold MakeEnd in Hm. case_decide as Hd; [done|]. injection Hm as <-.
  destruct (Z_of_nat_complete j Hpos) as [m ->]. rewrite Nat2Z.id in He.
  assert (forall k : nat, Z.of_nat k ∈ js ++ [Z.of_nat m] <-> Z.of_nat k ∈ js \/ k = m) as Hjs.
  { intros k. rewrite elem_of_app, list_elem_of_singleton. naive_solver lia. }
  assert (forall k, Z.of_nat k ∈ js -> names !! k <> Some e) as Hnew.
  { intros k Hk Hke. apply Hd, Hin. right. by exists k. }
  assert (e ∉ ends rn) as Hold by (intros ?; apply Hd, Hin; by left).
  split_and!; [done| | | |].
  - intros e'. cbn. rewrite elem_of_union, elem_of_singleton, Hin. setoid_rewrite Hjs. naive_solver.
  - intros k e' Hk Hke. unfold server_of, enabled_at. cbn. rewrite !lookup_insert.
    apply Hjs in Hk as [Hk| ->].
    + rewrite !decide_False by (intros ->; by apply (Hnew k)). by apply Hmade.
    + simplify_eq. by rewrite !decide_True.
  - intros e' Hne. unfold server_of, enabled_at. cbn. rewrite !lookup_insert.
    assert (e <> e') by (intros ->; apply (Hne m); [apply Hjs; by right|done]).
    rewrite !decide_False by done. apply Hother. intros k Hk. apply Hne. apply Hjs. by left.
  - intros k k' e' [Hk| ->]%Hjs [Hk'| ->]%Hjs H1 H2; [by eapply Hinj|..]; simplify_eq; try done.
    + by destruct (Hnew k Hk).
    + by destruct (Hnew k' Hk').
Qed.

Lemma make_ends_made names k rn rn' :
  make_ends names (upto k) rn = Ret rn' -> ends_made names (upto k) rn rn'.
Proof.
  apply (for_each_preserves _ (fun js rn' => ends_made names js rn rn')).
  - intros pre j post rn1 rn2 Hl Hi Hb. eapply make_end_step; [exact Hi| |exact Hb].
    pose proof (NoDup_upto k) as Hnd. rewrite Hl in Hnd. apply NoDup_app in Hnd as (_ & Hd & _).
    intros Hin. apply (Hd j Hin). by left.
  - split_and!; [done|..]; set_solver.
Qed.

(** The state after server [m] was started with the ends [names] and the peer
    [rf]; [cfg] is the state after the crash. *)
Definition started (m : nat) (names : list string) (rf : Raft C) (rn : @Network string Z _ _ _ _) cfg : config :=
  let a := next_addr cfg in
  let ps := peers_of cfg in
  set_net (AddServer (Z.of_nat m) (Pos.succ a) rn)
    (set_mem (<[Pos.succ a := raft_server a]> (mem cfg)) (set_next (Pos.succ (Pos.succ a))
      (set_rafts (<[m := Some a]> (rafts cfg)) (set_saved (<[m := Some (Live a)]> (saved cfg))
        (set_peers (mkPeers (<[a := rf]> (objs ps)) (clock ps) (spawned ps))
          (set_endnames (<[m := Some names]> (endnames cfg)) cfg)))))).

(** The persister that a peer is started with. *)
Definition stored cfg (m : nat) : Persister := default MakePersister (saved cfg !! m ≫= contents cfg).

Lemma start1_result i names time cfg cfg' :
  wired cfg -> start1 i names time cfg = Ret cfg' ->
  exists m cfg1 rn rf, i = Z.of_nat m /\ (m < n cfg)%nat /\ crash1 i cfg = Ret cfg1 /\
    make_ends names (upto (n cfg)) (net cfg1) = Ret rn /\
    Make (n cfg) i (stored cfg1 m) (now cfg1) time  = Ret rf /\
    cfg' = started m names rf rn cfg1.
Proof.
  intros W (cfg1 & Hc & Hs)%bind_ret_inv.
  destruct (crash1_result i cfg cfg1 W Hc) as (rn0 & m & -> & Hm & E1 & _ & _).
  assert (n cfg1 = n cfg) as En by (by rewrite E1).
  exists m, cfg1. apply bind_ret_inv in Hs as (es & Hes & Hs). apply idx_set_ret in Hes as [_ ->].
  rewrite Nat2Z.id in Hs. apply bind_ret_inv in Hs as (rn & Hrn & Hs). exists rn.
  apply bind_ret_inv in Hs as (s & Hsv%idx_nat & Hs). apply bind_ret_inv in Hs as (p & Hp & Hs).
  apply bind_ret_inv in Hs as (rf & Hrf & Hs). exists rf.
  apply bind_ret_inv in Hs as (ss & Hss & Hs). apply idx_set_ret in Hss as [_ ->].
  apply bind_ret_inv in Hs as (rs & Hrs & Hs). apply idx_set_ret in Hrs as [_ ->].
  rewrite !Nat2Z.id in Hs. injection Hs as <-.
  cbn [n set_net set_endnames net saved now peers_of] in *. rewrite En in Hrn, Hrf.
  assert (p = stored cfg1 m) as ->.
  { unfold stored. rewrite Hsv. destruct s as [s|]; [|by injection Hp].
    apply bind_ret_inv in Hp as (p' & Hp'%read_saved_contents & [= <-]). destruct p'.
    cbn [mbind option_bind]. unfold contents in Hp' |- *. cbn [peers_of set_net set_endnames] in Hp'. by rewrite Hp'. }
  split_and!; done.
Qed.

Lemma started_named m names rf rn cfg i j e :
  (m < length (endnames cfg))%nat ->
  named (started m names rf rn cfg) i j e <->
    if decide (i = m) then names !! j = Some e else named cfg i j e.
Proof.
  intros Hm. unfold named. cbn. case_decide as Hd.
  - subst. rewrite list_lookup_insert_eq by done. naive_solver.
  - by rewrite list_lookup_insert_ne.
Qed.

Lemma started_wired m names rf rn cfg :
  (m < n cfg)%nat -> length names = n cfg -> wired cfg -> ~ on_net cfg m ->
  make_ends names (upto (n cfg)) (net cfg) = Ret rn ->
  wired (started m names rf rn cfg).
Proof.
  intros Hm Hl W Hoff Hme. apply make_ends_made in Hme as (Hsv & Hin & Hmade & Hother & Hinj).
  assert (forall (j : nat) e, names !! j = Some e -> Z.of_nat j ∈ upto (n cfg)) as Hup.
  { intros j e Hj. apply elem_of_upto. apply lookup_lt_Some in Hj. lia. }
  assert (forall i j e, named (started m names rf rn cfg) i j e <->
            if decide (i = m) then names !! j = Some e else named cfg i j e) as Hn.
  { intros i j e. apply started_named. by rewrite (wd_endnames _ W). }
  assert (forall i j e, named cfg i j e -> forall k : nat, names !! k <> Some e) as Hfresh.
  { intros i j e He k Hk. destruct (Hmade k e (Hup k e Hk) Hk) as [Hx _]. by apply Hx, (wd_end _ W i j). }
  assert (forall a, is_Some (objs (peers_of cfg) !! a) -> a <> next_addr cfg) as Hnew.
  { intros a Ha ->. pose proof (wd_fresh _ W (next_addr cfg) (or_introl Ha)). lia. }
  split; cbn -[lookup insert]; rewrite ?length_insert.
  - apply (wd_rafts _ W).
  - apply (wd_connected _ W).
  - apply (wd_saved _ W).
  - apply (wd_endnames _ W).
  - apply (wd_logs _ W).
  - intros i row. rewrite list_lookup_insert_Some. intros [(_ & [= <-] & _)|[_ Hi]]; [done|by apply (wd_row _ W i)].
  - intros i j e Hij%Hn. apply Hin. case_decide; [|left; by apply (wd_end _ W i j)]. right. eauto.
  - intros i j i' j' e He%Hn He'%Hn. repeat case_decide; subst.
    + split; [done|]. eapply Hinj; eauto.
    + by destruct (Hfresh i j e He j').
    + by destruct (Hfresh i' j' e He' j).
    + by apply (wd_inj _ W _ _ _ _ e).
  - intros i j e He%Hn. case_decide; [by apply (Hmade j e (Hup j e He))|].
    destruct (Hother e) as [Hso _]; [intros k _; by eapply Hfresh|].
    unfold server_of in Hso |- *. cbn. rewrite Hso. by apply (wd_leads _ W i).
  - intros i Hi. change (on_net cfg i) in Hi. destruct (wd_started _ W i Hi) as [row Hr].
    destruct (decide (i = m)) as [->|Hne]; [done|]. exists row. by rewrite list_lookup_insert_ne.
  - intros e. change (enabled_at e (AddServer (Z.of_nat m) (Pos.succ (next_addr cfg)) rn)) with (enabled_at e rn).
    unfold on_net. cbn [connected started set_net set_mem set_next set_rafts set_saved set_peers set_endnames].
    fold (on_net cfg). setoid_rewrite Hn.
    destruct (decide (exists k : fin (n cfg), names !! (fin_to_nat k) = Some e)) as [[k Hk]|Hno].
    + destruct (Hmade k e (Hup k e Hk) Hk) as (_ & _ & ->). split; [done|].
      intros (i & j & He & Hi & Hj). case_decide; [by subst|]. by destruct (Hfresh i j e He k).
    + assert (forall k : nat, names !! k <> Some e) as Hno'.
      { intros k Hk. assert (k < n cfg)%nat as Hlt by (apply lookup_lt_Some in Hk; lia).
        apply Hno. exists (nat_to_fin Hlt). by rewrite fin_to_nat_to_fin. }
      destruct (Hother e) as [_ ->]; [intros k _; apply Hno'|]. rewrite (wd_enabled _ W e).
      split; intros (i & j & He & Hi & Hj); exists i, j; (split; [|done]).
      * rewrite decide_False; [done|]. by intros ->.
      * case_decide; [by destruct (Hno' j)|done].
  - intros i a. destruct (decide (i = m)) as [->|Hne].
    + rewrite !list_lookup_insert_eq by (rewrite ?(wd_saved _ W), ?(wd_rafts _ W); done). naive_solver.
    + rewrite !list_lookup_insert_ne by done. apply (wd_live _ W).
  - intros i a. rewrite lookup_insert. destruct (decide (i = m)) as [->|Hne].
    + rewrite list_lookup_insert_eq by (by rewrite (wd_rafts _ W)). intros [= <-]. by rewrite decide_True.
    + rewrite list_lookup_insert_ne by done. intros Hi. case_decide; [by eexists|]. by apply (wd_obj _ W i).
  - intros i i' a. rewrite !list_lookup_insert_Some. pose proof (wd_obj _ W) as Ho.
    intros [(Ei & [= <-] & _)|[Hi Hr]] [(Ei' & E & _)|[Hi' Hr']]; [congruence|..].
    + destruct (Hnew _ (Ho _ _ Hr') eq_refl).
    + injection E as <-. destruct (Hnew _ (Ho _ _ Hr) eq_refl).
    + by apply (wd_alone _ W i i' a).
  - intros a. rewrite !lookup_insert. pose proof (wd_fresh _ W a) as Hf.
    intros Ha. repeat case_decide; subst; try lia. specialize (Hf Ha). lia.
  - intros i x. unfold server_at. cbn. rewrite lookup_insert. case_decide as Hd.
    + replace i with m by lia. intros [= <-]. exists (next_addr cfg), (raft_server (next_addr cfg)).
      rewrite list_lookup_insert_eq by (by rewrite (wd_rafts _ W)). rewrite lookup_insert_eq. split_and!; [done|done|].
      unfold raft_server, AddService. cbn [services]. by rewrite lookup_insert_eq.
    + rewrite Hsv. intros Hx. destruct (wd_server _ W i x Hx) as (a & rs & Hr & Hx' & Hs).
      exists a, rs. rewrite list_lookup_insert_ne by lia. rewrite lookup_insert_ne; [done|].
      pose proof (wd_fresh _ W x (or_intror (mk_is_Some _ _ Hx'))). lia.
  - intros i a. unfold server_at. cbn. rewrite lookup_insert. case_decide as Hd; [by eexists|].
    rewrite list_lookup_insert_ne by (intros ->; by destruct Hd). rewrite Hsv. apply (wd_up _ W).
  - intros x rs. rewrite lookup_insert. case_decide; [|apply (wd_mem _ W)]. intros [= <-]. by exists (next_addr cfg).
Qed.

Lemma crash1_wired i cfg cfg' : wired cfg -> crash1 i cfg = Ret cfg' -> wired cfg'.
Proof.
  intros W Hc. destruct (crash1_result i cfg cfg' W Hc) as (rn & m & -> & Hm & -> & W1 & Hs).
  by apply crashed_wired.
Qed.

Lemma crashed_off m rn cfg : wired cfg -> (m < n cfg)%nat -> ~ on_net (crashed m rn cfg) m.
Proof.
  intros W Hm. unfold on_net. cbn. by rewrite list_lookup_insert_eq by (by rewrite (wd_connected _ W)).
Qed.

Lemma start1_wired i names time cfg cfg' :
  wired cfg -> length names = n cfg -> start1 i names time cfg = Ret cfg' -> wired cfg'.
Proof.
  intros W Hl Hs. destruct (start1_result i names time cfg cfg' W Hs) as (m & cfg1 & rn & rf & -> & Hm & Hc & Hme & _ & ->).
  assert (wired cfg1) as W1 by (by eapply crash1_wired).
  destruct (crash1_result _ cfg cfg1 W Hc) as (rn0 & m' & ?%Nat2Z.inj & _ & E1 & _ & _). subst m'.
  assert (n cfg1 = n cfg) as En by (by rewrite E1).
  apply started_wired; rewrite ?En; try done. rewrite E1. by apply crashed_off.
Qed.

(** ** The state that the tester begins with *)

Lemma empty_config_wired k time ps :
  objs ps = ∅ -> wired (empty_config k time ps).
Proof.
  intros Ho. assert (forall i j e, ~ named (empty_config k time ps) i j e) as Hn.
  { intros i j e (row & Hr & _). cbn in Hr. apply lookup_replicate in Hr as [? _]. done. }
  split; cbn; rewrite ?length_replicate; try done; try (intros; by destruct (Hn _ _ _ ltac:(eassumption))).
  - intros i row Hr. by apply lookup_replicate in Hr as [? _].
  - intros i Hi. unfold on_net in Hi. cbn in Hi. by apply lookup_replicate in Hi as [? _].
  - intros e. split; [done|]. intros (i & j & He & _). by destruct (Hn i j e).
  - intros i a. rewrite !lookup_replicate. naive_solver.
  - intros i a Hi. by apply lookup_replicate in Hi as [? _].
  - intros i i' a Hi. by apply lookup_replicate in Hi as [? _].
  - intros a. rewrite Ho, !lookup_empty. intros [[? ?]|[? ?]]; done.
  - intros i a Hi. by apply lookup_replicate in Hi as [? _].
Qed.

(** Changes that do not matter to the wiring. *)
Lemma wired_logs ls mx cfg : wired cfg -> length ls = n cfg -> wired (set_logs ls mx cfg).
Proof. by intros [] ?. Qed.

Lemma wired_peers ps cfg : wired cfg -> dom (objs ps) = dom (objs (peers_of cfg)) -> wired (set_peers ps cfg).
Proof.
  intros [] Hd.
  assert (forall a, is_Some (objs ps !! a) <-> is_Some (objs (peers_of cfg) !! a)) as Ho.
  { intros a. by rewrite <- !elem_of_dom, Hd. }
  split; cbn; try done.
  - intros i a Hi. apply Ho. eauto.
  - intros a. rewrite Ho. eauto.
Qed.

Lemma wired_flags rn cfg :
  wired cfg -> ends rn = ends (net cfg) -> enabled rn = enabled (net cfg) -> servers rn = servers (net cfg) ->
  connections rn = connections (net cfg) -> wired (set_net rn cfg).
Proof.
  intros [] E1 E2 E3 E4. split; cbn; unfold server_of, server_at, enabled_at in *; rewrite ?E1, ?E2, ?E3, ?E4; done.
Qed.
End wiring.
