(* ===== verification/RaftSystem.v ===== *)
(** * The tester, the network and the peers together

    The steps that change the tester's state: its own operations, the
    messages that it reads, what the peers do by themselves, and the actions
    of calls on the network, whose handlers run on the peers.  Every state
    that the tester can reach is wired; an instance of a peer that was
    restarted cannot make calls any more, and it cannot change what the new
    instance starts from. *)

From S2P Require Import Prelude Codec GoSlice Raft RaftGob RaftOps Labrpc LabrpcSpec RaftRpc RaftConfig RaftWiring.

(** ** What an action of a call can change *)

Section frame.
Context {V T W EN SN : Type} `{R : !Reflect V T W} `{EqDecision EN} `{!Countable EN} `{EqDecision SN} `{!Countable SN}.
Implicit Types (rn : @Network EN SN _ _ _ _).

(** Two networks that differ in the statistics at most. *)
Definition same_net rn rn' : Prop :=
  ends rn' = ends rn /\ enabled rn' = enabled rn /\ servers rn' = servers rn /\ connections rn' = connections rn.

Definition served (req : @reqMsg T EN) (σ σ' : @sys V T W EN SN _ _ _ _) : Prop :=
  Labrpc.mem σ' = Labrpc.mem σ /\ world σ' = world σ \/
  exists x rs rs' r, Labrpc.mem σ !! x = Some rs /\ server_dispatch req rs (world σ) = Ret (rs', world σ', r) /\
    Labrpc.mem σ' = <[x := rs']> (Labrpc.mem σ).

Lemma call_step_frame req a (σ σ' : @sys V T W EN SN _ _ _ _) (c c' : @call SN) :
  quiet a -> call_step req a σ c = Some (Ret (σ', c')) ->
  same_net (Labrpc.net σ) (Labrpc.net σ') /\ served req σ σ'.
Proof.
  intros Hq Hs. unfold same_net, served. destruct a; cbn in Hs, Hq; try done.
  5: { destruct (hnd c) as [|x| |]; try done. destruct (Labrpc.mem σ !! x) as [rs|] eqn:Hx; [|done].
    injection Hs as Hs. apply bind_ret_inv in Hs as ([[rs' w] r] & Hd & [= <- <-]).
    split; [done|]. right. by exists x, rs, rs', r. }
  all: destruct (at_pc c) as [| |? |? |? [?|]|? []|?]; try done; cbn in Hs.
  all: unfold finish, count_bytes in Hs.
  all: repeat case_match; simplify_eq/=; try done; (split; [done|by left]).
Qed.
End frame.

Section system.
Context {C : Type} `{!Command C, !Gob C, !AppendGrowth, !WireGob}.
Abbreviation config := (@config C).
Abbreviation request := (@reqMsg rtype string).
Implicit Types (cfg : config) (req : request).

(** The network as [Labrpc] sees it. *)
Definition system_of cfg : sys := mkSys (net cfg) (mem cfg) (peers_of cfg).
Definition with_system (σ : sys) cfg : config :=
  set_net (Labrpc.net σ) (set_mem (Labrpc.mem σ) (set_peers (world σ) cfg)).

Inductive tester_step : config -> config -> Prop :=
  | step_start1 i names time cfg cfg' :
      length names = n cfg -> start1 i names time cfg = Ret cfg' -> tester_step cfg cfg'
  | step_crash1 i cfg cfg' : crash1 i cfg = Ret cfg' -> tester_step cfg cfg'
  | step_connect i cfg cfg' : connect i cfg = Ret cfg' -> tester_step cfg cfg'
  | step_disconnect i cfg cfg' : disconnect i cfg = Ret cfg' -> tester_step cfg cfg'
  | step_applier i m cfg cfg' : applier i m cfg = Ret cfg' -> tester_step cfg cfg'
  | step_applierSnap i m last last' cfg cfg' : applierSnap i m last cfg = Ret (cfg', last') -> tester_step cfg cfg'
  | step_setunreliable b cfg : tester_step cfg (setunreliable b cfg)
  | step_setlongreordering b cfg : tester_step cfg (setlongreordering b cfg)
  | step_call req a c c' σ cfg :
      quiet a -> call_step req a (system_of cfg) c = Some (Ret (σ, c')) -> tester_step cfg (with_system σ cfg)
  | step_peers ps cfg :
      dom (objs ps) = dom (objs (peers_of cfg)) -> tester_step cfg (set_peers ps cfg).

(** One call followed while the rest of the system runs. *)
Inductive follow (req : request) : config * call -> config * call -> Prop :=
  | follow_tester cfg cfg' c : tester_step cfg cfg' -> follow req (cfg, c) (cfg', c)
  | follow_call a c c' σ cfg :
      quiet a -> call_step req a (system_of cfg) c = Some (Ret (σ, c')) ->
      follow req (cfg, c) (with_system σ cfg, c').

(** ** Every step keeps the wiring *)

Lemma raft_methods a mname m : methods (raft_service a) !! mname = Some m -> Func m = raft_method.
Proof. rewrite raft_service_methods. repeat case_decide; [by intros [= <-]..|done]. Qed.

Lemma raft_method_dom recv x r (w w' : peers_state C) v :
  raft_method recv x r w = Ret (w', v) -> dom (objs w') = dom (objs w).
Proof.
  unfold raft_method. destruct recv as [p| | | | | | |]; try done.
  destruct (objs w !! p) as [rf|] eqn:Hp; [|done].
  intros ([[rf' r'] ts] & _ & [= <- <-])%bind_ret_inv. cbn. rewrite dom_insert_lookup_L; [done|by eexists].
Qed.

Lemma dispatch_frame req a (rs rs' : Server) (w w' : peers_state C) r :
  services rs = {["Raft" := raft_service a]} -> server_dispatch req rs w = Ret (rs', w', r) ->
  services rs' = services rs /\ dom (objs w') = dom (objs w).
Proof.
  intros Hs Hd. unfold server_dispatch in Hd.
  apply bind_ret_inv in Hd as (sn & _ & Hd). apply bind_ret_inv in Hd as (mn & _ & Hd). cbn [services] in Hd.
  rewrite Hs in Hd. destruct (decide (sn = "Raft")) as [->|Hne]; [|by rewrite lookup_singleton_ne in Hd].
  rewrite lookup_singleton_eq in Hd. apply bind_ret_inv in Hd as ([w1 r1] & Hd & [= <- <- <-]).
  split; [by rewrite Hs|]. unfold service_dispatch in Hd.
  destruct (methods (raft_service a) !! mn) as [m|] eqn:Hm; [|done]. destruct (gob_decode _ _) as [x ?].
  destruct (In m) as [|? [|t [|t' [|]]]]; try done. case_decide; [|done].
  apply bind_ret_inv in Hd as ([w2 v] & Hf & [= <- _]). rewrite (raft_methods _ _ _ Hm) in Hf.
  by eapply raft_method_dom.
Qed.

Lemma with_system_wired req σ cfg :
  wired cfg -> same_net (net cfg) (Labrpc.net σ) -> served req (system_of cfg) σ -> wired (with_system σ cfg).
Proof.
  intros W (E1 & E2 & E3 & E4) Hs.
  assert (dom (objs (world σ)) = dom (objs (peers_of cfg)) /\
    (forall x rs, Labrpc.mem σ !! x = Some rs -> exists rs0, mem cfg !! x = Some rs0 /\ services rs = services rs0) /\
    (forall x rs, mem cfg !! x = Some rs -> exists rs1, Labrpc.mem σ !! x = Some rs1 /\ services rs1 = services rs))
    as (Hd & Hm & Hm').
  { destruct Hs as [[Em Ew]|(x & rs & rs' & r & Hx & Hd & Em)]; cbn in *.
    - rewrite Em, Ew. naive_solver.
    - destruct (wd_mem _ W x rs Hx) as [a Ha]. destruct (dispatch_frame req a rs rs' _ _ r Ha Hd) as [Hsv Hdom].
      split; [done|]. rewrite Em. split; intros y ry; rewrite lookup_insert; case_decide; subst; naive_solver. }
  assert (wired (set_net (Labrpc.net σ) (set_peers (world σ) cfg))) as []
    by (apply wired_flags; [by apply wired_peers|done..]).
  split; cbn in *; try done.
  - intros x [Hx|[rs Hx]]; [eauto|]. destruct (Hm x rs Hx) as (rs0 & Hx0 & _). eauto.
  - intros i x Hx. destruct (wd_server i x Hx) as (a & rs & Hr & Hx' & Hsv).
    destruct (Hm' x rs Hx') as (rs1 & Hx1 & Heq). exists a, rs1. by rewrite Heq.
  - intros x rs Hx. destruct (Hm x rs Hx) as (rs0 & Hx0 & ->). eauto.
Qed.

Lemma call_wired req a c c' σ cfg :
  wired cfg -> quiet a -> call_step req a (system_of cfg) c = Some (Ret (σ, c')) -> wired (with_system σ cfg).
Proof. intros W Hq Hs. apply call_step_frame in Hs as [Hn Hsv]; [|done]. by eapply with_system_wired. Qed.

(** The tables of commands are all that [check_command] changes. *)
Lemma check_command_result i m cfg cfg' :
  check_command i m cfg = Ret cfg' -> exists ls mx, cfg' = set_logs ls mx cfg /\ length ls = length (logs cfg).
Proof.
  unfold check_command. intros ([[cfg1 err] prevok] & Hc & Hr)%bind_ret_inv.
  assert (cfg' = cfg1) as -> by (destruct ((1 <? CommandIndex m) && negb prevok), err; congruence).
  unfold checkLogs in Hc. apply bind_ret_inv in Hc as (l & _ & Hc). apply bind_ret_inv in Hc as (ls & Hls & [= <- _ _]).
  apply idx_set_ret in Hls as [_ ->]. do 2 eexists. split; [done|]. apply length_insert.
Qed.

Lemma check_command_wired i m cfg cfg' : wired cfg -> check_command i m cfg = Ret cfg' -> wired cfg'.
Proof.
  intros W (ls & mx & -> & Hl)%check_command_result. apply wired_logs; [done|]. by rewrite Hl, (wd_logs _ W).
Qed.

Lemma applier_wired i m cfg cfg' : wired cfg -> applier i m cfg = Ret cfg' -> wired cfg'.
Proof.
  intros W. unfold applier. destruct (CommandValid m); [by apply check_command_wired|]. by intros [= <-].
Qed.

Lemma applierSnap_wired i m last last' cfg cfg' :
  wired cfg -> applierSnap i m last cfg = Ret (cfg', last') -> wired cfg'.
Proof.
  intros W Ha. unfold applierSnap in Ha. destruct (SnapshotValid m).
  - apply bind_ret_inv in Ha as (r & _ & Ha). destruct r as [a|]; [|done].
    destruct (objs (peers_of cfg) !! a) as [rf|] eqn:Ho; [|done].
    apply bind_ret_inv in Ha as ([rf' inst] & _ & Ha).
    assert (wired (set_peers (mkPeers (<[a := rf']> (objs (peers_of cfg))) (clock (peers_of cfg)) (spawned (peers_of cfg))) cfg)) as W1.
    { apply wired_peers; [done|]. cbn. rewrite dom_insert_lookup_L; [done|by eexists]. }
    destruct inst; [|by injection Ha as <- _]. destruct (decode_int (am_Snapshot m)); [|done].
    apply bind_ret_inv in Ha as (ls & Hls & [= <- _]). apply idx_set_ret in Hls as [_ ->].
    apply wired_logs; [done|]. rewrite length_insert. apply (wd_logs _ W).
  - case_match; [|by injection Ha as <- _]. apply bind_ret_inv in Ha as (cfg1 & Hc & Ha).
    assert (wired cfg1) as W1 by (by eapply check_command_wired). case_match; [|by injection Ha as <- _].
    apply bind_ret_inv in Ha as (r & _ & Ha). destruct r as [a|]; [|done]. injection Ha as <- _.
    by apply wired_peers.
Qed.

Lemma tester_step_wired cfg cfg' : wired cfg -> tester_step cfg cfg' -> wired cfg'.
Proof.
  intros W. destruct 1.
  - by eapply start1_wired.
  - by eapply crash1_wired.
  - by eapply connect_wired.
  - by eapply disconnect_wired.
  - by eapply applier_wired.
  - by eapply applierSnap_wired.
  - by apply wired_flags.
  - by apply wired_flags.
  - by eapply call_wired.
  - by apply wired_peers.
Qed.

(** ** The states of a test *)

Lemma make_config_wired k unreliable names times time cfg :
  (forall i, length (names i) = k) -> make_config k unreliable names times time = Ret cfg ->
  wired cfg /\ n cfg = k.
Proof.
  intros Hl (cfg1 & H1 & H2)%bind_ret_inv.
  assert (wired cfg1 /\ n cfg1 = k) as [W1 En].
  { revert H1. apply (for_each_preserves _ (fun _ cfg => wired cfg /\ n cfg = k)).
    - intros pre i post c c' _ [W En] Hs. apply bind_ret_inv in Hs as (ls & Hls & Hs).
      apply idx_set_ret in Hls as [_ ->].
      assert (wired (set_logs (<[Z.to_nat i:=∅]> (logs c)) (maxIndex c) c)) as W'.
      { apply wired_logs; [done|]. rewrite length_insert. apply (wd_logs _ W). }
      split; [eapply start1_wired; [exact W'| |exact Hs]; cbn; by rewrite Hl|].
      destruct (start1_result _ _ _ _ _ W' Hs) as (m & c1 & rn & rf & -> & _ & Hc & _ & _ & ->).
      destruct (crash1_result _ _ _ W' Hc) as (? & ? & _ & _ & -> & _). done.
    - split; [|done]. apply wired_flags; [|done..]. apply wired_flags; [|done..]. by apply empty_config_wired. }
  revert H2. apply (for_each_preserves _ (fun _ cfg => wired cfg /\ n cfg = k)); [|done].
  intros pre i post c c' _ [W E] Hc. split; [by eapply connect_wired|].
  unfold connect in Hc. apply bind_ret_inv in Hc as (cs & _ & Hc). apply bind_ret_inv in Hc as (r1 & _ & Hc).
  by apply bind_ret_inv in Hc as (r2 & _ & [= <-]).
Qed.

Inductive in_test (k : nat) : config -> Prop :=
  | test_made unreliable names times time cfg :
      (forall i, length (names i) = k) -> make_config k unreliable names times time = Ret cfg -> in_test k cfg
  | test_step cfg cfg' : in_test k cfg -> tester_step cfg cfg' -> in_test k cfg'.

Lemma in_test_wired k cfg : in_test k cfg -> wired cfg.
Proof.
  induction 1 as [unreliable names times time cfg Hl Hm|cfg cfg' _ IH Hs].
  - by eapply make_config_wired.
  - by eapply tester_step_wired.
Qed.

Lemma connect_result i cfg cfg' :
  connect i cfg = Ret cfg' -> exists rn cs, cfg' = set_net rn (set_connected cs cfg).
Proof.
  intros (cs & _ & Hc)%bind_ret_inv. apply bind_ret_inv in Hc as (r1 & _ & Hc).
  apply bind_ret_inv in Hc as (r2 & _ & [= <-]). eauto.
Qed.

(** The ends that exist and the tables of names, after a step. *)
Definition stale (e : string) cfg : Prop := e ∈ ends (net cfg) /\ forall i j, ~ named cfg i j e.

(** What a step other than a start keeps. *)
Record same_wires cfg cfg' : Prop := {
  sw_n : n cfg' = n cfg;
  sw_ends : ends (net cfg') = ends (net cfg);
  sw_endnames : endnames cfg' = endnames cfg;
  sw_saved : forall i p, saved cfg !! i = Some (Some (Detached p)) -> saved cfg' !! i = Some (Some (Detached p));
}.

Lemma same_wires_intro cfg cfg' :
  n cfg' = n cfg -> ends (net cfg') = ends (net cfg) -> endnames cfg' = endnames cfg -> saved cfg' = saved cfg ->
  same_wires cfg cfg'.
Proof. intros ? ? ? E. split; [done..|]. by rewrite E. Qed.

Lemma connect_ends i cfg cfg' : wired cfg -> connect i cfg = Ret cfg' -> ends (net cfg') = ends (net cfg).
Proof.
  intros W (cs & Hcs & Hc)%bind_ret_inv. apply idx_set_ret in Hcs as [Hi _].
  destruct (Z_of_nat_complete i ltac:(lia)) as [m ->].
  apply bind_ret_inv in Hc as (r1 & H1 & Hc). apply bind_ret_inv in Hc as (r2 & H2 & [= <-]).
  by destruct (connect_loops m _ _ _ _ H1 H2) as ((He & _) & _).
Qed.

Lemma crash1_same_wires i cfg cfg' : wired cfg -> crash1 i cfg = Ret cfg' -> same_wires cfg cfg'.
Proof.
  intros W Hc. destruct (crash1_result i cfg cfg' W Hc) as (rn & m & -> & Hm & -> & _ & (He & _)).
  split; [done|done|done|]. intros j p Hj. cbn. rewrite detached_lookup by (by rewrite (wd_saved _ W)).
  case_decide; [|done]. subst. by rewrite Hj.
Qed.

Lemma applierSnap_result i m last last' cfg cfg' :
  applierSnap i m last cfg = Ret (cfg', last') -> exists ps ls mx, cfg' = set_logs ls mx (set_peers ps cfg).
Proof.
  assert (forall cfg : config, cfg = set_logs (logs cfg) (maxIndex cfg) (set_peers (peers_of cfg) cfg)) as Hid by (by intros []).
  intros Ha. unfold applierSnap in Ha. destruct (SnapshotValid m).
  - apply bind_ret_inv in Ha as (r & _ & Ha). destruct r as [a|]; [|done].
    destruct (objs (peers_of cfg) !! a) as [rf|]; [|done].
    apply bind_ret_inv in Ha as ([rf' inst] & _ & Ha). destruct inst.
    + destruct (decode_int (am_Snapshot m)); [|done]. apply bind_ret_inv in Ha as (ls & _ & [= <- _]). by do 3 eexists.
    + injection Ha as <- _. rewrite (Hid (set_peers _ cfg)). by do 3 eexists.
  - case_match; [|injection Ha as <- _; rewrite (Hid cfg); by do 3 eexists].
    apply bind_ret_inv in Ha as (cfg1 & (ls & mx & -> & _)%check_command_result & Ha).
    case_match; [|injection Ha as <- _; exists (peers_of cfg), ls, mx; by destruct cfg].
    apply bind_ret_inv in Ha as (r & _ & Ha). destruct r as [a|]; [|done]. injection Ha as <- _. by do 3 eexists.
Qed.

Lemma step_cases cfg cfg' :
  wired cfg -> tester_step cfg cfg' ->
  (exists i names time, length names = n cfg /\ start1 i names time cfg = Ret cfg') \/ same_wires cfg cfg'.
Proof.
  intros W Hs. destruct Hs as [i names time cfg cfg' Hl Hs|i cfg cfg' Hc|i cfg cfg' Hc|i cfg cfg' Hc|i m cfg cfg' Ha
    |i m la la' cfg cfg' Ha|b cfg|b cfg|req a c c' σ cfg Hq Hc|ps cfg Hd]; [left; by eauto|right..].
  - by eapply crash1_same_wires.
  - pose proof (connect_ends _ _ _ W Hc). apply connect_result in Hc as (rn & cs & ->). by apply same_wires_intro.
  - destruct (disconnect_wired _ _ _ W Hc) as (_ & _ & E & (He & _)). rewrite E. by apply same_wires_intro.
  - unfold applier in Ha. destruct (CommandValid m).
    + apply check_command_result in Ha as (ls & mx & -> & _). by apply same_wires_intro.
    + injection Ha as <-. by apply same_wires_intro.
  - apply applierSnap_result in Ha as (ps & ls & mx & ->). by apply same_wires_intro.
  - by apply same_wires_intro.
  - by apply same_wires_intro.
  - apply call_step_frame in Hc as [(He & _) _]; [|done]. by apply same_wires_intro.
  - by apply same_wires_intro.
Qed.

(** What a start does to the names. *)
Lemma start1_names i names time cfg cfg' :
  wired cfg -> length names = n cfg -> start1 i names time cfg = Ret cfg' ->
  exists m, i = Z.of_nat m /\ n cfg' = n cfg /\
    (forall e, e ∈ ends (net cfg) -> e ∈ ends (net cfg')) /\
    (forall i' j e, named cfg' i' j e -> if decide (i' = m) then e ∉ ends (net cfg) else named cfg i' j e).
Proof.
  intros W Hl Hs. destruct (start1_result i names time cfg cfg' W Hs) as (m & cfg1 & rn & rf & -> & Hm & Hc & Hme & _ & ->).
  exists m. destruct (crash1_same_wires _ _ _ W Hc) as [En Ee Ed _]. apply make_ends_made in Hme as (_ & Hin & Hmade & _ & _).
  split_and!; [done|done|intros e He; apply Hin; left; by rewrite Ee|].
  intros i' j e Hn. apply started_named in Hn; [|by rewrite Ed, (wd_endnames _ W)].
  case_decide; [|unfold named in Hn; by rewrite Ed in Hn].
  rewrite <- Ee. apply (Hmade j e); [|done]. apply elem_of_upto. apply lookup_lt_Some in Hn. lia.
Qed.

Lemma stale_step e cfg cfg' : wired cfg -> tester_step cfg cfg' -> stale e cfg -> stale e cfg'.
Proof.
  intros W Hs [He Hn]. destruct (step_cases _ _ W Hs) as [(i & names & time & Hl & Hst)|[_ Ee Ed _]].
  - destruct (start1_names i names time cfg cfg' W Hl Hst) as (m & _ & _ & Hends & Hnm). split; [by apply Hends|].
    intros i' j Hx%Hnm. case_decide; [done|]. by apply (Hn i' j).
  - split; [by rewrite Ee|]. intros i' j. unfold named. rewrite Ed. apply Hn.
Qed.

Lemma stale_start i names time cfg cfg' j e :
  wired cfg -> length names = n cfg -> start1 (Z.of_nat i) names time cfg = Ret cfg' -> named cfg i j e -> stale e cfg'.
Proof.
  intros W Hl Hs He. destruct (start1_names _ names time cfg cfg' W Hl Hs) as (m & <-%Nat2Z.inj & _ & Hends & Hnm).
  pose proof (wd_end _ W i j e He) as Hin. split; [by apply Hends|].
  intros i' j' Hx%Hnm. case_decide as Hd; [done|]. by destruct (wd_inj _ W _ _ _ _ _ He Hx).
Qed.

Lemma stale_disabled e cfg : wired cfg -> stale e cfg -> enabled_at e (net cfg) = false.
Proof.
  intros W [_ Hn]. apply not_true_iff_false. intros (i & j & Hx & _)%(wd_enabled _ W). by apply (Hn i j).
Qed.

Lemma tester_step_n cfg cfg' : wired cfg -> tester_step cfg cfg' -> n cfg' = n cfg.
Proof.
  intros W Hs. destruct (step_cases _ _ W Hs) as [(i & names & time & Hl & Hst)|[En _ _ _]]; [|done].
  by destruct (start1_names i names time cfg cfg' W Hl Hst) as (m & _ & En & _).
Qed.

Lemma in_test_n k cfg : in_test k cfg -> n cfg = k.
Proof.
  induction 1 as [unreliable names times time cfg Hl Hm|cfg cfg' Ht IH Hs]; [by eapply make_config_wired|].
  rewrite (tester_step_n cfg cfg'); [done| |done]. by eapply in_test_wired.
Qed.

(** ** A call over an end that is not in use any more *)

Lemma follow_tester_step req x y : follow req x y -> tester_step x.1 y.1.
Proof. destruct 1 as [cfg cfg' c Hs|a c c' σ cfg Hq Hs]; [done|]. cbn. by eapply step_call. Qed.

Lemma follow_call_inv req x y : follow req x y -> call_inv x.2 -> call_inv y.2.
Proof. destruct 1 as [|a c c' σ cfg Hq Hs]; [done|]. intros Hi. cbn. by eapply call_inv_step. Qed.

(** The call has no positive reply yet. *)
Definition pending (c : @call Z) : Prop := match at_pc c with PDone r => r = Labrpc.failed | PTimer _ b => b = false | _ => True end.

(** The request has not reached the server. *)
Definition unsent (c : @call Z) : Prop :=
  hnd c = HNone /\ executed c = [] /\ match at_pc c with PSend | PRead | PDone _ | PTimer _ _ => True | _ => False end.

Lemma disabled_step req a (σ σ' : @sys rvalue rtype (peers_state C) string Z _ _ _ _) c c' :
  enabled_at (endname req) (Labrpc.net σ) = false -> quiet a -> call_inv c ->
  call_step req a σ c = Some (Ret (σ', c')) -> (pending c -> pending c') /\ (unsent c -> unsent c').
Proof.
  intros He Hq Hi Hs. destruct c as [p h ex], Hi as [Hh Hp]. unfold pending, unsent. cbn in *.
  assert (forall x y, isServerDead (endname req) x y (Labrpc.net σ) = true) as Hdead.
  { intros x y. unfold isServerDead. by rewrite He. }
  assert (begin (readEndnameInfo (endname req) (Labrpc.net σ)) = PTimer Labrpc.failed false) as Hbeg.
  { unfold readEndnameInfo, begin. cbn. by rewrite He. }
  destruct a; cbn in Hs, Hq; try done.
  5: { destruct h as [|x| |]; try done. destruct (Labrpc.mem σ !! x) as [rs|]; [|done].
    injection Hs as Hs. apply bind_ret_inv in Hs as ([[rs' w] r] & Hd & [= <- <-]). split; [done|]. by intros [? _]. }
  all: destruct p as [| |t |t |t [m|]|m b|m]; try done; cbn in Hs; rewrite ?Hdead, ?Hbeg in Hs; cbn in Hs.
  all: repeat case_match; simplify_eq/=; try done; try naive_solver.
Qed.

Lemma stale_follow req x y :
  wired x.1 -> call_inv x.2 -> stale (endname req) x.1 -> rtc (follow req) x y ->
  (pending x.2 -> pending y.2) /\ (unsent x.2 -> unsent y.2).
Proof.
  intros W Hi Hst Hr. induction Hr as [x|x y z Hf _ IH]; [done|].
  assert ((pending x.2 -> pending y.2) /\ (unsent x.2 -> unsent y.2)) as [Hp Hu].
  { destruct Hf as [|a c c' σ cfg Hq Hs]; [done|]. cbn in *.
    apply (disabled_step req a (system_of cfg) σ c c'); try done. by apply stale_disabled. }
  assert (call_inv y.2) by (by eapply follow_call_inv).
  apply follow_tester_step in Hf as Hs.
  assert (wired y.1) by (by eapply tester_step_wired).
  assert (stale (endname req) y.1) by (by apply (stale_step _ x.1)). destruct (IH ltac:(done) ltac:(done) ltac:(done)); auto.
Qed.

Lemma follow_in_test k req x y : in_test k x.1 -> call_inv x.2 -> rtc (follow req) x y -> in_test k y.1 /\ call_inv y.2.
Proof.
  intros Ht Hi Hr. induction Hr as [x|x y z Hf _ IH]; [done|]. apply IH; [|by eapply follow_call_inv].
  apply follow_tester_step in Hf. by eapply test_step.
Qed.

(** ** What a restarted peer starts from *)

(** A step after which the server [i] is still down. *)
Definition while_down (i : nat) cfg cfg' : Prop := tester_step cfg cfg' /\ rafts cfg' !! i = Some None.

Lemma down_step i p cfg cfg' :
  wired cfg -> while_down i cfg cfg' -> saved cfg !! i = Some (Some (Detached p)) ->
  saved cfg' !! i = Some (Some (Detached p)).
Proof.
  intros W [Hs Hd] Hp. destruct (step_cases _ _ W Hs) as [(j & names & time & Hl & Hst)|[_ _ _ Hsv]]; [|by apply Hsv].
  destruct (start1_result j names time cfg cfg' W Hst) as (m & cfg1 & rn & rf & -> & Hm & Hc & _ & _ & ->). cbn in Hd |- *.
  destruct (crash1_same_wires _ _ _ W Hc) as [En _ _ Hsv]. pose proof (crash1_wired _ _ _ W Hc) as W1.
  destruct (decide (m = i)) as [->|Hne].
  - rewrite list_lookup_insert_eq in Hd; [done|]. rewrite (wd_rafts _ W1). lia.
  - rewrite list_lookup_insert_ne by done. by apply Hsv.
Qed.

Lemma down_steps i p cfg cfg' :
  wired cfg -> rtc (while_down i) cfg cfg' -> saved cfg !! i = Some (Some (Detached p)) ->
  wired cfg' /\ saved cfg' !! i = Some (Some (Detached p)).
Proof.
  intros W Hr. induction Hr as [cfg|cfg cfg1 cfg2 Hd _ IH]; [done|]. intros Hp.
  apply IH; [by eapply tester_step_wired, Hd|by eapply down_step].
Qed.

Lemma crash1_saves i cfg cfg' a rf :
  wired cfg -> crash1 (Z.of_nat i) cfg = Ret cfg' -> rafts cfg !! i = Some (Some a) ->
  objs (peers_of cfg) !! a = Some rf -> saved cfg' !! i = Some (Some (Detached (persister rf))).
Proof.
  intros W Hc Hr Ho. destruct (crash1_result _ cfg cfg' W Hc) as (rn & m & <-%Nat2Z.inj & Hm & -> & _). cbn.
  rewrite detached_lookup by (by rewrite (wd_saved _ W)). rewrite decide_True by done.
  apply (wd_live _ W) in Hr. rewrite Hr. cbn. by rewrite Ho.
Qed.

(** The peer made from a persister that holds an encoded state. *)
Lemma Make_persisted k i p now time (rf : Raft C) :
  raftstate p = encode_durable (durable_of rf) ->
  exists rf', Make k i p now time = Ret rf' /\ durable_of rf' = durable_of rf /\ persister rf' = p /\
    (me rf', peers rf', status rf') = (i, k, "follower") /\ (commitIndex rf', lastApplied rf', applied rf') = (0, 0, []).
Proof.
  intros Hp. unfold Make, readPersist, ReadRaftState, clone_bytes. rewrite Hp.
  destruct (String.eqb_spec (encode_durable (durable_of rf)) EmptyString) as [E|_]; [by apply durable_nonempty in E|].
  rewrite durable_law. eexists. split; [done|]. split_and!; try done. unfold durable_of. f_equal. apply elems_of_list.
Qed.
End system.

(** ** The properties *)

Section properties.
Context {C : Type} `{!Command C, !Gob C, !AppendGrowth, !WireGob}.

(** C25: the tester's tables are well formed in every state of a test of [k]
    servers: each has [k] entries, each row of end names too, every peer that
    is up is an object of its own, and the persister that the tester holds
    for a server is the one of its peer exactly while the peer is up. *)
Theorem tester_tables k (cfg : @config C) :
  in_test k cfg ->
  (length (rafts cfg) = k /\ length (connected cfg) = k /\ length (saved cfg) = k /\ length (endnames cfg) = k /\
   length (logs cfg) = k) /\
  (forall i row, endnames cfg !! i = Some (Some row) -> length row = k) /\
  (forall i a, rafts cfg !! i = Some (Some a) -> is_Some (objs (peers_of cfg) !! a)) /\
  (forall i i' a, rafts cfg !! i = Some (Some a) -> rafts cfg !! i' = Some (Some a) -> i = i') /\
  (forall i a, saved cfg !! i = Some (Some (Live a)) <-> rafts cfg !! i = Some (Some a)).
Proof.
  intros Ht. pose proof (in_test_wired k cfg Ht) as []. apply in_test_n in Ht as En. rewrite En in *. split_and!; eauto.
Qed.

(** C24: in every state of a test an end of the network is enabled exactly when
    it is the current end of one connected server to another.  The end of server
    [i] to server [j] leads to [j], whether it is enabled or not; while [j] runs
    the network has a server there that serves exactly the running instance of
    [j], and while it is down there is none. *)
Theorem tester_network k (cfg : @config C) e :
  in_test k cfg ->
  (enabled_at e (net cfg) = true <-> exists i j, named cfg i j e /\ on_net cfg i /\ on_net cfg j) /\
  forall i j, named cfg i j e ->
    server_of e (net cfg) = Some (Z.of_nat j) /\
    exists peer, rafts cfg !! j = Some peer /\
      match peer with
      | Some a => exists x rs, server_at (Z.of_nat j) (net cfg) = Some x /\ mem cfg !! x = Some rs /\
          services rs = {["Raft" := raft_service a]}
      | None => server_at (Z.of_nat j) (net cfg) = None
      end.
Proof.
  intros W%in_test_wired. split; [apply (wd_enabled _ W e)|]. intros i j Hn. split; [by apply (wd_leads _ W i)|].
  destruct (lookup_lt_is_Some_2 (rafts cfg) j) as [peer Hp].
  { rewrite (wd_rafts _ W). by apply (named_bound cfg i j e W). }
  exists peer. split; [done|]. destruct peer as [a|].
  - destruct (wd_up _ W j a Hp) as [x Hx]. destruct (wd_server _ W j x Hx) as (a' & rs & Hr & Hm & Hsv).
    assert (a' = a) as -> by congruence. exists x, rs. split_and!; [done..|].
    destruct (wd_mem _ W x rs Hm) as [b Hb]. rewrite Hb in Hsv. rewrite lookup_singleton_eq in Hsv.
    assert (raft_service b = raft_service a) as Eb by (by apply (inj Some)). by rewrite Hb, Eb.
  - destruct (server_at (Z.of_nat j) (net cfg)) as [x|] eqn:Ex; [|done].
    destruct (wd_server _ W j x Ex) as (a' & rs & Hr & _). congruence.
Qed.

(** C22: an instance of a peer that was replaced by [start1] cannot reach the
    others: whatever the tester, the other peers and the network do, a call
    that it makes after the restart is never executed, and one that was in
    progress, without its reply on the way already, can only fail. *)
Theorem old_instance_silent k i j e names time req (cfg0 cfg cfg' cfg'' : @config C) c c'' r :
  in_test k cfg0 -> rtc (follow req) (cfg0, new_call) (cfg, c) -> endname req = e -> named cfg i j e ->
  length names = n cfg -> start1 (Z.of_nat i) names time cfg = Ret cfg' ->
  rtc (follow req) (cfg', c) (cfg'', c'') ->
  (c = new_call -> executed c'' = []) /\ (pending c -> at_pc c'' = PDone r -> r = Labrpc.failed).
Proof.
  intros Ht Hr <- Hn Hl Hs Hr'. destruct (follow_in_test k req (cfg0, new_call) (cfg, c) Ht call_inv_new Hr) as [Ht1 Hi]. cbn in *.
  assert (wired cfg) as W by (by eapply in_test_wired).
  destruct (stale_follow req (cfg', c) (cfg'', c'')) as [Hp Hu]; [|done| |done|]; cbn in *.
  - by eapply start1_wired.
  - by eapply stale_start.
  - split; [intros ->; by apply Hu|]. intros Hc Hd. apply Hp in Hc. unfold pending in Hc. by rewrite Hd in Hc.
Qed.

(** C23: a server that is crashed and started again recovers exactly what its
    old instance had persisted when it crashed, whatever happens in between,
    the old instance's own later writes included: the new instance has the
    term, vote, log and snapshot of that moment and is a follower. *)
Theorem restart_recovers k i names time (cfg cfg1 cfg2 cfg3 : @config C) a rf :
  in_test k cfg -> rafts cfg !! i = Some (Some a) -> objs (peers_of cfg) !! a = Some rf ->
  raftstate (persister rf) = encode_durable (durable_of rf) ->
  crash1 (Z.of_nat i) cfg = Ret cfg1 -> rtc (while_down i) cfg1 cfg2 ->
  start1 (Z.of_nat i) names time cfg2 = Ret cfg3 ->
  exists a' rf', rafts cfg3 !! i = Some (Some a') /\ objs (peers_of cfg3) !! a' = Some rf' /\
    durable_of rf' = durable_of rf /\ persister rf' = persister rf /\ (me rf', status rf') = (Z.of_nat i, "follower").
Proof.
  intros W%in_test_wired Hr Ho Hst Hc Hd Hs. pose proof (crash1_wired _ _ _ W Hc) as W1.
  pose proof (crash1_saves i cfg cfg1 a rf W Hc Hr Ho) as Hsv.
  destruct (down_steps i _ cfg1 cfg2 W1 Hd Hsv) as [W2 Hsv2].
  destruct (start1_result _ names time cfg2 cfg3 W2 Hs) as (m & cfg4 & rn & rf' & <-%Nat2Z.inj & Hm & Hc2 & _ & Hmk & ->).
  destruct (crash1_same_wires _ _ _ W2 Hc2) as [En _ _ Hsv4]. pose proof (crash1_wired _ _ _ W2 Hc2) as W4.
  assert (stored cfg4 i = persister rf) as Ep by (unfold stored; by rewrite (Hsv4 _ _ Hsv2)).
  rewrite Ep in Hmk. destruct (Make_persisted (n cfg2) (Z.of_nat i) _ (now cfg4) time rf Hst) as (rf1 & Hmk' & Hdur & Hper & Hme & _).
  rewrite Hmk in Hmk'. injection Hmk' as <-. exists (next_addr cfg4), rf'. cbn.
  rewrite list_lookup_insert_eq by (rewrite (wd_rafts _ W4), En; done). rewrite lookup_insert_eq.
  injection Hme as Hid _ Hfol. split_and!; [done..|]. by rewrite Hid, Hfol.
Qed.
End properties.

(** ** Witnesses *)

Module SystemDemo.
Definition names (i : Z) : list string := if i =? 0 then ["a0"; "a1"] else ["b0"; "b1"].
Abbreviation made := (make_config (C := option Z) 2 false names (fun _ => 300) 0).
Definition nothing : @config (option Z) := empty_config 0 0 (mkPeers ∅ 0 []).
Definition get (o : outcome (@config (option Z))) : @config (option Z) := match o with Ret c => c | _ => nothing end.
Definition isret (o : outcome (@config (option Z))) : bool := match o with Ret _ => true | _ => false end.

Lemma isret_get_sys o : isret o = true -> o = Ret (get o).
Proof. by destruct o. Qed.

Definition cfg0 := get made.
Lemma made_ret : made = Ret cfg0.
Proof. apply isret_get_sys. vm_cast_no_check (eq_refl true). Qed.
Lemma cfg0_test : in_test 2 cfg0.
Proof. apply (test_made 2 false names (fun _ => 300) 0); [|exact made_ret]. intros i. unfold names. by destruct (i =? 0). Qed.

(** Server 0 is started again. *)
Abbreviation restarted := (start1 0 ["c0"; "c1"] 300 cfg0).
Lemma restarted_ret : restarted = Ret (get restarted).
Proof. apply isret_get_sys. vm_cast_no_check (eq_refl true). Qed.

Definition old_request : @reqMsg rtype string :=
  mkReq "a1" "Raft.RequestVote" (TPtr (TNamed "RequestVoteArgs")) (put (wire_code (VVoteArgs (mkVoteArgs 1 0 0 0)))).
Definition act1 (a : act) (x : @config (option Z) * call) : option (@config (option Z) * call) :=
  match call_step old_request a (system_of x.1) x.2 with
  | Some (Ret (σ, c)) => Some (with_system σ x.1, c)
  | _ => None
  end.
Definition run3 (x : @config (option Z) * call) : option (@config (option Z) * call) :=
  y ← act1 ASend x; z ← act1 ARead y; act1 AFire z.

Lemma act1_follow a x y : quiet a -> act1 a x = Some y -> follow old_request x y.
Proof.
  destruct x as [cfg c]. unfold act1. cbn. intros Hq.
  destruct (call_step old_request a (system_of cfg) c) as [[[σ c']| |]|] eqn:E; try done.
  intros [= <-]. by eapply follow_call.
Qed.

Lemma run3_follow x y : run3 x = Some y -> rtc (follow old_request) x y.
Proof.
  unfold run3. intros (x1 & H1 & (x2 & H2 & H3)%bind_Some)%bind_Some.
  eapply rtc_l; [by eapply act1_follow, H1|]. eapply rtc_l; [by eapply act1_follow, H2|].
  eapply rtc_l; [by eapply act1_follow, H3|]. done.
Qed.
End SystemDemo.
Import SystemDemo.

Lemma tester_tables_witness : length (rafts cfg0) = 2%nat /\ length (logs cfg0) = 2%nat.
Proof.
  destruct (tester_tables 2 cfg0 cfg0_test) as ((H1 & _ & _ & _ & H2) & _). split; [exact H1|exact H2].
Defined.

(** The end of server 0 to server 1 is enabled and the network has a server
    there. *)
Lemma tester_network_witness :
  (exists i j, named cfg0 i j "a1" /\ on_net cfg0 i /\ on_net cfg0 j) /\ exists x, server_at 1 (net cfg0) = Some x.
Proof.
  destruct (tester_network 2 cfg0 "a1" cfg0_test) as [He Hup]. split.
  - apply He. vm_cast_no_check (eq_refl true).
  - destruct (Hup 0%nat 1%nat) as [_ (peer & Hp & Hs)].
    + exists ["a0"; "a1"]. split; [vm_cast_no_check (eq_refl (Some (Some ["a0"; "a1"])))|reflexivity].
    + destruct peer as [a|]; [destruct Hs as (x & _ & Hx & _); exists x; exact Hx|].
      exfalso. assert (bool_decide (rafts cfg0 !! 1%nat = Some None) = false) as Hb by (vm_cast_no_check (eq_refl false)).
      exact (bool_decide_eq_false_1 _ Hb Hp).
Defined.

(** The old instance of server 0 asks for a vote. *)
Lemma old_instance_silent_witness :
  exists x, run3 (get restarted, new_call) = Some x /\ executed x.2 = [] /\ at_pc x.2 = PDone Labrpc.failed.
Proof.
  destruct (run3 (get restarted, new_call)) as [[cfg c]|] eqn:E.
  - exists (cfg, c). split; [reflexivity|].
    destruct (old_instance_silent 2 0 1 "a1" ["c0"; "c1"] 300 old_request cfg0 cfg0 (get restarted) cfg new_call c Labrpc.failed)
      as [H1 _].
    + exact cfg0_test.
    + apply rtc_refl.
    + reflexivity.
    + exists ["a0"; "a1"]. split; [vm_cast_no_check (eq_refl (Some (Some ["a0"; "a1"])))|reflexivity].
    + symmetry. exact (in_test_n 2 cfg0 cfg0_test).
    + exact restarted_ret.
    + exact (run3_follow _ _ E).
    + split; [exact (H1 eq_refl)|].
      assert (at_pc <$> (snd <$> run3 (get restarted, new_call)) = Some (PDone Labrpc.failed)) as Hd
        by (vm_cast_no_check (eq_refl (Some (@PDone Z Labrpc.failed)))).
      rewrite E in Hd. injection Hd as Hd. exact Hd.
  - exfalso. assert (is_Some (run3 (get restarted, new_call))) as [x Hx]; [|rewrite E in Hx; discriminate Hx].
    assert (bool_decide (is_Some (run3 (get restarted, new_call))) = true) as Hb by (vm_cast_no_check (eq_refl true)).
    exact (bool_decide_eq_true_1 _ Hb).
Defined.

(** Server 0 persists its state; after the crash its old instance persists a
    later term. *)
Module RestartDemo.
Definition on_peer (a : addr) (f : Raft (option Z) -> Raft (option Z)) (cfg : @config (option Z)) : @config (option Z) :=
  set_peers (mkPeers (alter f a (objs (peers_of cfg))) (clock (peers_of cfg)) (spawned (peers_of cfg))) cfg.
Definition vote (rf : Raft (option Z)) : Raft (option Z) := persist (set_vote (set_currentTerm rf 3) 1 3).
Definition late (rf : Raft (option Z)) : Raft (option Z) := persist (set_currentTerm rf 9).
Definition cfg1 := on_peer 1 vote cfg0.
Abbreviation crashed1 := (crash1 0 cfg1).
Definition cfg2 := on_peer 1 late (get crashed1).
Abbreviation again := (start1 0 ["c0"; "c1"] 300 cfg2).

Lemma on_peer_step a f (cfg : @config (option Z)) : tester_step cfg (on_peer a f cfg).
Proof. apply step_peers. cbn. apply dom_alter_L. Qed.
Lemma cfg1_test : in_test 2 cfg1.
Proof. exact (test_step 2 cfg0 cfg1 cfg0_test (on_peer_step _ _ _)). Qed.
Lemma crashed1_ret : crashed1 = Ret (get crashed1).
Proof. apply isret_get_sys. vm_cast_no_check (eq_refl true). Qed.
Lemma again_ret : again = Ret (get again).
Proof. apply isret_get_sys. vm_cast_no_check (eq_refl true). Qed.
Lemma down : rtc (while_down 0) (get crashed1) cfg2.
Proof.
  assert (rafts (get crashed1) !! 0%nat = Some None) as Hd by (vm_cast_no_check (eq_refl (Some (@None addr)))).
  unfold cfg2. revert Hd. generalize (get crashed1). intros c Hd. eapply rtc_l; [|apply rtc_refl].
  split; [apply on_peer_step|exact Hd].
Qed.
Definition peer0 : Raft (option Z) := default (Demo.peer 0) (objs (peers_of cfg1) !! 1%positive).
Lemma peer0_sys : objs (peers_of cfg1) !! 1%positive = Some peer0.
Proof.
  assert (bool_decide (is_Some (objs (peers_of cfg1) !! 1%positive)) = true) as Hb by (vm_cast_no_check (eq_refl true)).
  apply bool_decide_eq_true_1 in Hb as [rf Hrf]. unfold peer0. rewrite Hrf. reflexivity.
Qed.
End RestartDemo.
Import RestartDemo.

Lemma restart_recovers_witness :
  exists a rf, rafts (get again) !! 0%nat = Some (Some a) /\ objs (peers_of (get again)) !! a = Some rf /\
    durable_of rf = durable_of peer0 /\ currentTerm peer0 = 3.
Proof.
  destruct (restart_recovers 2 0 ["c0"; "c1"] 300 cfg1 (get crashed1) cfg2 (get again) 1%positive peer0)
    as (a & rf & H1 & H2 & H3 & _).
  - exact cfg1_test.
  - vm_cast_no_check (eq_refl (Some (Some 1%positive))).
  - exact peer0_sys.
  - vm_compute. reflexivity.
  - exact crashed1_ret.
  - exact down.
  - exact again_ret.
  - exists a, rf. split; [exact H1|]. split; [exact H2|]. split; [exact H3|]. vm_cast_no_check (eq_refl 3).
Defined.
