(* ===== verification/RaftChecks.v ===== *)
(** * What the checks of the tester establish

    The tester accepts what the servers apply exactly when they agree and
    apply in order; [checkOneLeader] returns the leader of the greatest term
    and refuses two leaders of one term; [one] returns an index at which
    enough servers have the command and none has another, and it always
    returns. *)

From S2P Require Import Prelude GoSlice Raft RaftGob RaftOps Labrpc RaftRpc RaftConfig.

Section applier.
Context {C : Type} `{!Command C, !Gob C, !AppendGrowth, !WireGob}.
Abbreviation config := (@config C).
Implicit Types (cfg : config) (m : ApplyMsg C).

(** The messages of the servers in the order in which the tester reads
    them. *)
Definition apply_all (ms : list (nat * ApplyMsg C)) cfg : outcome config :=
  for_each (fun '(i, m) => applier (Z.of_nat i) m) ms cfg.

(** Whenever two servers apply an index, they apply the same command. *)
Definition agreed (ms : list (nat * ApplyMsg C)) : Prop :=
  forall i m j m', (i, m) ∈ ms -> (j, m') ∈ ms -> CommandIndex m = CommandIndex m' -> am_Command m = am_Command m'.

(** A server applies an index after the one before it. *)
Definition in_order (ms : list (nat * ApplyMsg C)) : Prop :=
  forall pre i m post, ms = pre ++ (i, m) :: post -> 1 < CommandIndex m ->
    exists m', (i, m') ∈ pre /\ CommandIndex m' = CommandIndex m - 1.

(** The tables of commands record the messages. *)
Definition recorded (ms : list (nat * ApplyMsg C)) cfg : Prop :=
  forall i l, logs cfg !! i = Some l -> forall x c, l !! x = Some c -> exists m, (i, m) ∈ ms /\ CommandIndex m = x /\ am_Command m = c.
Definition complete (ms : list (nat * ApplyMsg C)) cfg : Prop :=
  forall i m, (i, m) ∈ ms -> exists l, logs cfg !! i = Some l /\ is_Some (l !! CommandIndex m).

Lemma find_conflict_none ls j i m err :
  find_conflict ls j i m err = None <->
  err = None /\ forall l, l ∈ ls -> forall old, l !! CommandIndex m = Some old -> old = am_Command m.
Proof.
  revert j err. induction ls as [|l ls IH]; intros j err; cbn [find_conflict].
  - split; [|by intros [-> _]]. intros ->. split; [done|set_solver].
  - rewrite IH. destruct (l !! CommandIndex m) as [old|] eqn:E; [case_decide as Hd|]; split.
    + intros [-> Hl]. split; [done|]. intros l' [->|Hl']%elem_of_cons; [naive_solver|by apply Hl].
    + intros [-> Hl]. split; [done|]. intros l' Hl'. apply Hl. by right.
    + by intros [? _].
    + intros [_ Hl]. destruct Hd. by apply (Hl l); [left|].
    + intros [-> Hl]. split; [done|]. intros l' [->|Hl']%elem_of_cons; [naive_solver|by apply Hl].
    + intros [-> Hl]. split; [done|]. intros l' Hl'. apply Hl. by right.
Qed.

(** What a command must satisfy to be accepted. *)
Definition acceptable (i : nat) m cfg : Prop :=
  (forall j l old, logs cfg !! j = Some l -> l !! CommandIndex m = Some old -> old = am_Command m) /\
  (1 < CommandIndex m -> exists l, logs cfg !! i = Some l /\ is_Some (l !! (CommandIndex m - 1))).

Lemma check_command_iff (i : nat) m cfg cfg' l :
  logs cfg !! i = Some l ->
  check_command (Z.of_nat i) m cfg = Ret cfg' <->
  acceptable i m cfg /\
  cfg' = set_logs (<[i := <[CommandIndex m := am_Command m]> l]> (logs cfg))
           (if maxIndex cfg <? CommandIndex m then CommandIndex m else maxIndex cfg) cfg.
Proof.
  intros Hl. unfold check_command, checkLogs.
  assert (idx (logs cfg) (Z.of_nat i) = Ret l) as -> by (apply idx_ret; rewrite Nat2Z.id; split; [lia|done]).
  cbn [mbind outcome_bind]. unfold idx_set. apply lookup_lt_Some in Hl as Hlt. rewrite decide_True by lia.
  cbn [mbind outcome_bind]. rewrite Nat2Z.id.
  assert ((if (1 <? CommandIndex m) && negb (bool_decide (is_Some (l !! (CommandIndex m - 1))))
           then Some (OutOfOrder (Z.of_nat i) (CommandIndex m)) else find_conflict (logs cfg) 0 (Z.of_nat i) m None) = None
          <-> acceptable i m cfg) as Ha.
  { unfold acceptable. setoid_rewrite Hl.
    assert ((forall j l old, logs cfg !! j = Some l -> l !! CommandIndex m = Some old -> old = am_Command m) <->
            find_conflict (logs cfg) 0 (Z.of_nat i) m None = None) as ->.
    { rewrite find_conflict_none. setoid_rewrite list_elem_of_lookup. naive_solver. }
    destruct (1 <? CommandIndex m) eqn:E1; [apply Z.ltb_lt in E1|apply Z.ltb_ge in E1]; cbn.
    - case_bool_decide as Hp; cbn; [|naive_solver]. split; [|tauto]. intros ?. split; [done|]. intros _. by exists l.
    - split; [|tauto]. intros ?. split; [done|lia]. }
  destruct (if _ && _ then _ else _) as [e|]; split.
  - done.
  - intros [[=]%Ha _].
  - intros [= <-]. split; [by apply Ha|done].
  - by intros [_ ->].
Qed.

Definition inv_applied (k : nat) ms cfg : Prop := length (logs cfg) = k /\ recorded ms cfg /\ complete ms cfg.

Lemma accepted_agree k ms cfg m :
  inv_applied k ms cfg -> agreed ms ->
  (forall j l old, logs cfg !! j = Some l -> l !! CommandIndex m = Some old -> old = am_Command m) <->
  (forall j m', (j, m') ∈ ms -> CommandIndex m' = CommandIndex m -> am_Command m' = am_Command m).
Proof.
  intros (Hk & Hr & Hc) Ha. split.
  - intros Hl j m' Hm Hx. destruct (Hc j m' Hm) as (l & Hj & [old Hold]). rewrite Hx in Hold.
    destruct (Hr j l Hj _ _ Hold) as (m2 & Hm2 & Hx2 & Hc2). rewrite <- (Hl j l old Hj Hold), <- Hc2.
    apply (Ha j m' j m2); [done|done|congruence].
  - intros Hm j l old Hj Hold. destruct (Hr j l Hj _ _ Hold) as (m2 & Hm2 & Hx2 & <-). by apply (Hm j).
Qed.

Lemma accepted_order k ms cfg i x :
  inv_applied k ms cfg ->
  (exists l, logs cfg !! i = Some l /\ is_Some (l !! x)) <-> exists m', (i, m') ∈ ms /\ CommandIndex m' = x.
Proof.
  intros (Hk & Hr & Hc). split.
  - intros (l & Hi & [c Hx]). destruct (Hr i l Hi _ _ Hx) as (m' & ? & ? & _). by exists m'.
  - intros (m' & Hm & <-). by apply Hc.
Qed.

Lemma inv_applied_step k ms cfg i m l mx :
  inv_applied k ms cfg -> logs cfg !! i = Some l ->
  inv_applied k (ms ++ [(i, m)]) (set_logs (<[i := <[CommandIndex m := am_Command m]> l]> (logs cfg)) mx cfg).
Proof.
  intros (Hk & Hr & Hc) Hi. apply lookup_lt_Some in Hi as Hlt. split_and!.
  - cbn. by rewrite length_insert.
  - intros j l'. cbn. rewrite list_lookup_insert_Some. setoid_rewrite elem_of_app. setoid_rewrite list_elem_of_singleton.
    intros [(<- & <- & _)|[_ Hj]] x c; [|intros Hx; destruct (Hr j l' Hj x c Hx) as (m' & ? & ?); eauto].
    rewrite lookup_insert_Some. intros [[<- <-]|[_ Hx]]; [eauto|]. destruct (Hr i l Hi x c Hx) as (m' & ? & ?). eauto.
  - intros j m' [Hm|Hm%list_elem_of_singleton]%elem_of_app; cbn.
    + destruct (Hc j m' Hm) as (l' & Hj & Hx). destruct (decide (i = j)) as [<-|Hne].
      * rewrite list_lookup_insert_eq by done. simplify_eq. eexists. split; [done|]. rewrite lookup_insert.
        case_decide; [by eexists|done].
      * rewrite list_lookup_insert_ne by done. eauto.
    + simplify_eq. rewrite list_lookup_insert_eq by done. eexists. split; [done|]. by rewrite lookup_insert_eq.
Qed.

Lemma agreed_snoc ms i m :
  agreed (ms ++ [(i, m)]) <-> agreed ms /\
    forall j m', (j, m') ∈ ms -> CommandIndex m' = CommandIndex m -> am_Command m' = am_Command m.
Proof.
  unfold agreed. setoid_rewrite elem_of_app. setoid_rewrite list_elem_of_singleton. split.
  - intros Ha. split; [eauto|]. intros j m' Hm Hx. by apply (Ha j m' i m); [left|right|].
  - intros [Ha Hn] i1 m1 i2 m2 [H1|[= -> ->]] [H2|[= -> ->]] Hx; eauto. symmetry. by eapply Hn.
Qed.

Lemma in_order_snoc ms i m :
  in_order (ms ++ [(i, m)]) <-> in_order ms /\
    (1 < CommandIndex m -> exists m', (i, m') ∈ ms /\ CommandIndex m' = CommandIndex m - 1).
Proof.
  unfold in_order. split.
  - intros Ho. split; [|intros Hx; by apply (Ho ms i m [])]. intros pre i1 m1 post Hms Hx.
    apply (Ho pre i1 m1 (post ++ [(i, m)])); [|done]. by rewrite Hms, <- app_assoc.
  - intros [Ho Hn] pre i1 m1 post Hms Hx. destruct post as [|x post _] using rev_ind.
    + apply app_inj_tail in Hms as [-> [= -> ->]]. by apply Hn.
    + rewrite app_comm_cons, app_assoc in Hms. apply app_inj_tail in Hms as [Hms _]. by apply (Ho pre i1 m1 post).
Qed.

Lemma inv_applied_accepts k ms cfg i m :
  inv_applied k ms cfg -> agreed ms -> in_order ms ->
  acceptable i m cfg <-> agreed (ms ++ [(i, m)]) /\ in_order (ms ++ [(i, m)]).
Proof.
  intros Hi Ha Ho. unfold acceptable. rewrite (accepted_agree k ms cfg m Hi Ha), agreed_snoc, in_order_snoc.
  setoid_rewrite <- (accepted_order k ms cfg i (CommandIndex m - 1) Hi). tauto.
Qed.

Lemma applier_step k ms cfg i m cfg' :
  inv_applied k ms cfg -> agreed ms -> in_order ms -> (i < k)%nat -> CommandValid m = true ->
  (applier (Z.of_nat i) m cfg = Ret cfg' -> inv_applied k (ms ++ [(i, m)]) cfg') /\
  (returns (applier (Z.of_nat i) m cfg) <-> agreed (ms ++ [(i, m)]) /\ in_order (ms ++ [(i, m)])).
Proof.
  intros Hi Ha Ho Hik Hv. unfold applier. rewrite Hv. rewrite <- (inv_applied_accepts k ms cfg i m Hi Ha Ho).
  destruct (lookup_lt_is_Some_2 (logs cfg) i) as [l Hl]; [by destruct Hi as [-> _]|].
  split.
  - intros [_ ->]%(check_command_iff i m cfg _ l Hl). by apply inv_applied_step.
  - split; [intros [c Hc]; by apply (check_command_iff i m cfg _ l Hl) in Hc as [? _]|].
    intros Hacc. eexists. by apply (check_command_iff i m cfg _ l Hl).
Qed.

Lemma inv_applied_nil k cfg : logs cfg = replicate k ∅ -> inv_applied k [] cfg /\ agreed [] /\ in_order [].
Proof.
  intros Hlogs. split_and!; [split_and!| |].
  - by rewrite Hlogs, length_replicate.
  - intros i l Hl x c Hx. rewrite Hlogs in Hl. apply lookup_replicate in Hl as [-> _]. by rewrite lookup_empty in Hx.
  - intros i m Hm. set_solver.
  - intros i m j m' Hm. set_solver.
  - intros pre i m post Hp. by destruct pre.
Qed.

Lemma apply_all_inv k ms cfg cfg' :
  logs cfg = replicate k ∅ -> (forall i m, (i, m) ∈ ms -> (i < k)%nat /\ CommandValid m = true) ->
  apply_all ms cfg = Ret cfg' -> inv_applied k ms cfg' /\ agreed ms /\ in_order ms.
Proof.
  intros Hlogs Hms. apply (for_each_preserves _ (fun pre c => inv_applied k pre c /\ agreed pre /\ in_order pre)); [|by apply inv_applied_nil].
  intros pre [i m] post c c' Hl (Hi & Ha & Ho) Hb. destruct (Hms i m) as [Hik Hv]; [rewrite Hl; set_solver|].
  destruct (applier_step k pre c i m c' Hi Ha Ho Hik Hv) as [H1 H2]. split; [by apply H1|]. apply H2. by exists c'.
Qed.

Lemma apply_all_returns k ms cfg :
  logs cfg = replicate k ∅ -> (forall i m, (i, m) ∈ ms -> (i < k)%nat /\ CommandValid m = true) ->
  agreed ms -> in_order ms -> returns (apply_all ms cfg).
Proof.
  intros Hlogs Hms Ha Ho.
  enough (ensures (apply_all ms cfg) (fun c => inv_applied k ms c /\ agreed ms /\ in_order ms)) as (c & Hc & _) by (by exists c).
  apply (for_each_ensures _ (fun pre c => inv_applied k pre c /\ agreed pre /\ in_order pre)); [|by apply inv_applied_nil].
  intros pre [i m] post c Hl (Hi & Ha' & Ho'). destruct (Hms i m) as [Hik Hv]; [rewrite Hl; set_solver|].
  assert (agreed (pre ++ [(i, m)]) /\ in_order (pre ++ [(i, m)])) as [Ha1 Ho1].
  { split; [intros i1 m1 i2 m2 H1 H2; apply (Ha i1 m1 i2 m2); rewrite Hl; set_solver|].
    intros p1 i1 m1 q1 Hp. apply (Ho p1 i1 m1 (q1 ++ post)). rewrite Hl, app_comm_cons, app_assoc, <- Hp.
    by rewrite <- app_assoc. }
  destruct (applier_step k pre c i m c Hi Ha' Ho' Hik Hv) as [_ H2].
  destruct (proj2 H2 (conj Ha1 Ho1)) as [c' Hc']. exists c'. split; [done|]. split_and!; [|done|done].
  by apply (applier_step k pre c i m c' Hi Ha' Ho' Hik Hv).
Qed.

(** C29: the tester accepts what the servers apply exactly when any two of them
    that apply an index apply the same command there, and each applies an
    index after the one before it; then its table holds for each server the
    commands that it applied.  ([k] servers, any interleaving.) *)
Theorem applier_accepts k ms cfg :
  logs cfg = replicate k ∅ -> (forall i m, (i, m) ∈ ms -> (i < k)%nat /\ CommandValid m = true) ->
  (returns (apply_all ms cfg) <-> agreed ms /\ in_order ms) /\
  (forall cfg', apply_all ms cfg = Ret cfg' -> forall i l, logs cfg' !! i = Some l ->
     forall x c, l !! x = Some c <-> exists m, (i, m) ∈ ms /\ CommandIndex m = x /\ am_Command m = c).
Proof.
  intros Hlogs Hms. split; [split|].
  - intros [c Hc]. by apply (apply_all_inv k) in Hc as (_ & ? & ?).
  - intros [Ha Ho]. by apply (apply_all_returns k).
  - intros cfg' (Hi & Ha & Ho)%(apply_all_inv k) i l Hl x c; [|done..]. destruct Hi as (_ & Hr & Hc). split; [by apply Hr|].
    intros (m & Hm & <- & <-). destruct (Hc i m Hm) as (l' & Hl' & [c Hc']). rewrite Hl in Hl'. injection Hl' as <-.
    destruct (Hr i l Hl _ _ Hc') as (m2 & Hm2 & Hx2 & <-). rewrite Hc'. f_equal. by apply (Ha i m2 i m).
Qed.
End applier.

Section leaders.
Context {C : Type} `{!Command C, !Gob C, !AppendGrowth, !WireGob} `{!RangeOrder (Z * list Z)}.
Abbreviation config := (@config C).
Implicit Types (obs : Z -> config).

(** Server [i] is connected and says that it is the leader of term [t]. *)
Definition claims obs (i t : Z) : Prop :=
  idx (connected (obs i)) i = Ret true /\ get_state i (obs i) = Ret (t, true).

(** The tester can look at the first [k] servers; their terms are not
    negative. *)
Definition observed obs (k : nat) : Prop :=
  forall i, i ∈ upto k -> exists c, idx (connected (obs i)) i = Ret c /\
    (c = true -> exists t b, get_state i (obs i) = Ret (t, b) /\ 0 <= t).

(** The table of leaders after the servers [js]. *)
Definition leader_table obs (js : list Z) (m : gmap Z (list Z)) : Prop :=
  (forall t i, i ∈ default [] (m !! t) <-> i ∈ js /\ claims obs i t) /\
  (forall t l, m !! t = Some l -> l <> [] /\ NoDup l).

Lemma leader_table_same obs js i m :
  leader_table obs js m -> (forall t, ~ claims obs i t) -> leader_table obs (js ++ [i]) m.
Proof.
  intros [H1 H2] Hn. split; [|done]. intros t j. rewrite H1, elem_of_app, list_elem_of_singleton.
  split; [tauto|]. intros [[?| ->] Hc]; [done|]. by destruct (Hn t).
Qed.

Lemma leader_table_add obs js i t m :
  leader_table obs js m -> claims obs i t -> i ∉ js ->
  leader_table obs (js ++ [i]) (<[t := default [] (m !! t) ++ [i]]> m).
Proof.
  intros [H1 H2] Hc Hni. split.
  - intros t' j. rewrite elem_of_app, list_elem_of_singleton, lookup_insert. case_decide as Hd.
    + subst t'. cbn. rewrite elem_of_app, list_elem_of_singleton, H1. naive_solver.
    + rewrite H1. split; [tauto|]. intros [[?| ->] Hc']; [done|]. destruct Hc as [_ Hg], Hc' as [_ Hg']. congruence.
  - intros t' l. rewrite lookup_insert. case_decide as Hd; [|apply H2]. intros [= <-]. split.
    { by destruct (default [] (m !! t)). }
    apply NoDup_app. split_and!.
    + destruct (m !! t) as [l|] eqn:E; [by apply (H2 t)|constructor].
    + intros j Hj%H1 ->%list_elem_of_singleton. by destruct Hj.
    + apply NoDup_singleton.
Qed.

Lemma claims_inv obs i t c t' b :
  idx (connected (obs i)) i = Ret c -> get_state i (obs i) = Ret (t', b) -> claims obs i t -> c = true /\ t' = t /\ b = true.
Proof. intros Hc Hg [Hc' Hg']. rewrite Hc in Hc'. rewrite Hg in Hg'. by simplify_eq. Qed.

(** A pass over the servers that ends has filled the table; it ends when
    all can be looked at. *)
Lemma find_leaders_table obs k m : find_leaders obs k = Ret m -> leader_table obs (upto k) m.
Proof.
  apply (for_each_preserves _ (fun js m => leader_table obs js m)); [|split; [set_solver|done]].
  intros pre i post m1 m2 Hl Ht Hb. apply bind_ret_inv in Hb as (c & Hc & Hb).
  assert (i ∉ pre) as Hni.
  { pose proof (NoDup_upto k) as Hnd. rewrite Hl in Hnd. apply NoDup_app in Hnd as (_ & Hd & _).
    intros Hin. apply (Hd i Hin). by left. }
  destruct c.
  - apply bind_ret_inv in Hb as ([t b] & Hg & [= <-]). destruct b.
    + by apply leader_table_add.
    + apply leader_table_same; [done|]. intros t' Hcl. by destruct (claims_inv _ _ _ _ _ _ Hc Hg Hcl) as (_ & _ & ?).
  - injection Hb as <-. apply leader_table_same; [done|]. intros t [Hc' _]. congruence.
Qed.

Lemma find_leaders_returns obs k : observed obs k -> returns (find_leaders obs k).
Proof.
  intros Ho. enough (ensures (find_leaders obs k) (fun _ => True)) as (m & Hm & _) by (by exists m).
  apply (for_each_ensures _ (fun _ _ => True)); [|done]. intros pre i post m Hl _.
  destruct (Ho i) as (c & Hc & Hs); [rewrite Hl; set_solver|]. rewrite Hc. cbn. destruct c; [|by eexists].
  destruct (Hs eq_refl) as (t & b & Hg & _). rewrite Hg. by eexists.
Qed.

(** The loop over the terms. *)
Lemma last_term_iff (l : list (Z * list Z)) z :
  last_term l = Ret z <->
  (forall p, p ∈ l -> (length p.2 <= 1)%nat) /\ z = foldl (fun acc p => if acc <? p.1 then p.1 else acc) (-1) l.
Proof.
  unfold last_term. generalize (-1). induction l as [|[t ls] l IH]; intros acc; cbn [for_each foldl].
  - split; [intros [= <-]; split; [set_solver|done]|]. by intros [_ ->].
  - destruct (Nat.ltb_spec 1 (length ls)) as [Hlt|Hge]; cbn.
    + split; [done|]. intros [Hall _]. specialize (Hall (t, ls) ltac:(by left)). cbn in Hall. lia.
    + rewrite IH. split; intros [Hall ->]; (split; [|done]); [|intros p Hp; apply Hall; by right].
      intros p [->|Hp]%elem_of_cons; [done|by apply Hall].
Qed.

Lemma fold_max (l : list (Z * list Z)) acc :
  let z := foldl (fun acc p => if acc <? p.1 then p.1 else acc) acc l in
  acc <= z /\ (forall p, p ∈ l -> p.1 <= z) /\ (z = acc \/ exists p, p ∈ l /\ p.1 = z).
Proof.
  revert acc. induction l as [|[t ls] l IH]; intros acc; cbn.
  - split_and!; [lia|set_solver|by left].
  - destruct (IH (if acc <? t then t else acc)) as (H1 & H2 & H3). cbn in H1, H2, H3.
    destruct (Z.ltb_spec acc t) as [Hlt|Hge]; (split_and!; [lia| |]).
    + intros p [->|Hp]%elem_of_cons; [done|by apply H2].
    + right. destruct H3 as [->|(p & Hp & <-)]; [exists (t, ls); split; [by left|done]|]. exists p. split; [by right|done].
    + intros p [->|Hp]%elem_of_cons; [cbn; lia|by apply H2].
    + destruct H3 as [->|(p & Hp & <-)]; [by left|right]. exists p. split; [by right|done].
Qed.

Definition no_rivals obs (k : nat) : Prop :=
  forall i j t, i ∈ upto k -> j ∈ upto k -> claims obs i t -> claims obs j t -> i = j.
Definition no_leader obs (k : nat) : Prop := forall i t, i ∈ upto k -> ~ claims obs i t.
Definition newest_leader obs (k : nat) (l : Z) : Prop :=
  l ∈ upto k /\ exists t, claims obs l t /\ forall i t', i ∈ upto k -> claims obs i t' -> t' <= t.

Lemma short_list {A} (l : list A) : NoDup l -> (length l <= 1)%nat <-> forall x y, x ∈ l -> y ∈ l -> x = y.
Proof.
  intros Hnd. destruct l as [|x [|y l]]; cbn.
  - split; [set_solver|lia].
  - split; [|lia]. intros _ a b ->%list_elem_of_singleton ->%list_elem_of_singleton. done.
  - split; [lia|]. intros Hall. apply NoDup_cons in Hnd as [Hx _]. destruct Hx.
    rewrite (Hall x y); [by left|by left|by right; left].
Qed.

Lemma table_rivals obs k m :
  leader_table obs (upto k) m ->
  no_rivals obs k <-> forall p, p ∈ range_order (map_to_list m) -> (length p.2 <= 1)%nat.
Proof.
  intros [H1 H2]. setoid_rewrite (range_order_perm (map_to_list m)). split.
  - intros Hn [t l] Hp%elem_of_map_to_list. cbn. apply short_list; [by eapply H2|].
    intros i j Hi Hj. assert (default [] (m !! t) = l) as E by (by rewrite Hp). rewrite <- E in Hi, Hj.
    apply H1 in Hi as [? ?], Hj as [? ?]. by apply (Hn i j t).
  - intros Hall i j t Hi Hj Hci Hcj. assert (i ∈ default [] (m !! t)) as Hli by (by apply H1).
    assert (j ∈ default [] (m !! t)) as Hlj by (by apply H1).
    destruct (m !! t) as [l|] eqn:E; [|cbn in Hli; set_solver]. destruct (H2 t l E) as [_ Hnd].
    apply (proj1 (short_list l Hnd)); [|done|done]. apply (Hall (t, l)). by apply elem_of_map_to_list.
Qed.

Lemma table_terms obs k m t :
  leader_table obs (upto k) m ->
  (exists l, (t, l) ∈ range_order (map_to_list m)) <-> exists i, i ∈ upto k /\ claims obs i t.
Proof.
  intros [H1 H2]. setoid_rewrite (range_order_perm (map_to_list m)). setoid_rewrite elem_of_map_to_list.
  setoid_rewrite <- H1. split.
  - intros [l Hl]. rewrite Hl. destruct (H2 t l Hl) as [Hne _]. destruct l as [|i l]; [done|]. exists i. by left.
  - intros [i Hi]. destruct (m !! t) as [l|]; [by exists l|cbn in Hi; set_solver].
Qed.

Lemma leader_round_iff obs k r :
  observed obs k ->
  leader_round obs k = Ret r <->
  no_rivals obs k /\ match r with None => no_leader obs k | Some l => newest_leader obs k l end.
Proof.
  intros Ho. destruct (find_leaders_returns obs k Ho) as [m Hm]. pose proof (find_leaders_table _ _ _ Hm) as Ht.
  unfold leader_round. rewrite Hm. cbn [mbind outcome_bind].
  set (ps := range_order (map_to_list m)). set (z := foldl (fun acc p => if acc <? p.1 then p.1 else acc) (-1) ps).
  pose proof (table_rivals obs k m Ht) as Hriv. fold ps in Hriv.
  destruct (last_term ps) as [z'| |] eqn:El.
  2, 3: split; [done|]; intros [Hn _]; pose proof (proj2 (last_term_iff ps z) (conj (proj1 Hriv Hn) eq_refl)); congruence.
  apply last_term_iff in El as [Hall ->]. fold z. apply Hriv in Hall. cbn [mbind outcome_bind].
  destruct (fold_max ps (-1)) as (_ & Hmax & Hz). fold z in Hmax, Hz.
  assert (forall i t, i ∈ upto k -> claims obs i t -> t <= z) as Hle.
  { intros i t Hi Hc. destruct (proj2 (table_terms obs k m t Ht) ltac:(by exists i)) as [l Hl]. apply (Hmax _ Hl). }
  destruct (decide (m = ∅)) as [->|Hne].
  - assert (no_leader obs k) as Hno.
    { intros i t Hi Hc. destruct Ht as [H1 _]. specialize (proj2 (H1 t i) (conj Hi Hc)). rewrite lookup_empty. set_solver. }
    split; [intros [= <-]; done|]. destruct r as [l|]; [|done]. intros [_ (Hl & t & Hc & _)]. by destruct (Hno l t).
  - assert (exists i, i ∈ upto k /\ claims obs i z) as (i & Hi & Hc).
    { destruct Hz as [Hz|([t l] & Hp & Htz)].
      - destruct (map_choose m Hne) as (t & l & Hl).
        assert ((t, l) ∈ ps) as Hp by (unfold ps; rewrite (range_order_perm _); by apply elem_of_map_to_list).
        destruct (proj1 (table_terms obs k m t Ht) ltac:(by exists l)) as (i & Hi & Hc).
        destruct (Ho i Hi) as (c & Hcc & Hs). destruct (Hs) as (t' & b & Hg & Hpos); [by destruct Hc; congruence|].
        destruct (claims_inv _ _ _ _ _ _ Hcc Hg Hc) as (_ & -> & _). specialize (Hle i t Hi Hc). lia.
      - cbn in Htz. subst t. apply (table_terms obs k m z Ht). by exists l. }
    assert (idx (default [] (m !! z)) 0 = Ret i) as ->.
    { destruct Ht as [H1 _]. destruct (default [] (m !! z)) as [|j l] eqn:E.
      - specialize (proj2 (H1 z i) (conj Hi Hc)). rewrite E. set_solver.
      - assert (j ∈ upto k /\ claims obs j z) as [Hj Hcj] by (apply H1; rewrite E; by left).
        by rewrite (Hall i j z). }
    cbn. split.
    + intros [= <-]. split; [done|]. split; [done|]. exists z. split; [done|]. apply Hle.
    + intros [_ Hr]. destruct r as [l|]; [|by destruct (Hr i z)]. destruct Hr as (Hl & t & Hcl & Hmx).
      pose proof (Hle l t Hl Hcl). pose proof (Hmx i z Hi Hc). assert (t = z) as -> by lia. by rewrite (Hall i l z).
Qed.

Lemma checkOneLeader_loop_iff (seen : nat -> Z -> config) k iters it l :
  checkOneLeader_loop seen k iters it = Ret l <->
  exists d, (d < iters)%nat /\ leader_round (seen (it + d)%nat) k = Ret (Some l) /\
    forall d', (d' < d)%nat -> leader_round (seen (it + d')%nat) k = Ret None.
Proof.
  revert it. induction iters as [|iters IH]; intros it; cbn [checkOneLeader_loop].
  - split; [done|]. intros (d & Hd & _). lia.
  - destruct (leader_round (seen it) k) as [[l'|]| |] eqn:E; cbn [mbind outcome_bind].
    2: rewrite IH.
    2: { split.
      - intros (d & Hd & Hl & Hn). exists (S d). rewrite Nat.add_succ_r, <- Nat.add_succ_l. split_and!; [lia|done|].
        intros [|d'] Hd'; [by rewrite Nat.add_0_r|]. rewrite Nat.add_succ_r, <- Nat.add_succ_l. apply Hn. lia.
      - intros ([|d] & Hd & Hl & Hn); [rewrite Nat.add_0_r in Hl; congruence|].
        exists d. rewrite Nat.add_succ_l, <- Nat.add_succ_r. split_and!; [lia|done|].
        intros d' Hd'. rewrite Nat.add_succ_l, <- Nat.add_succ_r. apply Hn. lia. }
    all: split; [|intros ([|d] & Hd & Hl & Hn); [rewrite Nat.add_0_r in Hl; congruence|]].
    all: try (specialize (Hn 0%nat ltac:(lia)); rewrite Nat.add_0_r in Hn; congruence).
    + intros [= ->]. exists 0%nat. rewrite Nat.add_0_r. split_and!; [lia|done|lia].
    + done.
    + done.
Qed.

(** C30: [checkOneLeader] returns a server exactly when, at the first of its
    ten passes at which a connected server says it is a leader, no two say so
    for the same term and this server is the leader of the greatest term; in
    every other case it does not return. *)
Theorem checkOneLeader_finds (seen : nat -> Z -> config) k l :
  (forall it, (it < 10)%nat -> observed (seen it) k) ->
  checkOneLeader seen k = Ret l <->
  exists it, (it < 10)%nat /\ (forall it', (it' < it)%nat -> no_leader (seen it') k) /\
    no_rivals (seen it) k /\ newest_leader (seen it) k l.
Proof.
  intros Ho. unfold checkOneLeader. rewrite checkOneLeader_loop_iff. cbn [Nat.add].
  split; intros (d & Hd & H1 & H2); exists d; (split; [done|]).
  - rewrite (leader_round_iff (seen d) k (Some l)) in H1 by auto. split; [|done]. intros d' Hd'.
    by apply (leader_round_iff (seen d') k None); [apply Ho; lia|apply H2].
  - split; [by apply leader_round_iff; auto|]. intros d' Hd'. apply leader_round_iff; [apply Ho; lia|].
    split; [|by apply H1]. intros i j t Hi _ Hc _. by destruct (H1 d' Hd' i t).
Qed.
End leaders.

Section agreement.
Context {C : Type} `{!Command C, !Gob C, !AppendGrowth, !WireGob}.
Abbreviation config := (@config C).
Implicit Types (cfg : config).

(** The servers of [js] that have a command at an index; [seen i] is the state
    in which the log of server [i] is read. *)
Definition holders (index : Z) (seen : Z -> config) (js : list Z) : list Z :=
  filter (fun i => is_Some (logs (seen i) !! Z.to_nat i ≫= fun l => l !! index)) js.

Lemma nCommitted_inv index k seen nd c :
  nCommitted index seen k = Ret (nd, c) ->
  nd = Z.of_nat (length (holders index seen (upto k))) /\
  (0 < nd -> forall i l c', i ∈ upto k -> logs (seen i) !! Z.to_nat i = Some l -> l !! index = Some c' -> c' = c).
Proof.
  apply (for_each_preserves _ (fun js '(nd, c) =>
    nd = Z.of_nat (length (holders index seen js)) /\
    (0 < nd -> forall i l c', i ∈ js -> logs (seen i) !! Z.to_nat i = Some l -> l !! index = Some c' -> c' = c)) (upto k) (0, nil_command) (nd, c));
    [|split; [done|lia]].
  intros pre i post [nd1 c1] [nd2 c2] Hl [Hn Hc] Hb. apply bind_ret_inv in Hb as (l & Hi & Hb).
  apply idx_ret in Hi as [_ Hi]. unfold holders in *. rewrite filter_app, length_app, filter_cons, filter_nil, Hi.
  cbn [mbind option_bind]. destruct (l !! index) as [c3|] eqn:Ex.
  - rewrite decide_True by (by eexists). destruct (_ && _) eqn:Eb; [done|]. injection Hb as <- <-.
    split; [cbn; lia|]. intros _ j l' c' [Hj| ->%list_elem_of_singleton]%elem_of_app Hlj Hc'; [|congruence].
    assert (0 < nd1) as Hpos.
    { rewrite Hn. enough (j ∈ filter (fun i => is_Some (logs (seen i) !! Z.to_nat i ≫= fun l => l !! index)) pre) as Hin
        by (destruct (filter _ pre); [set_solver|cbn; lia]).
      apply list_elem_of_filter. rewrite Hlj. cbn. rewrite Hc'. split; [by eexists|done]. }
    rewrite (Hc Hpos j l' c' Hj Hlj Hc'). apply Z.ltb_lt in Hpos. rewrite Hpos in Eb. cbn in Eb.
    apply negb_false_iff in Eb. by apply bool_decide_eq_true in Eb.
  - injection Hb as <- <-. rewrite decide_False by (by intros [? ?]). cbn. split; [lia|].
    intros Hpos j l' c' [Hj| ->%list_elem_of_singleton]%elem_of_app Hlj Hc'; [|congruence]. by eapply Hc.
Qed.

(** A pass over the logs that ends in [cfg'] has found the agreement. *)
Definition agreed_in (acts : nat -> Z -> config -> config) (index : Z) (cmd : C) (expected : Z) cfg' : Prop :=
  exists k cfg, cfg' = acts k (Z.of_nat (length (rafts cfg))) cfg /\
    exists nd, nCommitted index (fun i => acts k i cfg) (length (rafts cfg)) = Ret (nd, cmd) /\ 0 < nd /\ expected <= nd.

Lemma await_agreed fuel env acts t1 index cmd expected cfg k cfg' k' :
  await fuel env acts t1 index cmd expected cfg k = Ret (cfg', k', true) -> agreed_in acts index cmd expected cfg'.
Proof.
  revert cfg k. induction fuel as [|fuel IH]; intros cfg k; cbn [await]; [done|].
  destruct (now cfg - t1 <? seconds 2); [|done]. intros ([nd c] & Hn & Ha)%bind_ret_inv.
  destruct (_ && _) eqn:E; [|by apply IH in Ha]. injection Ha as <- <-. exists k, cfg. split; [done|].
  apply andb_true_iff in E as [[E1%Z.ltb_lt E2%Z.leb_le]%andb_true_iff ->%bool_decide_eq_true]. by exists nd.
Qed.

Lemma one_loop_agreed fuel inner env acts t starts cmd expected retry cfg k cfg' index :
  one_loop fuel inner env acts t starts cmd expected retry cfg k = Ret (cfg', index) -> agreed_in acts index cmd expected cfg'.
Proof.
  revert starts cfg k. induction fuel as [|fuel IH]; intros starts cfg k; cbn [one_loop]; [done|].
  destruct (now cfg - t <? seconds 10); [|done]. intros ([[cfg1 s1] i1] & _ & Ho)%bind_ret_inv.
  destruct (negb (i1 =? -1)); [|by apply IH in Ho]. apply bind_ret_inv in Ho as ([[cfg2 k2] ag] & Ha & Ho).
  destruct ag; [injection Ho as <- <-; by apply await_agreed in Ha|]. destruct retry; [|done]. by apply IH in Ho.
Qed.

(** ** The loops end *)

(** A sleep lasts at least as long as it should. *)
Definition sleeps (env : nat -> Z -> config -> config) : Prop :=
  forall k d cfg, now cfg + d <= now (env k d cfg).

(** What is done between two accesses takes time, if anything. *)
Definition passes (acts : nat -> Z -> config -> config) : Prop := forall k i cfg, now cfg <= now (acts k i cfg).

Lemma for_each_fuel {A S} (body : A -> S -> outcome S) l s :
  (forall x s, body x s <> NoFuel) -> for_each body l s <> NoFuel.
Proof.
  intros Hb. revert s. induction l as [|x l IH]; intros s; cbn [for_each]; [done|].
  specialize (Hb x s). destruct (body x s); [apply IH|done|done].
Qed.

Lemma idx_fuel {A} (l : list A) i : idx l i <> NoFuel.
Proof. unfold idx. case_decide; [|done]. by destruct (l !! Z.to_nat i). Qed.

Lemma nCommitted_fuel index obs k : nCommitted index obs k <> (NoFuel : outcome (Z * C)).
Proof.
  apply for_each_fuel. intros i [nd c]. pose proof (idx_fuel (logs (obs i)) i) as Hi.
  destruct (idx (logs (obs i)) i) as [l| |]; [|done|done]. cbn. destruct (l !! index); [|done]. by destruct (_ && _).
Qed.

Lemma await_ends fuel env acts t1 index cmd expected cfg k :
  sleeps env -> passes acts -> (Z.to_nat (t1 + 2000 - now cfg) + 20 <= 20 * fuel)%nat ->
  await fuel env acts t1 index cmd expected cfg k <> NoFuel.
Proof.
  intros Hs Hp. revert cfg k. induction fuel as [|fuel IH]; intros cfg k Hf; cbn [await]; [lia|].
  unfold seconds. destruct (Z.ltb_spec (now cfg - t1) (2 * 1000)) as [Hlt|Hge]; [|done].
  pose proof (nCommitted_fuel index (fun i => acts k i cfg) (length (rafts cfg))) as Hn.
  destruct (nCommitted index _ (length (rafts cfg))) as [[nd c]| |]; [|done|done]. cbn [mbind outcome_bind].
  destruct (_ && _); [done|]. apply IH. set (cfg1 := acts k _ cfg). specialize (Hs k 20 cfg1).
  assert (now cfg <= now cfg1) by apply Hp. lia.
Qed.

Lemma await_time fuel env acts t1 index cmd expected cfg k cfg' k' b :
  sleeps env -> passes acts -> await fuel env acts t1 index cmd expected cfg k = Ret (cfg', k', b) ->
  now cfg <= now cfg' /\ (b = false -> t1 + 2000 <= now cfg').
Proof.
  intros Hs Hp. revert cfg k. induction fuel as [|fuel IH]; intros cfg k; cbn [await]; [done|].
  unfold seconds. destruct (Z.ltb_spec (now cfg - t1) (2 * 1000)) as [Hlt|Hge].
  - intros ([nd c] & _ & Ha)%bind_ret_inv. set (cfg1 := acts k _ cfg) in *. assert (now cfg <= now cfg1) by apply Hp.
    destruct (_ && _); [by injection Ha as <- _ <-|]. apply IH in Ha as [Hle Hb]. specialize (Hs k 20 cfg1). split; [lia|done].
  - intros [= <- _ <-]. split; [done|]. intros _. lia.
Qed.

Lemma call_start_fuel a cmd cfg : call_start a cmd cfg <> NoFuel.
Proof. unfold call_start. destruct (objs (peers_of cfg) !! a) as [rf|]; [|done]. by destruct (Start rf cmd) as [[? ?] ?]. Qed.

Lemma call_start_now a cmd cfg cfg' r : call_start a cmd cfg = Ret (cfg', r) -> now cfg' = now cfg.
Proof.
  unfold call_start. destruct (objs (peers_of cfg) !! a) as [rf|]; [|done]. destruct (Start rf cmd) as [[? ?] ?].
  by intros [= <- _].
Qed.

Lemma scan_start_ends cnt acts k i starts cmd cfg :
  passes acts ->
  scan_start cnt (acts k) i starts cmd cfg <> NoFuel /\
  forall cfg' s x, scan_start cnt (acts k) i starts cmd cfg = Ret (cfg', s, x) -> now cfg <= now cfg'.
Proof.
  intros Hp. revert i starts cfg. induction cnt as [|cnt IH]; intros i starts cfg; cbn [scan_start].
  - split; [done|]. by intros ? ? ? [= <- _ _].
  - set (s := (starts + 1) `mod` Z.of_nat (n cfg)). set (cfg1 := acts k i cfg). set (cfg2 := acts k (i + 1) cfg1).
    assert (now cfg <= now cfg1 <= now cfg2) as Ht by (split; apply Hp).
    pose proof (idx_fuel (connected cfg1) s) as Hc.
    destruct (idx (connected cfg1) s) as [c| |]; [|done|done]. cbn [mbind outcome_bind].
    assert ((if c then idx (rafts cfg1) s else Ret None) <> NoFuel) as Hr by (destruct c; [apply idx_fuel|done]).
    destruct (if c then idx (rafts cfg1) s else Ret None) as [[a|]| |]; [| |done|done]; cbn [mbind outcome_bind].
    + pose proof (call_start_fuel a cmd cfg2) as Hf. pose proof (call_start_now a cmd cfg2) as Hn.
      destruct (call_start a cmd cfg2) as [[cfg3 [[i1 ?] ok]]| |]; [|done|done]. cbn [mbind outcome_bind].
      specialize (Hn _ _ eq_refl). destruct ok; [split; [done|]; intros ? ? ? [= <- _ _]; lia|].
      destruct (IH (i + 2) s cfg3) as [H1 H2]. split; [done|]. intros ? ? ? H3. specialize (H2 _ _ _ H3). lia.
    + destruct (IH (i + 2) s cfg1) as [H1 H2]. split; [done|]. intros ? ? ? H3. specialize (H2 _ _ _ H3). lia.
Qed.

Lemma one_loop_ends fuel env acts t starts cmd expected retry cfg k :
  sleeps env -> passes acts -> (Z.to_nat (t + 10000 - now cfg) + 50 <= 50 * fuel)%nat ->
  one_loop fuel 102 env acts t starts cmd expected retry cfg k <> NoFuel.
Proof.
  intros Hs Hp. revert starts cfg k. induction fuel as [|fuel IH]; intros starts cfg k Hf; cbn [one_loop]; [lia|].
  unfold seconds. destruct (Z.ltb_spec (now cfg - t) (10 * 1000)) as [Hlt|Hge]; [|done].
  destruct (scan_start_ends (n cfg) acts k 0 starts cmd cfg Hp) as [H1 H2].
  destruct (scan_start (n cfg) (acts k) 0 starts cmd cfg) as [[[cfg1 s1] i1]| |]; [|done|done]. cbn [mbind outcome_bind].
  specialize (H2 _ _ _ eq_refl). destruct (negb (i1 =? -1)).
  - pose proof (await_ends 102 env acts (now cfg1) i1 cmd expected cfg1 (S k) Hs Hp ltac:(lia)) as H3.
    pose proof (await_time 102 env acts (now cfg1) i1 cmd expected cfg1 (S k)) as H4.
    destruct (await 102 env acts (now cfg1) i1 cmd expected cfg1 (S k)) as [[[cfg2 k2] ag]| |]; [|done|done].
    specialize (H4 _ _ _ Hs Hp eq_refl) as [H5 H6]. cbn [mbind outcome_bind].
    destruct ag; [done|]. destruct retry; [|done]. apply IH. specialize (H6 eq_refl). lia.
  - apply IH. specialize (Hs k 50 cfg1). lia.
Qed.

Lemma agreed_in_holders acts index cmd expected cfg' :
  agreed_in acts index cmd expected cfg' ->
  exists k cfg, cfg' = acts k (Z.of_nat (length (rafts cfg))) cfg /\
    let seen i := acts k i cfg in
    let hs := holders index seen (upto (length (rafts cfg))) in
    hs <> [] /\ expected <= Z.of_nat (length hs) /\
    forall i l c, i ∈ upto (length (rafts cfg)) -> logs (seen i) !! Z.to_nat i = Some l -> l !! index = Some c -> c = cmd.
Proof.
  intros (k & cfg & -> & nd & Hn & Hpos & Hexp). apply nCommitted_inv in Hn as [Hlen Hc]. exists k, cfg. split; [done|]. cbn.
  split_and!; [|lia|by apply Hc]. intros E. rewrite E in Hlen. cbn in Hlen. lia.
Qed.

(** C31: [one] ends, with an index or with a failed test, whatever the peers do
    while it sleeps and between its accesses to their state.  The index that it
    returns is one at which, in its last pass over the logs, it found a command
    applied by at least [expected] servers and by at least one, and every
    server that had applied a command there had applied this one.  The log of
    each server is read at a moment of its own. *)
Theorem one_agrees env acts cmd expected retry cfg :
  sleeps env -> passes acts ->
  one env acts cmd expected retry cfg <> NoFuel /\
  forall cfg' index, one env acts cmd expected retry cfg = Ret (cfg', index) ->
    exists k cfg1, cfg' = acts k (Z.of_nat (length (rafts cfg1))) cfg1 /\
      let seen i := acts k i cfg1 in
      let hs := holders index seen (upto (length (rafts cfg1))) in
      hs <> [] /\ expected <= Z.of_nat (length hs) /\
      forall i l c, i ∈ upto (length (rafts cfg1)) -> logs (seen i) !! Z.to_nat i = Some l -> l !! index = Some c -> c = cmd.
Proof.
  intros Hs Hp. unfold one. split; [apply (one_loop_ends 202); [done..|lia]|].
  intros cfg' index Ho%one_loop_agreed. by apply agreed_in_holders.
Qed.

(** When nothing happens during a pass, the agreement is that of the final
    state. *)
Corollary one_agrees_at_once env cmd expected retry cfg cfg' index :
  one env (fun _ _ cfg => cfg) cmd expected retry cfg = Ret (cfg', index) ->
  let hs := holders index (fun _ => cfg') (upto (length (rafts cfg'))) in
  hs <> [] /\ expected <= Z.of_nat (length hs) /\
  forall i l c, i ∈ upto (length (rafts cfg')) -> logs cfg' !! Z.to_nat i = Some l -> l !! index = Some c -> c = cmd.
Proof.
  unfold one. intros Ho%one_loop_agreed. destruct (agreed_in_holders _ _ _ _ _ Ho) as (k & cfg1 & -> & Hx). exact Hx.
Qed.
End agreement.

(** ** Witnesses *)

Module ChecksDemo.
Definition msg (x v : Z) : ApplyMsg (option Z) := mkApplyMsg true (Some v) x false "" 0 0.
Definition messages : list (nat * ApplyMsg (option Z)) := [(0%nat, msg 1 5); (1%nat, msg 1 5); (0%nat, msg 2 6); (1%nat, msg 2 6)].
Definition before : @config (option Z) := empty_config 2 0 (mkPeers ∅ 0 []).

(** Server 0 leads, server 1 follows; both are connected. *)
Definition leading (b : bool) (rf : Raft (option Z)) : Raft (option Z) :=
  set_status (set_currentTerm rf 3) (if b then "leader" else "follower").
Definition both : @config (option Z) :=
  set_connected [true; true] (set_rafts [Some 1%positive; Some 2%positive]
    (set_peers (mkPeers {[1%positive := leading true (Demo.peer 0); 2%positive := leading false (Demo.peer 1)]} 0 []) before)).
(** Server 1 applies the command between the two reads of a pass. *)
Definition late (k : nat) (i : Z) (cfg : @config (option Z)) : @config (option Z) :=
  if i =? 0 then cfg else match logs cfg with [l; _] => set_logs [l; l] 1 cfg | _ => cfg end.
Definition commit (k : nat) (d : Z) (cfg : @config (option Z)) : @config (option Z) :=
  set_logs [{[1 := Some 7]}; ∅] 1
    (set_peers (mkPeers (objs (peers_of cfg)) (now cfg + d) (spawned (peers_of cfg))) cfg).
Definition finished : @config (option Z) := match one commit late (Some 7) 2 true both with Ret (c, _) => c | _ => before end.
End ChecksDemo.
Import ChecksDemo.

Lemma applier_accepts_witness : agreed messages /\ in_order messages.
Proof.
  apply (applier_accepts 2 messages before).
  - reflexivity.
  - intros i m Hm. unfold messages in Hm. repeat (apply elem_of_cons in Hm as [[= -> ->]|Hm]; [by split; [lia|]|]).
    by apply not_elem_of_nil in Hm.
  - eexists. vm_compute. reflexivity.
Defined.

Lemma checkOneLeader_finds_witness :
  checkOneLeader (fun _ _ => both) 2 = Ret 0 /\ newest_leader (fun _ => both) 2 0.
Proof.
  assert (checkOneLeader (fun _ _ => both) 2 = Ret 0) as Hc by (vm_compute; reflexivity).
  split; [exact Hc|]. apply (checkOneLeader_finds (fun _ _ => both) 2 0) in Hc as (it & _ & _ & _ & Hn); [exact Hn|].
  intros _ _ i Hi. apply elem_of_upto in Hi. assert (i = 0 \/ i = 1) as [-> | ->] by lia;
    exists true; (split; [reflexivity|]); intros _; eexists _, _; (split; [reflexivity|vm_compute; discriminate]).
Defined.

Lemma one_agrees_witness : one commit late (Some 7) 2 true both = Ret (finished, 1) /\
  exists k cfg1, finished = late k (Z.of_nat (length (rafts cfg1))) cfg1 /\
    2 <= Z.of_nat (length (holders 1 (fun i => late k i cfg1) (upto (length (rafts cfg1))))).
Proof.
  assert (one commit late (Some 7) 2 true both = Ret (finished, 1)) as Hone by (vm_compute; reflexivity).
  split; [exact Hone|].
  destruct (one_agrees commit late (Some 7) 2 true both) as [_ Hag].
  - intros k d cfg. cbn. lia.
  - intros k i cfg. unfold late. destruct (i =? 0); [apply Z.le_refl|]. destruct (logs cfg) as [|l [|l' [|]]]; apply Z.le_refl.
  - destruct (Hag finished 1 Hone) as (k & cfg1 & Heq & _ & Hlen & _). exists k, cfg1. split; [exact Heq|exact Hlen].
Defined.
