(* ===== verification/Servers.v ===== *)
(** * The servers on top of Raft (src/src/kvraft/server.go,
      src/src/shardctrler/server.go and src/src/shardkv/server.go)

    The three services have the frame of a replicated server: a Raft peer, a
    channel on which it applies commands, and RPC handlers with empty bodies.
    A server refers to its peer by address; the services that
    [labrpc.MakeService] makes of them have the exported handlers, which leave
    the reply as it is.  [ServerKind] is what the testers need of a kind of
    server. *)

From S2P Require Import Prelude GoSlice Raft RaftOps Labrpc RaftRpc Clerks.

(** kvraft *)
Record KVServer := mkKVServer { kv_me : Z; kv_rf : addr; kv_dead : Z; kv_maxraftstate : Z }.

(** Its clerk, known by the names of its ends; the methods have empty
    bodies. *)
(** The data of the RPCs of kvraft/common.go. *)
Definition kv_OK : string := "OK".
Definition kv_ErrNoKey : string := "ErrNoKey".
Definition kv_ErrWrongLeader : string := "ErrWrongLeader".
Record kv_PutAppendArgs := mkKvPutAppendArgs { kvp_Key : string; kvp_Value : string; kvp_Op : string }.
Record kv_PutAppendReply := mkKvPutAppendReply { kvp_Err : string }.
Record kv_GetArgs := mkKvGetArgs { kvg_Key : string }.
Record kv_GetReply := mkKvGetReply { kvg_Err : string; kvg_Value : string }.

Record kv_Clerk := mkKvClerk { kvc_servers : list string }.
Definition kv_MakeClerk (servers : list string) : kv_Clerk := mkKvClerk servers.
Definition kv_Get (ck : kv_Clerk) (key : string) : string := EmptyString.
Definition kv_PutAppend (ck : kv_Clerk) (key value op : string) : unit := tt.
Definition kv_Put (ck : kv_Clerk) (key value : string) : unit := kv_PutAppend ck key value "Put".
Definition kv_Append (ck : kv_Clerk) (key value : string) : unit := kv_PutAppend ck key value "Append".

(** shardctrler; [configs] starts with the configuration number 0. *)
Record ShardCtrler := mkShardCtrler { sc_me : Z; sc_rf : addr; sc_configs : list Config }.

(** shardkv; the ends to the controllers are known by their names, and
    [make_end] by the tester. *)
Record ShardKV := mkShardKV { skv_me : Z; skv_rf : addr; skv_gid : Z; skv_ctrlers : list string; skv_maxraftstate : Z }.

Section servers.
Context {C : Type} `{!Command C, !Gob C, !AppendGrowth, !WireGob}.

(** A handler with an empty body, and the service of a type with such
    handlers: the methods by name, with the types of arguments and reply. *)
Definition empty_handler (recv a r : rvalue) (w : peers_state C) : outcome (peers_state C * rvalue) := Ret (w, r).
Definition empty_service (name : string) (ms : list string) : @Service rvalue rtype (peers_state C) :=
  mkService name VOtherValue (list_to_map ((fun m =>
    (m, mkMethod m "" [TPtr (TNamed name); TPtr (TNamed (m +:+ "Args")); TPtr (TNamed (m +:+ "Reply"))] 0 empty_handler)) <$> ms)).

Class ServerKind (X : Type) := {
  server_rf : X -> addr;
  start_server : Z -> nat -> Z -> Persister -> Z -> Z -> addr -> outcome (X * Raft C);
  mark_dead : X -> X;
  server_service : @Service rvalue rtype (peers_state C);
}.

(** The tester and the peer's creation see [servers] only as their number;
    the random election time and the clock are those of [raft.Make]. *)
Definition StartKVServer (maxraftstate : Z) (servers : nat) (me : Z) (p : Persister) (now time : Z) (a : addr)
    : outcome (KVServer * Raft C) :=
  rf ← Make servers me p now time; Ret (mkKVServer me a 0 maxraftstate, rf).

Definition kv_Kill (kv : KVServer) : KVServer := mkKVServer (kv_me kv) (kv_rf kv) 1 (kv_maxraftstate kv).
Definition kv_killed (kv : KVServer) : bool := kv_dead kv =? 1.

Definition ctrl_StartServer (servers : nat) (me : Z) (p : Persister) (now time : Z) (a : addr)
    : outcome (ShardCtrler * Raft C) :=
  rf ← Make servers me p now time; Ret (mkShardCtrler me a [zero_config], rf).

Definition shardkv_StartServer (servers : nat) (me : Z) (p : Persister) (maxraftstate gid : Z) (ctrlers : list string)
    (now time : Z) (a : addr) : outcome (ShardKV * Raft C) :=
  rf ← Make servers me p now time; Ret (mkShardKV me a gid ctrlers maxraftstate, rf).

#[export] Instance kv_kind : ServerKind KVServer := {|
  server_rf := kv_rf;
  start_server := StartKVServer;
  mark_dead := kv_Kill;
  server_service := empty_service "KVServer" ["Get"; "PutAppend"];
|}.

#[export] Instance ctrl_kind : ServerKind ShardCtrler := {|
  server_rf := sc_rf;
  start_server _ := ctrl_StartServer;
  mark_dead sc := sc;
  server_service := empty_service "ShardCtrler" ["Join"; "Leave"; "Move"; "Query"];
|}.

(** A server is made with a new peer from the persister it is given. *)
Class ServerKindLaws (X : Type) `{!ServerKind X} : Prop :=
  start_server_peer : forall mr k me p now time a x rf,
    start_server mr k me p now time a = Ret (x, rf) -> Make k me p now time = Ret rf /\ server_rf x = a.

#[export] Instance kv_kind_laws : ServerKindLaws KVServer.
Proof. intros mr k me p now time a x rf (rf' & Hm & [= <- <-])%bind_ret_inv. done. Qed.
#[export] Instance ctrl_kind_laws : ServerKindLaws ShardCtrler.
Proof. intros mr k me p now time a x rf (rf' & Hm & [= <- <-])%bind_ret_inv. done. Qed.

Definition shardkv_service : @Service rvalue rtype (peers_state C) := empty_service "ShardKV" ["Get"; "PutAppend"].
End servers.
