(* ===== verification/ServiceConfig.v ===== *)
(** * The testers of the services (src/src/kvraft/config.go and
      src/src/shardctrler/config.go)

    Both testers are the same program over different servers: the first
    section has it for any [ServerKind], and the other two have what only one
    of them has.  As in [RaftConfig] the network is the one of
    [Labrpc], the peers are those of [RaftRpc], persisters are shared by
    address, and random names and permutations are arguments.  Clerks are
    known by their address. *)

From S2P Require Import Prelude GoSlice Raft RaftOps Labrpc RaftRpc RaftConfig Servers.

(** [rand.Intn(i + 1)] gives [js] in turn. *)
Definition random_handles {A} (js : nat -> Z) (kvh : list A) : outcome (list A) :=
  for_each (fun i sa =>
    x ← idx sa i; y ← idx sa (js (Z.to_nat i));
    sa ← idx_set sa i y; idx_set sa (js (Z.to_nat i)) x) (upto (length kvh)) kvh.

Section service.
Context {C : Type} `{!Command C, !Gob C, !AppendGrowth, !WireGob} {X : Type} `{!ServerKind (C := C) X}.

Abbreviation net_state := (@Network string Z _ _ _ _).

(** [handles] are the ends of each clerk in the order in which it has them. *)
Record config := mkConfig {
  net : net_state;
  mem : gmap addr (@Server rvalue rtype (peers_state C));
  peers_of : peers_state C;
  next_addr : addr;
  failed : bool;
  n : nat;
  servers : list (option X);
  saved : list (option saved_state);
  endnames : list (option (list string));
  clerks : gmap addr (list string);
  handles : gmap addr (list string);
  nextClientId : Z;
  maxraftstate : Z;
  start : Z;
}.

Definition set_net (x : net_state) (cfg : config) : config :=
  mkConfig x (mem cfg) (peers_of cfg) (next_addr cfg) (failed cfg) (n cfg) (servers cfg) (saved cfg) (endnames cfg)
    (clerks cfg) (handles cfg) (nextClientId cfg) (maxraftstate cfg) (start cfg).
Definition set_mem (x : gmap addr (@Server rvalue rtype (peers_state C))) (cfg : config) : config :=
  mkConfig (net cfg) x (peers_of cfg) (next_addr cfg) (failed cfg) (n cfg) (servers cfg) (saved cfg) (endnames cfg)
    (clerks cfg) (handles cfg) (nextClientId cfg) (maxraftstate cfg) (start cfg).
Definition set_peers (x : peers_state C) (cfg : config) : config :=
  mkConfig (net cfg) (mem cfg) x (next_addr cfg) (failed cfg) (n cfg) (servers cfg) (saved cfg) (endnames cfg)
    (clerks cfg) (handles cfg) (nextClientId cfg) (maxraftstate cfg) (start cfg).
Definition set_next (x : addr) (cfg : config) : config :=
  mkConfig (net cfg) (mem cfg) (peers_of cfg) x (failed cfg) (n cfg) (servers cfg) (saved cfg) (endnames cfg)
    (clerks cfg) (handles cfg) (nextClientId cfg) (maxraftstate cfg) (start cfg).
Definition set_servers (x : list (option X)) (cfg : config) : config :=
  mkConfig (net cfg) (mem cfg) (peers_of cfg) (next_addr cfg) (failed cfg) (n cfg) x (saved cfg) (endnames cfg)
    (clerks cfg) (handles cfg) (nextClientId cfg) (maxraftstate cfg) (start cfg).
Definition set_saved (x : list (option saved_state)) (cfg : config) : config :=
  mkConfig (net cfg) (mem cfg) (peers_of cfg) (next_addr cfg) (failed cfg) (n cfg) (servers cfg) x (endnames cfg)
    (clerks cfg) (handles cfg) (nextClientId cfg) (maxraftstate cfg) (start cfg).
Definition set_endnames (x : list (option (list string))) (cfg : config) : config :=
  mkConfig (net cfg) (mem cfg) (peers_of cfg) (next_addr cfg) (failed cfg) (n cfg) (servers cfg) (saved cfg) x
    (clerks cfg) (handles cfg) (nextClientId cfg) (maxraftstate cfg) (start cfg).
Definition set_clerks (x y : gmap addr (list string)) (cid : Z) (cfg : config) : config :=
  mkConfig (net cfg) (mem cfg) (peers_of cfg) (next_addr cfg) (failed cfg) (n cfg) (servers cfg) (saved cfg) (endnames cfg)
    x y cid (maxraftstate cfg) (start cfg).

Definition now (cfg : config) : Z := clock (peers_of cfg).

(** ** The frame of a test *)

Definition checkTimeout (cfg : config) : outcome unit :=
  if negb (failed cfg) && (seconds 120 <? now cfg - start cfg) then Panic Fatal else Ret tt.

(** [Kill] of a server also kills its peer. *)
Definition kill_service (x : X) (ps : peers_state C) : outcome (peers_state C) := kill_raft (server_rf x) ps.

Definition cleanup (cfg : config) : outcome config :=
  cfg ← for_each (fun i cfg =>
          s ← idx (servers cfg) i;
          match s with
          | Some x =>
              ps ← kill_service x (peers_of cfg);
              ss ← idx_set (servers cfg) i (Some (mark_dead x));
              Ret (set_servers ss (set_peers ps cfg))
          | None => Ret cfg
          end) (upto (length (servers cfg))) cfg;
  rn ← Cleanup (net cfg);
  let cfg := set_net rn cfg in
  _ ← checkTimeout cfg;
  Ret cfg.

Definition read_saved (s : saved_state) (cfg : config) : outcome Persister :=
  match s with
  | Live a => match objs (peers_of cfg) !! a with Some rf => Ret (persister rf) | None => Panic NilDeref end
  | Detached p => Ret p
  end.

(** The greatest size over all persisters. *)
Definition max_size (size : Persister -> Z) (cfg : config) : outcome Z :=
  for_each (fun i m =>
    s ← idx (saved cfg) i;
    match s with
    | Some s => p ← read_saved s cfg; Ret (if m <? size p then size p else m)
    | None => Panic NilDeref
    end) (upto (n cfg)) 0.
Definition LogSize (cfg : config) : outcome Z := max_size RaftStateSize cfg.

(** ** Links between the servers *)

Definition connectUnlocked (i : Z) (to : list Z) (cfg : config) : outcome config :=
  rn ← for_each (fun t rn =>
         row ← idx (endnames cfg) i; e ← name_at row t; Ret (Enable e true rn)) to (net cfg);
  rn ← for_each (fun t rn =>
         row ← idx (endnames cfg) t; e ← name_at row i; Ret (Enable e true rn)) to rn;
  Ret (set_net rn cfg).

Definition connect (i : Z) (to : list Z) (cfg : config) : outcome config := connectUnlocked i to cfg.

(** The second loop asks whether the row [j] is there, not the row
    [from[j]]. *)
Definition disconnectUnlocked (i : Z) (from : list Z) (cfg : config) : outcome config :=
  rn ← for_each (fun f rn =>
         row ← idx (endnames cfg) i;
         match row with
         | Some _ => e ← name_at row f; Ret (Enable e false rn)
         | None => Ret rn
         end) from (net cfg);
  rn ← for_each (fun '(j, f) rn =>
         tested ← idx (endnames cfg) j;
         match tested with
         | Some _ => row ← idx (endnames cfg) f; e ← name_at row i; Ret (Enable e false rn)
         | None => Ret rn
         end) (zip (upto (length from)) from) rn;
  Ret (set_net rn cfg).

Definition disconnect (i : Z) (from : list Z) (cfg : config) : outcome config := disconnectUnlocked i from cfg.

Definition All (cfg : config) : list Z := upto (n cfg).

Definition ConnectAll (cfg : config) : outcome config :=
  for_each (fun i cfg => connectUnlocked i (All cfg) cfg) (upto (n cfg)) cfg.

Definition partition (p1 p2 : list Z) (cfg : config) : outcome config :=
  cfg ← for_each (fun i cfg => cfg ← disconnectUnlocked i p2 cfg; connectUnlocked i p1 cfg) p1 cfg;
  for_each (fun i cfg => cfg ← disconnectUnlocked i p1 cfg; connectUnlocked i p2 cfg) p2 cfg.

(** ** Clerks *)

(** The ends of a clerk that was deleted are none: reading the map gives
    nil. *)
Definition clerk_ends (ck : addr) (cfg : config) : list string := default [] (clerks cfg !! ck).

Definition enable_client (b : bool) (ck : addr) (to : list Z) (cfg : config) : outcome config :=
  rn ← for_each (fun t rn => e ← idx (clerk_ends ck cfg) t; Ret (Enable e b rn)) to (net cfg);
  Ret (set_net rn cfg).
Definition ConnectClientUnlocked (ck : addr) (to : list Z) (cfg : config) : outcome config := enable_client true ck to cfg.
Definition ConnectClient (ck : addr) (to : list Z) (cfg : config) : outcome config := ConnectClientUnlocked ck to cfg.
Definition DisconnectClientUnlocked (ck : addr) (from : list Z) (cfg : config) : outcome config :=
  enable_client false ck from cfg.
Definition DisconnectClient (ck : addr) (from : list Z) (cfg : config) : outcome config :=
  DisconnectClientUnlocked ck from cfg.

Definition makeClient (names : list string) (js : nat -> Z) (to : list Z) (cfg : config) : outcome (config * addr) :=
  rn ← make_ends names (upto (n cfg)) (net cfg);
  hs ← random_handles js names;
  let ck := next_addr cfg in
  let cfg := set_next (Pos.succ ck) (set_net rn cfg) in
  let cfg := set_clerks (<[ck := names]> (clerks cfg)) (<[ck := hs]> (handles cfg)) (nextClientId cfg + 1) cfg in
  cfg ← ConnectClientUnlocked ck to cfg;
  Ret (cfg, ck).

(** The files that [deleteClient] removes are not there. *)
Definition deleteClient (ck : addr) (cfg : config) : config :=
  set_clerks (base.delete ck (clerks cfg)) (handles cfg) (nextClientId cfg) cfg.

(** ** Stopping and starting *)

Definition copy_saved (i : Z) (cfg : config) : outcome config :=
  s ← idx (saved cfg) i;
  match s with
  | Some s =>
      p ← read_saved s cfg;
      ss ← idx_set (saved cfg) i (Some (Detached (Copy p)));
      Ret (set_saved ss cfg)
  | None => Ret cfg
  end.

Definition kill_current (i : Z) (cfg : config) : outcome config :=
  s ← idx (servers cfg) i;
  match s with
  | Some x =>
      ps ← kill_service x (peers_of cfg);
      ss ← idx_set (servers cfg) i None;
      Ret (set_servers ss (set_peers ps cfg))
  | None => Ret cfg
  end.

Definition ShutdownServer (i : Z) (cfg : config) : outcome config :=
  cfg ← disconnectUnlocked i (All cfg) cfg;
  let cfg := set_net (DeleteServer i (net cfg)) cfg in
  cfg ← copy_saved i cfg;
  kill_current i cfg.

Definition StartServer (i : Z) (names : list string) (time : Z) (cfg : config) : outcome config :=
  es ← idx_set (endnames cfg) i (Some names);
  let cfg := set_endnames es cfg in
  rn ← make_ends names (upto (n cfg)) (net cfg);
  let cfg := set_net rn cfg in
  s ← idx (saved cfg) i;
  p ← match s with Some s => p ← read_saved s cfg; Ret (Copy p) | None => Ret MakePersister end;
  let a := next_addr cfg in
  ss ← idx_set (saved cfg) i (Some (Live a));
  '(x, rf) ← start_server (maxraftstate cfg) (n cfg) i p (now cfg) time a;
  let ps := peers_of cfg in
  xs ← idx_set (servers cfg) i (Some x);
  let cfg := set_servers xs (set_saved ss (set_peers (mkPeers (<[a := rf]> (objs ps)) (clock ps) (spawned ps)) cfg)) in
  let srv := Pos.succ a in
  let s := AddService (raft_service (server_rf x)) (AddService server_service MakeServer) in
  let cfg := set_mem (<[srv := s]> (mem cfg)) (set_next (Pos.succ srv) cfg) in
  Ret (set_net (AddServer i srv (net cfg)) cfg).

Definition get_state (x : X) (cfg : config) : outcome (Z * bool) :=
  match objs (peers_of cfg) !! server_rf x with
  | Some rf => Ret (GetState rf)
  | None => Panic NilDeref
  end.

(** [make_partition] for the leader [l] that [Leader] reports. *)
Definition split_servers (k : nat) (l : Z) : outcome (list Z * list Z) :=
  let len1 := Z.of_nat k / 2 + 1 in
  let len2 := Z.of_nat k / 2 in
  '(p1, p2, _) ← for_each (fun i '(p1, p2, j) =>
      if i =? l then Ret (p1, p2, j)
      else if j <? len1 then p1 ← idx_set p1 j i; Ret (p1, p2, j + 1)
      else p2 ← idx_set p2 (j - len1) i; Ret (p1, p2, j + 1))
    (upto k) (replicate (Z.to_nat len1) 0, replicate (Z.to_nat len2) 0, 0);
  p2 ← idx_set p2 (len2 - 1) l;
  Ret (p1, p2).

Definition empty_config (k : nat) (maxraft time : Z) : config :=
  mkConfig MakeNetwork ∅ (mkPeers ∅ time []) 1%positive false k (replicate k None) (replicate k None)
    (replicate k None) ∅ ∅ (Z.of_nat k + 1000) maxraft time.

Definition make_config (k : nat) (unreliable : bool) (maxraft : Z) (names : Z -> list string) (times : Z -> Z) (time : Z)
    : outcome config :=
  cfg ← for_each (fun i cfg => StartServer i (names i) (times i) cfg) (upto k) (empty_config k maxraft time);
  cfg ← ConnectAll cfg;
  Ret (set_net (Reliable (negb unreliable) (net cfg)) cfg).
End service.
Arguments config C X : clear implicits.

(** ** The tester of kvraft *)

Section kv.
Context {C : Type} `{!Command C, !Gob C, !AppendGrowth, !WireGob}.
Abbreviation kv_config := (config C KVServer).

Definition kv_SnapshotSize (cfg : kv_config) : outcome Z := max_size SnapshotSize cfg.

(** A server that is down is a nil pointer. *)
Fixpoint kv_Leader_loop (js : list Z) (cfg : kv_config) : outcome (bool * Z) :=
  match js with
  | [] => Ret (false, 0)
  | i :: js =>
      s ← idx (servers cfg) i;
      match s with
      | Some x =>
          '(_, is_leader) ← get_state x cfg;
          if is_leader : bool then Ret (true, i) else kv_Leader_loop js cfg
      | None => Panic NilDeref
      end
  end.
Definition kv_Leader (cfg : kv_config) : outcome (bool * Z) := kv_Leader_loop (upto (n cfg)) cfg.

Definition kv_make_partition (cfg : kv_config) : outcome (list Z * list Z) :=
  '(_, l) ← kv_Leader cfg; split_servers (n cfg) l.

Definition kv_rpcTotal (cfg : kv_config) : Z := GetTotalCount (net cfg).

(** The statistics of a test. *)
Record stats := mkStats { t0 : Z; rpcs0 : Z; ops : Z }.
Definition kv_begin (cfg : kv_config) : stats := mkStats (now cfg) (kv_rpcTotal cfg) 0.
Definition kv_op (s : stats) : stats := mkStats (t0 s) (rpcs0 s) (wrap 32 (ops s + 1)).

(** What [end] prints: the time, the number of servers, calls and
    operations. *)
Definition kv_end (s : stats) (cfg : kv_config) : outcome (option (Z * Z * Z * Z)) :=
  _ ← checkTimeout cfg;
  Ret (if failed cfg then None else Some (now cfg - t0 s, Z.of_nat (n cfg), kv_rpcTotal cfg - rpcs0 s, ops s)).
End kv.

(** ** The tester of shardctrler *)

Section ctrl.
Context {C : Type} `{!Command C, !Gob C, !AppendGrowth, !WireGob}.
Abbreviation ctrl_config := (config C ShardCtrler).

Definition ctrl_checkTimeout : ctrl_config -> outcome unit := checkTimeout.
Definition ctrl_cleanup : ctrl_config -> outcome ctrl_config := cleanup.
Definition ctrl_LogSize : ctrl_config -> outcome Z := LogSize.
Definition ctrl_connectUnlocked : Z -> list Z -> ctrl_config -> outcome ctrl_config := connectUnlocked.
Definition ctrl_disconnectUnlocked : Z -> list Z -> ctrl_config -> outcome ctrl_config := disconnectUnlocked.
Definition ctrl_All : ctrl_config -> list Z := All.
Definition ctrl_ConnectAll : ctrl_config -> outcome ctrl_config := ConnectAll.
Definition ctrl_partition : list Z -> list Z -> ctrl_config -> outcome ctrl_config := partition.
Definition ctrl_makeClient : list string -> (nat -> Z) -> list Z -> ctrl_config -> outcome (ctrl_config * addr) := makeClient.
Definition ctrl_deleteClient : addr -> ctrl_config -> ctrl_config := deleteClient.
Definition ctrl_ConnectClient : addr -> list Z -> ctrl_config -> outcome ctrl_config := ConnectClient.
Definition ctrl_DisconnectClient : addr -> list Z -> ctrl_config -> outcome ctrl_config := DisconnectClient.
Definition ctrl_ShutdownServer : Z -> ctrl_config -> outcome ctrl_config := ShutdownServer.
Definition ctrl_StartServer_of : Z -> list string -> Z -> ctrl_config -> outcome ctrl_config := StartServer.

(** A server that is down is skipped. *)
Fixpoint ctrl_Leader_loop (js : list Z) (cfg : ctrl_config) : outcome (bool * Z) :=
  match js with
  | [] => Ret (false, 0)
  | i :: js =>
      s ← idx (servers cfg) i;
      match s with
      | Some x =>
          '(_, is_leader) ← get_state x cfg;
          if is_leader : bool then Ret (true, i) else ctrl_Leader_loop js cfg
      | None => ctrl_Leader_loop js cfg
      end
  end.
Definition ctrl_Leader (cfg : ctrl_config) : outcome (bool * Z) := ctrl_Leader_loop (upto (n cfg)) cfg.

Definition ctrl_make_partition (cfg : ctrl_config) : outcome (list Z * list Z) :=
  '(_, l) ← ctrl_Leader cfg; split_servers (n cfg) l.

(** The servers of the controller do not limit their state. *)
Definition ctrl_make_config (k : nat) (unreliable : bool) (names : Z -> list string) (times : Z -> Z) (time : Z)
    : outcome ctrl_config := make_config k unreliable (-1) names times time.
End ctrl.
