(* ===== verification/ServiceSpec.v ===== *)
(** * What the testers of the services do

    The links between the servers as a matrix, and that the operations of the
    tester set the entries they should: after [partition] two servers can talk
    exactly when they are on the same side.  [make_partition] splits an odd
    number of servers with the leader in the minority, [random_handles]
    permutes the servers, and a restarted server has the state that was
    persisted. *)

From S2P Require Import Prelude GoSlice Raft RaftGob RaftOps Labrpc RaftRpc RaftConfig RaftWiring RaftSystem Servers ServiceConfig.

Lemma idx_set_nat {A} (l : list A) (i : nat) x : (i < length l)%nat -> idx_set l (Z.of_nat i) x = Ret (<[i := x]> l).
Proof. intros Hi. unfold idx_set. rewrite decide_True by lia. by rewrite Nat2Z.id. Qed.

Section links.
Context {C : Type} `{!Command C, !Gob C, !AppendGrowth, !WireGob} {X : Type} `{!ServerKind (C := C) X}.
Abbreviation config := (config C X).
Implicit Types (cfg : config) (L : nat -> nat -> bool).

Definition zs (l : list nat) : list Z := Z.of_nat <$> l.

(** [e] is the end of server [i] to server [j]. *)
Definition link_name cfg (i j : nat) (e : string) : Prop :=
  exists row, endnames cfg !! i = Some (Some row) /\ row !! j = Some e.

(** All servers have been started, with distinct names. *)
Record all_started cfg : Prop := {
  as_rows : forall i, (i < n cfg)%nat -> exists row, endnames cfg !! i = Some (Some row) /\ length row = n cfg;
  as_bound : forall i j e, link_name cfg i j e -> (i < n cfg)%nat /\ (j < n cfg)%nat;
  as_inj : forall i j i' j' e, link_name cfg i j e -> link_name cfg i' j' e -> i = i' /\ j = j';
}.

Lemma as_name cfg i j : all_started cfg -> (i < n cfg)%nat -> (j < n cfg)%nat -> exists e, link_name cfg i j e.
Proof.
  intros W Hi Hj. destruct (as_rows _ W i Hi) as (row & Hr & Hl). destruct (lookup_lt_is_Some_2 row j) as [e He]; [lia|].
  exists e, row. done.
Qed.

(** ** The matrix of links *)

Definition linked cfg L : Prop := forall i j e, link_name cfg i j e -> enabled_at e (net cfg) = L i j.

(** The links between [i] and the servers [ts] are set. *)
Definition set_links (b : bool) (i : nat) (ts : list nat) L : nat -> nat -> bool :=
  fun x y => if decide (x = i /\ y ∈ ts \/ y = i /\ x ∈ ts) then b else L x y.

(** The operations change the enabled ends of the servers only. *)
Definition relinked cfg cfg' : Prop :=
  cfg' = set_net (net cfg') cfg /\ same_ends (net cfg) (net cfg') /\
  forall e, (forall i j, ~ link_name cfg i j e) -> enabled_at e (net cfg') = enabled_at e (net cfg).

Lemma relinked_refl cfg : relinked cfg cfg.
Proof. split_and!; [by destruct cfg|done|done]. Qed.

Lemma relinked_name cfg cfg' i j e : relinked cfg cfg' -> link_name cfg' i j e <-> link_name cfg i j e.
Proof. intros (E & _). unfold link_name. by rewrite E. Qed.

Lemma relinked_trans cfg1 cfg2 cfg3 : relinked cfg1 cfg2 -> relinked cfg2 cfg3 -> relinked cfg1 cfg3.
Proof.
  intros (E1 & S1 & O1) (E2 & S2 & O2). split_and!.
  - rewrite E2 at 1. rewrite E1. done.
  - by eapply same_ends_trans.
  - intros e He. rewrite O2, O1; [done|done|]. intros i j Hij. apply (He i j). unfold link_name in *. by rewrite E1 in Hij.
Qed.

Lemma relinked_started cfg cfg' : relinked cfg cfg' -> all_started cfg -> all_started cfg'.
Proof.
  intros (E & _) []. unfold link_name in *. split; rewrite E; cbn; done.
Qed.

(** A loop over ends that are there. *)
Lemma toggle_loop {A} b (pick : A -> outcome string) (body : A -> @Network string Z _ _ _ _ -> outcome (@Network string Z _ _ _ _))
    js rn :
  (forall j rn, j ∈ js -> body j rn = (e ← pick j; Ret (Enable e b rn))) -> (forall j, j ∈ js -> returns (pick j)) ->
  exists rn', for_each body js rn = Ret rn' /\ same_ends rn rn' /\
    forall e, (exists j, j ∈ js /\ pick j = Ret e) /\ enabled_at e rn' = b \/
              ~ (exists j, j ∈ js /\ pick j = Ret e) /\ enabled_at e rn' = enabled_at e rn.
Proof.
  intros Hb Hp. revert rn. induction js as [|j js IH]; intros rn.
  - exists rn. split_and!; [done|done|]. intros e. right. split; [|done]. intros (j & Hj & _). by apply not_elem_of_nil in Hj.
  - destruct (Hp j) as [e0 He0]; [by left|]. cbn [for_each]. rewrite Hb by (by left). rewrite He0. cbn [mbind outcome_bind].
    destruct (IH ltac:(intros; apply Hb; by right) ltac:(intros; apply Hp; by right) (Enable e0 b rn)) as (rn' & Hf & Hs & He).
    exists rn'. split_and!; [done|done|]. intros e.
    assert ((exists j', j' ∈ j :: js /\ pick j' = Ret e) <-> e0 = e \/ exists j', j' ∈ js /\ pick j' = Ret e) as ->.
    { setoid_rewrite elem_of_cons. split; [intros (j' & [->|?] & ?); [left; congruence|eauto]|].
      intros [->|(j' & ? & ?)]; [exists j; auto|exists j'; auto]. }
    specialize (He e). rewrite enabled_at_Enable in He. case_decide; tauto.
Qed.

(** The end of row [i], column [j]. *)
Definition pick_name cfg (i j : Z) : outcome string := row ← idx (endnames cfg) i; name_at row j.

Lemma pick_name_ret cfg (i j : nat) e : pick_name cfg (Z.of_nat i) (Z.of_nat j) = Ret e <-> link_name cfg i j e.
Proof.
  unfold pick_name, link_name. split.
  - intros (row & Hr%idx_nat & Hn)%bind_ret_inv. destruct row as [row|]; [|done]. exists row. split; [done|by apply idx_nat].
  - intros (row & Hr & He). rewrite (proj2 (idx_nat _ i (Some row)) Hr). cbn. by apply idx_nat.
Qed.

Lemma zs_elem (ts : list nat) t : t ∈ zs ts <-> exists m, t = Z.of_nat m /\ m ∈ ts.
Proof. unfold zs. rewrite list_elem_of_fmap. done. Qed.

(** The ends in the rows [r] and columns [c]. *)
Lemma toggle_names {A} cfg b (js : list A) (r c : A -> nat) rn
    (body : A -> @Network string Z _ _ _ _ -> outcome (@Network string Z _ _ _ _)) :
  all_started cfg -> (forall j, j ∈ js -> (r j < n cfg)%nat /\ (c j < n cfg)%nat) ->
  (forall j rn, j ∈ js -> body j rn = (e ← pick_name cfg (Z.of_nat (r j)) (Z.of_nat (c j)); Ret (Enable e b rn))) ->
  exists rn', for_each body js rn = Ret rn' /\ same_ends rn rn' /\
    forall e, (exists j, j ∈ js /\ link_name cfg (r j) (c j) e) /\ enabled_at e rn' = b \/
              ~ (exists j, j ∈ js /\ link_name cfg (r j) (c j) e) /\ enabled_at e rn' = enabled_at e rn.
Proof.
  intros W Hjs Hb.
  destruct (toggle_loop b (fun j => pick_name cfg (Z.of_nat (r j)) (Z.of_nat (c j))) body js rn Hb) as (rn' & Hf & Hs & He).
  - intros j Hj. destruct (Hjs j Hj) as [Hr Hc]. destruct (as_name cfg _ _ W Hr Hc) as [e He]. exists e. by apply pick_name_ret.
  - exists rn'. setoid_rewrite pick_name_ret in He. done.
Qed.

(** The two loops of [connectUnlocked] and [disconnectUnlocked]. *)
Lemma relink_ok cfg b (i : nat) (ts : list nat) {A} (js : list A) (c : A -> nat) out inc :
  all_started cfg -> (i < n cfg)%nat -> (forall t, t ∈ ts -> (t < n cfg)%nat) ->
  (forall j, j ∈ js -> c j ∈ ts) -> (forall t, t ∈ ts -> exists j, j ∈ js /\ c j = t) ->
  (forall t rn, t ∈ ts -> out (Z.of_nat t) rn = (e ← pick_name cfg (Z.of_nat i) (Z.of_nat t); Ret (Enable e b rn))) ->
  (forall j rn, j ∈ js -> inc j rn = (e ← pick_name cfg (Z.of_nat (c j)) (Z.of_nat i); Ret (Enable e b rn))) ->
  forall L, linked cfg L ->
  ensures (rn ← for_each out (zs ts) (net cfg); rn ← for_each inc js rn; Ret (set_net rn cfg))
    (fun cfg' => relinked cfg cfg' /\ linked cfg' (set_links b i ts L)).
Proof.
  intros W Hi Hts Hc1 Hc2 Hout Hinc L HL.
  destruct (toggle_names cfg b (zs ts) (fun _ => i) Z.to_nat (net cfg) out W) as (rn1 & -> & S1 & E1).
  { intros j (t & -> & Ht)%zs_elem. rewrite Nat2Z.id. auto. }
  { intros j rn (t & -> & Ht)%zs_elem. rewrite Nat2Z.id. by apply Hout. }
  cbn [mbind outcome_bind].
  destruct (toggle_names cfg b js c (fun _ => i) rn1 inc W) as (rn2 & -> & S2 & E2); [auto|done|].
  apply ensures_ret.
  assert (forall e, (exists t, t ∈ ts /\ (link_name cfg i t e \/ link_name cfg t i e)) /\ enabled_at e rn2 = b \/
    ~ (exists t, t ∈ ts /\ (link_name cfg i t e \/ link_name cfg t i e)) /\ enabled_at e rn2 = enabled_at e (net cfg)) as E.
  { intros e. specialize (E1 e). specialize (E2 e).
    assert ((exists j, j ∈ zs ts /\ link_name cfg i (Z.to_nat j) e) <-> exists t, t ∈ ts /\ link_name cfg i t e) as X1.
    { split; [intros (j & (t & -> & Ht)%zs_elem & Hl); rewrite Nat2Z.id in Hl; eauto|].
      intros (t & Ht & Hl). exists (Z.of_nat t). rewrite Nat2Z.id. split; [apply zs_elem; eauto|done]. }
    assert ((exists j, j ∈ js /\ link_name cfg (c j) i e) <-> exists t, t ∈ ts /\ link_name cfg t i e) as X2.
    { split; [intros (j & Hj & Hl); eauto|]. intros (t & Ht & Hl). destruct (Hc2 t Ht) as (j & Hj & <-). eauto. }
    rewrite X1 in E1. rewrite X2 in E2. clear -E1 E2. naive_solver. }
  split.
  - split_and!; [done|by eapply same_ends_trans|]. intros e He. cbn. destruct (E e) as [[(t & _ & [Hl|Hl]) _]|[_ ?]];
      [by destruct (He _ _ Hl)..|done].
  - intros x y e Hl. change (link_name cfg x y e) in Hl. cbn. unfold set_links. rewrite <- (HL x y e Hl).
    destruct (E e) as [[(t & Ht & Hl') ->]|[Hno ->]].
    + rewrite decide_True; [done|]. destruct Hl' as [Hl'|Hl']; destruct (as_inj _ W _ _ _ _ _ Hl Hl') as [-> ->]; auto.
    + rewrite decide_False; [done|]. intros [[-> Hy]|[-> Hx]]; apply Hno; eauto.
Qed.

Lemma connectUnlocked_ok cfg (i : nat) (ts : list nat) L :
  all_started cfg -> (i < n cfg)%nat -> (forall t, t ∈ ts -> (t < n cfg)%nat) -> linked cfg L ->
  ensures (connectUnlocked (Z.of_nat i) (zs ts) cfg)
    (fun cfg' => relinked cfg cfg' /\ linked cfg' (set_links true i ts L)).
Proof.
  intros W Hi Hts HL. apply (relink_ok cfg true i ts (zs ts) Z.to_nat); try done.
  - intros j (t & -> & Ht)%zs_elem. by rewrite Nat2Z.id.
  - intros t Ht. exists (Z.of_nat t). split; [apply zs_elem; eauto|apply Nat2Z.id].
  - intros t rn _. unfold pick_name. by destruct (idx (endnames cfg) _).
  - intros j rn (t & -> & Ht)%zs_elem. rewrite Nat2Z.id. unfold pick_name. by destruct (idx (endnames cfg) _).
Qed.

Lemma disconnectUnlocked_ok cfg (i : nat) (ts : list nat) L :
  all_started cfg -> (i < n cfg)%nat -> (forall t, t ∈ ts -> (t < n cfg)%nat) -> (length ts <= n cfg)%nat -> linked cfg L ->
  ensures (disconnectUnlocked (Z.of_nat i) (zs ts) cfg)
    (fun cfg' => relinked cfg cfg' /\ linked cfg' (set_links false i ts L)).
Proof.
  intros W Hi Hts Hlen HL.
  assert (forall t : nat, (t < n cfg)%nat -> exists row, idx (endnames cfg) (Z.of_nat t) = Ret (Some row)) as Hrow.
  { intros t Ht. destruct (as_rows _ W t Ht) as (row & Hr & _). exists row. by apply idx_nat. }
  assert (forall j f, (j, f) ∈ zip (upto (length (zs ts))) (zs ts) -> (exists m, j = Z.of_nat m /\ (m < n cfg)%nat) /\ f ∈ zs ts) as Hzip.
  { intros j f Hjf. split; [|by apply elem_of_zip_r in Hjf]. apply elem_of_zip_l in Hjf. apply upto_nat in Hjf as (m & -> & Hm).
    exists m. unfold zs in Hm. rewrite length_fmap in Hm. split; [done|lia]. }
  apply (relink_ok cfg false i ts (zip (upto (length (zs ts))) (zs ts)) (fun p => Z.to_nat p.2)); try done.
  - intros [j f] Hjf. apply Hzip in Hjf as [_ (t & -> & Ht)%zs_elem]. cbn. by rewrite Nat2Z.id.
  - intros t Ht. assert (Z.of_nat t ∈ zs ts) as Hz by (apply zs_elem; eauto).
    apply list_elem_of_lookup in Hz as [k Hk]. exists (Z.of_nat k, Z.of_nat t). cbn. rewrite Nat2Z.id. split; [|done].
    apply list_elem_of_lookup. exists k. apply lookup_zip_Some. split; [|done]. unfold upto. rewrite list_lookup_fmap.
    rewrite lookup_seq_lt; [done|]. by apply lookup_lt_Some in Hk.
  - intros t rn _. destruct (Hrow i Hi) as [row Hr]. unfold pick_name. rewrite Hr. done.
  - intros [j f] rn Hjf. apply Hzip in Hjf as [(m & -> & Hm) (t & -> & Ht)%zs_elem]. cbn. rewrite Nat2Z.id.
    destruct (Hrow m Hm) as [row Hr]. rewrite Hr. cbn. unfold pick_name. by destruct (idx (endnames cfg) (Z.of_nat t)).
Qed.

(** ** Partitioning *)

(** One side [p] of a partition, against the other side [o], for the servers
    [pre] of it. *)
Definition side (p o pre : list nat) L : nat -> nat -> bool :=
  foldl (fun L i => set_links true i p (set_links false i o L)) L pre.

Lemma side_links p o pre L x y :
  (forall i, i ∈ p -> i ∈ o -> False) -> (forall i, i ∈ pre -> i ∈ p) ->
  side p o pre L x y =
    if decide (x ∈ p /\ y ∈ p /\ (x ∈ pre \/ y ∈ pre)) then true
    else if decide (x ∈ pre /\ y ∈ o \/ y ∈ pre /\ x ∈ o) then false else L x y.
Proof.
  intros Hd. induction pre as [|i pre IH] using rev_ind; intros Hpre.
  - cbn. rewrite !decide_False; [done| |]; rewrite !elem_of_nil; tauto.
  - unfold side in *. rewrite foldl_app. cbn [foldl]. unfold set_links at 1. unfold set_links at 1.
    rewrite IH by (intros; apply Hpre; set_solver).
    assert (i ∈ p) as Hi by (apply Hpre; set_solver).
    assert (forall a, a ∈ pre -> a ∈ p) as Hpre' by (intros; apply Hpre; set_solver).
    repeat case_decide; try done; exfalso; rewrite ?elem_of_app, ?list_elem_of_singleton in *; naive_solver.
Qed.

Definition side_step (p o : list Z) (i : Z) (cfg : config) : outcome config :=
  cfg ← disconnectUnlocked i o cfg; connectUnlocked i p cfg.

Lemma side_ok (p o : list nat) cfg L :
  all_started cfg -> linked cfg L -> (forall i, i ∈ p -> (i < n cfg)%nat) -> (forall i, i ∈ o -> (i < n cfg)%nat) ->
  (length o <= n cfg)%nat ->
  ensures (for_each (side_step (zs p) (zs o)) (zs p) cfg)
    (fun cfg' => relinked cfg cfg' /\ linked cfg' (side p o p L)).
Proof.
  intros W HL Hp Ho Hlen. eapply ensures_mono; [apply (for_each_ensures _ (fun pre cfg' => exists q, pre = zs q /\
    relinked cfg cfg' /\ linked cfg' (side p o q L)))|].
  - intros pre x post cfg1 Hl (q & -> & R1 & L1). assert (x ∈ zs p) as (i & -> & Hi)%zs_elem by (rewrite Hl; set_solver).
    assert (n cfg1 = n cfg) as En by (destruct R1 as [-> _]; done).
    assert (all_started cfg1) as W1 by (by eapply relinked_started). unfold side_step.
    eapply ensures_bind; [apply (disconnectUnlocked_ok cfg1 i o (side p o q L) W1); rewrite ?En; eauto|]. cbn. intros cfg2 [R2 L2].
    assert (n cfg2 = n cfg1) as En2 by (destruct R2 as [-> _]; done).
    eapply ensures_mono; [apply (connectUnlocked_ok cfg2 i p (set_links false i o (side p o q L))); rewrite ?En2, ?En; eauto; by eapply relinked_started|].
    intros cfg3 [R3 L3]. exists (q ++ [i]). split_and!.
    + unfold zs. by rewrite fmap_app.
    + eapply relinked_trans; [exact R1|]. by eapply relinked_trans.
    + unfold side. rewrite foldl_app. exact L3.
  - exists []. split_and!; [done|apply relinked_refl|done].
  - intros cfg' (q & Hq & R & HL'). apply (inj (fmap Z.of_nat)) in Hq as <-. done.
Qed.

Lemma partition_ok cfg (p1 p2 : list nat) L :
  all_started cfg -> linked cfg L -> p1 ++ p2 ≡ₚ seq 0 (n cfg) ->
  ensures (partition (zs p1) (zs p2) cfg) (fun cfg' => relinked cfg cfg' /\
    linked cfg' (fun i j => bool_decide (i ∈ p1 /\ j ∈ p1 \/ i ∈ p2 /\ j ∈ p2))).
Proof.
  intros W HL Hp. assert (forall i, i ∈ p1 \/ i ∈ p2 <-> (i < n cfg)%nat) as Hall.
  { intros i. rewrite <- elem_of_app, Hp, elem_of_seq. lia. }
  assert (length p1 <= n cfg /\ length p2 <= n cfg)%nat as [Hl1 Hl2].
  { apply Permutation_length in Hp. rewrite length_app, length_seq in Hp. lia. }
  assert (NoDup (p1 ++ p2)) as (_ & Hd & _)%NoDup_app by (rewrite Hp; apply NoDup_seq).
  assert (forall i, i ∈ p1 -> (i < n cfg)%nat) as H1 by (intros; apply Hall; auto).
  assert (forall i, i ∈ p2 -> (i < n cfg)%nat) as H2 by (intros; apply Hall; auto).
  unfold partition. eapply ensures_bind; [apply (side_ok p1 p2 cfg L W HL H1 H2 Hl2)|].
  intros cfg1 [R1 L1]. assert (n cfg1 = n cfg) as En by (destruct R1 as [-> _]; done).
  eapply ensures_mono; [apply (side_ok p2 p1 cfg1 _ (relinked_started _ _ R1 W) L1); rewrite ?En; auto|].
  intros cfg2 [R2 L2]. split; [by eapply relinked_trans|]. intros i j e He. rewrite (L2 i j e He).
  assert (link_name cfg i j e) as [Hi Hj]%(as_bound _ W) by (apply (relinked_name cfg cfg1); [done|]; by apply (relinked_name cfg1 cfg2)).
  apply Hall in Hi, Hj.
  assert (forall i, i ∈ p2 -> i ∈ p1 -> False) as Hd' by (intros k Hk2 Hk1; by apply (Hd k)).
  rewrite (side_links p2 p1) by done. rewrite (side_links p1 p2); [|intros k Hk1 Hk2; by apply (Hd k)|done].
  repeat case_decide; case_bool_decide; try done; exfalso; naive_solver.
Qed.

Lemma ConnectAll_ok cfg L :
  all_started cfg -> linked cfg L ->
  ensures (ConnectAll cfg) (fun cfg' => relinked cfg cfg' /\ linked cfg' (fun _ _ => true)).
Proof.
  intros W HL. unfold ConnectAll. eapply ensures_mono; [apply (for_each_ensures _ (fun pre cfg' => relinked cfg cfg' /\
    linked cfg' (fun i j => bool_decide (Z.of_nat i ∈ pre \/ Z.of_nat j ∈ pre) || L i j)))|].
  - intros pre x post cfg1 Hl [R1 L1]. assert (n cfg1 = n cfg) as En by (destruct R1 as [-> _]; done).
    assert (x ∈ upto (n cfg)) as (i & -> & Hi)%upto_nat by (rewrite Hl; set_solver).
    change (All cfg1) with (zs (seq 0 (n cfg1))).
    eapply ensures_mono; [apply (connectUnlocked_ok cfg1 i); [by eapply relinked_started|lia| |exact L1]|].
    { intros t Ht%elem_of_seq. lia. }
    intros cfg2 [R2 L2]. split; [by eapply relinked_trans|]. intros a b e He. rewrite (L2 a b e He). unfold set_links.
    apply (relinked_name cfg1 cfg2 a b e R2), (relinked_name cfg cfg1 a b e R1) in He as [Ha Hb]%(as_bound _ W).
    case_decide as Hd; rewrite !elem_of_seq in Hd.
    + rewrite bool_decide_eq_true_2; [done|]. rewrite !elem_of_app, !list_elem_of_singleton. destruct Hd as [[-> _]|[-> _]]; tauto.
    + f_equal. apply bool_decide_ext. rewrite !elem_of_app, !list_elem_of_singleton.
      split; [tauto|]. intros [[?|?]|[?|?]]; auto; exfalso; apply Hd; lia.
  - split; [apply relinked_refl|]. intros i j e He. rewrite (HL i j e He).
    rewrite bool_decide_eq_false_2; [done|]. rewrite !elem_of_nil. tauto.
  - intros cfg' [R HL']. split; [done|]. intros i j e He. rewrite (HL' i j e He).
    apply (relinked_name cfg cfg' i j e R), (as_bound _ W) in He as [Hi _].
    rewrite bool_decide_eq_true_2; [done|]. left. apply upto_nat. eauto.
Qed.
End links.

(** ** The order of a clerk's servers *)

Lemma random_handles_perm {A} (js : nat -> Z) (kvh : list A) :
  (forall i, (i < length kvh)%nat -> 0 <= js i <= Z.of_nat i) ->
  ensures (random_handles js kvh) (fun sa => sa ≡ₚ kvh).
Proof.
  intros Hjs. unfold random_handles. apply (for_each_ensures _ (fun _ sa => sa ≡ₚ kvh)); [|done].
  intros pre x post sa Hl Hsa. assert (x ∈ upto (length kvh)) as (i & -> & Hi)%upto_nat by (rewrite Hl; set_solver).
  apply Permutation_length in Hsa as Hlen. specialize (Hjs i Hi). rewrite Nat2Z.id.
  destruct (Z_of_nat_complete (js i) ltac:(lia)) as [j Hj]. rewrite Hj in *.
  destruct (lookup_lt_is_Some_2 sa i) as [xi Hxi]; [lia|]. destruct (lookup_lt_is_Some_2 sa j) as [xj Hxj]; [lia|].
  rewrite (proj2 (idx_nat sa i xi) Hxi), (proj2 (idx_nat sa j xj) Hxj). cbn [mbind outcome_bind].
  rewrite idx_set_nat by lia. cbn [mbind outcome_bind]. rewrite idx_set_nat by (rewrite length_insert; lia). apply ensures_ret.
  rewrite (Permutation_insert_swap sa i j xi xj Hxi Hxj). done.
Qed.

(** ** Splitting the servers *)

Section split.
Context (k m : nat) (l : nat).
Hypothesis Hk : k = (2 * m + 1)%nat.
Hypothesis Hm : (1 <= m)%nat.
Hypothesis Hl : (l < k)%nat.

(** The servers below [t] other than [l]. *)
Definition others (t : nat) : list nat := filter (fun i => i <> l) (seq 0 t).

Lemma others_S t : others (S t) = others t ++ (if decide (t = l) then [] else [t]).
Proof.
  unfold others. rewrite seq_S, filter_app, filter_cons, filter_nil. cbn. f_equal.
  destruct (decide (t = l)) as [->|Hne]; [by rewrite decide_False by tauto|by rewrite decide_True].
Qed.

Lemma length_others t : (length (others t) = if decide (l < t)%nat then t - 1 else t)%nat.
Proof.
  induction t as [|t IH]; [by rewrite decide_False by lia|]. rewrite others_S, length_app, IH.
  repeat case_decide; cbn; lia.
Qed.

Lemma others_perm : others k ++ [l] ≡ₚ seq 0 k.
Proof.
  apply NoDup_Permutation.
  - apply NoDup_app. split_and!; [apply NoDup_filter, NoDup_seq| |apply NoDup_singleton].
    intros x Hx ->%list_elem_of_singleton. by apply list_elem_of_filter in Hx as [? _].
  - apply NoDup_seq.
  - intros x. rewrite elem_of_app, list_elem_of_singleton. unfold others. rewrite list_elem_of_filter, !elem_of_seq.
    destruct (decide (x = l)); lia.
Qed.

(** A list [os] in a slice of [len] zeros. *)
Definition padded (len : nat) (os : list nat) : list Z := zs os ++ replicate (len - length os) 0.

Lemma padded_set len os x :
  (length os < len)%nat -> idx_set (padded len os) (Z.of_nat (length os)) (Z.of_nat x) = Ret (padded len (os ++ [x])).
Proof.
  intros Hlt. unfold idx_set, padded. rewrite length_app, length_replicate. unfold zs. rewrite length_fmap.
  rewrite decide_True by lia. f_equal. rewrite Nat2Z.id, fmap_app, <- app_assoc, length_app. cbn [fmap list_fmap length app].
  replace (len - length os)%nat with (S (len - (length os + 1))) by lia. cbn [replicate].
  rewrite insert_app_r_alt by (rewrite length_fmap; lia). rewrite length_fmap, Nat.sub_diag. done.
Qed.

Definition split_at (t : nat) : list Z * list Z * Z :=
  (padded (S m) (take (S m) (others t)), padded m (drop (S m) (others t)), Z.of_nat (length (others t))).

Lemma split_loop t :
  (t <= k)%nat ->
  for_each (fun i '(p1, p2, j) =>
      if i =? Z.of_nat l then Ret (p1, p2, j)
      else if j <? Z.of_nat k / 2 + 1 then p1 ← idx_set p1 j i; Ret (p1, p2, j + 1)
      else p2 ← idx_set p2 (j - (Z.of_nat k / 2 + 1)) i; Ret (p1, p2, j + 1))
    (upto t) (padded (S m) [], padded m [], 0) = Ret (split_at t).
Proof.
  assert (Z.of_nat k / 2 = Z.of_nat m) as Hdiv.
  { rewrite Hk. replace (Z.of_nat (2 * m + 1)) with (1 + Z.of_nat m * 2) by lia. by rewrite Z.div_add by lia. }
  induction t as [|t IH]; intros Ht; [done|]. rewrite upto_S, for_each_app, IH by lia. cbn [mbind outcome_bind for_each].
  unfold split_at. rewrite Hdiv, others_S. pose proof (length_others t) as Hlo.
  destruct (Z.eqb_spec (Z.of_nat t) (Z.of_nat l)) as [E|E].
  { rewrite decide_True by lia. by rewrite app_nil_r. }
  rewrite decide_False by lia. destruct (Z.ltb_spec (Z.of_nat (length (others t))) (Z.of_nat m + 1)) as [Hlt|Hge].
  - rewrite (take_ge (others t)) by lia. rewrite (drop_ge (others t)) by lia.
    rewrite padded_set by lia. cbn [mbind outcome_bind]. rewrite length_app. cbn [length].
    rewrite (take_ge (_ ++ _)) by (rewrite length_app; cbn; lia). rewrite (drop_ge (_ ++ _)) by (rewrite length_app; cbn; lia).
    do 2 f_equal. lia.
  - rewrite (take_app_le (others t)) by lia. rewrite (drop_app_le (others t)) by lia. rewrite length_app. cbn [length].
    replace (Z.of_nat (length (others t)) - (Z.of_nat m + 1)) with (Z.of_nat (length (drop (S m) (others t)))) by (rewrite length_drop; lia).
    rewrite padded_set by (rewrite length_drop; case_decide; lia). cbn [mbind outcome_bind]. do 2 f_equal. lia.
Qed.

Lemma split_servers_odd :
  exists p1 p2, split_servers k (Z.of_nat l) = Ret (zs p1, zs p2) /\ p1 ++ p2 ≡ₚ seq 0 k /\ l ∈ p2 /\
    length p1 = S m /\ length p2 = m.
Proof.
  assert (Z.of_nat k / 2 = Z.of_nat m) as Hdiv.
  { rewrite Hk. replace (Z.of_nat (2 * m + 1)) with (1 + Z.of_nat m * 2) by lia. by rewrite Z.div_add by lia. }
  pose proof (split_loop k (le_n k)) as Hloop. pose proof (length_others k) as Hlo. rewrite decide_True in Hlo by done.
  exists (take (S m) (others k)), (drop (S m) (others k) ++ [l]). split_and!.
  - unfold split_servers. rewrite Hdiv in *.
    replace (replicate (Z.to_nat (Z.of_nat m + 1)) 0) with (padded (S m) []) by (unfold padded, zs; cbn [fmap list_fmap app length]; f_equal; lia).
    replace (replicate (Z.to_nat (Z.of_nat m)) 0) with (padded m []) by (unfold padded, zs; cbn [fmap list_fmap app length]; f_equal; lia).
    rewrite Hloop. unfold split_at. cbn [mbind outcome_bind].
    replace (Z.of_nat m - 1) with (Z.of_nat (length (drop (S m) (others k)))) by (rewrite length_drop; lia).
    rewrite padded_set by (rewrite length_drop; lia). cbn [mbind outcome_bind]. unfold padded.
    rewrite length_take, length_app, length_drop. cbn [length].
    replace (S m - S m `min` length (others k))%nat with 0%nat by lia.
    replace (m - (length (others k) - S m + 1))%nat with 0%nat by lia. by rewrite !app_nil_r.
  - rewrite app_assoc, take_drop. apply others_perm.
  - apply elem_of_app. right. by left.
  - rewrite length_take. lia.
  - rewrite length_app, length_drop. cbn. lia.
Qed.
End split.

(** ** Clerks, leaders and restarts *)

Section service_props.
Context {C : Type} `{!Command C, !Gob C, !AppendGrowth, !WireGob}.

(** The leader that the tester of kvraft finds. *)
Lemma kv_Leader_bound (js : list Z) (cfg : config C KVServer) b l :
  kv_Leader_loop js cfg = Ret (b, l) ->
  (b = false -> l = 0) /\ (b = true -> l ∈ js /\ exists x t, servers cfg !! Z.to_nat l = Some (Some x) /\ get_state x cfg = Ret (t, true)).
Proof.
  induction js as [|i js IH]; cbn [kv_Leader_loop]; [by intros [= <- <-]|].
  intros (s & Hs & Hl)%bind_ret_inv. apply idx_ret in Hs as [_ Hs]. destruct s as [x|]; [|done].
  apply bind_ret_inv in Hl as ([t ld] & Hg & Hl). destruct ld.
  - injection Hl as <- <-. split; [done|]. intros _. split; [by left|eauto].
  - destruct (IH Hl) as [H1 H2]. split; [done|]. intros Hb. destruct (H2 Hb) as [? ?]. split; [by right|done].
Qed.

Lemma kv_Leader_returns (js : list Z) (cfg : config C KVServer) :
  (forall j, j ∈ js -> exists x st, idx (servers cfg) j = Ret (Some x) /\ get_state x cfg = Ret st) ->
  returns (kv_Leader_loop js cfg).
Proof.
  induction js as [|i js IH]; intros Hup; cbn [kv_Leader_loop]; [by eexists|].
  destruct (Hup i) as (x & [t ld] & Hx & Hg); [by left|]. rewrite Hx. cbn [mbind outcome_bind]. rewrite Hg. cbn [mbind outcome_bind].
  destruct ld; [by eexists|]. apply IH. intros j Hj. apply Hup. by right.
Qed.

Context {X : Type} `{!ServerKind (C := C) X}.

(** Enabling the ends of a clerk. *)
Lemma enable_client_ok b ck to (cfg cfg' : config C X) names :
  clerks cfg !! ck = Some names -> enable_client b ck to cfg = Ret cfg' ->
  exists rn, cfg' = set_net rn cfg /\ same_ends (net cfg) rn /\
    forall e, (exists j : nat, Z.of_nat j ∈ to /\ names !! j = Some e) /\ enabled_at e rn = b \/
              ~ (exists j : nat, Z.of_nat j ∈ to /\ names !! j = Some e) /\ enabled_at e rn = enabled_at e (net cfg).
Proof.
  intros Hck (rn & Hf & [= <-])%bind_ret_inv. exists rn. split; [done|]. unfold clerk_ends in Hf. rewrite Hck in Hf. cbn in Hf.
  apply (enable_loop (fun t => Some <$> idx names t) b) in Hf as (Hs & _ & He); [|intros j rn0; by destruct (idx names j)].
  split; [done|]. intros e. specialize (He e).
  assert (touched (fun t => Some <$> idx names t) to e <-> exists j : nat, Z.of_nat j ∈ to /\ names !! j = Some e) as E; [|by rewrite E in He].
  unfold touched. split.
  - intros (j & Hj & Hp). destruct (idx names j) as [e'| |] eqn:Ei; cbn in Hp; try done. injection Hp as ->.
    apply idx_ret in Ei as [Hpos Hn]. exists (Z.to_nat j). rewrite Z2Nat.id by done. done.
  - intros (j & Hj & Hn). exists (Z.of_nat j). split; [done|]. by rewrite (proj2 (idx_nat names j e) Hn).
Qed.

(** What stopping a server leaves of it. *)
Lemma ShutdownServer_saves (i : nat) (cfg cfg' : config C X) a rf :
  ShutdownServer (Z.of_nat i) cfg = Ret cfg' -> saved cfg !! i = Some (Some (Live a)) ->
  objs (peers_of cfg) !! a = Some rf -> saved cfg' !! i = Some (Some (Detached (persister rf))).
Proof.
  intros Hs Hsv Ho. apply bind_ret_inv in Hs as (cfg1 & Hd & Hs).
  assert (exists rn, cfg1 = set_net rn cfg) as [rn ->].
  { apply bind_ret_inv in Hd as (r1 & _ & Hd). apply bind_ret_inv in Hd as (r2 & _ & [= <-]). eauto. }
  apply bind_ret_inv in Hs as (cfg2 & Hc & Hk). apply bind_ret_inv in Hc as (s & Hi%idx_nat & Hc). cbn in Hi.
  rewrite Hsv in Hi. injection Hi as <-. cbn [read_saved peers_of set_net] in Hc. rewrite Ho in Hc. cbn [mbind outcome_bind] in Hc.
  apply bind_ret_inv in Hc as (ss & Hss & [= <-]). apply idx_set_ret in Hss as [Hlt ->]. rewrite Nat2Z.id in *.
  apply bind_ret_inv in Hk as (x & _ & Hk). destruct x as [x|].
  - apply bind_ret_inv in Hk as (ps & _ & Hk). apply bind_ret_inv in Hk as (xs & _ & [= <-]). cbn.
    rewrite list_lookup_insert_eq by (cbn in Hlt; lia). by destruct (persister rf).
  - injection Hk as <-. cbn. rewrite list_lookup_insert_eq by (cbn in Hlt; lia). by destruct (persister rf).
Qed.
End service_props.

Section service_claims.
Context {C : Type} `{!Command C, !Gob C, !AppendGrowth, !WireGob}.

(** [partition] of all servers into two groups leaves two servers with
    their ends to each other enabled exactly when they are in the same group,
    whatever was enabled before; the ends of the clerks keep their state. *)
Theorem partition_links {X : Type} `{!ServerKind (C := C) X} (cfg : config C X) (p1 p2 : list nat) L :
  all_started cfg -> linked cfg L -> p1 ++ p2 ≡ₚ seq 0 (n cfg) ->
  ensures (partition (zs p1) (zs p2) cfg) (fun cfg' => relinked cfg cfg' /\
    linked cfg' (fun i j => bool_decide (i ∈ p1 /\ j ∈ p1 \/ i ∈ p2 /\ j ∈ p2))).
Proof. apply partition_ok. Qed.

(** C33: with an odd number of servers, at least three, all of them up,
    [make_partition] splits them into a majority and a minority that has the
    leader (server 0 when there is none); partitioning them so leaves the
    leader linked to a minority only. *)
Theorem make_partition_isolates (cfg : config C KVServer) L m :
  all_started cfg -> linked cfg L -> n cfg = (2 * m + 1)%nat -> (1 <= m)%nat ->
  (forall j, j ∈ upto (n cfg) -> exists x st, idx (servers cfg) j = Ret (Some x) /\ get_state x cfg = Ret st) ->
  exists b (l : nat) p1 p2, kv_Leader cfg = Ret (b, Z.of_nat l) /\
    (b = true -> exists x t, servers cfg !! l = Some (Some x) /\ get_state x cfg = Ret (t, true)) /\
    kv_make_partition cfg = Ret (zs p1, zs p2) /\ length p1 = S m /\ length p2 = m /\ l ∈ p2 /\
    ensures (partition (zs p1) (zs p2) cfg) (fun cfg' =>
      linked cfg' (fun i j => bool_decide (i ∈ p1 /\ j ∈ p1 \/ i ∈ p2 /\ j ∈ p2))).
Proof.
  intros W HL Hn Hm Hup. destruct (kv_Leader_returns (upto (n cfg)) cfg Hup) as [[b l] Hl].
  destruct (kv_Leader_bound _ _ _ _ Hl) as [H1 H2].
  assert (0 <= l < Z.of_nat (n cfg)) as Hb.
  { destruct b; [destruct (H2 eq_refl) as [?%elem_of_upto _]; lia|]. rewrite (H1 eq_refl). lia. }
  destruct (Z_of_nat_complete l ltac:(lia)) as [l' ->].
  destruct (split_servers_odd (n cfg) m l' Hn Hm ltac:(lia)) as (p1 & p2 & Hs & Hp & Hin & Hl1 & Hl2).
  exists b, l', p1, p2. split_and!; try done.
  - intros Hbt. destruct (H2 Hbt) as [_ (x & t & Hx & Hg)]. rewrite Nat2Z.id in Hx. eauto.
  - unfold kv_make_partition, kv_Leader. rewrite Hl. exact Hs.
  - eapply ensures_mono; [by apply (partition_ok cfg p1 p2 L)|]. by intros cfg' [_ ?].
Qed.

(** [makeClient] gives the clerk one end to each server, in some order,
    and enables exactly those to the servers in [to]; each end leads to the
    server of its position, and the ends that existed keep their state. *)
Theorem makeClient_ends {X : Type} `{!ServerKind (C := C) X} names js to (cfg cfg' : config C X) ck :
  length names = n cfg -> (forall i, (i < length names)%nat -> 0 <= js i <= Z.of_nat i) ->
  makeClient names js to cfg = Ret (cfg', ck) ->
  clerks cfg' !! ck = Some names /\ (exists hs, handles cfg' !! ck = Some hs /\ hs ≡ₚ names) /\
  (forall (j : nat) e, names !! j = Some e ->
     (e ∉ ends (net cfg)) /\ server_of e (net cfg') = Some (Z.of_nat j) /\
     enabled_at e (net cfg') = bool_decide (Z.of_nat j ∈ to)) /\
  (forall e, e ∈ ends (net cfg) -> enabled_at e (net cfg') = enabled_at e (net cfg)).
Proof.
  intros Hl Hjs (rn & Hme & Hm)%bind_ret_inv. apply make_ends_made in Hme as (_ & Hin & Hmade & Hother & Hinj).
  destruct (random_handles_perm js names Hjs) as (hs & Hr & Hperm). rewrite Hr in Hm. cbn [mbind outcome_bind] in Hm.
  apply bind_ret_inv in Hm as (cfg1 & Hc & [= <- <-]). set (cfg0 := set_clerks _ _ _ _) in Hc.
  destruct (enable_client_ok true (next_addr cfg) to cfg0 cfg1 names) as (rn1 & -> & (Es & _ & Ec) & He); [by apply lookup_insert_eq|exact Hc|].
  cbn [net cfg0 set_clerks set_next set_net] in Es, Ec, He.
  assert (forall (j : nat) e, names !! j = Some e -> Z.of_nat j ∈ upto (n cfg)) as Hup.
  { intros j e Hj. apply elem_of_upto. apply lookup_lt_Some in Hj. lia. }
  split_and!.
  - apply lookup_insert_eq.
  - exists hs. split; [apply lookup_insert_eq|done].
  - intros j e Hj. destruct (Hmade j e (Hup j e Hj) Hj) as (Hnew & Hso & Hoff). split_and!; [done| |].
    + unfold server_of in *. cbn. by rewrite Ec.
    + cbn. destruct (He e) as [[(j' & Hj' & Hn) ->]|[Hno ->]].
      * rewrite (Hinj j j' e (Hup j e Hj) (Hup j' e Hn) Hj Hn). by rewrite bool_decide_eq_true_2.
      * rewrite Hoff, bool_decide_eq_false_2; [done|]. intros Hto. apply Hno. eauto.
  - intros e Hold. assert (forall j : nat, names !! j <> Some e) as Hne.
    { intros j Hj. by destruct (Hmade j e (Hup j e Hj) Hj) as [? _]. }
    cbn. destruct (He e) as [[(j & _ & Hn) _]|[_ ->]]; [by destruct (Hne j)|]. apply Hother. intros j _. apply Hne.
Qed.

(** C34: a server of either service that is shut down and started again is
    made from what its peer had persisted when it was shut down, whatever the
    old instance writes in between: the new peer has that term, vote, log and
    snapshot. *)
Theorem service_restart {X : Type} `{!ServerKind (C := C) X, !ServerKindLaws X} (i : nat) names time
    (cfg cfg1 cfg2 cfg3 : config C X) a rf :
  saved cfg !! i = Some (Some (Live a)) -> objs (peers_of cfg) !! a = Some rf ->
  raftstate (persister rf) = encode_durable (durable_of rf) ->
  ShutdownServer (Z.of_nat i) cfg = Ret cfg1 -> saved cfg2 !! i = saved cfg1 !! i ->
  StartServer (Z.of_nat i) names time cfg2 = Ret cfg3 ->
  exists x rf', servers cfg3 !! i = Some (Some x) /\ saved cfg3 !! i = Some (Some (Live (server_rf x))) /\
    objs (peers_of cfg3) !! server_rf x = Some rf' /\
    durable_of rf' = durable_of rf /\ persister rf' = persister rf /\ status rf' = "follower".
Proof.
  intros Hsv Ho Hst Hsd Hkeep Hs. pose proof (ShutdownServer_saves i cfg cfg1 a rf Hsd Hsv Ho) as Hd. rewrite <- Hkeep in Hd.
  apply bind_ret_inv in Hs as (es & _ & Hs). apply bind_ret_inv in Hs as (rn & _ & Hs).
  apply bind_ret_inv in Hs as (s & Hi%idx_nat & Hs). cbn in Hi. rewrite Hd in Hi. injection Hi as <-.
  cbn [read_saved mbind outcome_bind] in Hs. apply bind_ret_inv in Hs as (ss & Hss & Hs).
  apply idx_set_ret in Hss as [Hlt ->]. apply bind_ret_inv in Hs as ([x rf'] & Hst' & Hs).
  apply start_server_peer in Hst' as [Hmk Hrf]. apply bind_ret_inv in Hs as (xs & Hxs & [= <-]).
  apply idx_set_ret in Hxs as [Hlt' ->]. rewrite Nat2Z.id in *. exists x, rf'. cbn.
  assert (raftstate (Copy (persister rf)) = encode_durable (durable_of rf)) as Hst2 by exact Hst.
  match type of Hmk with Make ?k ?me ?p ?nw ?t = _ => destruct (Make_persisted k me p nw t rf Hst2) as (rf1 & Hmk' & Hdur & Hper & Hme & _) end.
  rewrite Hmk in Hmk'. injection Hmk' as <-. injection Hme as _ _ Hfol.
  rewrite !list_lookup_insert_eq by (cbn in Hlt, Hlt'; lia). rewrite Hrf, lookup_insert_eq. split_and!; try done.
  rewrite Hper. by destruct (persister rf).
Qed.
End service_claims.

(** ** Witnesses *)

Module ServiceDemo.
Definition names (i : Z) : list string :=
  if i =? 0 then ["a0"; "a1"; "a2"] else if i =? 1 then ["b0"; "b1"; "b2"] else ["c0"; "c1"; "c2"].
Abbreviation kv_config := (config (option Z) KVServer).
Abbreviation made := (make_config (C := option Z) (X := KVServer) 3 false (-1) names (fun _ => 300) 0).
Definition get {A} (d : A) (o : outcome A) : A := match o with Ret c => c | _ => d end.
Definition isret {A} (o : outcome A) : bool := match o with Ret _ => true | _ => false end.
Lemma isret_get_svc {A} (d : A) o : isret o = true -> o = Ret (get d o).
Proof. by destruct o. Qed.
Definition nothing : kv_config := empty_config 0 (-1) 0.
Definition cfg0 : kv_config := get nothing made.

Lemma cfg0_n : n cfg0 = 3%nat.
Proof. vm_cast_no_check (eq_refl 3%nat). Qed.
Definition rows : list (option (list string)) := [Some ["a0"; "a1"; "a2"]; Some ["b0"; "b1"; "b2"]; Some ["c0"; "c1"; "c2"]].
Lemma cfg0_rows : endnames cfg0 = rows.
Proof. vm_cast_no_check (eq_refl rows). Qed.

Lemma rows_inj (i j i' j' : nat) row row' (e : string) :
  rows !! i = Some (Some row) -> row !! j = Some e -> rows !! i' = Some (Some row') -> row' !! j' = Some e -> i = i' /\ j = j'.
Proof.
  intros H1 H2 H3 H4. destruct i as [|[|[|i]]]; cbn in H1; simplify_eq; destruct j as [|[|[|j]]]; cbn in H2; simplify_eq;
    destruct i' as [|[|[|i']]]; cbn in H3; simplify_eq; destruct j' as [|[|[|j']]]; cbn in H4; simplify_eq; done.
Qed.

Lemma cfg0_started : all_started cfg0.
Proof.
  split; unfold link_name; rewrite cfg0_rows, ?cfg0_n.
  - intros i Hi. destruct i as [|[|[|i]]]; [eexists; split; reflexivity..|lia].
  - intros i j e (row & Hr & He). destruct i as [|[|[|i]]]; cbn in Hr; simplify_eq; apply lookup_lt_Some in He; cbn in He; lia.
  - intros i j i' j' e (row & Hr & He) (row' & Hr' & He'). by eapply rows_inj.
Qed.

Definition link_of (cfg : kv_config) (i j : nat) : bool :=
  match endnames cfg !! i with
  | Some (Some row) => match row !! j with Some e => enabled_at e (net cfg) | None => false end
  | _ => false
  end.
Lemma linked_self cfg : linked cfg (link_of cfg).
Proof. intros i j e (row & Hr & He). unfold link_of. by rewrite Hr, He. Qed.

Definition server_up (cfg : kv_config) (j : Z) : bool :=
  match idx (servers cfg) j with Ret (Some x) => isret (get_state x cfg) | _ => false end.
Lemma server_up_spec cfg j : server_up cfg j = true -> exists x st, idx (servers cfg) j = Ret (Some x) /\ get_state x cfg = Ret st.
Proof.
  unfold server_up. destruct (idx (servers cfg) j) as [[x|]| |]; try done. destruct (get_state x cfg) as [st| |] eqn:E; try done. eauto.
Qed.

(** Server 0 persists a vote; it is shut down, its old instance writes
    again, and it is started. *)
Definition on_peer (a : addr) (f : Raft (option Z) -> Raft (option Z)) (cfg : kv_config) : kv_config :=
  set_peers (mkPeers (alter f a (objs (peers_of cfg))) (clock (peers_of cfg)) (spawned (peers_of cfg))) cfg.
Lemma on_peer_saved a f cfg : saved (on_peer a f cfg) = saved cfg.
Proof. reflexivity. Qed.
Definition vote (rf : Raft (option Z)) : Raft (option Z) := persist (set_vote (set_currentTerm rf 3) 1 3).
Definition late (rf : Raft (option Z)) : Raft (option Z) := persist (set_currentTerm rf 9).
Definition cfg1 := on_peer 1 vote cfg0.
Abbreviation stopped := (ShutdownServer 0 cfg1).
Definition cfg2 := on_peer 1 late (get nothing stopped).
Abbreviation again := (StartServer 0 ["d0"; "d1"; "d2"] 300 cfg2).
Definition peer0 : Raft (option Z) := default (Demo.peer 0) (objs (peers_of cfg1) !! 1%positive).
Lemma peer0_svc : objs (peers_of cfg1) !! 1%positive = Some peer0.
Proof.
  assert (bool_decide (is_Some (objs (peers_of cfg1) !! 1%positive)) = true) as Hb by (vm_cast_no_check (eq_refl true)).
  apply bool_decide_eq_true_1 in Hb as [rf Hrf]. unfold peer0. rewrite Hrf. reflexivity.
Qed.
End ServiceDemo.
Import ServiceDemo.

Lemma partition_links_witness : ensures (partition [1; 2] [0] cfg0) (fun cfg' =>
  linked cfg' (fun i j => bool_decide (i ∈ [1%nat; 2%nat] /\ j ∈ [1%nat; 2%nat] \/ i ∈ [0%nat] /\ j ∈ [0%nat]))).
Proof.
  destruct (partition_links cfg0 [1%nat; 2%nat] [0%nat] (link_of cfg0)) as (cfg' & H1 & _ & H2).
  - exact cfg0_started.
  - exact (linked_self cfg0).
  - rewrite cfg0_n. apply (Permutation_app_comm [1%nat; 2%nat] [0%nat]).
  - exists cfg'. split; [exact H1|exact H2].
Defined.

Lemma make_partition_isolates_witness :
  exists b (l : nat) p1 p2, kv_Leader cfg0 = Ret (b, Z.of_nat l) /\ kv_make_partition cfg0 = Ret (zs p1, zs p2) /\ l ∈ p2.
Proof.
  destruct (make_partition_isolates cfg0 (link_of cfg0) 1) as (b & l & p1 & p2 & H1 & _ & H2 & _ & _ & H3 & _).
  - exact cfg0_started.
  - exact (linked_self cfg0).
  - exact cfg0_n.
  - lia.
  - intros j Hj. apply server_up_spec. rewrite cfg0_n in Hj. apply elem_of_upto in Hj.
    assert (j = 0 \/ j = 1 \/ j = 2) as [->|[->| ->]] by lia; vm_cast_no_check (eq_refl true).
  - exists b, l, p1, p2. split; [exact H1|]. split; [exact H2|exact H3].
Defined.

(** A clerk that may talk to the servers 0 and 2. *)
Lemma makeClient_ends_witness :
  exists cfg ck, makeClient ["k0"; "k1"; "k2"] (fun _ => 0) [0; 2] cfg0 = Ret (cfg, ck) /\
    enabled_at "k2" (net cfg) = true /\ enabled_at "k1" (net cfg) = false.
Proof.
  destruct (makeClient ["k0"; "k1"; "k2"] (fun _ => 0) [0; 2] cfg0) as [[cfg ck]| |] eqn:E.
  - exists cfg, ck. split; [reflexivity|].
    destruct (makeClient_ends ["k0"; "k1"; "k2"] (fun _ => 0) [0; 2] cfg0 cfg ck) as (_ & _ & H3 & _).
    + symmetry. exact cfg0_n.
    + intros i _. lia.
    + exact E.
    + split; [exact (proj2 (proj2 (H3 2%nat "k2" eq_refl)))|exact (proj2 (proj2 (H3 1%nat "k1" eq_refl)))].
  - exfalso. assert (isret (makeClient ["k0"; "k1"; "k2"] (fun _ => 0) [0; 2] cfg0) = true) as Hr by (vm_cast_no_check (eq_refl true)).
    rewrite E in Hr. discriminate Hr.
  - exfalso. assert (isret (makeClient ["k0"; "k1"; "k2"] (fun _ => 0) [0; 2] cfg0) = true) as Hr by (vm_cast_no_check (eq_refl true)).
    rewrite E in Hr. discriminate Hr.
Defined.

Lemma service_restart_witness :
  exists x rf, servers (get nothing again) !! 0%nat = Some (Some x) /\ objs (peers_of (get nothing again)) !! server_rf x = Some rf /\
    durable_of rf = durable_of peer0 /\ currentTerm peer0 = 3.
Proof.
  destruct (service_restart 0 ["d0"; "d1"; "d2"] 300 cfg1 (get nothing stopped) cfg2 (get nothing again) 1%positive peer0)
    as (x & rf & H1 & _ & H2 & H3 & _).
  - vm_cast_no_check (eq_refl (Some (Some (Live 1%positive)))).
  - exact peer0_svc.
  - vm_compute. reflexivity.
  - apply isret_get_svc. vm_cast_no_check (eq_refl true).
  - unfold cfg2. rewrite on_peer_saved. reflexivity.
  - apply isret_get_svc. vm_cast_no_check (eq_refl true).
  - exists x, rf. split; [exact H1|]. split; [exact H2|]. split; [exact H3|]. vm_cast_no_check (eq_refl 3).
Defined.

(** With an even number of servers the groups of [make_partition] overlap. *)
Lemma split_even_overlaps : split_servers 4 1 = Ret ([0; 2; 3], [0; 1]).
Proof. reflexivity. Qed.
