(* ===== verification/ShardkvConfig.v ===== *)
(** * The tester of the sharded store (src/src/shardkv/config.go)

    Three controllers, and three groups of [n] servers that are replicas of
    each other; servers are known to the network by name.  As in the other
    testers random names are arguments, and persisters are shared by
    address.  [opened] is the loop that makes and enables the ends to a
    sequence of servers, which the tester writes out at each place. *)

From S2P Require Import Prelude GoSlice Raft RaftOps Labrpc RaftRpc RaftConfig Clerks Servers.

(** [strconv.Itoa] *)
Definition Itoa (z : Z) : string := pretty z.

Definition ctrlername (i : Z) : string := ("ctrler" +:+ Itoa i)%string.
Definition servername (gid i : Z) : string := ("server-" +:+ Itoa gid +:+ "-" +:+ Itoa i)%string.

Record group := mkGroup {
  gid : Z;
  g_servers : list (option ShardKV);
  g_saved : list (option saved_state);
  g_endnames : list (option (list string));
  g_mendnames : list (option (list string));
}.

Section shardkv.
Context {C : Type} `{!Command C, !Gob C, !AppendGrowth, !WireGob}.
Abbreviation net_state := (@Network string string _ _ _ _).

Record skv_config := mkSkvConfig {
  k_net : net_state;
  k_mem : gmap addr (@Server rvalue rtype (peers_state C));
  k_peers : peers_state C;
  k_next : addr;
  k_failed : bool;
  k_start : Z;
  nctrlers : nat;
  ctrlerservers : list (option ShardCtrler);
  mck : list string;
  ngroups : nat;
  k_n : nat;
  groups : list group;
  k_clerks : gmap addr (list string);
  k_nextClientId : Z;
  k_maxraftstate : Z;
}.

Definition with_net (x : net_state) (cfg : skv_config) : skv_config :=
  mkSkvConfig x (k_mem cfg) (k_peers cfg) (k_next cfg) (k_failed cfg) (k_start cfg) (nctrlers cfg) (ctrlerservers cfg)
    (mck cfg) (ngroups cfg) (k_n cfg) (groups cfg) (k_clerks cfg) (k_nextClientId cfg) (k_maxraftstate cfg).
Definition with_peers (x : peers_state C) (cfg : skv_config) : skv_config :=
  mkSkvConfig (k_net cfg) (k_mem cfg) x (k_next cfg) (k_failed cfg) (k_start cfg) (nctrlers cfg) (ctrlerservers cfg)
    (mck cfg) (ngroups cfg) (k_n cfg) (groups cfg) (k_clerks cfg) (k_nextClientId cfg) (k_maxraftstate cfg).
Definition with_mem (x : gmap addr (@Server rvalue rtype (peers_state C))) (nx : addr) (cfg : skv_config) : skv_config :=
  mkSkvConfig (k_net cfg) x (k_peers cfg) nx (k_failed cfg) (k_start cfg) (nctrlers cfg) (ctrlerservers cfg)
    (mck cfg) (ngroups cfg) (k_n cfg) (groups cfg) (k_clerks cfg) (k_nextClientId cfg) (k_maxraftstate cfg).
Definition with_ctrlers (x : list (option ShardCtrler)) (cfg : skv_config) : skv_config :=
  mkSkvConfig (k_net cfg) (k_mem cfg) (k_peers cfg) (k_next cfg) (k_failed cfg) (k_start cfg) (nctrlers cfg) x
    (mck cfg) (ngroups cfg) (k_n cfg) (groups cfg) (k_clerks cfg) (k_nextClientId cfg) (k_maxraftstate cfg).
Definition with_mck (x : list string) (cfg : skv_config) : skv_config :=
  mkSkvConfig (k_net cfg) (k_mem cfg) (k_peers cfg) (k_next cfg) (k_failed cfg) (k_start cfg) (nctrlers cfg) (ctrlerservers cfg)
    x (ngroups cfg) (k_n cfg) (groups cfg) (k_clerks cfg) (k_nextClientId cfg) (k_maxraftstate cfg).
Definition with_groups (x : list group) (cfg : skv_config) : skv_config :=
  mkSkvConfig (k_net cfg) (k_mem cfg) (k_peers cfg) (k_next cfg) (k_failed cfg) (k_start cfg) (nctrlers cfg) (ctrlerservers cfg)
    (mck cfg) (ngroups cfg) (k_n cfg) x (k_clerks cfg) (k_nextClientId cfg) (k_maxraftstate cfg).
Definition with_clerks (x : gmap addr (list string)) (cid : Z) (nx : addr) (cfg : skv_config) : skv_config :=
  mkSkvConfig (k_net cfg) (k_mem cfg) (k_peers cfg) nx (k_failed cfg) (k_start cfg) (nctrlers cfg) (ctrlerservers cfg)
    (mck cfg) (ngroups cfg) (k_n cfg) (groups cfg) x cid (k_maxraftstate cfg).

Definition k_now (cfg : skv_config) : Z := clock (k_peers cfg).

Definition skv_checkTimeout (cfg : skv_config) : outcome unit :=
  if negb (k_failed cfg) && (seconds 120 <? k_now cfg - k_start cfg) then Panic Fatal else Ret tt.

(** ** Ends *)

(** The function [make_end] that clerks and servers get. *)
Definition make_end (name server : string) (rn : net_state) : outcome net_state :=
  rn ← MakeEnd name rn; Ret (Enable name true (Connect name server rn)).

(** The ends [names] to the servers [dest j], made, connected and enabled. *)
Definition opened (names : list string) (dest : Z -> string) (js : list Z) (rn : net_state) : outcome net_state :=
  for_each (fun j rn => e ← idx names j; make_end e (dest j) rn) js rn.

(** [endnames] has [n] places, and the loop fills one for each controller. *)
Definition skv_makeClient (names : list string) (cfg : skv_config) : outcome (skv_config * addr) :=
  '(endnames, rn) ← for_each (fun j '(endnames, rn) =>
      e ← idx names j;
      endnames ← idx_set endnames j e;
      rn ← make_end e (ctrlername j) rn;
      Ret (endnames, rn)) (upto (nctrlers cfg)) (replicate (k_n cfg) EmptyString, k_net cfg);
  let ck := k_next cfg in
  let cfg := with_net rn cfg in
  Ret (with_clerks (<[ck := endnames]> (k_clerks cfg)) (k_nextClientId cfg + 1) (Pos.succ ck) cfg, ck).

Definition skv_deleteClient (ck : addr) (cfg : skv_config) : skv_config :=
  with_clerks (base.delete ck (k_clerks cfg)) (k_nextClientId cfg) (k_next cfg) cfg.

(** ** Servers *)

Definition k_read_saved (s : saved_state) (cfg : skv_config) : outcome Persister :=
  match s with
  | Live a => match objs (k_peers cfg) !! a with Some rf => Ret (persister rf) | None => Panic NilDeref end
  | Detached p => Ret p
  end.

(** Disabling a row of ends; a row that is not there has none. *)
Definition disable_row (row : option (list string)) (js : list Z) (rn : net_state) : outcome net_state :=
  for_each (fun j rn => e ← name_at row j; Ret (Enable e false rn)) js rn.

Definition skv_ShutdownServer (gi i : Z) (cfg : skv_config) : outcome skv_config :=
  gg ← idx (groups cfg) gi;
  row ← if decide (length (g_servers gg) = 0%nat) then Ret None else idx (g_endnames gg) i;
  rn ← disable_row row (upto (length (g_servers gg))) (k_net cfg);
  mrow ← idx (g_mendnames gg) i;
  rn ← disable_row mrow (upto (length (default [] mrow))) rn;
  let rn := DeleteServer (servername (gid gg) i) rn in
  s ← idx (g_saved gg) i;
  saved ← match s with
          | Some s => p ← k_read_saved s cfg; idx_set (g_saved gg) i (Some (Detached (Copy p)))
          | None => Ret (g_saved gg)
          end;
  kv ← idx (g_servers gg) i;
  '(ps, servers) ← match kv with
                   | Some x => ps ← kill_raft (skv_rf x) (k_peers cfg); ss ← idx_set (g_servers gg) i None; Ret (ps, ss)
                   | None => Ret (k_peers cfg, g_servers gg)
                   end;
  gs ← idx_set (groups cfg) gi (mkGroup (gid gg) servers saved (g_endnames gg) (g_mendnames gg));
  Ret (with_groups gs (with_peers ps (with_net rn cfg))).

Definition ShutdownGroup (gi : Z) (cfg : skv_config) : outcome skv_config :=
  for_each (fun i => skv_ShutdownServer gi i) (upto (k_n cfg)) cfg.

(** [names] and [mnames] are the random names of the ends to the group and to
    the controllers. *)
Definition skv_StartServer (gi i : Z) (names mnames : list string) (time : Z) (cfg : skv_config) : outcome skv_config :=
  gg ← idx (groups cfg) gi;
  es ← idx_set (g_endnames gg) i (Some names);
  rn ← opened names (servername (gid gg)) (upto (k_n cfg)) (k_net cfg);
  ms ← idx_set (g_mendnames gg) i (Some mnames);
  rn ← opened mnames ctrlername (upto (nctrlers cfg)) rn;
  s ← idx (g_saved gg) i;
  p ← match s with Some s => p ← k_read_saved s cfg; Ret (Copy p) | None => Ret MakePersister end;
  let a := k_next cfg in
  '(x, rf) ← shardkv_StartServer (k_n cfg) i p (k_maxraftstate cfg) (gid gg) mnames (k_now cfg) time a;
  ss ← idx_set (g_saved gg) i (Some (Live a));
  xs ← idx_set (g_servers gg) i (Some x);
  gs ← idx_set (groups cfg) gi (mkGroup (gid gg) xs ss es ms);
  let ps := k_peers cfg in
  let cfg := with_groups gs (with_peers (mkPeers (<[a := rf]> (objs ps)) (clock ps) (spawned ps)) cfg) in
  let srv := Pos.succ a in
  let cfg := with_mem (<[srv := AddService (raft_service (skv_rf x)) (AddService shardkv_service MakeServer)]> (k_mem cfg))
               (Pos.succ srv) cfg in
  Ret (with_net (AddServer (servername (gid gg) i) srv rn) cfg).

Definition StartGroup (gi : Z) (names mnames : Z -> list string) (times : Z -> Z) (cfg : skv_config) : outcome skv_config :=
  for_each (fun i cfg => skv_StartServer gi i (names i) (mnames i) (times i) cfg) (upto (k_n cfg)) cfg.

Definition StartCtrlerserver (i : Z) (names : list string) (time : Z) (cfg : skv_config) : outcome skv_config :=
  rn ← opened names ctrlername (upto (nctrlers cfg)) (k_net cfg);
  let a := k_next cfg in
  '(x, rf) ← ctrl_StartServer (nctrlers cfg) i MakePersister (k_now cfg) time a;
  xs ← idx_set (ctrlerservers cfg) i (Some x);
  let ps := k_peers cfg in
  let cfg := with_ctrlers xs (with_peers (mkPeers (<[a := rf]> (objs ps)) (clock ps) (spawned ps)) cfg) in
  let srv := Pos.succ a in
  let cfg := with_mem (<[srv := AddService (raft_service (sc_rf x)) (AddService (@server_service _ _ ctrl_kind) MakeServer)]> (k_mem cfg))
               (Pos.succ srv) cfg in
  Ret (with_net (AddServer (ctrlername i) srv rn) cfg).

(** The clerk of the controllers, known by its ends. *)
Definition shardclerk (names : list string) (cfg : skv_config) : outcome (skv_config * list string) :=
  rn ← opened names ctrlername (upto (nctrlers cfg)) (k_net cfg);
  Ret (with_net rn cfg, take (nctrlers cfg) names).

(** ** Joining and leaving *)

(** The groups that [joinm] passes to [Join]. *)
Definition joining (gis : list Z) (cfg : skv_config) : outcome (gmap Z (list string)) :=
  for_each (fun g m =>
    gg ← idx (groups cfg) g;
    Ret (<[gid gg := servername (gid gg) <$> upto (k_n cfg)]> m)) gis ∅.

Definition leaving (gis : list Z) (cfg : skv_config) : outcome (list Z) :=
  for_each (fun g gids => gg ← idx (groups cfg) g; Ret (gids ++ [gid gg])) gis [].

Definition joinm `{!CtrlCalls string} (gis : list Z) (fuel k : nat) (cfg : skv_config) : outcome nat :=
  m ← joining gis cfg; Join (mck cfg) m fuel k.
Definition join `{!CtrlCalls string} (gi : Z) (fuel k : nat) (cfg : skv_config) : outcome nat := joinm [gi] fuel k cfg.
Definition leavem `{!CtrlCalls string} (gis : list Z) (fuel k : nat) (cfg : skv_config) : outcome nat :=
  gids ← leaving gis cfg; Leave (mck cfg) gids fuel k.
Definition leave `{!CtrlCalls string} (gi : Z) (fuel k : nat) (cfg : skv_config) : outcome nat := leavem [gi] fuel k cfg.

(** ** The frame of a test *)

Definition checklogs (cfg : skv_config) : outcome unit :=
  for_each (fun gi _ =>
    for_each (fun i _ =>
      gg ← idx (groups cfg) gi;
      s ← idx (g_saved gg) i;
      match s with
      | Some s =>
          p ← k_read_saved s cfg;
          if (0 <=? k_maxraftstate cfg) && (8 * k_maxraftstate cfg <? RaftStateSize p) then Panic Fatal
          else if (k_maxraftstate cfg <? 0) && (0 <? Z.of_nat (String.length (ReadSnapshot p))) then Panic Fatal
          else Ret tt
      | None => Panic NilDeref
      end) (upto (k_n cfg)) tt) (upto (ngroups cfg)) tt.

Definition skv_cleanup (cfg : skv_config) : outcome skv_config :=
  cfg ← for_each ShutdownGroup (upto (ngroups cfg)) cfg;
  ps ← for_each (fun i ps =>
         x ← idx (ctrlerservers cfg) i;
         match x with Some x => kill_raft (sc_rf x) ps | None => Panic NilDeref end) (upto (nctrlers cfg)) (k_peers cfg);
  rn ← Cleanup (k_net cfg);
  let cfg := with_net rn (with_peers ps cfg) in
  _ ← skv_checkTimeout cfg;
  Ret cfg.

(** A group whose servers are not started: [mendnames] has a place for each
    controller. *)
Definition new_group (g : Z) (k nc : nat) : group :=
  mkGroup (100 + g) (replicate k None) (replicate k None) (replicate k None) (replicate nc None).

(** The random choices: the names of the ends of controller [i], of the
    clerk, and of server [i] of group [gi]. *)
Record choices := mkChoices {
  ch_ctrler : Z -> list string;
  ch_clerk : list string;
  ch_names : Z -> Z -> list string;
  ch_mnames : Z -> Z -> list string;
  ch_time : Z;
}.

Definition skv_make_config (k : nat) (unreliable : bool) (maxraft : Z) (ch : choices) (time : Z) : outcome skv_config :=
  let cfg := mkSkvConfig MakeNetwork ∅ (mkPeers ∅ time []) 1%positive false time 3 (replicate 3 None) [] 0 0 [] ∅ 0 maxraft in
  cfg ← for_each (fun i cfg => StartCtrlerserver i (ch_ctrler ch i) (ch_time ch) cfg) (upto (nctrlers cfg)) cfg;
  '(cfg, ck) ← shardclerk (ch_clerk ch) cfg;
  let cfg := mkSkvConfig (k_net cfg) (k_mem cfg) (k_peers cfg) (k_next cfg) (k_failed cfg) (k_start cfg) (nctrlers cfg)
               (ctrlerservers cfg) ck 3 k [] (k_clerks cfg) (k_nextClientId cfg) (k_maxraftstate cfg) in
  cfg ← for_each (fun gi cfg =>
          let cfg := with_groups (groups cfg ++ [new_group gi k (nctrlers cfg)]) cfg in
          for_each (fun i cfg => skv_StartServer gi i (ch_names ch gi i) (ch_mnames ch gi i) (ch_time ch) cfg)
            (upto (k_n cfg)) cfg) (upto (ngroups cfg)) cfg;
  let cfg := with_clerks ∅ (Z.of_nat (k_n cfg) + 1000) (k_next cfg) cfg in
  Ret (with_net (Reliable (negb unreliable) (k_net cfg)) cfg).
End shardkv.
