(* ===== verification/ShardkvSpec.v ===== *)
(** * What the tester of the sharded store does

    The names of the servers are distinct; stopping a server takes it and
    its ends off the network and keeps what it persisted; starting one opens
    its ends to the replicas of its group and to the controllers.  Groups of
    more than three servers cannot be made, and clerks only when there are at
    least three. *)

From Stdlib Require Import Ascii.
From S2P Require Import Prelude GoSlice Raft RaftGob RaftOps Labrpc RaftRpc RaftConfig RaftSystem Clerks Servers ShardkvConfig.

(** ** Names *)

Fixpoint no_dash (s : string) : Prop :=
  match s with EmptyString => True | String c s => c <> "-"%char /\ no_dash s end.

Lemma pretty_char_dash x : pretty_N_char x <> "-"%char.
Proof. unfold pretty_N_char. repeat case_match; done. Qed.

Lemma pretty_go_dash x s : no_dash s -> no_dash (pretty_N_go x s).
Proof.
  revert s. induction (N.lt_wf_0 x) as [x _ IH]. intros s Hs. destruct (decide (0 < x)%N) as [Hx|Hx].
  - rewrite pretty_N_go_step by done. apply IH; [apply N.div_lt; lia|]. split; [apply pretty_char_dash|done].
  - replace x with 0%N by lia. by rewrite pretty_N_go_0.
Qed.

Lemma Itoa_dash z : 0 <= z -> no_dash (Itoa z).
Proof.
  intros Hz. unfold Itoa. destruct z as [|p|p]; [cbn; done| |lia].
  change (no_dash (pretty (Npos p))). unfold pretty, pretty_N. case_decide; [done|]. by apply pretty_go_dash.
Qed.

Lemma dash_split s1 s2 t1 t2 :
  no_dash s1 -> no_dash s2 -> (s1 +:+ String "-"%char t1 = s2 +:+ String "-"%char t2)%string -> s1 = s2 /\ t1 = t2.
Proof.
  revert s2. induction s1 as [|c s1 IH]; intros [|c2 s2]; cbn; intros H1 H2 H; simplify_eq; try tauto.
  destruct (IH s2) as [-> ->]; tauto.
Qed.

Lemma servername_inj g i g' i' :
  0 <= g -> 0 <= g' -> servername g i = servername g' i' -> g = g' /\ i = i'.
Proof.
  intros Hg Hg' [= H]. change (Itoa g +:+ String "-"%char (Itoa i) = Itoa g' +:+ String "-"%char (Itoa i'))%string in H.
  apply dash_split in H as [H1 H2]; [|by apply Itoa_dash..]. split; by apply (inj pretty).
Qed.

Lemma servername_ctrler g i j : servername g i <> ctrlername j.
Proof. discriminate. Qed.

Section shardkv_facts.
Context {C : Type} `{!Command C, !Gob C, !AppendGrowth, !WireGob}.
Abbreviation skv_config := (@skv_config C).
Abbreviation net_state := (@Network string string _ _ _ _).
Implicit Types (cfg : skv_config) (rn : net_state).

Lemma opt_idx_nat {A} (l : list A) (i : nat) x : idx l (Z.of_nat i) = Ret x <-> l !! i = Some x.
Proof. rewrite idx_ret, Nat2Z.id. naive_solver lia. Qed.

Lemma in_upto k j : j ∈ upto k <-> exists m : nat, j = Z.of_nat m /\ (m < k)%nat.
Proof.
  rewrite elem_of_upto. split; [intros Hj; exists (Z.to_nat j); lia|]. intros (m & -> & Hm). lia.
Qed.

Lemma enabled_Enable e e' b rn : enabled_at e (Enable e' b rn) = if decide (e' = e) then b else enabled_at e rn.
Proof. unfold enabled_at. cbn. rewrite lookup_insert. by case_decide. Qed.

(** ** Opening ends *)

(** The ends [names] below [k] are new; they lead to [dest] and are enabled;
    all others are as before. *)
Record ends_opened (names : list string) (dest : Z -> string) (k : nat) rn rn' : Prop := {
  eo_servers : servers rn' = servers rn;
  eo_new : forall (j : nat) e, (j < k)%nat -> names !! j = Some e ->
    (e ∉ ends rn) /\ e ∈ ends rn' /\ server_of e rn' = Some (dest (Z.of_nat j)) /\ enabled_at e rn' = true;
  eo_old : forall e, e ∈ ends rn -> e ∈ ends rn' /\ server_of e rn' = server_of e rn /\ enabled_at e rn' = enabled_at e rn;
  eo_len : (k <= length names)%nat;
}.

Lemma opened_ok names dest k rn rn' : opened names dest (upto k) rn = Ret rn' -> ends_opened names dest k rn rn'.
Proof.
  revert rn'. induction k as [|k IH]; intros rn'.
  - intros [= <-]. split; [done|lia|done|lia].
  - rewrite upto_S. unfold opened. rewrite for_each_app. intros (rn1 & H1 & H2)%bind_ret_inv.
    destruct (IH rn1 H1) as [Hsv Hnew Hold Hlen]. cbn [for_each] in H2. apply bind_ret_inv in H2 as (rn2 & H2 & [= <-]).
    apply bind_ret_inv in H2 as (e & He%opt_idx_nat & H2). apply bind_ret_inv in H2 as (rn3 & Hm & [= <-]).
    unfold MakeEnd in Hm. case_decide as Hfresh; [done|]. injection Hm as <-.
    assert (e ∉ ends rn) as Hne by (intros Hin; by apply Hfresh, Hold).
    split; cbn.
    + done.
    + intros j e' Hj Hn. unfold server_of, enabled_at. cbn. destruct (decide (j = k)) as [->|Hjk].
      * simplify_eq. rewrite !lookup_insert_eq. split_and!; [done|set_solver|done|done].
      * destruct (Hnew j e' ltac:(lia) Hn) as (H3 & H4 & H5 & H6). assert (e <> e') by (intros ->; done).
        rewrite !lookup_insert_ne by done. split_and!; [done|set_solver|done|done].
    + intros e' Hin. destruct (Hold e' Hin) as (H3 & H4 & H5). assert (e <> e') by (intros ->; done).
      unfold server_of, enabled_at in *. cbn. rewrite !lookup_insert_ne by done. split_and!; [set_solver|done|done].
    + apply lookup_lt_Some in He. lia.
Qed.

Lemma disable_row_ok row (k : nat) rn rn' :
  disable_row row (upto k) rn = Ret rn' ->
  servers rn' = servers rn /\ connections rn' = connections rn /\
  forall e, (exists l (j : nat), row = Some l /\ (j < k)%nat /\ l !! j = Some e) /\ enabled_at e rn' = false \/
            ~ (exists l (j : nat), row = Some l /\ (j < k)%nat /\ l !! j = Some e) /\ enabled_at e rn' = enabled_at e rn.
Proof.
  revert rn'. induction k as [|k IH]; intros rn'.
  - intros [= <-]. split_and!; [done|done|]. intros e. right. split; [|done]. intros (l & j & _ & ? & _). lia.
  - rewrite upto_S. unfold disable_row. rewrite for_each_app. intros (rn1 & H1 & H2)%bind_ret_inv.
    destruct (IH rn1 H1) as (Hsv & Hcn & He). cbn [for_each] in H2. apply bind_ret_inv in H2 as (rn2 & H2 & [= <-]).
    apply bind_ret_inv in H2 as (e0 & Hn & [= <-]). destruct row as [l|]; [|done]. apply opt_idx_nat in Hn.
    split_and!; [done|done|]. intros e. rewrite enabled_Enable.
    case_decide as Hd; [subst; left; split; [exists l, k; auto with lia|done]|].
    specialize (He e).
    assert ((exists l0 j, Some l = Some l0 /\ (j < S k)%nat /\ l0 !! j = Some e) <-> exists l0 j, Some l = Some l0 /\ (j < k)%nat /\ l0 !! j = Some e) as ->; [|done].
    split; intros (l0 & j & [= <-] & Hj & Hl0); exists l, j; (split_and!; [done| |done]); [|lia].
    destruct (decide (j = k)) as [->|]; [congruence|lia].
Qed.

(** ** Stopping a server *)

(** The ends of server [i]: to its group, and to the controllers. *)
Definition own_end (gg : group) (i : nat) (e : string) : Prop :=
  (exists row j, g_endnames gg !! i = Some (Some row) /\ (j < length (g_servers gg))%nat /\ row !! j = Some e) \/
  (exists row j, g_mendnames gg !! i = Some (Some row) /\ row !! j = Some e).

Lemma own_end_loops gg (i : nat) row mrow e :
  (if decide (length (g_servers gg) = 0%nat) then row = None else g_endnames gg !! i = Some row) ->
  g_mendnames gg !! i = Some mrow ->
  own_end gg i e <->
  (exists l (j : nat), row = Some l /\ (j < length (g_servers gg))%nat /\ l !! j = Some e) \/
  (exists l (j : nat), mrow = Some l /\ (j < length (default [] mrow))%nat /\ l !! j = Some e).
Proof.
  intros Hr Hm. unfold own_end. rewrite Hm.
  assert ((exists row0 j, g_endnames gg !! i = Some (Some row0) /\ (j < length (g_servers gg))%nat /\ row0 !! j = Some e) <->
    exists l (j : nat), row = Some l /\ (j < length (g_servers gg))%nat /\ l !! j = Some e) as ->.
  { case_decide as Hd; [split; intros (? & ? & _ & ? & _); lia|]. rewrite Hr. naive_solver. }
  apply or_iff_compat_l. split.
  - intros (l & j & [= ->] & Hj). exists l, j. cbn. split_and!; [done|by apply lookup_lt_Some in Hj|done].
  - intros (l & j & -> & _ & Hj). by exists l, j.
Qed.

Lemma skv_ShutdownServer_ok (gi i : nat) gg cfg cfg' :
  groups cfg !! gi = Some gg -> skv_ShutdownServer (Z.of_nat gi) (Z.of_nat i) cfg = Ret cfg' ->
  exists gg', groups cfg' = <[gi := gg']> (groups cfg) /\ gid gg' = gid gg /\ g_servers gg' = <[i := None]> (g_servers gg) /\
    (forall a rf, g_saved gg !! i = Some (Some (Live a)) -> objs (k_peers cfg) !! a = Some rf ->
       g_saved gg' !! i = Some (Some (Detached (persister rf)))) /\
    server_at (servername (gid gg) (Z.of_nat i)) (k_net cfg') = None /\
    (forall s, s <> servername (gid gg) (Z.of_nat i) -> server_at s (k_net cfg') = server_at s (k_net cfg)) /\
    (forall e, own_end gg i e /\ enabled_at e (k_net cfg') = false \/
               ~ own_end gg i e /\ enabled_at e (k_net cfg') = enabled_at e (k_net cfg)).
Proof.
  intros Hg Hs. unfold skv_ShutdownServer in Hs. rewrite (proj2 (opt_idx_nat _ gi gg) Hg) in Hs. cbn [mbind outcome_bind] in Hs.
  apply bind_ret_inv in Hs as (row & Hrow & Hs). apply bind_ret_inv in Hs as (rn1 & (S1 & C1 & E1)%disable_row_ok & Hs).
  apply bind_ret_inv in Hs as (mrow & Hmrow%opt_idx_nat & Hs).
  apply bind_ret_inv in Hs as (rn2 & (S2 & C2 & E2)%disable_row_ok & Hs).
  apply bind_ret_inv in Hs as (s & Hsv%opt_idx_nat & Hs). apply bind_ret_inv in Hs as (saved & Hsaved & Hs).
  apply bind_ret_inv in Hs as (kv & Hkv%opt_idx_nat & Hs). apply bind_ret_inv in Hs as ([ps ss] & Hk & Hs).
  apply bind_ret_inv in Hs as (gs & Hgs & [= <-]). apply idx_set_ret in Hgs as [_ ->]. rewrite Nat2Z.id.
  assert (ss = <[i := None]> (g_servers gg)) as ->.
  { destruct kv as [x|].
    - apply bind_ret_inv in Hk as (ps' & _ & Hk). apply bind_ret_inv in Hk as (ss' & Hss & [= <- <-]).
      apply idx_set_ret in Hss as [_ ->]. by rewrite Nat2Z.id.
    - injection Hk as <- <-. by rewrite list_insert_id. }
  eexists. split_and!; [done|done|done|..]; cbn.
  - intros a rf Ha Ho. rewrite Ha in Hsv. injection Hsv as <-. cbn [k_read_saved] in Hsaved. rewrite Ho in Hsaved.
    cbn [mbind outcome_bind] in Hsaved. apply idx_set_ret in Hsaved as [Hlt ->]. rewrite Nat2Z.id.
    rewrite list_lookup_insert_eq by lia. by destruct (persister rf).
  - unfold server_at. cbn. by rewrite lookup_insert_eq.
  - intros nm Hne. unfold server_at. cbn. rewrite lookup_insert_ne by done. by rewrite S2, S1.
  - intros e. change (enabled_at e (DeleteServer (servername (gid gg) (Z.of_nat i)) rn2)) with (enabled_at e rn2).
    rewrite (own_end_loops gg i row mrow e); [|case_decide; [by injection Hrow|by apply opt_idx_nat]|done].
    destruct (E1 e) as [[A1 B1]|[A1 B1]], (E2 e) as [[A2 B2]|[A2 B2]];
      [left; split; [tauto|congruence]..|right; split; [tauto|congruence]].
Qed.

Lemma skv_ShutdownServer_bound (gi i : nat) gg cfg cfg' :
  groups cfg !! gi = Some gg -> skv_ShutdownServer (Z.of_nat gi) (Z.of_nat i) cfg = Ret cfg' -> (i < length (g_servers gg))%nat.
Proof.
  intros Hg Hs. unfold skv_ShutdownServer in Hs. rewrite (proj2 (opt_idx_nat _ gi gg) Hg) in Hs. cbn [mbind outcome_bind] in Hs.
  do 6 (apply bind_ret_inv in Hs as (? & _ & Hs)). apply bind_ret_inv in Hs as (kv & Hkv%opt_idx_nat & _).
  by apply lookup_lt_Some in Hkv.
Qed.

(** ** Starting a server *)

Lemma skv_StartServer_ok (gi i : nat) names mnames time gg cfg cfg' :
  groups cfg !! gi = Some gg -> skv_StartServer (Z.of_nat gi) (Z.of_nat i) names mnames time cfg = Ret cfg' ->
  exists rn1 rn2 p x rf ss,
    ends_opened names (servername (gid gg)) (k_n cfg) (k_net cfg) rn1 /\ ends_opened mnames ctrlername (nctrlers cfg) rn1 rn2 /\
    k_net cfg' = AddServer (servername (gid gg) (Z.of_nat i)) (Pos.succ (k_next cfg)) rn2 /\
    (i < length (g_mendnames gg))%nat /\
    g_saved gg !! i = Some ss /\ match ss with Some s => k_read_saved s cfg = Ret p | None => p = MakePersister end /\
    Make (k_n cfg) (Z.of_nat i) p (k_now cfg) time = Ret rf /\
    x = mkShardKV (Z.of_nat i) (k_next cfg) (gid gg) mnames (k_maxraftstate cfg) /\
    objs (k_peers cfg') = <[k_next cfg := rf]> (objs (k_peers cfg)) /\
    services <$> k_mem cfg' !! Pos.succ (k_next cfg) =
      Some (services (AddService (raft_service (k_next cfg)) (AddService shardkv_service MakeServer))) /\
    groups cfg' = <[gi := mkGroup (gid gg) (<[i := Some x]> (g_servers gg)) (<[i := Some (Live (k_next cfg))]> (g_saved gg))
      (<[i := Some names]> (g_endnames gg)) (<[i := Some mnames]> (g_mendnames gg))]> (groups cfg).
Proof.
  intros Hg Hs. unfold skv_StartServer in Hs. rewrite (proj2 (opt_idx_nat _ gi gg) Hg) in Hs. cbn [mbind outcome_bind] in Hs.
  apply bind_ret_inv in Hs as (es & Hes & Hs). apply idx_set_ret in Hes as [_ ->].
  apply bind_ret_inv in Hs as (rn1 & Hrn1%opened_ok & Hs).
  apply bind_ret_inv in Hs as (ms & Hms & Hs). apply idx_set_ret in Hms as [Hlt ->].
  apply bind_ret_inv in Hs as (rn2 & Hrn2%opened_ok & Hs).
  apply bind_ret_inv in Hs as (ss & Hss%opt_idx_nat & Hs). apply bind_ret_inv in Hs as (p & Hp & Hs).
  apply bind_ret_inv in Hs as ([x rf] & Hx & Hs). apply bind_ret_inv in Hx as (rf' & Hmk & [= <- <-]).
  apply bind_ret_inv in Hs as (sv & Hsv & Hs). apply idx_set_ret in Hsv as [_ ->].
  apply bind_ret_inv in Hs as (xs & Hxs & Hs). apply idx_set_ret in Hxs as [_ ->].
  apply bind_ret_inv in Hs as (gs & Hgs & [= <-]). apply idx_set_ret in Hgs as [_ ->].
  rewrite !Nat2Z.id. exists rn1, rn2, p. do 3 eexists. split_and!; try done.
  - lia.
  - destruct ss as [s|]; [|by injection Hp]. apply bind_ret_inv in Hp as (q & Hq & [= <-]). by destruct q.
  - cbn. by rewrite lookup_insert_eq.
Qed.
End shardkv_facts.

Section shardkv_claims.
Context {C : Type} `{!Command C, !Gob C, !AppendGrowth, !WireGob}.

(** C35: a server of a group that is shut down has all its ends disabled and no
    server under its name; when it is started again, whatever its old
    instance writes in between, its new instance has the term, vote, log and
    snapshot that were persisted, and new ends, enabled, to the replicas of
    its group and to the controllers, while the ends that exist keep their
    state. *)
Theorem skv_restart_recovers (gi i : nat) names mnames time gg (cfg cfg1 cfg2 cfg3 : @skv_config C) a rf :
  groups cfg !! gi = Some gg -> g_saved gg !! i = Some (Some (Live a)) -> objs (k_peers cfg) !! a = Some rf ->
  raftstate (persister rf) = encode_durable (durable_of rf) ->
  skv_ShutdownServer (Z.of_nat gi) (Z.of_nat i) cfg = Ret cfg1 -> groups cfg2 = groups cfg1 ->
  skv_StartServer (Z.of_nat gi) (Z.of_nat i) names mnames time cfg2 = Ret cfg3 ->
  (forall e, own_end gg i e -> enabled_at e (k_net cfg1) = false) /\
  server_at (servername (gid gg) (Z.of_nat i)) (k_net cfg1) = None /\
  (exists gg' x rf', groups cfg3 !! gi = Some gg' /\ g_servers gg' !! i = Some (Some x) /\
     objs (k_peers cfg3) !! skv_rf x = Some rf' /\ durable_of rf' = durable_of rf /\ persister rf' = persister rf) /\
  (forall (j : nat) e, (j < k_n cfg2)%nat -> names !! j = Some e -> (e ∉ ends (k_net cfg2)) /\
     server_of e (k_net cfg3) = Some (servername (gid gg) (Z.of_nat j)) /\ enabled_at e (k_net cfg3) = true) /\
  (forall (j : nat) e, (j < nctrlers cfg2)%nat -> mnames !! j = Some e -> (e ∉ ends (k_net cfg2)) /\
     server_of e (k_net cfg3) = Some (ctrlername (Z.of_nat j)) /\ enabled_at e (k_net cfg3) = true) /\
  (forall e, e ∈ ends (k_net cfg2) -> enabled_at e (k_net cfg3) = enabled_at e (k_net cfg2)).
Proof.
  intros Hg Hsv Ho Hst Hsd Hgs Hs.
  destruct (skv_ShutdownServer_ok gi i gg cfg cfg1 Hg Hsd) as (gg1 & Hg1 & Hgid & Hsr & Hsaved & Hnone & _ & Hends).
  specialize (Hsaved a rf Hsv Ho). apply lookup_lt_Some in Hg as Hlt.
  assert (groups cfg2 !! gi = Some gg1) as Hg2 by (by rewrite Hgs, Hg1, list_lookup_insert_eq).
  destruct (skv_StartServer_ok gi i names mnames time gg1 cfg2 cfg3 Hg2 Hs)
    as (rn1 & rn2 & p & x & rf' & ss & O1 & O2 & Hnet & _ & Hss & Hp & Hmk & Hx & Hobj & _ & Hgr).
  rewrite Hsaved in Hss. injection Hss as <-. injection Hp as <-.
  destruct (Make_persisted (k_n cfg2) (Z.of_nat i) (persister rf) (k_now cfg2) time rf Hst) as (rf1 & Hmk' & Hdur & Hper & _).
  rewrite Hmk in Hmk'. injection Hmk' as <-.
  assert (forall e, server_of e (k_net cfg3) = server_of e rn2 /\ enabled_at e (k_net cfg3) = enabled_at e rn2) as Hn3 by (by rewrite Hnet).
  split_and!.
  - intros e He. by destruct (Hends e) as [[_ ?]|[? _]].
  - done.
  - rewrite Hgr, Hobj. eexists _, x, rf'. rewrite list_lookup_insert_eq by (by rewrite Hgs, Hg1, length_insert).
    split; [done|]. cbn. rewrite list_lookup_insert_eq; [subst x; cbn; by rewrite lookup_insert_eq|].
    rewrite Hsr, length_insert. eapply (skv_ShutdownServer_bound gi i gg cfg cfg1); done.
  - intros j e Hj He. destruct (eo_new _ _ _ _ _ O1 j e Hj He) as (H1 & H2 & H3 & H4). destruct (Hn3 e) as [-> ->].
    destruct (eo_old _ _ _ _ _ O2 e H2) as (_ & -> & ->). by rewrite <- Hgid.
  - intros j e Hj He. destruct (eo_new _ _ _ _ _ O2 j e Hj He) as (H1 & H2 & H3 & H4). destruct (Hn3 e) as [-> ->].
    split; [|done]. intros Hin. by apply H1, (eo_old _ _ _ _ _ O1).
  - intros e He. destruct (Hn3 e) as [_ ->]. destruct (eo_old _ _ _ _ _ O1 e He) as (H1 & _ & <-).
    by destruct (eo_old _ _ _ _ _ O2 e H1) as (_ & _ & ->).
Qed.
End shardkv_claims.

(** ** The sizes that work *)

Section limits.
Context {C : Type} `{!Command C, !Gob C, !AppendGrowth, !WireGob}.

Lemma for_each_stuck {A S} (body : A -> S -> outcome S) (P : S -> Prop) l s s' x :
  x ∈ l -> (forall y s s', P s -> body y s = Ret s' -> P s') -> (forall s s', P s -> body x s <> Ret s') ->
  P s -> for_each body l s <> Ret s'.
Proof.
  intros Hx Hp Hb. revert s. induction l as [|y l IH]; intros s Hs; [by apply not_elem_of_nil in Hx|].
  cbn [for_each]. intros (s1 & H1 & H2)%bind_ret_inv. apply elem_of_cons in Hx as [->|Hx]; [by eapply Hb|].
  by eapply (IH Hx s1), H2; eapply Hp.
Qed.

(** A group in which the names of the ends to the controllers have no place
    for server [i]. *)
Definition no_place (gi i : nat) (cfg : @skv_config C) : Prop :=
  exists gg, groups cfg !! gi = Some gg /\ (length (g_mendnames gg) <= i)%nat.

Lemma no_place_step (gi i : nat) (j : Z) names mnames time (cfg cfg' : @skv_config C) :
  no_place gi i cfg -> skv_StartServer (Z.of_nat gi) j names mnames time cfg = Ret cfg' -> no_place gi i cfg'.
Proof.
  intros (gg & Hg & Hlen) Hs. assert (0 <= j) as Hj.
  { unfold skv_StartServer in Hs. apply bind_ret_inv in Hs as (? & _ & Hs). apply bind_ret_inv in Hs as (? & He & _).
    apply idx_set_ret in He as [? _]. lia. }
  destruct (Z_of_nat_complete j Hj) as [m ->].
  destruct (skv_StartServer_ok gi m names mnames time gg cfg cfg' Hg Hs) as (? & ? & ? & ? & ? & ? & _ & _ & _ & _ & _ & _ & _ & _ & _ & _ & Hgr).
  unfold no_place. rewrite Hgr. apply lookup_lt_Some in Hg. rewrite list_lookup_insert_eq by done. eexists. split; [done|].
  cbn. by rewrite length_insert.
Qed.

(** Groups of more than three servers cannot be made: the table of the ends
    to the controllers has three places. *)
Lemma skv_make_config_limit k unreliable maxraft ch time (cfg : @skv_config C) :
  (3 < k)%nat -> skv_make_config k unreliable maxraft ch time <> Ret cfg.
Proof.
  intros Hk Hm. unfold skv_make_config in Hm. apply bind_ret_inv in Hm as (cfg1 & H1 & Hm).
  assert (nctrlers cfg1 = 3%nat) as Hnc.
  { revert H1. apply (for_each_preserves _ (fun _ (c : @skv_config C) => nctrlers c = 3%nat)); [|done].
    intros pre i post c c' _ Hc (rn & _ & Hs)%bind_ret_inv. apply bind_ret_inv in Hs as ([x rf] & _ & Hs).
    by apply bind_ret_inv in Hs as (xs & _ & [= <-]). }
  apply bind_ret_inv in Hm as ([cfg2 ck] & Hck & Hm). apply bind_ret_inv in Hck as (rn & _ & [= <- <-]).
  apply bind_ret_inv in Hm as (cfg3 & Hm & _). cbn [ngroups] in Hm.
  change (upto 3) with (Z.of_nat 0 :: drop 1 (upto 3)) in Hm. cbn [for_each] in Hm.
  apply bind_ret_inv in Hm as (cfg4 & Hm & _). cbn [groups k_n with_groups app nctrlers with_net] in Hm. rewrite Hnc in Hm.
  revert Hm. apply (for_each_stuck _ (no_place 0 3) _ _ _ (Z.of_nat 3)).
  - apply in_upto. by exists 3%nat.
  - intros y c c' Hn Hs. by eapply (no_place_step 0), Hs.
  - intros c c' (gg & Hg & Hlen) Hs. pose proof (skv_StartServer_ok 0 3 _ _ _ gg c c' Hg Hs) as Hok.
    destruct Hok as (? & ? & ? & ? & ? & ? & _ & _ & _ & Hlt & _). lia.
  - exists (new_group 0 k 3). done.
Qed.

(** Clerks cannot be made when there are fewer servers in a group than
    controllers. *)
Lemma skv_makeClient_limit names (cfg cfg' : @skv_config C) ck :
  (k_n cfg < nctrlers cfg)%nat -> skv_makeClient names cfg <> Ret (cfg', ck).
Proof.
  intros Hlt Hm. apply bind_ret_inv in Hm as ([es rn] & Hm & _). revert Hm.
  apply (for_each_stuck _ (fun s => length s.1 = k_n cfg) _ _ _ (Z.of_nat (k_n cfg))).
  - apply in_upto. eauto.
  - intros y [s1 r1] [s2 r2] Hs Hb. apply bind_ret_inv in Hb as (e & _ & Hb). apply bind_ret_inv in Hb as (s3 & H3 & Hb).
    apply bind_ret_inv in Hb as (r3 & _ & [= <- <-]). apply idx_set_ret in H3 as [_ ->]. cbn in *. by rewrite length_insert.
  - intros [s1 r1] [s2 r2] Hs Hb. apply bind_ret_inv in Hb as (e & _ & Hb). apply bind_ret_inv in Hb as (s3 & H3 & _).
    apply idx_set_ret in H3 as [H3 _]. cbn in Hs. lia.
  - cbn. apply length_replicate.
Qed.
End limits.

(** ** Witnesses *)

Module ShardkvDemo.
(** Distinct names: a kind, and the numbers of the two servers. *)
Definition nm (k : string) (a b c : Z) : string := (k +:+ pretty a +:+ "." +:+ pretty b +:+ "." +:+ pretty c)%string.
Definition row (k : string) (a b : Z) : list string := nm k a b <$> upto 3.
Definition ch : choices := mkChoices (row "c" 0) (row "m" 0 0) (row "g") (row "h") 300.
Abbreviation made := (skv_make_config (C := option Z) 3 false (-1) ch 0).
Abbreviation kconfig := (@skv_config (option Z)).
Definition nothing : kconfig := mkSkvConfig MakeNetwork ∅ (mkPeers ∅ 0 []) 1%positive false 0 0 [] [] 0 0 [] ∅ 0 0.
Definition get (o : outcome kconfig) : kconfig := match o with Ret c => c | _ => nothing end.
Definition isret (o : outcome kconfig) : bool := match o with Ret _ => true | _ => false end.
Lemma isret_get_skv o : isret o = true -> o = Ret (get o).
Proof. by destruct o. Qed.
Definition on_peer (a : addr) (f : Raft (option Z) -> Raft (option Z)) (cfg : kconfig) : kconfig :=
  with_peers (mkPeers (alter f a (objs (k_peers cfg))) (clock (k_peers cfg)) (spawned (k_peers cfg))) cfg.
Lemma on_peer_groups a f cfg : groups (on_peer a f cfg) = groups cfg.
Proof. reflexivity. Qed.
Definition no_group : group := mkGroup 0 [] [] [] [].
Definition gg1 : group := default no_group (groups (get made) !! 1%nat).
Definition the_addr : addr := match g_saved gg1 !! 2%nat with Some (Some (Live a)) => a | _ => 1%positive end.
Definition vote (rf : Raft (option Z)) : Raft (option Z) := persist (set_vote (set_currentTerm rf 3) 1 3).
Definition late (rf : Raft (option Z)) : Raft (option Z) := persist (set_currentTerm rf 9).
Definition cfg1 := on_peer the_addr vote (get made).
Abbreviation stopped := (skv_ShutdownServer 1 2 cfg1).
Definition cfg2 := on_peer the_addr late (get stopped).
Abbreviation again := (skv_StartServer 1 2 (row "x" 1 2) (row "y" 1 2) 300 cfg2).
Definition peer12 : Raft (option Z) := default (Demo.peer 0) (objs (k_peers cfg1) !! the_addr).

Lemma gg1_is : groups cfg1 !! 1%nat = Some gg1.
Proof.
  unfold cfg1, gg1. rewrite on_peer_groups.
  assert (bool_decide (is_Some (groups (get made) !! 1%nat)) = true) as Hb by (vm_cast_no_check (eq_refl true)).
  apply bool_decide_eq_true_1 in Hb as [g Hg]. rewrite Hg. reflexivity.
Qed.
Lemma peer12_is : objs (k_peers cfg1) !! the_addr = Some peer12.
Proof.
  assert (bool_decide (is_Some (objs (k_peers cfg1) !! the_addr)) = true) as Hb by (vm_cast_no_check (eq_refl true)).
  apply bool_decide_eq_true_1 in Hb as [rf Hrf]. unfold peer12. rewrite Hrf. reflexivity.
Qed.
End ShardkvDemo.
Import ShardkvDemo.

Lemma skv_restart_recovers_witness :
  exists gg x rf, groups (get again) !! 1%nat = Some gg /\ g_servers gg !! 2%nat = Some (Some x) /\
    objs (k_peers (get again)) !! skv_rf x = Some rf /\ durable_of rf = durable_of peer12 /\ currentTerm peer12 = 3.
Proof.
  destruct (skv_restart_recovers 1 2 (row "x" 1 2) (row "y" 1 2) 300 gg1 cfg1 (get stopped) cfg2 (get again) the_addr peer12)
    as (_ & _ & (gg & x & rf & H1 & H2 & H3 & H4 & _) & _).
  - exact gg1_is.
  - vm_cast_no_check (eq_refl (Some (Some (Live the_addr)))).
  - exact peer12_is.
  - vm_compute. reflexivity.
  - apply isret_get_skv. vm_cast_no_check (eq_refl true).
  - unfold cfg2. rewrite on_peer_groups. reflexivity.
  - apply isret_get_skv. vm_cast_no_check (eq_refl true).
  - exists gg, x, rf. split; [exact H1|]. split; [exact H2|]. split; [exact H3|]. split; [exact H4|]. vm_cast_no_check (eq_refl 3).
Defined.

(** ** The services without their handlers

    The handlers of the controllers have empty bodies, so the reply that a
    clerk decodes is the zero value or the call fails. *)

Section skeleton.
Context {E : Type} `{!CtrlCalls E} `{!KvCalls E}.
Hypothesis empty_Query : forall k srv args r, call_Query k srv args = Some r -> r = mkQueryReply false EmptyString zero_config.

Lemma try_each_query (servers : list E) num k :
  match try_each (fun k srv => call_Query k srv (mkQueryArgs num)) query_ok servers k with
  | (_, Some r) => q_Config r = zero_config
  | (_, None) => True
  end.
Proof.
  revert k. induction servers as [|srv servers IH]; intros k; cbn [try_each]; [done|].
  destruct (call_Query k srv (mkQueryArgs num)) as [r|] eqn:Ec; [|apply IH]. apply empty_Query in Ec. by subst r.
Qed.

Lemma skeleton_Query servers num fuel k c k' : Query servers num fuel k = Ret (c, k') -> c = zero_config.
Proof.
  intros ([r k2] & Hr & [= <- _])%bind_ret_inv. revert k Hr. induction fuel as [|fuel IH]; intros k; cbn [retry]; [done|].
  pose proof (try_each_query servers num k) as Ht. destruct (try_each _ _ servers k) as [k1 [r1|]]; [|by apply IH].
  by intros [= <- _].
Qed.

Lemma zero_config_shard key : idx (Shards zero_config) (key2shard key) = Ret 0.
Proof.
  unfold key2shard, NShards. set (z := match key with EmptyString => 0 | String c _ => _ end).
  assert (0 <= z mod 10 < 10) by (apply Z.mod_pos_bound; lia). apply idx_ret. split; [lia|].
  unfold zero_config. cbn [Shards]. apply lookup_replicate. split; [done|]. unfold NShards. lia.
Qed.

(** A clerk of the sharded store asks for the configuration for ever. *)
Lemma skeleton_Get_waits key fuel (ck : Clerk) k r :
  Clerks.config ck = zero_config -> Get key fuel ck k <> Ret r.
Proof.
  intros Hc Hr. apply bind_ret_inv in Hr as ([[rep ck'] k'] & Hr & _). revert ck k Hc Hr.
  induction fuel as [|fuel IH]; intros ck k Hc; cbn [serve]; [done|]. rewrite Hc, zero_config_shard. cbn [mbind outcome_bind].
  change (Groups zero_config !! 0) with (@None (list string)). cbn [mbind outcome_bind].
  intros ([c k1] & Hq%skeleton_Query & Hs)%bind_ret_inv. subst c. by eapply IH, Hs.
Qed.
End skeleton.
